(* ===== verification/_CoqProject ===== *)
-Q . S2P
Prelude.v
Store.v
Util.v
Config.v
Os.v
Sockets.v
Logging.v
Bst.v
Vec.v
Trie.v
Pack.v
Db.v
Protocol.v
Network.v
Peer.v
Lists.v
Hashtable.v
Cluster.v
Server.v
Commands.v
Expire.v
Prefix.v
Worker.v
Loop.v
Accept.v
Events.v
Batch.v
Refine.v
System.v
Reference.v
Race.v
Spin.v
Stop.v
Shutdown.v
Main.v
Start.v
Boot.v
