(* ===== verification/Prelude.v ===== *)
(** * TrieDB: a verification development

    TrieDB is a key-value server in C.  Its clients send packets over TCP
    connections; an I/O thread reads and unpacks them, worker threads run the
    handler of the operation code on the client's database, the I/O thread writes
    the reply, and a timer removes keys whose time to live is over.  A database is a
    trie whose nodes keep their children in a binary search tree.

    ** Files

    Each file models the C file of the same purpose: its structures as records or
    inductive types, one definition per function with the name of the function,
    loops as recursive functions named after it.
    - Prelude: faults, machine integers, arrays and buffers, shared lemmas, tactics.
    - Store: the interface [KVStore] of a key-value structure and what follows from it for
      any implementation; the trie is an instance.
    - Util (util.c): integer strings, STREQ, the accounting allocator.
    - Config (config.c): defaults, the configuration file, sizes and times with units.
    - Os: the descriptors, interest lists and eventfds of the kernel.
    - Sockets (the rest of network.c): sockets, registration with epoll, the timer.
    - Logging (t_log of util.c, config_print of config.c): messages and the log.
    - Bst (bst.c), Vec (vector.c), Trie (trie.c), Lists (list.c), Hashtable
      (hashtable.c): the data structures.
    - Pack (pack.c): byte strings, the variadic pack and unpack.
    - Db (db.c): databases of items with a time to live.
    - Protocol (protocol.c): remaining length, requests, responses.
    - Network (network.c; recv_packet and read_data of server.c): packets on sockets.
    - Peer (unpack_triedb_response of protocol.c, read_packet of server.c): packets of
      other nodes.
    - Cluster (cluster.c): the hash ring.
    - Server (server.c): the handlers, expire_keys, the initialisation; the databases,
      and the items that the expiring keys point to, form a heap.
    - Commands: the handlers against a map from keys to items.
    - Expire: times to live, the expiring keys and their invariant.
    - Prefix: GET on a prefix.
    - Worker (io_worker, worker and the handlers table of server.c): the event loops as
      a transition system over the connections.
    - Loop (accept_loop, io_worker and worker of server.c): the loops over epoll, with the
      tests on an event, one-shot entries, eventfds and the io_events that are passed by
      address; the relation to the phases of Worker.
    - Accept: the set-up of the loops by start_server and new connections.
    - Events: each event of the loops is a step of the transition system of Worker.
    - Batch (epoll_wait in io_worker and worker): events that are taken in batches and
      dispatched later, by any number of threads.
    - Refine: the transition system of Worker against its specification, a map.
    - System: new connections and the batches of both pools, interleaved.
    - Reference: a deterministic machine for what the clients see, and that the system of
      System does what it does, step by step.
    - Race: PUT, GET and DEL by several workers, cut where the spin lock is released.
    - Spin: all that a worker runs, with the calls of the spin lock and every access to the
      shared state as a step of its own.
    - Stop (sigint_handler of triedb.c, the branches for conf->run): how the threads end.
    - Shutdown (hashtable_destroy, the destructors and the end of start_server): what is
      released when the server stops.
    - Main (triedb.c): the command line.
    - Start (start_server of server.c): the ring, the port of the bus and the join
      datagram of a node that starts.
    - Boot (start_server of server.c): the set-up as a whole, and the server from its start on.

    ** Conventions

    A [w]-bit integer is a [Z]; wrap-around is written out ([u8] ... [u64], [s8] ...
    [s64]), and signed overflow is the fault [SignedOverflow] ([int_chk]).  Behaviour
    that C does not define, and a failing [assert], is a value of [fault] in the error
    monad [res]; so a statement "... = Ok ..." also says that none occurs.  Memory that
    is shared is a finite map from addresses (the nodes of Lists, the databases and items
    of Server, the clients of Worker, the io_events of Loop); other objects are values.  Blocks have
    their exact size, so that stores out of bounds show; the contents of new memory are a parameter
    ([junk]), as are new addresses, times, and what arrives on a socket.

    ** What the theorems show

    - Data structures: the trie and the databases refine finite maps for all sequences
      of operations ([trie_refines_map], [database_refines_map]); prefix search, count and
      deletion; search trees, arrays, lists and hash table; the table-driven CRC equals the
      bitwise one ([crc32_correct]).
    - Encodings: lengths and packed values are read back as they were written
      ([length_roundtrip], [pack_unpack_roundtrip]); responses byte for byte, with the size
      from which they leave their block; the configuration file.
    - Requests: what is read from a socket in any pieces ([read_data_put]), and the packets
      that are not read as they were sent ([recv_packet_displaced], [read_data_get_stale],
      [pipelined_request_damaged]);
      listening sockets ([make_listen_correct]).
    - Commands: the handlers refine a map, with the bytes of their replies
      ([commands_refine_map], [get_prefix_correct]).
    - Expiration: TTL ([ttl_handler_correct]), one run of the timer
      ([expire_keys_every_other]), that the keys with a due entry go after finitely many runs
      ([expire_keys_eventually]), the invariant that makes the runs safe for the servers
      that are reachable by PUT and DEL of keys without an entry, TTL and the timer
      ([reachable_expiration_safe]), and what happens after PUT and DEL of such a key
      ([put_keeps_deadline], [del_leaves_dangling]).
    - The server: started by start_server, standalone or in a cluster, for every order of
      new connections, batches of events and dispatch the bytes on the wires are those of a
      machine with a finite map, which is a function of what happens outside
      ([server_correct], composed of [start_server_ready] and [system_refines_reference], which
      uses [act_batched] for the loops and [server_refines_map] for the handlers); events are well typed whatever the
      clients send ([worker_events_typed]); disconnection, unsupported and refused packets; what is
      released at the end ([shutdown_releases]).
    - The loops: whatever the epoll instances report, in batches and in any order of
      dispatch, the loops do the steps of that transition system
      ([schedules_refine_server], for single events [loops_refine_server]), and everything
      that a connection waits for can be reported ([phases_reported]); the relation holds at the start
      ([start_loops_refines]) and new connections keep it ([accept_loop_correct]).  So the
      theorems on runs of the server are theorems on the loops, but for a worker that
      is overtaken ([event_release_race]) and events with errors
      ([error_event_keeps_connection]).
    - Threads: the spin lock excludes and nothing shared is changed outside of it
      ([mutual_exclusion]), a thread alone does what its handler does ([task_alone]), PUT and
      GET of several workers are linearizable ([workers_linearizable], on top of
      [put_get_linearizable] for critical sections), GET against DEL is not safe
      ([get_del_race]) and DEL loses counts ([keyspace_lost_update]); a signal ends all
      threads when its pauses are long enough ([sigint_stops]), and need not without them
      ([sigint_without_pause]).
    - Start and cluster: the command line ([main_joins_always], [main_quiet]), the log
      ([config_print_correct]), the ring and the datagram of a node that joins
      ([start_cluster_joins]), and what becomes of packets of other nodes
      ([read_packet_confused], [unpack_response_cases]).

    ** Bounds and fuel

    Recursion that is not structural has a fuel argument, and each theorem gives an
    amount that is enough: the number of bytes to read, of entries of a vector, five
    rounds for a remaining length.  [OutOfFuel] is no outcome of the code, and the
    theorems with "Ok" or another fault exclude it.  Only hashtable_put, which need not
    terminate, has fuel as a parameter.  Sizes are bounded where the code's types bound
    them: 2^29 elements of a vector, paths of 31 characters for the buffer of a prefix
    search, 127 bytes of a packet's body.

    ** Not modelled

    Interleavings of the steps within one operation on a trie or a vector, and memory orders
    weaker than sequential consistency; Spin and the loops (Batch, System) together: there a
    handler runs as a whole; a failing epoll_wait; a read that fails in the middle of a
    packet in the relation of Loop to Worker; events in the time between the start of the
    pools and that of [accept_loop]; failing allocation; log_cluster_ring (not called).
    getopt, random identifiers, the time, the address of new memory, the numbers of new
    descriptors and what system calls answer are parameters. *)

From stdpp Require Export base list gmap numbers option sorting strings.
From Stdlib Require Export ZArith Lia.

#[global] Open Scope Z_scope.

(** ** Outcomes of a C computation

    A C function either returns, or runs into behaviour that the language does
    not define (or into a failing [assert]).  Every definition that can do the
    latter returns a [res]; the constructors of [fault] say which kind. *)

Inductive fault : Type :=
| NullDeref       (* a null pointer is dereferenced *)
| OutOfBounds     (* an access outside of the allocated block *)
| UseAfterFree    (* a pointer to a released block is used *)
| SignedOverflow  (* the result of an [int] operation is not an [int] *)
| AssertFailed    (* [assert] fails *)
| BadArgument     (* variadic arguments do not fit the format, or a union member was not written *)
| Uninit          (* an object is used that was never given a value *)
| OutOfFuel.      (* not a C outcome: the model's loop bound was too small *)

Inductive res (A : Type) : Type :=
| Ok (a : A)
| Err (f : fault).
Arguments Ok {A} a.
Arguments Err {A} f.

#[export] Instance fault_eq_dec : EqDecision fault.
Proof. solve_decision. Defined.
#[export] Instance res_eq_dec `{EqDecision A} : EqDecision (res A).
Proof. solve_decision. Defined.

#[export] Instance res_ret : MRet res := λ A a, Ok a.
#[export] Instance res_bind : MBind res := λ A B k m,
  match m with Ok a => k a | Err f => Err f end.
#[export] Instance res_fmap : FMap res := λ A B g m,
  match m with Ok a => Ok (g a) | Err f => Err f end.

(** A pointer that must not be null. *)
Definition deref {A} (o : option A) : res A :=
  match o with Some a => Ok a | None => Err NullDeref end.

(** [assert(b)]. *)
Definition cassert (b : bool) : res unit :=
  if b then Ok tt else Err AssertFailed.

(** ** Machine integers

    A value of an integer type is a [Z]; the conversions below are the
    wrap-around of the unsigned types, the conversion to a signed type that the
    supported compilers implement, and the checked signed operations. *)

Definition u8 (z : Z) : Z := z mod 2 ^ 8.
Definition u16 (z : Z) : Z := z mod 2 ^ 16.
Definition u32 (z : Z) : Z := z mod 2 ^ 32.
Definition u64 (z : Z) : Z := z mod 2 ^ 64.

Definition s8 (z : Z) : Z := (z + 2 ^ 7) mod 2 ^ 8 - 2 ^ 7.
Definition s16 (z : Z) : Z := (z + 2 ^ 15) mod 2 ^ 16 - 2 ^ 15.
Definition s32 (z : Z) : Z := (z + 2 ^ 31) mod 2 ^ 32 - 2 ^ 31.
Definition s64 (z : Z) : Z := (z + 2 ^ 63) mod 2 ^ 64 - 2 ^ 63.

Definition INT_MAX : Z := 2147483647.
Definition INT_MIN : Z := -2147483648.

(** The result of an [int] operation: defined only when it is an [int]. *)
Definition int_chk (z : Z) : res Z :=
  if (INT_MIN <=? z) && (z <=? INT_MAX) then Ok z else Err SignedOverflow.

(** ** Bytes and C strings

    A byte is a [Z] between 0 and 255.  A C string is represented by the list
    of its characters, none of which is the terminating NUL. *)

Definition is_byte (b : Z) : Prop := 0 <= b < 256.
Definition is_char (b : Z) : Prop := 1 <= b < 256.
Definition bytes (s : list Z) : Prop := Forall is_byte s.
Definition cstr (s : list Z) : Prop := Forall is_char s.

#[export] Instance is_byte_dec b : Decision (is_byte b).
Proof. unfold is_byte. apply _. Defined.
#[export] Instance is_char_dec b : Decision (is_char b).
Proof. unfold is_char. apply _. Defined.
#[export] Instance bytes_dec s : Decision (bytes s).
Proof. unfold bytes. apply _. Defined.
#[export] Instance cstr_dec s : Decision (cstr s).
Proof. unfold cstr. apply _. Defined.

(** A string literal of the program. *)
Definition str (s : string) : list Z :=
  (λ a, Z.of_N (Ascii.N_of_ascii a)) <$> String.list_ascii_of_string s.

(** [strlen]. *)
Definition strlen (s : list Z) : Z := Z.of_nat (length s).

(** ** Arrays

    Reading and writing an array at an [int] or [size_t] index; an index
    outside of the array is a fault. *)

Definition aget {A} (l : list A) (i : Z) : res A :=
  if i <? 0 then Err OutOfBounds
  else match l !! Z.to_nat i with Some a => Ok a | None => Err OutOfBounds end.

Definition aset {A} (l : list A) (i : Z) (a : A) : res (list A) :=
  if (0 <=? i) && (i <? Z.of_nat (length l)) then Ok (<[Z.to_nat i := a]> l)
  else Err OutOfBounds.

(** [*p++ = b] for each byte in turn. *)
Fixpoint stores (l : list Z) (i : Z) (bs : list Z) : res (list Z) :=
  match bs with
  | [] => Ok l
  | b :: bs => l' ← aset l i b; stores l' (i + 1) bs
  end.

(** Reading [n] consecutive bytes, as [memcpy] does. *)
Fixpoint loads (l : list Z) (i : Z) (n : nat) : res (list Z) :=
  match n with
  | O => Ok []
  | S n => b ← aget l i; bs ← loads l (i + 1) n; mret (b :: bs)
  end.

(** ** Comparison functions

    What the sorting routines of vector.c and list.c require of the function
    that they are given: a total preorder. *)

Class TotalPreorder {A} (le : A → A → bool) : Prop := {
  tp_refl a : le a a = true;
  tp_trans a b c : le a b = true → le b c = true → le a c = true;
  tp_total a b : le a b = true ∨ le b a = true
}.

(** Sorted for a comparison function. *)
Abbreviation sorted_by le := (StronglySorted (λ a b, le a b = true)).

(** ** Hint databases *)

Create HintDb triedb discriminated.
#[export] Hint Constants Opaque : triedb.
#[export] Hint Variables Opaque : triedb.
Create HintDb cint.

(** ** Tactics *)

(** Simplifies the control flow of [res]: substitutes the value of a
    computation known to return, and splits a hypothesis
    [bind m k = Ok r]. *)
Ltac res_step :=
  match goal with
  | H : Ok _ = Ok _ |- _ => injection H as H; try subst
  | H : Ok _ = Err _ |- _ => discriminate H
  | H : Err _ = Ok _ |- _ => discriminate H
  | H : Err _ = Err _ |- _ => injection H as H; try subst
  | H : mret _ = _ |- _ => unfold mret, res_ret in H
  | H : mbind ?k (Ok _) = _ |- _ => cbn [mbind res_bind] in H
  | H : mbind ?k (Err _) = _ |- _ => cbn [mbind res_bind] in H
  | H : mbind ?k ?m = Ok _ |- _ =>
      let E := fresh "E" in
      destruct m eqn:E; cbn [mbind res_bind] in H; [ | discriminate H ]
  | H : ?m = Ok _ |- context [mbind _ ?m] => rewrite H; cbn [mbind res_bind]
  end.
Ltac res_simpl := repeat res_step.

(** Case analysis on the condition of the first [if] of the goal, with the
    boolean comparison turned into a proposition. *)
Ltac case_if :=
  match goal with
  | |- context [if ?b then _ else _] => let E := fresh "E" in destruct b eqn:E
  | |- context [match ?b with true => _ | false => _ end] =>
      let E := fresh "E" in destruct b eqn:E
  end.

Ltac zbool :=
  repeat match goal with
  | H : _ && _ = true |- _ => apply andb_true_iff in H as [? ?]
  | H : _ || _ = false |- _ => apply orb_false_iff in H as [? ?]
  | H : negb _ = true |- _ => apply negb_true_iff in H
  | H : negb _ = false |- _ => apply negb_false_iff in H
  | H : (_ <? _) = true |- _ => apply Z.ltb_lt in H
  | H : (_ <? _) = false |- _ => apply Z.ltb_ge in H
  | H : (_ <=? _) = true |- _ => apply Z.leb_le in H
  | H : (_ <=? _) = false |- _ => apply Z.leb_gt in H
  | H : (_ =? _) = true |- _ => apply Z.eqb_eq in H
  | H : (_ =? _) = false |- _ => apply Z.eqb_neq in H
  | H : (_ >? _) = _ |- _ => rewrite Z.gtb_ltb in H
  | H : (_ >=? _) = _ |- _ => rewrite Z.geb_leb in H
  end.

(** Linear arithmetic with divisions and remainders by constants. *)
Ltac zdiv_lia := Z.to_euclidean_division_equations; lia.

(** ** Generic lemmas *)

Section res_lemmas.
Context {A B C : Type}.

Lemma res_bind_Ok (m : res A) (k : A → res B) (b : B) :
  m ≫= k = Ok b ↔ ∃ a, m = Ok a ∧ k a = Ok b.
Proof. destruct m; cbn; naive_solver. Qed.

Lemma res_bind_assoc (m : res A) (k : A → res B) (g : B → res C) :
  (m ≫= k) ≫= g = m ≫= (λ a, k a ≫= g).
Proof. by destruct m. Qed.

Lemma res_bind_eq (m : res A) (k : A → res B) (a : A) (r : res B) :
  m = Ok a → k a = r → m ≫= k = r.
Proof. by intros -> <-. Qed.

Lemma res_bind_Ok_l (a : A) (k : A → res B) : Ok a ≫= k = k a.
Proof. done. Qed.

Lemma res_bind_mret_l (a : A) (k : A → res B) : mret a ≫= k = k a.
Proof. done. Qed.

Lemma res_bind_ret (m : res A) : m ≫= mret = m.
Proof. by destruct m. Qed.
End res_lemmas.

Section int_lemmas.
Lemma int_chk_Ok z : INT_MIN <= z <= INT_MAX → int_chk z = Ok z.
Proof.
  intros [??]. unfold int_chk.
  rewrite (proj2 (Z.leb_le _ _)), (proj2 (Z.leb_le _ _)); auto.
Qed.

Lemma int_chk_inv z r : int_chk z = Ok r → r = z ∧ INT_MIN <= z <= INT_MAX.
Proof. unfold int_chk. case_if; intros; res_simpl; zbool; auto. Qed.

Lemma int_chk_cases z :
  int_chk z = Ok z ∧ INT_MIN <= z <= INT_MAX ∨ int_chk z = Err SignedOverflow.
Proof.
  unfold int_chk. destruct (INT_MIN <=? z) eqn:E1, (z <=? INT_MAX) eqn:E2; cbn;
    zbool; auto.
Qed.

Lemma int_chk_over z : INT_MAX < z → int_chk z = Err SignedOverflow.
Proof. intros. destruct (int_chk_cases z) as [[_ ?]| ->]; [lia|done]. Qed.

Lemma u8_small z : is_byte z → u8 z = z.
Proof. unfold is_byte, u8. intros. apply Z.mod_small. lia. Qed.

Lemma u16_small z : 0 <= z < 65536 → u16 z = z.
Proof. unfold u16. intros. apply Z.mod_small. lia. Qed.

Lemma u32_small z : 0 <= z < 2 ^ 32 → u32 z = z.
Proof. unfold u32. intros. by apply Z.mod_small. Qed.

Lemma u64_small z : 0 <= z < 2 ^ 64 → u64 z = z.
Proof. unfold u64. intros. by apply Z.mod_small. Qed.

Lemma u64_bound z : 0 <= u64 z < 2 ^ 64.
Proof. unfold u64. apply Z.mod_pos_bound. lia. Qed.

Lemma s16_bound z : - 2 ^ 15 <= s16 z < 2 ^ 15.
Proof. unfold s16. pose proof (Z.mod_pos_bound (z + 2 ^ 15) (2 ^ 16)). lia. Qed.

Lemma u8_bound z : is_byte (u8 z).
Proof. unfold u8, is_byte. apply Z.mod_pos_bound. lia. Qed.

Lemma u64_add_idemp_l a b : u64 (u64 a + b) = u64 (a + b).
Proof. unfold u64. apply Zplus_mod_idemp_l. Qed.

Lemma u64_sub_idemp_l a b : u64 (u64 a - b) = u64 (a - b).
Proof. unfold u64. apply Zminus_mod_idemp_l. Qed.

Lemma s32_small z : INT_MIN <= z <= INT_MAX → s32 z = z.
Proof.
  unfold s32, INT_MIN, INT_MAX. intros. rewrite Z.mod_small by lia. lia.
Qed.
End int_lemmas.

Section byte_lemmas.
Lemma cstr_bytes s : cstr s → bytes s.
Proof.
  intros H. eapply Forall_impl; [exact H|]. unfold is_char, is_byte. lia.
Qed.

Lemma cstr_app s t : cstr (s ++ t) ↔ cstr s ∧ cstr t.
Proof. apply Forall_app. Qed.

Lemma cstr_cons c s : cstr (c :: s) ↔ is_char c ∧ cstr s.
Proof. apply Forall_cons. Qed.

Lemma cstr_nil : cstr [].
Proof. constructor. Qed.

Lemma bytes_app s t : bytes (s ++ t) ↔ bytes s ∧ bytes t.
Proof. apply Forall_app. Qed.

Lemma strlen_nonneg s : 0 <= strlen s.
Proof. unfold strlen. lia. Qed.

Lemma strlen_app s t : strlen (s ++ t) = strlen s + strlen t.
Proof. unfold strlen. rewrite length_app. lia. Qed.
End byte_lemmas.

Section array_lemmas.
Context {A : Type}.
Implicit Types (l : list A) (a : A).

Lemma aget_lookup l i a : 0 <= i → l !! Z.to_nat i = Some a → aget l i = Ok a.
Proof.
  intros Hi Hl. unfold aget. rewrite Hl. case_if; zbool; [lia|done].
Qed.

Lemma aget_middle l1 a l2 i : i = Z.of_nat (length l1) → aget (l1 ++ a :: l2) i = Ok a.
Proof.
  intros ->. apply aget_lookup; [lia|]. rewrite Nat2Z.id.
  by apply list_lookup_middle.
Qed.

Lemma aset_lt l i a :
  0 <= i < Z.of_nat (length l) → aset l i a = Ok (<[Z.to_nat i := a]> l).
Proof.
  intros. unfold aset. case_if; [done|].
  apply andb_false_iff in E as [?|?]; zbool; lia.
Qed.

Lemma aset_middle l1 a b l2 i :
  i = Z.of_nat (length l1) → aset (l1 ++ a :: l2) i b = Ok (l1 ++ b :: l2).
Proof.
  intros ->. rewrite aset_lt by (rewrite length_app; cbn; lia).
  rewrite Nat2Z.id. f_equal. rewrite insert_app_r_alt by lia.
  by rewrite Nat.sub_diag.
Qed.

Lemma aset_inv l i a l' :
  aset l i a = Ok l' → 0 <= i < Z.of_nat (length l) ∧ l' = <[Z.to_nat i := a]> l.
Proof. unfold aset. case_if; intros; res_simpl; zbool; auto with lia. Qed.

Lemma aget_aset l i a l' i' :
  aset l i a = Ok l' → aget l' i' = if decide (i' = i) then Ok a else aget l i'.
Proof.
  intros [Hi ->]%aset_inv. unfold aget. case_decide as E.
  - subst i'. rewrite list_lookup_insert_eq by lia. case_if; zbool; [lia|done].
  - case_if; zbool; [done|]. by rewrite list_lookup_insert_ne by lia.
Qed.

Lemma aget_lt l i a : aget l i = Ok a → 0 <= i < Z.of_nat (length l).
Proof.
  unfold aget. case_if; [done|]. zbool. destruct (l !! Z.to_nat i) eqn:El; [|done].
  apply lookup_lt_Some in El. lia.
Qed.
End array_lemmas.

(** [l] with the bytes from [i] on replaced by [bs]. *)
Definition splice {A} (l : list A) (i : nat) (bs : list A) : list A :=
  take i l ++ bs ++ drop (i + length bs) l.

Section buffer_lemmas.
Implicit Types l bs : list Z.

Lemma splice_length l i bs :
  (i + length bs <= length l)%nat → length (splice l i bs) = length l.
Proof. intros. unfold splice. rewrite !length_app, length_take, length_drop. lia. Qed.

Lemma splice_splice l i bs1 bs2 :
  (i + length bs1 + length bs2 <= length l)%nat →
  splice (splice l i bs1) (i + length bs1) bs2 = splice l i (bs1 ++ bs2).
Proof.
  intros H. unfold splice. rewrite length_app.
  assert (length (take i l) = i) as Hi by (rewrite length_take; lia).
  rewrite take_app, drop_app, Hi.
  rewrite (take_ge (take i l)) by lia.
  rewrite (drop_ge (take i l)) by lia. cbn [app].
  replace (i + length bs1 - i)%nat with (length bs1) by lia.
  replace (i + length bs1 + length bs2 - i)%nat with (length bs1 + length bs2)%nat by lia.
  rewrite take_app_length, <-!(assoc_L (++)). do 3 f_equal.
  rewrite drop_app, drop_ge by lia. cbn [app].
  rewrite drop_drop. f_equal. lia.
Qed.

Lemma splice_middle l1 l2 l3 bs :
  length l2 = length bs → splice (l1 ++ l2 ++ l3) (length l1) bs = l1 ++ bs ++ l3.
Proof.
  intros H. unfold splice. rewrite take_app_length. do 2 f_equal.
  by rewrite <-H, <-length_app, (assoc_L (++)), drop_app_length.
Qed.

Lemma stores_spec l i bs :
  0 <= i → stores l i bs =
    if decide (bs = [] ∨ i + Z.of_nat (length bs) <= Z.of_nat (length l))
    then Ok (splice l (Z.to_nat i) bs) else Err OutOfBounds.
Proof.
  revert l i. induction bs as [|b bs IH]; intros l i Hi; cbn [stores].
  { rewrite decide_True by auto. unfold splice. cbn [app length].
    by rewrite Nat.add_0_r, take_drop. }
  unfold aset. case_if; zbool; cbn [mbind res_bind].
  - rewrite IH by lia. rewrite length_insert. cbn [length].
    replace (<[Z.to_nat i:=b]> l) with (splice l (Z.to_nat i) [b])
      by (unfold splice; cbn [length app]; rewrite insert_take_drop by lia;
          do 3 f_equal; lia).
    replace (Z.to_nat (i + 1)) with (Z.to_nat i + length [b])%nat by (cbn; lia).
    repeat case_decide.
    + destruct bs as [|b' bs].
      { f_equal. unfold splice at 1. cbn [length app]. by rewrite Nat.add_0_r, take_drop. }
      rewrite splice_splice; [done|]. cbn [length] in *. naive_solver lia.
    + destruct bs; cbn [length] in *; naive_solver lia.
    + destruct bs; cbn [length] in *; naive_solver lia.
    + done.
  - rewrite decide_False; [done|]. cbn [length]. intros [?|?]; [done|].
    apply andb_false_iff in E as [?|?]; zbool; lia.
Qed.

Lemma stores_app l i bs1 bs2 :
  stores l i (bs1 ++ bs2) =
    (l' ← stores l i bs1; stores l' (i + Z.of_nat (length bs1)) bs2).
Proof.
  revert l i. induction bs1 as [|b bs1 IH]; intros l i; cbn [stores app].
  { cbn [mbind res_bind length]. f_equal. lia. }
  rewrite res_bind_assoc. destruct (aset l i b) as [l'|]; [|done]. cbn [mbind res_bind].
  rewrite IH. destruct (stores l' (i + 1) bs1); [|done]. cbn [mbind res_bind length].
  f_equal. lia.
Qed.

Lemma stores_fits l i bs :
  0 <= i → i + Z.of_nat (length bs) <= Z.of_nat (length l) →
  stores l i bs = Ok (splice l (Z.to_nat i) bs).
Proof. intros. rewrite stores_spec by done. by rewrite decide_True by auto. Qed.

Lemma stores_overflow l i bs :
  0 <= i → bs ≠ [] → Z.of_nat (length l) < i + Z.of_nat (length bs) →
  stores l i bs = Err OutOfBounds.
Proof. intros. rewrite stores_spec by done. rewrite decide_False by naive_solver lia. done. Qed.

Lemma stores_length l i bs l' : stores l i bs = Ok l' → length l' = length l.
Proof.
  revert l i. induction bs as [|b bs IH]; intros l i H; cbn in H; [by injection H as ->|].
  apply res_bind_Ok in H as (l1 & [_ ->]%aset_inv & H). apply IH in H. by rewrite H, length_insert.
Qed.

Lemma loads_middle l1 bs l2 i :
  i = Z.of_nat (length l1) → loads (l1 ++ bs ++ l2) i (length bs) = Ok bs.
Proof.
  intros ->. revert l1. induction bs as [|b bs IH]; intros l1; cbn [loads length app]; [done|].
  rewrite aget_middle by done. cbn [mbind res_bind].
  specialize (IH (l1 ++ [b])). rewrite length_app, <-(assoc_L (++)) in IH. cbn in IH.
  replace (Z.of_nat (length l1) + 1) with (Z.of_nat (length l1 + 1)) by lia.
  by rewrite IH.
Qed.
End buffer_lemmas.

Lemma list_delete_ge {A} (l : list A) (i : nat) :
  (length l <= i)%nat → delete i l = l.
Proof.
  revert i. induction l as [|a l IH]; intros [|i] Hi; cbn in *; try lia; [done..|].
  f_equal. apply IH. lia.
Qed.

Section sorted_lemmas.
Context {A : Type} (R : A → A → Prop).

Lemma StronglySorted_app_intro (l1 l2 : list A) :
  StronglySorted R l1 → StronglySorted R l2 →
  (∀ a b, a ∈ l1 → b ∈ l2 → R a b) → StronglySorted R (l1 ++ l2).
Proof.
  induction 1 as [|a l1 Hs IH Hf]; intros H2 H; cbn; [done|].
  constructor.
  - apply IH; [done|]. intros. apply H; [by constructor|done].
  - apply Forall_app. split; [done|]. apply Forall_forall.
    intros b Hb. apply H; [by constructor|done].
Qed.
End sorted_lemmas.

#[export] Hint Resolve cstr_nil cstr_bytes strlen_nonneg u8_bound : triedb.
#[export] Hint Resolve int_chk_Ok u8_small u16_small u32_small u64_small : cint.
