(* ===== verification/Store.v ===== *)
(** * Key-value stores

    The interface between the key-value structure and the code that uses it:
    what the operations do to the finite map that a store represents.  The trie
    of trie.c is the instance (Trie.v); what follows from the interface alone,
    for any sequence of operations, is proved here. *)

From S2P Require Import Prelude.

Class KVStore (T V : Type) := {
  kv_repr : T → gmap (list Z) V → Prop;
  kv_put : T → list Z → V → res T;
  kv_get : T → list Z → res (option V);
  kv_del : T → list Z → res (T * bool);
  kv_put_spec t m k v :
    kv_repr t m → cstr k → ∃ t', kv_put t k v = Ok t' ∧ kv_repr t' (<[k := v]> m);
  kv_get_spec t m k : kv_repr t m → kv_get t k = Ok (m !! k);
  (** the empty key is never removed *)
  kv_del_spec t m k :
    kv_repr t m →
    ∃ t', kv_del t k = Ok (t', bool_decide (k ≠ [] ∧ is_Some (m !! k))) ∧
      kv_repr t' (if decide (k = []) then m else delete k m)
}.

Section Store.
Context {T V : Type} `{KVStore T V}.

Inductive store_op : Type :=
| SPut (k : list Z) (v : V)
| SGet (k : list Z)
| SDel (k : list Z).

Inductive store_out : Type :=
| OUnit
| OVal (v : option V)
| OBool (b : bool).

Definition op_key (op : store_op) : list Z :=
  match op with SPut k _ | SGet k | SDel k => k end.

Definition store_step (t : T) (op : store_op) : res (T * store_out) :=
  match op with
  | SPut k v => t' ← kv_put t k v; mret (t', OUnit)
  | SGet k => v ← kv_get t k; mret (t, OVal v)
  | SDel k => '(t', b) ← kv_del t k; mret (t', OBool b)
  end.

Fixpoint store_run (t : T) (ops : list store_op) : res (T * list store_out) :=
  match ops with
  | [] => Ok (t, [])
  | op :: ops =>
      '(t1, o) ← store_step t op;
      '(t2, os) ← store_run t1 ops;
      mret (t2, o :: os)
  end.

(** The same on a finite map. *)
Definition map_step (m : gmap (list Z) V) (op : store_op)
  : gmap (list Z) V * store_out :=
  match op with
  | SPut k v => (<[k := v]> m, OUnit)
  | SGet k => (m, OVal (m !! k))
  | SDel k => (if decide (k = []) then m else delete k m,
               OBool (bool_decide (k ≠ [] ∧ is_Some (m !! k))))
  end.

Fixpoint map_run (m : gmap (list Z) V) (ops : list store_op)
  : gmap (list Z) V * list store_out :=
  match ops with
  | [] => (m, [])
  | op :: ops =>
      let '(m1, o) := map_step m op in
      let '(m2, os) := map_run m1 ops in
      (m2, o :: os)
  end.

Lemma store_step_refines t m op :
  kv_repr t m → cstr (op_key op) →
  ∃ t', store_step t op = Ok (t', (map_step m op).2) ∧ kv_repr t' (map_step m op).1.
Proof.
  intros Hr Hk. destruct op as [k v|k|k]; cbn in *.
  - destruct (kv_put_spec t m k v Hr Hk) as (t' & -> & ?). eauto.
  - rewrite (kv_get_spec t m k Hr). eauto.
  - destruct (kv_del_spec t m k Hr) as (t' & -> & ?). eauto.
Qed.

(** A store and a map that start in the same state give the same answers and
    end in the same state. *)
Lemma store_run_refines ops t m :
  kv_repr t m → Forall (λ op, cstr (op_key op)) ops →
  ∃ t', store_run t ops = Ok (t', (map_run m ops).2) ∧ kv_repr t' (map_run m ops).1.
Proof.
  revert t m. induction ops as [|op ops IH]; intros t m Hr Hk; cbn [store_run map_run].
  - eauto.
  - apply Forall_cons in Hk as [Ho Hk].
    destruct (store_step_refines t m op Hr Ho) as (t1 & -> & Hr1).
    destruct (map_step m op) as [m1 o]. cbn in *.
    destruct (IH t1 m1 Hr1 Hk) as (t2 & -> & Hr2).
    destruct (map_run m1 ops) as [m2 os]. cbn in *. eauto.
Qed.
End Store.
Arguments store_op V : clear implicits.
Arguments store_out V : clear implicits.
