(* ===== verification/Util.v ===== *)
(** * Utilities: src/util.c, src/util.h

    Character classes and decimal conversion as the "C" locale has them, the
    integer strings of the INC and DEC commands, and the accounting of
    allocated memory that [tmalloc] and its companions keep. *)

From S2P Require Import Prelude.

(** ** Characters *)

Definition isdigit (c : Z) : bool := (48 <=? c) && (c <=? 57).
Definition isspace (c : Z) : bool := (c =? 32) || ((9 <=? c) && (c <=? 13)).
Definition tolower (c : Z) : Z := if (65 <=? c) && (c <=? 90) then c + 32 else c.

(** [strncasecmp(s1, s2, n) == 0]: the first [n] characters agree up to case,
    or both strings end before. *)
Fixpoint strncaseeq (s1 s2 : list Z) (n : nat) : bool :=
  match n with
  | O => true
  | S n =>
      match s1, s2 with
      | [], [] => true
      | c1 :: s1, c2 :: s2 => (tolower c1 =? tolower c2) && strncaseeq s1 s2 n
      | _, _ => false
      end
  end.

(** The macro [STREQ(s1, s2, len)]. *)
Definition STREQ (s1 s2 : list Z) (len : Z) : bool :=
  strncaseeq s1 s2 (Z.to_nat len).

(** ** Decimal numbers *)

(** The digits that [printf] writes for a non-negative number, most significant
    first; [fuel] bounds their number. *)
Fixpoint digits (fuel : nat) (n : Z) (acc : list Z) : list Z :=
  match fuel with
  | O => acc
  | S fuel =>
      if n <? 10 then (48 + n) :: acc
      else digits fuel (n / 10) ((48 + n mod 10) :: acc)
  end.

(** Twenty digits are enough for every 64-bit number. *)
Definition print_dec (n : Z) : list Z := digits 20 n [].

(** [sprintf(_, "%d", n)] and [sprintf(_, "%ld", n)]. *)
Definition sprintf_d (n : Z) : list Z :=
  if n <? 0 then 45 :: print_dec (- n) else print_dec n.

Fixpoint is_integer (string : list Z) : bool :=
  match string with
  | [] => true
  | c :: string => if isdigit c then is_integer string else false
  end.

(** The loop of [parse_int]; [n] is an [int], its arithmetic is checked. *)
Fixpoint parse_int_loop (n : Z) (string : list Z) : res Z :=
  match string with
  | [] => Ok n
  | c :: string =>
      if isdigit c then
        n10 ← int_chk (n * 10);
        n' ← int_chk (n10 + (c - 48));
        parse_int_loop n' string
      else Ok n
  end.

Definition parse_int (string : list Z) : res Z := parse_int_loop 0 string.

(** [while (number) { len++; number /= 10; }] on a [size_t], which has at most
    twenty digits. *)
Fixpoint number_len_loop (fuel : nat) (number len : Z) : res Z :=
  match fuel with
  | O => Err OutOfFuel
  | S fuel =>
      if number =? 0 then Ok len else number_len_loop fuel (number / 10) (len + 1)
  end.

Definition number_len (number : Z) : res Z := number_len_loop 21 number 1.

(** [tmp] has room for [number_len(n) + 1] characters, [n] being converted to
    [size_t]; [sprintf] also writes the terminating NUL. *)
Definition update_integer_string (str : list Z) (num : Z) : res (list Z) :=
  n ← parse_int str;
  n ← int_chk (n + num);
  len ← number_len (u64 n);
  let tmp := sprintf_d n in
  if strlen tmp + 1 <=? len + 1 then Ok tmp else Err OutOfBounds.

(** ** Memory accounting

    [blocks] maps the address handed out for a live block to the size that its
    hidden header holds; [memory] is the static counter.  The address that
    [malloc] chooses is a parameter of the operations. *)

Definition SIZEOF_SIZE_T : Z := 8.

Record mem := mkMem {
  memory : Z;
  blocks : gmap Z Z
}.

Definition tmalloc (m : mem) (ptr size : Z) : res mem :=
  _ ← cassert (size >? 0);
  mret {| memory := u64 (memory m + (size + SIZEOF_SIZE_T));
          blocks := <[ptr := size]> (blocks m) |}.

(** The header of a block of [len] elements holds the size of one element. *)
Definition tcalloc (m : mem) (ptr len size : Z) : res mem :=
  _ ← cassert ((len >? 0) && (size >? 0));
  mret {| memory := u64 (memory m + len * (size + SIZEOF_SIZE_T));
          blocks := <[ptr := size]> (blocks m) |}.

(** [newptr] is the address after the call; the result is the new state and the
    pointer returned. *)
Definition trealloc (m : mem) (ptr : option Z) (newptr size : Z) : res (mem * Z) :=
  _ ← cassert (size >? 0);
  match ptr with
  | None => m' ← tmalloc m newptr size; mret (m', newptr)
  | Some p =>
      match blocks m !! p with
      | None => Err UseAfterFree
      | Some curr_size =>
          if size =? curr_size then mret (m, p)
          else mret
            ({| memory := u64 (memory m + (- curr_size + size + SIZEOF_SIZE_T));
                blocks := <[newptr := size]> (delete p (blocks m)) |}, newptr)
      end
  end.

(** The test [memory - ptr_size + sizeof(size_t) < 0] is on unsigned numbers. *)
Definition tfree (m : mem) (ptr : option Z) : res mem :=
  match ptr with
  | None => Ok m
  | Some p =>
      match blocks m !! p with
      | None => Err UseAfterFree
      | Some ptr_size =>
          Ok {| memory := if u64 (memory m - ptr_size + SIZEOF_SIZE_T) <? 0 then 0
                          else u64 (memory m - (ptr_size + SIZEOF_SIZE_T));
                blocks := delete p (blocks m) |}
      end
  end.

Definition malloc_size (m : mem) (ptr : option Z) : res Z :=
  match ptr with
  | None => Ok 0
  | Some p => match blocks m !! p with None => Err UseAfterFree | Some n => Ok n end
  end.

(** The copy at [ptr] of a string. *)
Definition tstrdup (m : mem) (ptr : Z) (s : list Z) : res (mem * list Z) :=
  m ← tmalloc m ptr (strlen s + 1);
  mret (m, s).

Definition memory_used (m : mem) : Z := memory m.

(** ** Specification *)

(** The number that a string of digits denotes. *)
Definition dec_from (n : Z) (s : list Z) : Z := foldl (λ n c, n * 10 + (c - 48)) n s.
Definition dec_val (s : list Z) : Z := dec_from 0 s.

(** The bytes of all live blocks, headers included. *)
Definition live_bytes (b : gmap Z Z) : Z :=
  map_fold (λ _ size acc, size + SIZEOF_SIZE_T + acc) 0 b.

(** ** Strings of digits *)

Lemma isdigit_spec c : isdigit c = true ↔ 48 <= c <= 57.
Proof. unfold isdigit. rewrite andb_true_iff, !Z.leb_le. done. Qed.

Lemma is_integer_spec s : is_integer s = true ↔ Forall (λ c, 48 <= c <= 57) s.
Proof.
  induction s as [|c s IH]; cbn; [by split|].
  rewrite Forall_cons, <-IH, <-isdigit_spec. destruct (isdigit c); naive_solver.
Qed.

Lemma dec_from_app n s t : dec_from n (s ++ t) = dec_from (dec_from n s) t.
Proof. unfold dec_from. apply foldl_app. Qed.

Lemma dec_from_mono n s :
  0 <= n → Forall (λ c, 48 <= c <= 57) s → n <= dec_from n s.
Proof.
  revert n. induction s as [|c s IH]; intros n Hn Hs; cbn; [lia|].
  apply Forall_cons in Hs as [Hc Hs]. etrans; [|apply IH; [lia|done]]. lia.
Qed.

Lemma parse_int_loop_val n s :
  0 <= n → Forall (λ c, 48 <= c <= 57) s → dec_from n s <= INT_MAX →
  parse_int_loop n s = Ok (dec_from n s).
Proof.
  revert n. induction s as [|c s IH]; intros n Hn Hs Hmax; cbn; [done|].
  apply Forall_cons in Hs as [Hc Hs].
  rewrite (proj2 (isdigit_spec c)) by done. cbn in Hmax.
  pose proof (dec_from_mono (n * 10 + (c - 48)) s ltac:(lia) Hs) as Hm.
  unfold dec_from in Hm.
  rewrite int_chk_Ok by (unfold INT_MIN; lia). cbn.
  rewrite int_chk_Ok by (unfold INT_MIN; lia). cbn.
  apply IH; [lia|done..].
Qed.

(** A string of digits above the largest [int] makes [parse_int] overflow. *)
Lemma parse_int_loop_overflow n s :
  0 <= n <= INT_MAX → Forall (λ c, 48 <= c <= 57) s → INT_MAX < dec_from n s →
  parse_int_loop n s = Err SignedOverflow.
Proof.
  revert n. induction s as [|c s IH]; intros n Hn Hs Hmax; [cbn in Hmax; lia|].
  apply Forall_cons in Hs as [Hc Hs]. cbn [parse_int_loop].
  rewrite (proj2 (isdigit_spec c)) by done.
  destruct (int_chk_cases (n * 10)) as [[-> H1]| ->]; [|done]. cbn [mbind res_bind].
  destruct (int_chk_cases (n * 10 + (c - 48))) as [[-> H2]| ->]; [|done].
  cbn [mbind res_bind]. apply IH; [lia|done..].
Qed.

Lemma digits_val fuel n acc :
  0 <= n < 10 ^ Z.of_nat fuel →
  dec_val (digits fuel n acc) = dec_from n acc.
Proof.
  revert n acc. induction fuel as [|fuel IH]; intros n acc Hn.
  - cbn. cbn in Hn. by replace n with 0 by lia.
  - cbn [digits]. case_if; zbool.
    + unfold dec_val, dec_from. cbn [foldl]. f_equal. lia.
    + rewrite IH.
      * unfold dec_from. cbn [foldl]. f_equal.
        rewrite (Z.div_mod n 10) at 3 by lia. lia.
      * rewrite Nat2Z.inj_succ, Z.pow_succ_r in Hn by lia. zdiv_lia.
Qed.

Lemma digits_Forall fuel n acc :
  0 <= n → Forall (λ c, 48 <= c <= 57) acc → Forall (λ c, 48 <= c <= 57) (digits fuel n acc).
Proof.
  revert n acc. induction fuel as [|fuel IH]; intros n acc Hn Hacc; cbn [digits]; [done|].
  case_if; zbool.
  - constructor; [lia|done].
  - apply IH; [zdiv_lia|]. constructor; [zdiv_lia|done].
Qed.

Lemma print_dec_val n : 0 <= n < 2 ^ 64 → dec_val (print_dec n) = n.
Proof. intros. unfold print_dec. rewrite digits_val by lia. done. Qed.

Lemma print_dec_Forall n : 0 <= n → Forall (λ c, 48 <= c <= 57) (print_dec n).
Proof. intros. by apply digits_Forall. Qed.

Lemma print_dec_cstr n : 0 <= n → cstr (print_dec n).
Proof.
  intros H. eapply Forall_impl; [by apply print_dec_Forall|].
  unfold is_char. cbn. lia.
Qed.

(** [number_len] counts one more than the digits, for a positive number. *)
Lemma number_len_digits fuel n acc len :
  0 < n < 10 ^ Z.of_nat fuel →
  number_len_loop (S fuel) n len =
    Ok (len + Z.of_nat (length (digits fuel n acc)) - Z.of_nat (length acc)).
Proof.
  revert n acc len. induction fuel as [|fuel IH]; intros n acc len Hn; [cbn in Hn; lia|].
  cbn [digits]. case_if; zbool.
  - cbn [number_len_loop]. repeat case_if; zbool; try lia.
    + rewrite length_cons. f_equal. lia.
    + assert (n / 10 = 0) by zdiv_lia. lia.
  - replace (number_len_loop (S (S fuel)) n len)
      with (number_len_loop (S fuel) (n / 10) (len + 1))
      by (cbn [number_len_loop]; by destruct (Z.eqb_spec n 0); [lia|]).
    rewrite (IH _ ((48 + n mod 10) :: acc)).
    + rewrite length_cons. f_equal. lia.
    + rewrite Nat2Z.inj_succ, Z.pow_succ_r in Hn by lia. zdiv_lia.
Qed.

Lemma number_len_spec n :
  0 <= n < 2 ^ 64 →
  number_len n = Ok (if n =? 0 then 1 else strlen (print_dec n) + 1).
Proof.
  intros Hn. case_if; zbool; [by subst|].
  unfold number_len, print_dec, strlen.
  rewrite (number_len_digits 20 n []) by lia. f_equal. cbn [length]. lia.
Qed.

Lemma digits_length_le fuel n acc :
  (length (digits fuel n acc) <= fuel + length acc)%nat.
Proof.
  revert n acc. induction fuel as [|fuel IH]; intros n acc; cbn [digits]; [lia|].
  case_if; cbn [length]; [lia|]. specialize (IH (n / 10) ((48 + n mod 10) :: acc)).
  cbn [length] in IH. lia.
Qed.

Lemma digits_length_upper fuel n acc k :
  0 <= n < 10 ^ Z.of_nat (S k) →
  (length (digits fuel n acc) <= S k + length acc)%nat.
Proof.
  revert n acc k. induction fuel as [|fuel IH]; intros n acc k Hn; cbn [digits]; [lia|].
  rewrite Nat2Z.inj_succ, Z.pow_succ_r in Hn by lia.
  case_if; zbool; cbn [length]; [lia|]. destruct k as [|k]; [cbn in Hn; lia|].
  specialize (IH (n / 10) ((48 + n mod 10) :: acc) k). cbn [length] in IH.
  assert (0 <= n / 10 < 10 ^ Z.of_nat (S k)) by zdiv_lia. specialize (IH ltac:(done)). lia.
Qed.

Lemma digits_length_lower fuel n acc k :
  (k < fuel)%nat → 10 ^ Z.of_nat k <= n →
  (S k + length acc <= length (digits fuel n acc))%nat.
Proof.
  revert n acc k. induction fuel as [|fuel IH]; intros n acc k Hk Hn; cbn [digits]; [lia|].
  destruct k as [|k].
  - case_if; cbn [length]; [lia|].
    destruct fuel as [|fuel]; [cbn; lia|]. zbool.
    specialize (IH (n / 10) ((48 + n mod 10) :: acc) 0%nat ltac:(lia)).
    cbn [length] in IH. assert (10 ^ Z.of_nat 0 <= n / 10) by (cbn; zdiv_lia).
    specialize (IH ltac:(done)). lia.
  - rewrite Nat2Z.inj_succ, Z.pow_succ_r in Hn by lia.
    case_if; zbool; [nia|].
    specialize (IH (n / 10) ((48 + n mod 10) :: acc) k ltac:(lia)).
    cbn [length] in IH. assert (10 ^ Z.of_nat k <= n / 10) by zdiv_lia.
    specialize (IH ltac:(done)). lia.
Qed.

(** The buffer of [update_integer_string] is large enough for every [int]. *)
Lemma sprintf_d_fits n :
  INT_MIN <= n <= INT_MAX →
  ∃ len, number_len (u64 n) = Ok len ∧ strlen (sprintf_d n) <= len.
Proof.
  unfold INT_MIN, INT_MAX. intros Hn. unfold sprintf_d. case_if; zbool.
  - assert (u64 n = 2 ^ 64 + n) as ->.
    { unfold u64. rewrite <-(Z.mod_add n 1 (2 ^ 64)) by lia.
      rewrite Z.mod_small by lia. lia. }
    rewrite number_len_spec by lia. eexists; split; [done|].
    destruct (Z.eqb_spec (2 ^ 64 + n) 0); [lia|]. unfold strlen, print_dec.
    pose proof (digits_length_lower 20 (2 ^ 64 + n) [] 18 ltac:(lia) ltac:(lia)).
    pose proof (digits_length_upper 20 (- n) [] 9 ltac:(lia)).
    rewrite length_cons. cbn [length] in *. lia.
  - rewrite u64_small by lia. rewrite number_len_spec by lia. eexists; split; [done|].
    case_if; zbool; [by subst|]. lia.
Qed.

Lemma dec_val_nonneg s : is_integer s = true → 0 <= dec_val s.
Proof. intros Hs%is_integer_spec. by apply dec_from_mono. Qed.

Lemma parse_int_spec s : is_integer s = true → parse_int s = int_chk (dec_val s).
Proof.
  intros Hs. pose proof (dec_val_nonneg s Hs) as H0. apply is_integer_spec in Hs.
  unfold parse_int. destruct (decide (dec_val s <= INT_MAX)).
  - rewrite parse_int_loop_val, int_chk_Ok by (done || unfold INT_MIN; lia). done.
  - rewrite parse_int_loop_overflow, int_chk_over; [done|lia|unfold INT_MAX; lia|done|].
    unfold dec_val in *. lia.
Qed.

(** The characters of an [int] and the NUL fit 12 bytes. *)
Lemma sprintf_d_length n : INT_MIN <= n <= INT_MAX → strlen (sprintf_d n) + 1 <= 12.
Proof.
  unfold INT_MIN, INT_MAX. intros Hn. unfold sprintf_d, strlen, print_dec. case_if; zbool.
  - pose proof (digits_length_upper 20 (- n) [] 9 ltac:(lia)). cbn [length] in *. lia.
  - pose proof (digits_length_upper 20 n [] 9 ltac:(lia)). cbn [length] in *. lia.
Qed.

Lemma update_integer_string_spec s num :
  is_integer s = true → dec_val s <= INT_MAX → INT_MIN <= dec_val s + num <= INT_MAX →
  update_integer_string s num = Ok (sprintf_d (dec_val s + num)).
Proof.
  intros Hs%is_integer_spec Hmax Hn. unfold update_integer_string, parse_int.
  rewrite parse_int_loop_val by done. cbn [mbind res_bind].
  fold (dec_val s). rewrite int_chk_Ok by done. cbn [mbind res_bind].
  destruct (sprintf_d_fits _ Hn) as (len & -> & Hlen). cbn [mbind res_bind].
  destruct (Z.leb_spec (strlen (sprintf_d (dec_val s + num)) + 1) (len + 1)); [done|lia].
Qed.

(** ** Accounting *)

Lemma live_bytes_insert b p n :
  b !! p = None → live_bytes (<[p := n]> b) = n + SIZEOF_SIZE_T + live_bytes b.
Proof.
  intros Hp. unfold live_bytes. rewrite map_fold_insert_L; [done| |done].
  intros. lia.
Qed.

Lemma live_bytes_delete b p n :
  b !! p = Some n → live_bytes b = n + SIZEOF_SIZE_T + live_bytes (delete p b).
Proof.
  intros Hp. rewrite <-(insert_delete_id b p n) at 1 by done.
  apply live_bytes_insert, lookup_delete_eq.
Qed.

(** The states that calls of the four functions reach, with the excess of the
    counter over the live bytes.  An address handed out by the allocator is not
    that of a live block. *)
Inductive mem_reach : mem → Z → Prop :=
| reach_init : mem_reach (mkMem 0 ∅) 0
| reach_malloc m k p n m' :
    mem_reach m k → blocks m !! p = None → tmalloc m p n = Ok m' → mem_reach m' k
| reach_calloc m k p len n m' :
    mem_reach m k → blocks m !! p = None → tcalloc m p len n = Ok m' →
    mem_reach m' (k + (len - 1) * (n + SIZEOF_SIZE_T))
| reach_realloc m k p q n m' r :
    mem_reach m k → q = p ∨ blocks m !! q = None →
    trealloc m (Some p) q n = Ok (m', r) →
    mem_reach m' (k + if decide (blocks m !! p = Some n) then 0 else SIZEOF_SIZE_T)
| reach_free m k p m' :
    mem_reach m k → tfree m p = Ok m' → mem_reach m' k.

(** ** Properties *)

(** C39 on a string of digits whose value and result are [int]s,
    update_integer_string returns the decimal text of the sum, and its local
    buffer is large enough; a non-negative result is a string of digits again
    and denotes the sum. *)
Theorem update_integer_string_correct (s : list Z) (num : Z) :
  is_integer s = true → dec_val s <= INT_MAX →
  INT_MIN <= dec_val s + num <= INT_MAX →
  ∃ t, update_integer_string s num = Ok t ∧ t = sprintf_d (dec_val s + num) ∧
    (0 <= dec_val s + num → is_integer t = true ∧ dec_val t = dec_val s + num).
Proof.
  intros Hs Hmax Hn. rewrite update_integer_string_spec by done.
  eexists; split_and!; [done..|]. intros H0. unfold sprintf_d.
  case_if; zbool; [lia|]. split.
  - apply is_integer_spec. by apply print_dec_Forall.
  - apply print_dec_val. unfold INT_MAX in *. lia.
Qed.

Lemma update_integer_string_correct_witness :
  ∃ t, update_integer_string [57; 57] 1 = Ok t ∧ t = sprintf_d (dec_val [57; 57] + 1) ∧
    (0 <= dec_val [57; 57] + 1 →
     is_integer t = true ∧ dec_val t = dec_val [57; 57] + 1).
Proof.
  apply (update_integer_string_correct [57; 57] 1); vm_compute; intuition congruence.
Defined.

(** The decimal text of a negative number is not an integer for is_integer:
    a value decremented below zero can no longer be incremented. *)
Theorem negative_not_integer (n : Z) : n < 0 → is_integer (sprintf_d n) = false.
Proof. intros Hn. unfold sprintf_d. case_if; zbool; [done|lia]. Qed.

Lemma negative_not_integer_witness :
  update_integer_string [48] (-1) = Ok (sprintf_d (-1)) ∧
  is_integer (sprintf_d (-1)) = false.
Proof. split; [reflexivity|apply (negative_not_integer (-1)); lia]. Defined.

(** The counter of allocated bytes, in every state that the allocation
    functions reach: it is the live bytes plus 8 for each resize that changed a
    size, plus what tcalloc leaves out of the header of its block. *)
Theorem memory_accounting (m : mem) (k : Z) :
  mem_reach m k → memory_used m = u64 (live_bytes (blocks m) + k).
Proof.
  unfold memory_used.
  induction 1 as [|m k p n m' H IH Hp E|m k p len n m' H IH Hp E
                  |m k p q n m' r H IH Hq E|m k [p|] m' H IH E]; [done|..].
  - unfold tmalloc, cassert in E. destruct (n >? 0); res_simpl. cbn.
    rewrite live_bytes_insert, IH, u64_add_idemp_l by done. f_equal. lia.
  - unfold tcalloc, cassert in E. destruct ((len >? 0) && _); res_simpl. cbn.
    rewrite live_bytes_insert, IH, u64_add_idemp_l by done. f_equal. lia.
  - unfold trealloc, cassert in E. destruct (n >? 0); [|done]. cbn in E.
    destruct (blocks m !! p) as [c|] eqn:Hc; [|done].
    destruct (Z.eqb_spec n c) as [->|Hne]; res_simpl; simplify_eq; cbn.
    { rewrite decide_True by done. rewrite IH. f_equal. lia. }
    rewrite decide_False by congruence.
    rewrite live_bytes_insert.
    + rewrite IH, (live_bytes_delete _ _ _ Hc), u64_add_idemp_l. f_equal. lia.
    + rewrite lookup_delete. case_decide; [done|]. by destruct Hq as [->|].
  - cbn in E. destruct (blocks m !! p) as [c|] eqn:Hc; res_simpl. cbn.
    pose proof (u64_bound (memory m - c + SIZEOF_SIZE_T)).
    destruct (Z.ltb_spec (u64 (memory m - c + SIZEOF_SIZE_T)) 0); [lia|].
    rewrite IH, (live_bytes_delete _ _ _ Hc), u64_sub_idemp_l. f_equal. lia.
  - cbn in E. res_simpl. done.
Qed.

Lemma memory_accounting_witness :
  ∃ m, mem_reach m 8 ∧ memory_used m = u64 (live_bytes (blocks m) + 8).
Proof.
  assert (mem_reach (mkMem 32 (<[2 := 16]> ∅)) 8) as H.
  { replace 8 with (0 + if decide (blocks (mkMem 18 (<[1 := 10]> ∅)) !! 1 = Some 16)
                        then 0 else SIZEOF_SIZE_T) by reflexivity.
    apply (reach_realloc (mkMem 18 (<[1 := 10]> ∅)) 0 1 2 16
             (mkMem 32 (<[2 := 16]> ∅)) 2); [|by right|vm_compute; reflexivity].
    apply (reach_malloc (mkMem 0 ∅) 0 1 10); [constructor|done|reflexivity]. }
  exists (mkMem 32 (<[2 := 16]> ∅)). split; [exact H|].
  exact (memory_accounting _ _ H).
Defined.
