(* ===== verification/Config.v ===== *)
(** * The configuration: src/config.c, src/config.h

    The parameters of the server: their defaults, the configuration file, and
    the texts with a unit in which sizes and times are written.  [SOMAXCONN] is
    the constant of the system's headers and [run_fd] the descriptor that
    [eventfd] returns.  A file is the list of its bytes. *)

From S2P Require Import Prelude Util.

(** ** Data *)

Definition STANDALONE : Z := 0.
Definition CLUSTER : Z := 1.

Definition UNIX : Z := 0.
Definition INET : Z := 1.

Definition DEBUG : Z := 0.
Definition INFORMATION : Z := 1.
Definition WARNING : Z := 2.
Definition ERROR : Z := 3.

Record config := mkConfig {
  version : list Z;
  mode : Z;
  run : Z;                   (* uint8_t *)
  loglevel : Z;              (* uint8_t *)
  epoll_timeout : Z;
  socket_family : Z;
  logpath : list Z;          (* char [0xFF], as the three below *)
  hostname : list Z;
  port : list Z;
  max_memory : Z;            (* size_t, as the three below *)
  mem_reclaim_time : Z;
  max_request_size : Z;
  tcp_backlog : Z            (* int *)
}.

#[export] Instance config_eq_dec : EqDecision config.
Proof. solve_decision. Defined.

(** Assignments to one field. *)
Definition set_mode (c : config) (m : Z) : config :=
  mkConfig (version c) m (run c) (loglevel c) (epoll_timeout c) (socket_family c)
    (logpath c) (hostname c) (port c) (max_memory c) (mem_reclaim_time c)
    (max_request_size c) (tcp_backlog c).
Definition set_loglevel (c : config) (l : Z) : config :=
  mkConfig (version c) (mode c) (run c) l (epoll_timeout c) (socket_family c)
    (logpath c) (hostname c) (port c) (max_memory c) (mem_reclaim_time c)
    (max_request_size c) (tcp_backlog c).
Definition set_logpath (c : config) (p : list Z) : config :=
  mkConfig (version c) (mode c) (run c) (loglevel c) (epoll_timeout c) (socket_family c)
    p (hostname c) (port c) (max_memory c) (mem_reclaim_time c)
    (max_request_size c) (tcp_backlog c).
Definition set_address (c : config) (family : Z) (h : list Z) : config :=
  mkConfig (version c) (mode c) (run c) (loglevel c) (epoll_timeout c) family
    (logpath c) h (port c) (max_memory c) (mem_reclaim_time c)
    (max_request_size c) (tcp_backlog c).
Definition set_port (c : config) (p : list Z) : config :=
  mkConfig (version c) (mode c) (run c) (loglevel c) (epoll_timeout c) (socket_family c)
    (logpath c) (hostname c) p (max_memory c) (mem_reclaim_time c)
    (max_request_size c) (tcp_backlog c).
Definition set_max_memory (c : config) (n : Z) : config :=
  mkConfig (version c) (mode c) (run c) (loglevel c) (epoll_timeout c) (socket_family c)
    (logpath c) (hostname c) (port c) n (mem_reclaim_time c)
    (max_request_size c) (tcp_backlog c).
Definition set_mem_reclaim_time (c : config) (n : Z) : config :=
  mkConfig (version c) (mode c) (run c) (loglevel c) (epoll_timeout c) (socket_family c)
    (logpath c) (hostname c) (port c) (max_memory c) n
    (max_request_size c) (tcp_backlog c).
Definition set_max_request_size (c : config) (n : Z) : config :=
  mkConfig (version c) (mode c) (run c) (loglevel c) (epoll_timeout c) (socket_family c)
    (logpath c) (hostname c) (port c) (max_memory c) (mem_reclaim_time c)
    n (tcp_backlog c).
Definition set_tcp_backlog (c : config) (n : Z) : config :=
  mkConfig (version c) (mode c) (run c) (loglevel c) (epoll_timeout c) (socket_family c)
    (logpath c) (hostname c) (port c) (max_memory c) (mem_reclaim_time c)
    (max_request_size c) n.

(** [struct llevel lmap[5]]. *)
Definition lmap : list (list Z * Z) :=
  [(str "DEBUG", DEBUG); (str "WARNING", WARNING); (str "ERROR", ERROR);
   (str "INFO", INFORMATION); (str "INFORMATION", INFORMATION)].

(** ** Sizes and times with a unit *)

(** [while (isdigit(<s>[0])) s++]. *)
Fixpoint skip_digits (s : list Z) : list Z :=
  match s with
  | c :: s' => if isdigit c then skip_digits s' else s
  | [] => []
  end.

Definition read_memory_with_mul (memory_string : list Z) : res Z :=
  num ← parse_int memory_string;
  let unit := skip_digits memory_string in
  let mul :=
    if STREQ unit (str "kb") 2 then 1024
    else if STREQ unit (str "mb") 2 then 1024 * 1024
    else if STREQ unit (str "gb") 2 then 1024 * 1024 * 1024
    else 1 in
  mret (u64 (u64 num * mul)).

Definition read_time_with_mul (time_string : list Z) : res Z :=
  num ← parse_int time_string;
  let mul :=
    match skip_digits time_string with
    | 109 :: _ => 60                  (* 'm' *)
    | 100 :: _ => 60 * 60 * 24        (* 'd' *)
    | _ => 1
    end in
  mret (u64 (u64 num * mul)).

(** [snprintf(buf, size, ...)] for a block of [size] bytes: what does not fit,
    the NUL included, is cut off. *)
Definition snprintf_cut (size : Z) (text : list Z) : list Z :=
  take (Z.to_nat (size - 1)) text.

(** A number, converted to [int], with its unit; [extra] is what is added to
    [number_len] for the size of the text. *)
Definition unit_string (n : Z) (unit : list Z) (extra : Z) : res (list Z) :=
  let translated := s32 n in
  numlen ← number_len (u64 translated);
  mret (snprintf_cut (numlen + extra) (sprintf_d translated ++ unit)).

Definition memory_to_string (memory : Z) : res (list Z) :=
  if memory <? 1024 then unit_string memory (str "b") 1
  else if memory <? 1048576 then unit_string (memory / 1024) (str "Kb") 2
  else if memory <? 1073741824 then unit_string (memory / (1024 * 1024)) (str "Mb") 2
  else unit_string (memory / (1024 * 1024 * 1024)) (str "Gb") 2.

Definition time_to_string (time : Z) : res (list Z) :=
  if time <? 60 then unit_string time (str "s") 1
  else if time <? 60 * 60 then unit_string (time / 60) (str "m") 1
  else if time <? 60 * 60 * 24 then unit_string (time / (60 * 60)) (str "h") 1
  else unit_string (time / (60 * 60 * 24)) (str "d") 1.

(** ** Reading the configuration *)

Section Config.
Context (SOMAXCONN : Z).

(** [strcpy] to an array of 0xFF characters. *)
Definition strcpy_ff (value : list Z) : res (list Z) :=
  if strlen value + 1 <=? 0xFF then Ok value else Err OutOfBounds.

(** [STREQ] is not parenthesised: [STREQ(value, "STANDALONE", 10) ? STANDALONE
    : CLUSTER] reads
    [strncasecmp(...) == 0 ? true : (false ? STANDALONE : CLUSTER)]. *)
Definition read_mode (value : list Z) : Z :=
  if STREQ value (str "STANDALONE") 10 then 1
  else if false then STANDALONE else CLUSTER.

Definition add_config_value (c : config) (key value : list Z) : res config :=
  let klen := strlen key in
  let vlen := strlen value in
  if STREQ (str "log_level") key klen then
    mret (foldl (λ c l, if STREQ l.1 value vlen then set_loglevel c l.2 else c)
            c (take 3 lmap))
  else if STREQ (str "log_path") key klen then
    v ← strcpy_ff value; mret (set_logpath c v)
  else if STREQ (str "unix_socket") key klen then
    v ← strcpy_ff value; mret (set_address c UNIX v)
  else if STREQ (str "ip_address") key klen then
    v ← strcpy_ff value; mret (set_address c INET v)
  else if STREQ (str "ip_port") key klen then
    v ← strcpy_ff value; mret (set_port c v)
  else if STREQ (str "max_memory") key klen then
    n ← read_memory_with_mul value; mret (set_max_memory c n)
  else if STREQ (str "mem_reclaim_time") key klen then
    n ← read_time_with_mul value; mret (set_mem_reclaim_time c n)
  else if STREQ (str "max_request_size") key klen then
    n ← read_memory_with_mul value; mret (set_max_request_size c n)
  else if STREQ (str "tcp_backlog") key klen then
    n ← parse_int value;
    mret (set_tcp_backlog c (if n <=? SOMAXCONN then n else SOMAXCONN))
  else if STREQ (str "mode") key klen then mret (set_mode c (read_mode value))
  else mret c.

(** The C string at the beginning of an array. *)
Fixpoint cstring_of (l : list Z) : list Z :=
  match l with
  | [] => []
  | c :: l => if c =? 0 then [] else c :: cstring_of l
  end.

Fixpoint strip_spaces (s : list Z) : list Z :=
  match s with
  | c :: s' => if isspace c then strip_spaces s' else s
  | [] => []
  end.

(** The rest of the string, and the array with the characters copied from
    index [i] on. *)
Fixpoint unpack_bytes (s : list Z) (dest : list Z) (i : Z) : res (list Z * list Z) :=
  match s with
  | c :: s' =>
      if isspace c then Ok (s, dest)
      else dest ← aset dest i c; unpack_bytes s' dest (i + 1)
  | [] => Ok ([], dest)
  end.

(** [fgets] with room for [n] characters before the NUL. *)
Fixpoint fgets (n : nat) (fh : list Z) : list Z * list Z :=
  match n, fh with
  | S n, c :: fh =>
      if c =? 10 then ([c], fh)
      else let '(line, fh) := fgets n fh in (c :: line, fh)
  | _, _ => ([], fh)
  end.

(** One iteration of the loop of [config_load]. *)
Definition config_line (c : config) (line : list Z) : res config :=
  let key := replicate 0xff 0 in
  let value := replicate 0xff 0 in
  let line := cstring_of line in
  if bool_decide (head line = Some 35) then mret c            (* '#' *)
  else
    let pline := strip_spaces line in
    if bool_decide (pline = []) then mret c
    else
      '(pline, key) ← unpack_bytes pline key 0;
      let pline := strip_spaces pline in
      if bool_decide (line = []) then mret c
      else
        '(_, value) ← unpack_bytes pline value 0;
        add_config_value c (cstring_of key) (cstring_of value).

Fixpoint config_load_loop (fuel : nat) (c : config) (fh : list Z) : res config :=
  match fuel with
  | O => Err OutOfFuel
  | S fuel =>
      match fh with
      | [] => Ok c                                      (* fgets returns NULL *)
      | _ :: _ =>
          let '(line, fh) := fgets (0xff - 1) fh in
          c ← config_line c line;
          config_load_loop fuel c fh
      end
  end.

(** [fh] is the contents of the file, or [None] when it cannot be opened. *)
Definition config_load (c : config) (fh : option (list Z)) : res (config * bool) :=
  match fh with
  | None => mret (c, false)
  | Some fh => c ← config_load_loop (S (length fh)) c fh; mret (c, true)
  end.

Definition config_set_default (run_fd : Z) : res config :=
  max_memory ← read_memory_with_mul (str "4GB");
  mem_reclaim_time ← read_time_with_mul (str "1d");
  max_request_size ← read_memory_with_mul (str "2MB");
  mret {| version := str "0.6.11"; mode := STANDALONE; run := u8 run_fd;
          loglevel := INFORMATION; epoll_timeout := -1; socket_family := INET;
          logpath := str "/tmp/triedb.log"; hostname := str "127.0.0.1";
          port := str "9090"; max_memory := max_memory;
          mem_reclaim_time := mem_reclaim_time;
          max_request_size := max_request_size; tcp_backlog := SOMAXCONN |}.
End Config.

(** ** Lemmas: numbers with a unit *)

(** Evaluates the comparisons of constant strings. *)
Ltac streq_eval :=
  repeat match goal with
  | |- context [STREQ (skip_digits ?a) ?b ?n] =>
      let v := eval vm_compute in (STREQ (skip_digits a) b n) in
      change (STREQ (skip_digits a) b n) with v
  | |- context [STREQ (str ?a) (str ?b) ?n] =>
      let v := eval vm_compute in (STREQ (str a) (str b) n) in
      change (STREQ (str a) (str b) n) with v
  | |- context [skip_digits (str ?a)] =>
      let v := eval vm_compute in (skip_digits (str a)) in
      change (skip_digits (str a)) with v
  end; cbv iota.

Lemma skip_digits_app ds s :
  Forall (λ c, 48 <= c <= 57) ds → skip_digits (ds ++ s) = skip_digits s.
Proof.
  induction 1 as [|d ds Hd _ IH]; cbn; [done|]. by rewrite (proj2 (isdigit_spec d)).
Qed.

(** [parse_int] stops at the unit. *)
Lemma parse_int_loop_app n ds s :
  match s with c :: _ => isdigit c = false | [] => True end →
  Forall (λ c, 48 <= c <= 57) ds →
  parse_int_loop n (ds ++ s) = parse_int_loop n ds.
Proof.
  intros Hs. revert n. induction ds as [|d ds IH]; intros n Hds; cbn.
  - destruct s as [|c s]; cbn; [done|]. by rewrite Hs.
  - apply Forall_cons in Hds as [Hd Hds]. rewrite (proj2 (isdigit_spec d)) by done.
    destruct (int_chk (n * 10)); cbn; [|done].
    destruct (int_chk (a + (d - 48))); cbn; [|done]. by apply IH.
Qed.

Lemma parse_int_print n s :
  0 <= n <= INT_MAX → match s with c :: _ => isdigit c = false | [] => True end →
  parse_int (print_dec n ++ s) = Ok n.
Proof.
  unfold INT_MAX. intros Hn Hs. unfold parse_int.
  rewrite parse_int_loop_app by (done || apply print_dec_Forall; lia).
  pose proof (print_dec_val n ltac:(lia)) as Hv. unfold dec_val in Hv.
  rewrite parse_int_loop_val; [by rewrite Hv|lia|apply print_dec_Forall; lia|].
  rewrite Hv. unfold INT_MAX. lia.
Qed.

(** The text has room for the number and for its unit. *)
Lemma unit_string_spec n unit extra :
  0 < n <= INT_MAX → extra = strlen unit →
  unit_string n unit extra = Ok (print_dec n ++ unit).
Proof.
  unfold INT_MAX. intros Hn ->. unfold unit_string.
  rewrite s32_small by (unfold INT_MIN, INT_MAX; lia).
  rewrite u64_small by lia. rewrite number_len_spec by lia.
  destruct (Z.eqb_spec n 0); [lia|]. cbn [mbind res_bind]. unfold snprintf_cut.
  unfold sprintf_d. destruct (Z.ltb_spec n 0); [lia|].
  unfold mret, res_ret. f_equal. apply take_ge. rewrite length_app. unfold strlen. lia.
Qed.

(** The units that [memory_to_string] and [time_to_string] choose. *)
Definition memory_unit (m : Z) : Z :=
  if m <? 1024 then 1 else if m <? 1048576 then 1024
  else if m <? 1073741824 then 1048576 else 1073741824.

Definition time_unit (t : Z) : Z :=
  if t <? 60 then 1 else if t <? 3600 then 60 else if t <? 86400 then 3600 else 86400.

Definition memory_suffix (m : Z) : list Z :=
  str (if m <? 1024 then "b" else if m <? 1048576 then "Kb"
       else if m <? 1073741824 then "Mb" else "Gb").

Definition time_suffix (t : Z) : list Z :=
  str (if t <? 60 then "s" else if t <? 3600 then "m" else if t <? 86400 then "h" else "d").

(** What [read_time_with_mul] takes the hours for. *)
Definition time_read_unit (t : Z) : Z :=
  if t <? 60 then 1 else if t <? 3600 then 60 else if t <? 86400 then 1 else 86400.

Lemma memory_to_string_spec m :
  0 < m < 2 ^ 61 → memory_to_string m = Ok (print_dec (m / memory_unit m) ++ memory_suffix m).
Proof.
  intros Hm. unfold memory_to_string, memory_unit, memory_suffix.
  repeat case_if; zbool; try rewrite Z.div_1_r;
    apply unit_string_spec; try reflexivity; unfold INT_MAX; zdiv_lia.
Qed.

Lemma time_to_string_spec t :
  0 < t < 2 ^ 31 * 86400 →
  time_to_string t = Ok (print_dec (t / time_unit t) ++ time_suffix t).
Proof.
  intros Hm. unfold time_to_string, time_unit, time_suffix.
  repeat case_if; zbool; try lia; try rewrite Z.div_1_r;
    apply unit_string_spec; try reflexivity; unfold INT_MAX; zdiv_lia.
Qed.

Lemma read_memory_spec n m :
  0 <= n <= INT_MAX → read_memory_with_mul (print_dec n ++ memory_suffix m) = Ok (n * memory_unit m).
Proof.
  unfold INT_MAX. intros Hn. unfold read_memory_with_mul.
  rewrite parse_int_print; [|done|unfold memory_suffix; by repeat case_if].
  cbn [mbind res_bind]. rewrite skip_digits_app by (apply print_dec_Forall; lia).
  rewrite (u64_small n) by lia.
  unfold mret, res_ret, memory_suffix, memory_unit. f_equal.
  destruct (m <? 1024), (m <? 1048576), (m <? 1073741824); streq_eval; cbn;
    rewrite u64_small; lia.
Qed.

Lemma read_time_spec n t :
  0 <= n <= INT_MAX → read_time_with_mul (print_dec n ++ time_suffix t) = Ok (n * time_read_unit t).
Proof.
  unfold INT_MAX. intros Hn. unfold read_time_with_mul.
  rewrite parse_int_print; [|done|unfold time_suffix; by repeat case_if].
  cbn [mbind res_bind]. rewrite skip_digits_app by (apply print_dec_Forall; lia).
  rewrite (u64_small n) by lia.
  unfold mret, res_ret, time_suffix, time_read_unit. f_equal.
  destruct (t <? 60), (t <? 3600), (t <? 86400); streq_eval; cbn; rewrite u64_small; lia.
Qed.

(** ** The lines of a configuration file *)

Inductive conf_line :=
| Comment (text : list Z)
| Blank (spaces : list Z)
| Entry (spaces key sep value rest : list Z).

(** The text of a line, without its newline. *)
Definition render (l : conf_line) : list Z :=
  match l with
  | Comment text => 35 :: text
  | Blank spaces => spaces
  | Entry spaces key sep value rest => spaces ++ key ++ sep ++ value ++ rest
  end.

Definition render_file (ls : list conf_line) : list Z :=
  concat ((λ l, render l ++ [10]) <$> ls).

Definition blank_char (c : Z) : Prop := isspace c = true ∧ c ≠ 10.
Definition word_char (c : Z) : Prop := is_char c ∧ isspace c = false.
Definition text_char (c : Z) : Prop := is_char c ∧ c ≠ 10.

Definition starts_blank (s : list Z) : Prop :=
  match s with c :: _ => isspace c = true | [] => True end.

(** A line that fits the array of 0xFF characters with its newline.  An entry has
    a key, and a value unless nothing but blanks follows the key; what follows
    the value is separated from it. *)
Definition line_ok (l : conf_line) : Prop :=
  (length (render l) <= 253)%nat ∧
  match l with
  | Comment text => Forall text_char text
  | Blank spaces => Forall blank_char spaces
  | Entry spaces key sep value rest =>
      Forall blank_char spaces ∧ Forall word_char key ∧ key ≠ [] ∧
      head (spaces ++ key) ≠ Some 35 ∧ Forall blank_char sep ∧
      (sep = [] → value = []) ∧ Forall word_char value ∧ (value = [] → rest = []) ∧
      Forall text_char rest ∧ starts_blank rest
  end.

#[export] Instance blank_char_dec c : Decision (blank_char c).
Proof. unfold blank_char. apply _. Defined.
#[export] Instance word_char_dec c : Decision (word_char c).
Proof. unfold word_char. apply _. Defined.
#[export] Instance text_char_dec c : Decision (text_char c).
Proof. unfold text_char. apply _. Defined.
#[export] Instance starts_blank_dec s : Decision (starts_blank s).
Proof. destruct s; cbn; apply _. Defined.
#[export] Instance line_ok_dec l : Decision (line_ok l).
Proof. unfold line_ok. destruct l; apply _. Defined.

(** What a line does to the configuration. *)
Definition line_config (somaxconn : Z) (c : config) (l : conf_line) : res config :=
  match l with
  | Entry _ key _ value _ => add_config_value somaxconn c key value
  | _ => Ok c
  end.

Fixpoint lines_config (somaxconn : Z) (c : config) (ls : list conf_line) : res config :=
  match ls with
  | [] => Ok c
  | l :: ls => c' ← line_config somaxconn c l; lines_config somaxconn c' ls
  end.

Lemma blank_isspace s : Forall blank_char s → Forall (λ c, isspace c = true) s.
Proof. intros H. eapply Forall_impl; [exact H|]. by intros c [? _]. Qed.

Lemma blank_text c : blank_char c → text_char c.
Proof.
  unfold blank_char, text_char, isspace, is_char. intros [H ?]. split; [|done].
  apply orb_true_iff in H as [H|H]; zbool; lia.
Qed.

Lemma word_text c : word_char c → text_char c.
Proof. intros [? H]. split; [done|]. intros ->. discriminate H. Qed.

Lemma text_cstr s : Forall text_char s → cstr s.
Proof. intros H. eapply Forall_impl; [exact H|]. by intros c [? _]. Qed.

(** A rendered line has no newline and no NUL. *)
Lemma render_text l : line_ok l → Forall text_char (render l).
Proof.
  intros [_ H]. destruct l as [text|spaces|spaces key sep value rest]; cbn.
  - constructor; [|done]. split; [unfold is_char|]; lia.
  - eapply Forall_impl; [exact H|]. exact blank_text.
  - destruct H as (H1 & H2 & _ & _ & H3 & _ & H4 & _ & H5 & _).
    repeat apply Forall_app_2; try done.
    all: eapply Forall_impl; [eassumption|]; eauto using blank_text, word_text.
Qed.

Lemma fgets_line n line fh :
  Forall text_char line → (length line < n)%nat →
  fgets n (line ++ 10 :: fh) = (line ++ [10], fh).
Proof.
  revert n. induction line as [|c line IH]; intros n Hl Hn; destruct n as [|n];
    cbn [length] in Hn; try lia; [done|].
  apply Forall_cons in Hl as [[_ Hc] Hl]. cbn [fgets app].
  destruct (Z.eqb_spec c 10); [done|]. rewrite IH by (done || lia). done.
Qed.

Lemma cstring_of_app s t : cstr s → cstring_of (s ++ t) = s ++ cstring_of t.
Proof.
  induction 1 as [|c s Hc _ IH]; cbn; [done|].
  destruct (Z.eqb_spec c 0); [unfold is_char in Hc; lia|]. by rewrite IH.
Qed.

Lemma cstring_of_zeros n : cstring_of (replicate n 0) = [].
Proof. by destruct n. Qed.

Lemma strip_spaces_app s t :
  Forall (λ c, isspace c = true) s → strip_spaces (s ++ t) = strip_spaces t.
Proof. induction 1 as [|c s Hc _ IH]; cbn; [done|]. by rewrite Hc. Qed.

Lemma strip_spaces_word w t :
  Forall word_char w → w ≠ [] → strip_spaces (w ++ t) = w ++ t.
Proof.
  intros Hw Hne. destruct w as [|c w]; [done|].
  apply Forall_cons in Hw as [[_ Hc] _]. cbn. by rewrite Hc.
Qed.

Lemma unpack_bytes_word w t pre n :
  Forall word_char w → starts_blank t → (length w <= n)%nat →
  unpack_bytes (w ++ t) (pre ++ replicate n 0) (Z.of_nat (length pre)) =
    Ok (t, pre ++ w ++ replicate (n - length w) 0).
Proof.
  revert pre n. induction w as [|c w IH]; intros pre n Hw Ht Hn.
  - cbn. rewrite Nat.sub_0_r. destruct t as [|c t]; cbn; [done|]. cbn in Ht. by rewrite Ht.
  - apply Forall_cons in Hw as [[_ Hc] Hw]. destruct n as [|n]; cbn [length] in Hn; [lia|].
    cbn [app unpack_bytes]. rewrite Hc. cbn [replicate].
    rewrite (aset_middle pre 0 c) by done. cbn [mbind res_bind].
    replace (pre ++ c :: replicate n 0) with ((pre ++ [c]) ++ replicate n 0)
      by by rewrite <-app_assoc.
    replace (Z.of_nat (length pre) + 1) with (Z.of_nat (length (pre ++ [c])))
      by (rewrite length_app; cbn [length]; lia).
    rewrite IH by (done || lia). rewrite <-app_assoc. done.
Qed.

(** The first word of a text, read to an array of zeros. *)
Lemma unpack_bytes_zeros w t n :
  Forall word_char w → starts_blank t → (length w <= n)%nat →
  ∃ dest, unpack_bytes (w ++ t) (replicate n 0) 0 = Ok (t, dest) ∧ cstring_of dest = w.
Proof.
  intros Hw Ht Hn. eexists. split; [apply (unpack_bytes_word w t [] n); done|].
  cbn [app]. rewrite cstring_of_app, cstring_of_zeros, app_nil_r; [done|].
  apply text_cstr. eapply Forall_impl; [exact Hw|]. exact word_text.
Qed.

Section lines.
Context (somaxconn : Z).

Lemma starts_blank_sep sep value rest :
  Forall blank_char sep → (sep = [] → value = []) → (value = [] → rest = []) →
  starts_blank (sep ++ value ++ rest ++ [10]).
Proof.
  intros Hsep H1 H2. destruct sep as [|c sep].
  - rewrite H1, H2 by auto. done.
  - by apply Forall_cons in Hsep as [[? _] _].
Qed.

Lemma strip_spaces_value sep value rest :
  Forall blank_char sep → Forall word_char value → (value = [] → rest = []) →
  strip_spaces (sep ++ value ++ rest ++ [10]) =
    if decide (value = []) then [] else value ++ rest ++ [10].
Proof.
  intros Hsep Hv H2. rewrite strip_spaces_app by by apply blank_isspace.
  case_decide as Hne; [by rewrite Hne, H2|]. by apply strip_spaces_word.
Qed.

Lemma starts_blank_rest rest : starts_blank rest → starts_blank (rest ++ [10]).
Proof. by destruct rest. Qed.

Lemma unpack_bytes_value value rest :
  Forall word_char value → starts_blank rest → (length value <= 255)%nat →
  ∃ t dest, unpack_bytes (if decide (value = []) then [] else value ++ rest ++ [10])
              (replicate 255 0) 0 = Ok (t, dest) ∧ cstring_of dest = value.
Proof.
  intros Hv Hr Hlen. case_decide as Hne.
  - subst value. by eexists [], _.
  - destruct (unpack_bytes_zeros value (rest ++ [10]) 255) as (dest & ? & ?);
      [done|by apply starts_blank_rest|done|by eexists _, _].
Qed.

Lemma config_line_entry c spaces key sep value rest :
  line_ok (Entry spaces key sep value rest) →
  config_line somaxconn c (render (Entry spaces key sep value rest) ++ [10]) =
    add_config_value somaxconn c key value.
Proof.
  intros Hok. pose proof (text_cstr _ (render_text _ Hok)) as Hcs.
  destruct Hok as [Hlen (Hsp & Hkey & Hne & Hhd & Hsep & H1 & Hval & H2 & Hrest & Hb)].
  cbn [render] in *. rewrite !length_app in Hlen.
  unfold config_line. cbv zeta. rewrite (cstring_of_app _ [10]) by done.
  change (cstring_of [10]) with [10]. rewrite <-!app_assoc.
  rewrite bool_decide_false by (destruct spaces, key; done).
  rewrite strip_spaces_app, strip_spaces_word by (done || by apply blank_isspace).
  rewrite bool_decide_false by (destruct key; done).
  destruct (unpack_bytes_zeros key (sep ++ value ++ rest ++ [10]) 255)
    as (dest & -> & Hdest); [done|by apply starts_blank_sep|lia|].
  rewrite res_bind_Ok_l. rewrite strip_spaces_value by done.
  rewrite bool_decide_false by (destruct spaces, key; done).
  destruct (unpack_bytes_value value rest) as (t & vdest & -> & Hv); [done|done|lia|].
  rewrite res_bind_Ok_l. by rewrite Hdest, Hv.
Qed.

Lemma config_line_spec c l :
  line_ok l → config_line somaxconn c (render l ++ [10]) = line_config somaxconn c l.
Proof.
  intros Hok. destruct l as [text|spaces|spaces key sep value rest].
  - done.
  - destruct Hok as [_ Hsp]. unfold config_line. cbn [render].
    rewrite cstring_of_app
      by (apply text_cstr; eapply Forall_impl; [exact Hsp|]; exact blank_text).
    change (cstring_of [10]) with [10]. rewrite bool_decide_false.
    + by rewrite strip_spaces_app by by apply blank_isspace.
    + destruct Hsp as [|c' s [Hc _] _]; [done|]. cbn. intros [= ->]. discriminate Hc.
  - by apply config_line_entry.
Qed.

(** One iteration per line: the length of the file bounds their number. *)
Lemma config_load_loop_spec c ls fuel :
  Forall line_ok ls → (length (render_file ls) < fuel)%nat →
  config_load_loop somaxconn fuel c (render_file ls) = lines_config somaxconn c ls.
Proof.
  intros Hok. revert c fuel. induction Hok as [|l ls Hl _ IH]; intros c fuel Hf;
    destruct fuel as [|fuel]; [lia|done|lia|].
  change (render_file (l :: ls)) with ((render l ++ [10]) ++ render_file ls) in *.
  rewrite !length_app in Hf. cbn [length] in Hf. rewrite <-app_assoc. cbn [app].
  cbn [config_load_loop lines_config].
  destruct (render l ++ 10 :: render_file ls) eqn:E; [by destruct (render l)|].
  rewrite <-E, fgets_line; [|by apply render_text|destruct Hl; lia].
  rewrite config_line_spec by done.
  destruct (line_config somaxconn c l) as [c'|f]; cbn [mbind res_bind]; [|done].
  apply IH. lia.
Qed.

End lines.

(** ** Files of any contents *)

(** Returns, or overflows an [int] while reading a number. *)
Definition returns_or_overflows {A} (r : res A) : Prop :=
  match r with Ok _ => True | Err f => f = SignedOverflow end.

Section any_file.
Context (somaxconn : Z).

Lemma roo_bind {A B} (m : res A) (k : A → res B) :
  returns_or_overflows m → (∀ a, m = Ok a → returns_or_overflows (k a)) →
  returns_or_overflows (m ≫= k).
Proof. destruct m as [a|f]; cbn; auto. Qed.

Lemma roo_parse_int s : returns_or_overflows (parse_int s).
Proof.
  unfold parse_int. generalize 0. induction s as [|c s IH]; intros n; cbn; [done|].
  case_if; [|done]. destruct (int_chk_cases (n * 10)) as [[-> _]| ->]; cbn; [|done].
  destruct (int_chk_cases (n * 10 + (c - 48))) as [[-> _]| ->]; cbn; [|done]. apply IH.
Qed.

Lemma roo_read_memory s : returns_or_overflows (read_memory_with_mul s).
Proof. apply roo_bind; [apply roo_parse_int|done]. Qed.

Lemma roo_read_time s : returns_or_overflows (read_time_with_mul s).
Proof. apply roo_bind; [apply roo_parse_int|done]. Qed.

Lemma roo_strcpy s : (length s <= 254)%nat → returns_or_overflows (strcpy_ff s).
Proof. intros H. unfold strcpy_ff, strlen. case_if; zbool; [done|lia]. Qed.

Lemma roo_add_config_value c key value :
  (length value <= 254)%nat → returns_or_overflows (add_config_value somaxconn c key value).
Proof.
  intros Hv. unfold add_config_value.
  repeat case_if; try done; apply roo_bind;
    auto using roo_parse_int, roo_read_memory, roo_read_time, roo_strcpy.
  all: done.
Qed.

Lemma fgets_spec n fh line fh' :
  fgets n fh = (line, fh') → (length line <= n)%nat ∧ fh = line ++ fh'.
Proof.
  revert fh line fh'. induction n as [|n IH]; intros fh line fh'; destruct fh as [|c fh];
    cbn; try (intros [= <- <-]; cbn; split; [lia|done]).
  destruct (Z.eqb_spec c 10) as [->|]; [intros [= <- <-]; cbn; split; [lia|done]|].
  destruct (fgets n fh) as [l r] eqn:E. intros [= <- <-].
  destruct (IH _ _ _ E) as [? ->]. cbn. split; [lia|done].
Qed.

Lemma fgets_nonempty n b fh : (fgets (S n) (b :: fh)).1 ≠ [].
Proof. cbn [fgets]. case_if; [done|]. by destruct (fgets n fh). Qed.

Lemma cstring_of_length s : (length (cstring_of s) <= length s)%nat.
Proof. induction s as [|c s IH]; cbn; [done|]. case_if; cbn; lia. Qed.

Lemma cstring_of_pad w n : (length (cstring_of (w ++ replicate n 0%Z)) <= length w)%nat.
Proof.
  induction w as [|c w IH]; cbn; [by rewrite cstring_of_zeros|]. case_if; cbn; lia.
Qed.

Lemma strip_spaces_length s : (length (strip_spaces s) <= length s)%nat.
Proof. induction s as [|c s IH]; cbn; [done|]. case_if; cbn; lia. Qed.

Lemma unpack_bytes_fits s pre n :
  (length s <= n)%nat →
  ∃ w t, unpack_bytes s (pre ++ replicate n 0) (Z.of_nat (length pre)) =
      Ok (t, pre ++ w ++ replicate (n - length w) 0) ∧
    (length w + length t = length s)%nat.
Proof.
  revert pre n. induction s as [|c s IH]; intros pre n Hn; cbn [unpack_bytes].
  - exists [], []. cbn. by rewrite Nat.sub_0_r.
  - case_if; [exists [], (c :: s); cbn; by rewrite Nat.sub_0_r|].
    destruct n as [|n]; cbn [length] in Hn; [lia|]. cbn [replicate].
    rewrite (aset_middle pre 0 c) by done. rewrite res_bind_Ok_l.
    replace (pre ++ c :: replicate n 0) with ((pre ++ [c]) ++ replicate n 0)
      by by rewrite <-app_assoc.
    replace (Z.of_nat (length pre) + 1) with (Z.of_nat (length (pre ++ [c])))
      by (rewrite length_app; cbn [length]; lia).
    destruct (IH (pre ++ [c]) n) as (w & t & -> & Hw); [lia|].
    exists (c :: w), t. rewrite <-app_assoc. cbn. split; [done|lia].
Qed.

Lemma roo_config_line c line :
  (length line <= 254)%nat → returns_or_overflows (config_line somaxconn c line).
Proof.
  intros Hlen. unfold config_line. cbv zeta.
  pose proof (cstring_of_length line) as H1.
  pose proof (strip_spaces_length (cstring_of line)) as H2.
  do 2 (case_match; [done|]).
  destruct (unpack_bytes_fits (strip_spaces (cstring_of line)) [] 255)
    as (key & t & Hk & Hl1); [lia|]. cbn [app length] in Hk.
  change (Z.of_nat 0) with 0 in Hk. rewrite Hk, res_bind_Ok_l.
  case_match; [done|]. pose proof (strip_spaces_length t) as Hs3.
  destruct (unpack_bytes_fits (strip_spaces t) [] 255)
    as (value & t' & Hv & Hl2); [lia|]. cbn [app length] in Hv.
  change (Z.of_nat 0) with 0 in Hv. rewrite Hv, res_bind_Ok_l.
  apply roo_add_config_value. pose proof (cstring_of_pad value (255 - length value)). lia.
Qed.

Lemma roo_config_load_loop fuel c fh :
  (length fh < fuel)%nat → returns_or_overflows (config_load_loop somaxconn fuel c fh).
Proof.
  revert c fh. induction fuel as [|fuel IH]; intros c fh Hf; [lia|].
  cbn [config_load_loop]. destruct fh as [|b fh]; [done|].
  destruct (fgets (0xff - 1) (b :: fh)) as [line fh'] eqn:E.
  assert (line ≠ []) as Hne.
  { pose proof (fgets_nonempty 253 b fh) as H. change (0xff - 1)%nat with 254%nat in E.
    by rewrite E in H. }
  destruct (fgets_spec _ _ _ _ E) as [Hl Hfh].
  apply roo_bind; [by apply roo_config_line|]. intros c' _. apply IH.
  rewrite Hfh, length_app in Hf. destruct line; [done|]. cbn [length] in Hf. lia.
Qed.
End any_file.

Lemma STREQ_head a s v t :
  STREQ (a :: s) (v :: t) (strlen (v :: t)) = true → tolower a = tolower v.
Proof.
  unfold STREQ, strlen. rewrite Nat2Z.id. cbn [length strncaseeq].
  intros [H _]%andb_true_iff. by apply Z.eqb_eq.
Qed.

Lemma STREQ_other_head a s v t :
  tolower a ≠ tolower v → STREQ (a :: s) (v :: t) (strlen (v :: t)) = false.
Proof. intros H. apply not_true_is_false. by intros ?%STREQ_head. Qed.

(** ** Properties *)

(** C35 a configuration file made of comments, blank lines and lines with a key
    and a value, separated and surrounded by any blanks, of at most 253 characters each, does what the entries
    do one after the other; the loop needs no more iterations than the file has
    bytes. *)
Theorem config_load_lines (somaxconn : Z) (c : config) (ls : list conf_line) :
  Forall line_ok ls →
  config_load somaxconn c (Some (render_file ls)) =
    (c' ← lines_config somaxconn c ls; mret (c', true)).
Proof.
  intros Hok. unfold config_load. by rewrite config_load_loop_spec by (done || lia).
Qed.

(** Whatever the bytes of the file, config_load comes to an end and stays
    within its arrays of 0xFF characters: it returns true, or a number of the
    file overflows an [int]. *)
Theorem config_load_safe (somaxconn : Z) (c : config) (fh : list Z) :
  (∃ c', config_load somaxconn c (Some fh) = Ok (c', true)) ∨
  config_load somaxconn c (Some fh) = Err SignedOverflow.
Proof.
  unfold config_load.
  pose proof (roo_config_load_loop somaxconn (S (length fh)) c fh ltac:(lia)) as H.
  destruct (config_load_loop _ _ c fh) as [c'|f]; cbn in *; [left; by eexists|].
  right. by subst.
Qed.

(** The setting mode cannot be STANDALONE: whatever its value, it selects
    CLUSTER, because the conditional expression that chooses becomes part of the
    expansion of the STREQ macro. *)
Theorem config_mode_cluster (somaxconn : Z) (c : config) (value : list Z) :
  add_config_value somaxconn c (str "mode") value = Ok (set_mode c CLUSTER).
Proof.
  unfold add_config_value, read_mode. change (strlen (str "mode")) with 4. streq_eval.
  by destruct (STREQ value (str "STANDALONE") 10).
Qed.

(** Log_level INFO and INFORMATION, and what abbreviates them, leave the
    level as it is: the loop stops before their entries of the table. *)
Theorem config_info_level (somaxconn : Z) (c : config) (value : list Z) :
  value ≠ [] → STREQ (str "INFORMATION") value (strlen value) = true →
  add_config_value somaxconn c (str "log_level") value = Ok c.
Proof.
  intros Hne Hv. unfold add_config_value. change (strlen (str "log_level")) with 9.
  streq_eval. destruct value as [|v value]; [done|].
  change (str "INFORMATION") with (73 :: str "NFORMATION") in Hv.
  pose proof (STREQ_head _ _ _ _ Hv) as Hhd.
  change (take 3 lmap) with [(68 :: str "EBUG", DEBUG); (87 :: str "ARNING", WARNING);
                             (69 :: str "RROR", ERROR)].
  cbn [foldl fst snd].
  rewrite !STREQ_other_head by (rewrite <-Hhd; done). done.
Qed.

Lemma config_load_lines_witness :
  config_load 4096 (mkConfig [] 0 0 0 0 0 [] [] [] 0 0 0 0)
    (Some (str "# comment
  max_memory  12Kb  x

ip_port 80
")) = Ok (mkConfig [] 0 0 0 0 0 [] [] (str "80") 12288 0 0 0, true).
Proof.
  pose proof (config_load_lines 4096 (mkConfig [] 0 0 0 0 0 [] [] [] 0 0 0 0)
    [Comment (str " comment"); Entry (str "  ") (str "max_memory") (str "  ") (str "12Kb") (str "  x");
     Blank []; Entry [] (str "ip_port") (str " ") (str "80") []]
    ltac:(apply (bool_decide_unpack _); vm_compute; exact I)) as H.
  etransitivity; [|etransitivity; [exact H|]]; vm_compute; reflexivity.
Defined.

Lemma config_info_level_witness :
  add_config_value 4096 (mkConfig [] 0 0 3 0 0 [] [] [] 0 0 0 0) (str "log_level") (str "Info") =
    Ok (mkConfig [] 0 0 3 0 0 [] [] [] 0 0 0 0).
Proof. apply config_info_level; [discriminate|vm_compute; reflexivity]. Defined.

(** Memory_to_string and read_memory_with_mul are inverse up to the unit: a
    size is written as a number of the largest unit it has, and reading the text
    gives the size rounded down to that unit.  The number is an [int], so sizes
    are below 2^61. *)
Theorem memory_string_roundtrip (m : Z) :
  0 < m < 2 ^ 61 →
  ∃ s, memory_to_string m = Ok s ∧
    read_memory_with_mul s = Ok (m / memory_unit m * memory_unit m).
Proof.
  intros Hm. eexists. split; [by apply memory_to_string_spec|]. apply read_memory_spec.
  unfold memory_unit, INT_MAX. repeat case_if; zbool; zdiv_lia.
Qed.

Lemma memory_string_roundtrip_witness :
  ∃ s, memory_to_string 5000000 = Ok s ∧ read_memory_with_mul s = Ok 4194304.
Proof. apply (memory_string_roundtrip 5000000). lia. Defined.

(** Time_to_string writes hours that read_time_with_mul does not know: a time
    of less than an hour or of a day and more reads back rounded down to its
    unit, one between them as that number of seconds. *)
Theorem time_string_reading (t : Z) :
  0 < t < 2 ^ 31 * 86400 →
  ∃ s, time_to_string t = Ok s ∧
    read_time_with_mul s =
      Ok (if (3600 <=? t) && (t <? 86400) then t / 3600
          else t / time_unit t * time_unit t).
Proof.
  intros Ht. eexists. split; [by apply time_to_string_spec|].
  rewrite read_time_spec by (unfold time_unit, INT_MAX; repeat case_if; zbool; zdiv_lia).
  f_equal. unfold time_read_unit, time_unit.
  destruct (Z.leb_spec 3600 t), (Z.ltb_spec t 86400), (Z.ltb_spec t 60), (Z.ltb_spec t 3600);
    cbn [andb]; lia.
Qed.

Lemma time_string_reading_witness :
  ∃ s, time_to_string 7300 = Ok s ∧ read_time_with_mul s = Ok 2.
Proof. apply (time_string_reading 7300). lia. Defined.
