(* ===== verification/Os.v ===== *)
(** * Descriptors and epoll: the system calls that the server uses

    The descriptors that are open, the epoll instances with their interest lists, and
    the counters of the eventfds.  What a call may choose (the number of a new
    descriptor, whether it fails, what is ready) is an argument.  The events of an
    entry are those of the kernel: EPOLLERR and EPOLLHUP are always among them, and the
    report of an entry with EPOLLONESHOT leaves only the flags, so that nothing is
    reported until the entry is modified. *)

From S2P Require Import Prelude.

(** ** Data *)

Definition EPOLLIN : Z := 0x001.
Definition EPOLLOUT : Z := 0x004.
Definition EPOLLERR : Z := 0x008.
Definition EPOLLHUP : Z := 0x010.
Definition EPOLLONESHOT : Z := 0x40000000.
Definition EPOLLET : Z := 0x80000000.

Definition ALWAYS : Z := Z.lor EPOLLERR EPOLLHUP.
Definition FLAGS : Z := Z.lor EPOLLET EPOLLONESHOT.

(** [struct epoll_event]; [data] is the union as 64 bits. *)
Record epoll_event := mkEpollEvent { ev_events : Z; ev_data : Z }.

#[export] Instance epoll_event_eq_dec : EqDecision epoll_event.
Proof. solve_decision. Defined.

(** [data.fd], an [int] in the low half of the union, and a union of which only that
    half was written; [junk] is the other half. *)
Definition data_fd (data : Z) : Z := s32 data.
Definition fd_data (junk fd : Z) : Z := u32 fd + 2 ^ 32 * u32 junk.

Inductive socktype := SOCK_STREAM | SOCK_DGRAM.

#[export] Instance socktype_eq_dec : EqDecision socktype.
Proof. solve_decision. Defined.

(** The type of a socket, and what the server sets for an open descriptor. *)
Record fdinfo := mkFd {
  fd_type : option socktype;           (* [None] for what is not a socket *)
  fd_nonblock : bool;
  fd_nodelay : bool;
  fd_reuse : bool;
  fd_bound : option (list Z);          (* the address *)
  fd_listen : option Z                 (* the backlog *)
}.

Definition new_fd : fdinfo := mkFd None false false false None None.
Definition new_socket (ty : socktype) : fdinfo := mkFd (Some ty) false false false None None.

Record os := mkOs {
  o_fds : gmap Z fdinfo;
  o_epolls : gmap Z (gmap Z epoll_event);
  o_counters : gmap Z Z
}.

(** ** System calls *)

(** A new descriptor, as [epoll_create1], [timerfd_create] and the like return it, and a new
    socket, as [socket] and [accept] do. *)
Definition os_open (o : os) (fd : Z) : os :=
  mkOs (<[fd := new_fd]> (o_fds o)) (o_epolls o) (o_counters o).

Definition os_socket (o : os) (ty : socktype) (fd : Z) : os :=
  mkOs (<[fd := new_socket ty]> (o_fds o)) (o_epolls o) (o_counters o).

(** A closed descriptor leaves every interest list. *)
Definition os_close (o : os) (fd : Z) : os * Z :=
  if decide (is_Some (o_fds o !! fd)) then
    (mkOs (delete fd (o_fds o)) (delete fd <$> delete fd (o_epolls o)) (delete fd (o_counters o)), 0)
  else (o, -1).

(** [fcntl], [setsockopt], [bind] and [listen] on an open descriptor. *)
Definition os_set (o : os) (fd : Z) (f : fdinfo → fdinfo) : os :=
  mkOs (alter f fd (o_fds o)) (o_epolls o) (o_counters o).

Definition set_interest (o : os) (efd : Z) (regs : gmap Z epoll_event) : os :=
  mkOs (o_fds o) (<[efd := regs]> (o_epolls o)) (o_counters o).

Definition epoll_create (o : os) (efd : Z) : os := set_interest (os_open o efd) efd ∅.

Inductive epoll_op := EPOLL_CTL_ADD | EPOLL_CTL_MOD | EPOLL_CTL_DEL.

Definition epoll_ctl (o : os) (efd : Z) (op : epoll_op) (fd : Z) (ev : epoll_event) : os * Z :=
  match o_epolls o !! efd with
  | None => (o, -1)
  | Some regs =>
      let ev := mkEpollEvent (Z.lor (ev_events ev) ALWAYS) (ev_data ev) in
      if decide (is_Some (o_fds o !! fd)) then
        match op, regs !! fd with
        | EPOLL_CTL_ADD, None => (set_interest o efd (<[fd := ev]> regs), 0)
        | EPOLL_CTL_MOD, Some _ => (set_interest o efd (<[fd := ev]> regs), 0)
        | EPOLL_CTL_DEL, Some _ => (set_interest o efd (delete fd regs), 0)
        | _, _ => (o, -1)
        end
      else (o, -1)
  end.

(** The entry of [fd] is reported when one of its events is [ready]. *)
Definition epoll_report (o : os) (efd fd ready : Z) : option (os * epoll_event) :=
  regs ← o_epolls o !! efd;
  r ← regs !! fd;
  let es := Z.land (ev_events r) (Z.land ready (Z.lnot FLAGS)) in
  if es =? 0 then None
  else
    let r' := if Z.land (ev_events r) EPOLLONESHOT =? 0 then r
              else mkEpollEvent (Z.land (ev_events r) FLAGS) (ev_data r) in
    Some (set_interest o efd (<[fd := r']> regs), mkEpollEvent es (ev_data r)).

(** [eventfd(n, ...)], [eventfd_write] and [eventfd_read], which fails on 0. *)
Definition eventfd (o : os) (fd n : Z) : os :=
  let o := os_open o fd in mkOs (o_fds o) (o_epolls o) (<[fd := n]> (o_counters o)).

Definition eventfd_write (o : os) (fd n : Z) : os :=
  match o_counters o !! fd with
  | Some k => mkOs (o_fds o) (o_epolls o) (<[fd := k + n]> (o_counters o))
  | None => o
  end.

Definition eventfd_read (o : os) (fd : Z) : os * option Z :=
  match o_counters o !! fd with
  | Some k =>
      if 0 <? k then (mkOs (o_fds o) (o_epolls o) (<[fd := 0]> (o_counters o)), Some k)
      else (o, None)
  | None => (o, None)
  end.

(** ** Interest lists *)

(** The entry of [fd] in the interest list of [efd]. *)
Definition registered (o : os) (efd fd : Z) : option epoll_event :=
  o_epolls o !! efd ≫= λ regs, regs !! fd.

(** What [epoll_ctl] stores for [evs], and what a report leaves of it. *)
Definition armed (evs data : Z) : epoll_event :=
  mkEpollEvent (Z.lor (Z.lor evs FLAGS) ALWAYS) data.
Definition disarmed (data : Z) : epoll_event := mkEpollEvent FLAGS data.

Lemma data_fd_data junk fd : -2 ^ 31 <= fd < 2 ^ 31 → data_fd (fd_data junk fd) = fd.
Proof. intros H. unfold data_fd, fd_data, s32, u32. zdiv_lia. Qed.

(** Only open descriptors are registered or have a counter. *)
Record os_wf (o : os) : Prop := {
  wf_epolls efd regs : o_epolls o !! efd = Some regs → is_Some (o_fds o !! efd);
  wf_regs efd fd r : registered o efd fd = Some r → is_Some (o_fds o !! fd);
  wf_counters fd n : o_counters o !! fd = Some n → is_Some (o_fds o !! fd)
}.

(** A descriptor that was not open leaves no trace once it is closed. *)
Lemma close_fresh o fd i :
  os_wf o → o_fds o !! fd = None →
  os_close (mkOs (<[fd := i]> (o_fds o)) (o_epolls o) (o_counters o)) fd = (o, 0).
Proof.
  intros Hwf Hfd. unfold os_close. cbn [o_fds o_epolls o_counters].
  rewrite decide_True by (rewrite lookup_insert_eq; by eexists).
  rewrite delete_insert_id by done.
  assert (∀ x, o_counters o !! fd = x → x = None) as Hc.
  { intros [n|] Hx; [|done]. apply (wf_counters _ Hwf) in Hx as [? Hx]. congruence. }
  assert (o_epolls o !! fd = None) as He.
  { destruct (o_epolls o !! fd) eqn:E; [|done]. apply (wf_epolls _ Hwf) in E as [? E]. congruence. }
  rewrite (delete_id (o_counters o)) by (by eapply Hc). rewrite (delete_id (o_epolls o)) by done.
  replace (delete fd <$> o_epolls o) with (o_epolls o); [by destruct o|].
  apply map_eq. intros efd. rewrite lookup_fmap. destruct (o_epolls o !! efd) as [regs|] eqn:E; [|done].
  cbn. rewrite delete_id; [done|]. destruct (regs !! fd) as [r|] eqn:Er; [|done].
  assert (is_Some (o_fds o !! fd)) as [? H].
  { apply (wf_regs _ Hwf efd fd r). unfold registered. by rewrite E. }
  congruence.
Qed.

(** ** Interest lists after a call *)

Lemma registered_insert o efd regs fd r efd' fd' :
  o_epolls o !! efd = Some regs →
  registered (set_interest o efd (<[fd := r]> regs)) efd' fd' =
    if decide (efd' = efd ∧ fd' = fd) then Some r else registered o efd' fd'.
Proof.
  intros He. unfold registered. cbn. destruct (decide (efd' = efd)) as [->|Hne].
  - rewrite lookup_insert_eq, He. cbn. destruct (decide (fd' = fd)) as [->|Hf].
    + by rewrite lookup_insert_eq, decide_True.
    + by rewrite lookup_insert_ne, decide_False by naive_solver.
  - by rewrite lookup_insert_ne, decide_False by naive_solver.
Qed.

Lemma registered_regs o efd fd r :
  registered o efd fd = Some r → ∃ regs, o_epolls o !! efd = Some regs ∧ regs !! fd = Some r.
Proof. unfold registered. destruct (o_epolls o !! efd) as [regs|]; [|done]. by exists regs. Qed.

(** [epoll_ctl] on an open descriptor. *)
Lemma epoll_ctl_mod o efd fd r ev :
  registered o efd fd = Some r → is_Some (o_fds o !! fd) →
  ∃ o', epoll_ctl o efd EPOLL_CTL_MOD fd ev = (o', 0) ∧ o_fds o' = o_fds o ∧
    o_counters o' = o_counters o ∧ dom (o_epolls o') = dom (o_epolls o) ∧
    ∀ efd' fd', registered o' efd' fd' =
      if decide (efd' = efd ∧ fd' = fd) then Some (mkEpollEvent (Z.lor (ev_events ev) ALWAYS) (ev_data ev))
      else registered o efd' fd'.
Proof.
  intros (regs & He & Hr)%registered_regs Hfd. unfold epoll_ctl. rewrite He, decide_True, Hr by done.
  eexists. split_and!; [done|done|done| |].
  - cbn. rewrite dom_insert_L. apply elem_of_dom_2 in He. set_solver.
  - intros. by rewrite registered_insert.
Qed.

Lemma epoll_ctl_add o efd fd ev :
  is_Some (o_epolls o !! efd) → registered o efd fd = None → is_Some (o_fds o !! fd) →
  ∃ o', epoll_ctl o efd EPOLL_CTL_ADD fd ev = (o', 0) ∧ o_fds o' = o_fds o ∧
    o_counters o' = o_counters o ∧ dom (o_epolls o') = dom (o_epolls o) ∧
    ∀ efd' fd', registered o' efd' fd' =
      if decide (efd' = efd ∧ fd' = fd) then Some (mkEpollEvent (Z.lor (ev_events ev) ALWAYS) (ev_data ev))
      else registered o efd' fd'.
Proof.
  intros [regs He] Hn Hfd. unfold registered in Hn. rewrite He in Hn. cbn in Hn.
  unfold epoll_ctl. rewrite He, decide_True, Hn by done.
  eexists. split_and!; [done|done|done| |].
  - cbn. rewrite dom_insert_L. apply elem_of_dom_2 in He. set_solver.
  - intros. by rewrite registered_insert.
Qed.

(** The report of an armed entry, which it disarms. *)
Lemma epoll_report_spec o efd fd ready o' e :
  epoll_report o efd fd ready = Some (o', e) →
  ∃ r, registered o efd fd = Some r ∧
    ev_events e = Z.land (ev_events r) (Z.land ready (Z.lnot FLAGS)) ∧ ev_events e ≠ 0 ∧
    ev_data e = ev_data r ∧ o_fds o' = o_fds o ∧ o_counters o' = o_counters o ∧
    dom (o_epolls o') = dom (o_epolls o) ∧
    ∀ efd' fd', registered o' efd' fd' =
      if decide (efd' = efd ∧ fd' = fd) then
        Some (if Z.land (ev_events r) EPOLLONESHOT =? 0 then r
              else mkEpollEvent (Z.land (ev_events r) FLAGS) (ev_data r))
      else registered o efd' fd'.
Proof.
  unfold epoll_report. destruct (o_epolls o !! efd) as [regs|] eqn:He; [|done]. cbn.
  destruct (regs !! fd) as [r|] eqn:Hr; [|done]. cbn.
  destruct (Z.eqb_spec (Z.land (ev_events r) (Z.land ready (Z.lnot FLAGS))) 0) as [|Hn]; [done|].
  intros [= <- <-]. exists r. split_and!; try done.
  - unfold registered. by rewrite He.
  - cbn. rewrite dom_insert_L. apply elem_of_dom_2 in He. set_solver.
  - intros. by rewrite registered_insert.
Qed.

Lemma os_close_spec o fd :
  is_Some (o_fds o !! fd) →
  ∃ o', os_close o fd = (o', 0) ∧ o_fds o' = delete fd (o_fds o) ∧
    o_counters o' = delete fd (o_counters o) ∧ dom (o_epolls o') = dom (o_epolls o) ∖ {[fd]} ∧
    ∀ efd' fd', registered o' efd' fd' =
      if decide (efd' = fd ∨ fd' = fd) then None else registered o efd' fd'.
Proof.
  intros Hfd. unfold os_close. rewrite decide_True by done.
  eexists. split_and!; [done|done|done| |].
  - cbn. by rewrite dom_fmap_L, dom_delete_L.
  - intros efd' fd'. unfold registered. cbn. rewrite lookup_fmap.
    destruct (decide (efd' = fd)) as [->|Hne].
    + rewrite lookup_delete_eq, decide_True by by left. done.
    + rewrite lookup_delete_ne by done. destruct (o_epolls o !! efd') as [regs|]; cbn; [|by case_decide].
      destruct (decide (fd' = fd)) as [->|Hf].
      * rewrite lookup_delete_eq, decide_True by by right. done.
      * rewrite lookup_delete_ne, decide_False by naive_solver. done.
Qed.

(** ** What is reported *)

Lemma land_pow2 k z : 0 <= k → Z.land (2 ^ k) z = if Z.testbit z k then 2 ^ k else 0.
Proof.
  intros Hk. apply Z.bits_inj'. intros n Hn. rewrite Z.land_spec, Z.pow2_bits_eqb by done.
  destruct (Z.eqb_spec k n) as [->|Hne]; cbn.
  - destruct (Z.testbit z n); [|by rewrite Z.bits_0]. by rewrite Z.pow2_bits_true.
  - destruct (Z.testbit z k); [|by rewrite Z.bits_0]. by rewrite Z.pow2_bits_false.
Qed.

(** Without errors and hang-ups. *)
Definition no_error (ready : Z) : Prop := Z.land ready ALWAYS = 0.

Lemma flags_report ready evs flags :
  no_error ready → Z.land evs FLAGS = 0 → Z.land flags FLAGS = flags →
  Z.land (Z.lor (Z.lor evs flags) ALWAYS) (Z.land ready (Z.lnot FLAGS)) = Z.land evs ready.
Proof.
  unfold no_error. intros Ha Hf Hfl. apply Z.bits_inj'. intros n Hn.
  rewrite !Z.land_spec, !Z.lor_spec, Z.lnot_spec by done.
  apply (f_equal (λ z, Z.testbit z n)) in Ha, Hf, Hfl. cbn beta in *.
  rewrite Z.land_spec, Z.bits_0 in Ha, Hf. rewrite Z.land_spec in Hfl.
  destruct (Z.testbit ready n), (Z.testbit evs n), (Z.testbit FLAGS n), (Z.testbit ALWAYS n),
    (Z.testbit flags n); (done || discriminate).
Qed.

Lemma armed_report ready evs d :
  no_error ready → Z.land evs FLAGS = 0 →
  Z.land (ev_events (armed evs d)) (Z.land ready (Z.lnot FLAGS)) = Z.land evs ready.
Proof. intros. by apply flags_report; [..|apply Z.land_diag]. Qed.

Lemma disarmed_report ready d :
  Z.land (ev_events (disarmed d)) (Z.land ready (Z.lnot FLAGS)) = 0.
Proof.
  apply Z.bits_inj'. intros n Hn. rewrite !Z.land_spec, Z.lnot_spec, Z.bits_0 by done. cbn [disarmed ev_events].
  by destruct (Z.testbit FLAGS n), (Z.testbit ready n).
Qed.

(** An armed entry is reported with its event, and is disarmed. *)
Lemma report_armed o efd fd ready o' e k d :
  registered o efd fd = Some (armed (2 ^ k) d) → 0 <= k → Z.land (2 ^ k) FLAGS = 0 →
  Z.land (2 ^ k) EPOLLONESHOT = 0 → no_error ready → epoll_report o efd fd ready = Some (o', e) →
  e = mkEpollEvent (2 ^ k) d ∧ o_fds o' = o_fds o ∧ o_counters o' = o_counters o ∧
    dom (o_epolls o') = dom (o_epolls o) ∧
    ∀ efd' fd', registered o' efd' fd' =
      if decide (efd' = efd ∧ fd' = fd) then Some (disarmed d) else registered o efd' fd'.
Proof.
  intros Hr Hk Hf Hs Hn (r & Hr' & He & Hne & Hd & Hfd & Hc & Hdom & Hreg)%epoll_report_spec.
  rewrite Hr in Hr'. injection Hr' as <-. rewrite armed_report, land_pow2 in He by done.
  split_and!; try done.
  - destruct e as [es ed]. cbn in *. subst. by destruct (Z.testbit ready k).
  - intros efd' fd'. rewrite Hreg. case_decide; [|done]. f_equal. unfold armed, disarmed. cbn [ev_events ev_data].
    assert (Z.land (Z.lor (Z.lor (2 ^ k) FLAGS) ALWAYS) EPOLLONESHOT = EPOLLONESHOT) as ->.
    { rewrite !Z.land_lor_distr_l, Hs. reflexivity. }
    change (EPOLLONESHOT =? 0) with false. cbv iota. f_equal.
    rewrite !Z.land_lor_distr_l, Hf, Z.land_diag. reflexivity.
Qed.

Lemma report_disarmed o efd fd ready d :
  registered o efd fd = Some (disarmed d) → epoll_report o efd fd ready = None.
Proof.
  intros Hr. destruct (epoll_report o efd fd ready) as [[o' e]|] eqn:E; [|done].
  apply epoll_report_spec in E as (r & Hr' & He & Hne & _). rewrite Hr in Hr'. injection Hr' as <-.
  by rewrite disarmed_report in He.
Qed.

(** It is reported just when its event is ready. *)
Lemma report_some o efd fd ready r :
  registered o efd fd = Some r →
  bool_decide (is_Some (epoll_report o efd fd ready)) =
    negb (Z.land (ev_events r) (Z.land ready (Z.lnot FLAGS)) =? 0).
Proof.
  intros (regs & He & Hr)%registered_regs. unfold epoll_report. rewrite He. cbn [mbind option_bind].
  rewrite Hr. cbn [mbind option_bind]. by destruct (_ =? 0).
Qed.

Lemma report_armed_iff o efd fd ready k d :
  registered o efd fd = Some (armed (2 ^ k) d) → Z.land (2 ^ k) FLAGS = 0 → no_error ready →
  bool_decide (is_Some (epoll_report o efd fd ready)) = negb (Z.land (2 ^ k) ready =? 0).
Proof. intros Hr Hk Hn. by rewrite (report_some _ _ _ _ _ Hr), armed_report. Qed.

(** The entries without EPOLLONESHOT: those of the eventfd [run] and of the timer. *)
Definition watched (r : epoll_event) : Prop :=
  ev_events r = Z.lor (Z.lor EPOLLIN EPOLLET) ALWAYS ∨ ev_events r = Z.lor EPOLLIN ALWAYS.

Lemma report_watched o efd fd ready o' e r :
  registered o efd fd = Some r → watched r → no_error ready →
  epoll_report o efd fd ready = Some (o', e) →
  e = mkEpollEvent EPOLLIN (ev_data r) ∧ o_fds o' = o_fds o ∧ o_counters o' = o_counters o ∧
    dom (o_epolls o') = dom (o_epolls o) ∧ ∀ efd' fd', registered o' efd' fd' = registered o efd' fd'.
Proof.
  intros Hr Hw Hn (r' & Hr' & He & Hne & Hd & Hfd & Hc & Hdom & Hreg)%epoll_report_spec.
  rewrite Hr in Hr'. injection Hr' as <-.
  assert (Z.land (ev_events r) (Z.land ready (Z.lnot FLAGS)) = Z.land EPOLLIN ready ∧
          Z.land (ev_events r) EPOLLONESHOT = 0) as [H1 H2].
  { split; destruct Hw as [->| ->]; [| |reflexivity..].
    - by apply flags_report.
    - change (Z.lor EPOLLIN ALWAYS) with (Z.lor (Z.lor EPOLLIN 0) ALWAYS). by apply flags_report. }
  rewrite H1 in He. change EPOLLIN with (2 ^ 0) in He. rewrite land_pow2 in He by done.
  split_and!; try done.
  - destruct e as [es ed]. cbn [ev_events ev_data] in *. subst. by destruct (Z.testbit ready 0).
  - intros efd' fd'. rewrite Hreg, H2. case_decide as E; [|done]. destruct E as [-> ->]. by rewrite Hr.
Qed.

Lemma report_watched_iff o efd fd ready r :
  registered o efd fd = Some r → watched r → no_error ready →
  bool_decide (is_Some (epoll_report o efd fd ready)) = negb (Z.land EPOLLIN ready =? 0).
Proof.
  intros Hr Hw Hn. rewrite (report_some _ _ _ _ _ Hr). do 2 f_equal.
  destruct Hw as [->| ->]; [by apply (flags_report ready EPOLLIN EPOLLET)|].
  rewrite <-(Z.lor_0_r EPOLLIN) at 1. by apply (flags_report ready EPOLLIN 0).
Qed.

(** An armed entry can be reported. *)
Lemma report_ready o efd fd k d :
  registered o efd fd = Some (armed (2 ^ k) d) → 0 <= k → Z.land (2 ^ k) FLAGS = 0 →
  no_error (2 ^ k) → ∃ o', epoll_report o efd fd (2 ^ k) = Some (o', mkEpollEvent (2 ^ k) d).
Proof.
  intros (regs & He & Hr)%registered_regs Hk Hf Hn. unfold epoll_report. rewrite He. cbn [mbind option_bind]. rewrite Hr. cbn [mbind option_bind].
  rewrite armed_report, Z.land_diag by done.
  rewrite (proj2 (Z.eqb_neq (2 ^ k) 0)) by lia. by eexists.
Qed.

(** ** The invariant is kept *)

Lemma os_wf_change o o' :
  os_wf o → (∀ fd, is_Some (o_fds o !! fd) → is_Some (o_fds o' !! fd)) →
  (∀ efd, is_Some (o_epolls o' !! efd) → is_Some (o_epolls o !! efd) ∨ is_Some (o_fds o' !! efd)) →
  (∀ efd fd r, registered o' efd fd = Some r →
     is_Some (registered o efd fd) ∨ is_Some (o_fds o' !! fd)) →
  (∀ fd n, o_counters o' !! fd = Some n → is_Some (o_counters o !! fd) ∨ is_Some (o_fds o' !! fd)) →
  os_wf o'.
Proof.
  intros [He Hr Hc] Hf Hpe Hpr Hpc. split.
  - intros efd regs H. destruct (Hpe efd) as [[regs' H']|?]; [by eexists| |done]. eauto.
  - intros efd fd r H. destruct (Hpr efd fd r H) as [[r' H']|?]; [eauto|done].
  - intros fd n H. destruct (Hpc fd n H) as [[n' H']|?]; [eauto|done].
Qed.

Lemma dom_epolls_eq o o' efd :
  dom (o_epolls o') = dom (o_epolls o) → is_Some (o_epolls o' !! efd) ↔ is_Some (o_epolls o !! efd).
Proof. intros H. by rewrite <-!elem_of_dom, H. Qed.

(** A call that only changes the entry of an open descriptor. *)
Lemma os_wf_entry o o' efd fd x :
  os_wf o → o_fds o' = o_fds o → o_counters o' = o_counters o → dom (o_epolls o') = dom (o_epolls o) →
  is_Some (o_fds o !! fd) →
  (∀ efd' fd', registered o' efd' fd' =
     if decide (efd' = efd ∧ fd' = fd) then x else registered o efd' fd') →
  os_wf o'.
Proof.
  intros Hwf Hf Hc Hd Hfd Hr. apply (os_wf_change o); [done|by rewrite Hf| | |].
  - intros ? ?. left. by apply (dom_epolls_eq o o').
  - intros efd' fd' r H. rewrite Hr in H. case_decide as E; [|by left; rewrite H].
    destruct E as [_ ->]. right. by rewrite Hf.
  - intros ? ? H. left. rewrite <-Hc, H. by eexists.
Qed.

Lemma os_wf_close o fd o' :
  os_wf o → o_fds o' = delete fd (o_fds o) → o_counters o' = delete fd (o_counters o) →
  dom (o_epolls o') = dom (o_epolls o) ∖ {[fd]} →
  (∀ efd' fd', registered o' efd' fd' =
     if decide (efd' = fd ∨ fd' = fd) then None else registered o efd' fd') →
  os_wf o'.
Proof.
  intros [He Hr Hc] Hf Hcn Hd Hreg. split.
  - intros efd regs H. assert (efd ∈ dom (o_epolls o')) as Hin by by eapply elem_of_dom_2.
    rewrite Hd in Hin. apply elem_of_difference in Hin as [Hin Hne].
    apply elem_of_dom in Hin as [regs' Hin]. rewrite Hf, lookup_delete_ne by set_solver. eauto.
  - intros efd fd' r H. rewrite Hreg in H. case_decide as E; [done|].
    rewrite Hf, lookup_delete_ne by naive_solver. eauto.
  - intros fd' n H. rewrite Hcn in H. apply lookup_delete_Some in H as [Hne H].
    rewrite Hf, lookup_delete_ne by done. eauto.
Qed.

(** A new descriptor is in no list. *)
Lemma fresh_registered o efd fd : os_wf o → o_fds o !! fd = None → registered o efd fd = None.
Proof.
  intros Hwf Hfd. destruct (registered o efd fd) as [r|] eqn:E; [|done].
  apply (wf_regs _ Hwf) in E as [? E]. congruence.
Qed.

Lemma fresh_counter o fd : os_wf o → o_fds o !! fd = None → o_counters o !! fd = None.
Proof.
  intros Hwf Hfd. destruct (o_counters o !! fd) as [n|] eqn:E; [|done].
  apply (wf_counters _ Hwf) in E as [? E]. congruence.
Qed.

Lemma os_wf_open o fd : os_wf o → os_wf (os_open o fd).
Proof.
  intros Hwf. apply (os_wf_change o); [done| |by left| |].
  - intros. by apply lookup_insert_is_Some'; right.
  - intros efd fd' r H. left. change (registered o efd fd' = Some r) in H. by rewrite H.
  - intros fd' n H. left. cbn in H. by rewrite H.
Qed.

Lemma os_wf_eventfd o fd n : os_wf o → os_wf (eventfd o fd n).
Proof.
  intros Hwf. apply (os_wf_change (os_open o fd)); [by apply os_wf_open|done|by left| |].
  - intros efd fd' r H. left. change (registered (os_open o fd) efd fd' = Some r) in H. by rewrite H.
  - intros fd' m H. cbn in H. destruct (decide (fd' = fd)) as [->|Hne].
    + right. cbn. rewrite lookup_insert_eq. by eexists.
    + rewrite lookup_insert_ne in H by done. left. cbn. by rewrite H.
Qed.

Lemma os_wf_counter o fd n m :
  os_wf o → o_counters o !! fd = Some n → os_wf (mkOs (o_fds o) (o_epolls o) (<[fd := m]> (o_counters o))).
Proof.
  intros Hwf Hc. apply (os_wf_change o); [done|done|by left| |].
  - intros efd fd' r H. left. change (registered o efd fd' = Some r) in H. by rewrite H.
  - intros fd' k H. cbn in H. destruct (decide (fd' = fd)) as [->|Hne]; [by left; rewrite Hc|].
    rewrite lookup_insert_ne in H by done. left. by rewrite H.
Qed.

Lemma eventfd_read_frame o fd :
  o_fds (eventfd_read o fd).1 = o_fds o ∧ o_epolls (eventfd_read o fd).1 = o_epolls o ∧
  (∀ fd', fd' ≠ fd → o_counters (eventfd_read o fd).1 !! fd' = o_counters o !! fd') ∧
  (o_counters o !! fd = None → o_counters (eventfd_read o fd).1 !! fd = None) ∧
  (os_wf o → os_wf (eventfd_read o fd).1).
Proof.
  unfold eventfd_read. destruct (o_counters o !! fd) as [k|] eqn:E; [|by split_and!].
  destruct (0 <? k); [|by split_and!]. split_and!; try done.
  - intros fd' Hne. cbn. by rewrite lookup_insert_ne.
  - cbn. intros Hwf. by eapply os_wf_counter.
Qed.
