(* ===== verification/Sockets.v ===== *)
(** * Sockets: the rest of src/network.c

    The functions that create, bind and accept sockets and that register descriptors
    with epoll.  A system call that can fail has its outcome as an argument or, for the
    calls that [create_and_bind] makes for one address, in the record of that address. *)

From S2P Require Import Prelude Config Os.

(** ** Data *)

Definition UDP : Z := 2.

(** An address that [getaddrinfo] returns, with what [socket] (the new descriptor, or
    [None] for -1), [setsockopt] and [bind] will answer for it. *)
Record addrinfo := mkAi {
  ai_addr : list Z;
  ai_socket : option Z;
  ai_reuse : bool;
  ai_bind : bool
}.

(** The answers of the other calls. *)
Record answers := mkAnswers {
  an_getaddrinfo : option (list addrinfo);   (* TCP and UDP *)
  an_socket : option Z;                      (* Unix *)
  an_bind : bool;                            (* Unix *)
  an_getfl : bool;
  an_setfl : bool;
  an_listen : bool
}.

Definition nonblocking (i : fdinfo) : fdinfo :=
  mkFd (fd_type i) true (fd_nodelay i) (fd_reuse i) (fd_bound i) (fd_listen i).
Definition nodelay (i : fdinfo) : fdinfo :=
  mkFd (fd_type i) (fd_nonblock i) true (fd_reuse i) (fd_bound i) (fd_listen i).
Definition reuseaddr (i : fdinfo) : fdinfo :=
  mkFd (fd_type i) (fd_nonblock i) (fd_nodelay i) true (fd_bound i) (fd_listen i).
Definition bound_to (addr : list Z) (i : fdinfo) : fdinfo :=
  mkFd (fd_type i) (fd_nonblock i) (fd_nodelay i) (fd_reuse i) (Some addr) (fd_listen i).
Definition listening (backlog : Z) (i : fdinfo) : fdinfo :=
  mkFd (fd_type i) (fd_nonblock i) (fd_nodelay i) (fd_reuse i) (fd_bound i) (Some backlog).

(** ** Operations *)

Definition set_nonblocking (an : answers) (o : os) (fd : Z) : os * Z :=
  if negb (an_getfl an) then (o, -1)
  else if negb (an_setfl an) then (o, -1)
  else (os_set o fd nonblocking, 0).

Definition set_tcp_nodelay (o : os) (fd : Z) : os := os_set o fd nodelay.

(** [sun_path] has 108 characters, the last of them 0. *)
Definition SUN_PATH : nat := 108.

Definition create_and_bind_unix (an : answers) (o : os) (sockpath : list Z) : os * Z :=
  match an_socket an with
  | None => (o, -1)
  | Some fd =>
      let o := os_socket o SOCK_STREAM fd in
      if an_bind an then (os_set o fd (bound_to (take (SUN_PATH - 1) sockpath)), fd)
      else (o, -1)
  end.

(** The loop over the addresses; -1 stands for its end without a break.  [getaddrinfo]
    returns addresses of the type that the hints ask for. *)
Fixpoint bind_loop (ty : socktype) (o : os) (rps : list addrinfo) : os * Z :=
  match rps with
  | [] => (o, -1)
  | rp :: rps =>
      match ai_socket rp with
      | None => bind_loop ty o rps
      | Some sfd =>
          let o := os_socket o ty sfd in
          let o := if ai_reuse rp then os_set o sfd reuseaddr else o in
          if ai_bind rp then (os_set o sfd (bound_to (ai_addr rp)), sfd)
          else bind_loop ty (os_close o sfd).1 rps
      end
  end.

Definition create_and_bind_tcp (an : answers) (o : os) : os * Z :=
  match an_getaddrinfo an with
  | None => (o, -1)
  | Some result => bind_loop SOCK_STREAM o result
  end.

Definition create_and_bind_udp (an : answers) (o : os) : os * Z :=
  match an_getaddrinfo an with
  | None => (o, -1)
  | Some result => bind_loop SOCK_DGRAM o result
  end.

Definition create_and_bind (an : answers) (o : os) (host : list Z) (family : Z) : os * Z :=
  if family =? UNIX then create_and_bind_unix an o host
  else if family =? UDP then create_and_bind_udp an o
  else create_and_bind_tcp an o.

(** [listen], which fails on a socket that is not a stream; [None] is -1. *)
Definition os_listen (an : answers) (o : os) (fd backlog : Z) : option os :=
  if bool_decide (o_fds o !! fd ≫= fd_type = Some SOCK_STREAM) && an_listen an
  then Some (os_set o fd (listening backlog)) else None.

(** [None] is [abort()]. *)
Definition make_listen (an : answers) (o : os) (host : list Z) (family backlog : Z)
  : option (os * Z) :=
  let '(o, sfd) := create_and_bind an o host family in
  if sfd =? -1 then None
  else
    let '(o, rc) := set_nonblocking an o sfd in
    if rc =? -1 then None
    else
      let o := if family =? INET then set_tcp_nodelay o sfd else o in
      match os_listen an o sfd backlog with
      | Some o => Some (o, sfd)
      | None => None
      end.

(** [accepted] is the descriptor that [accept] returns; [inet_ntop] of an IPv4 address
    into 17 characters does not fail. *)
Definition accept_connection (an : answers) (o : os) (family : Z) (accepted : option Z) : os * Z :=
  match accepted with
  | None => (o, -1)
  | Some clientsock =>
      let o := os_socket o SOCK_STREAM clientsock in
      let '(o, _) := set_nonblocking an o clientsock in
      (if family =? INET then set_tcp_nodelay o clientsock else o, clientsock)
  end.

(** A null pointer leaves the descriptor in the union. *)
Definition ctl_data (junk fd : Z) (data : option Z) : Z :=
  match data with Some p => p | None => fd_data junk fd end.

Definition epoll_add (junk : Z) (o : os) (efd fd evs : Z) (data : option Z) : os * Z :=
  epoll_ctl o efd EPOLL_CTL_ADD fd (mkEpollEvent (Z.lor evs EPOLLET) (ctl_data junk fd data)).

Definition epoll_mod (junk : Z) (o : os) (efd fd evs : Z) (data : option Z) : os * Z :=
  epoll_ctl o efd EPOLL_CTL_MOD fd
    (mkEpollEvent (Z.lor (Z.lor evs EPOLLET) EPOLLONESHOT) (ctl_data junk fd data)).

Definition epoll_del (o : os) (efd fd : Z) : os * Z :=
  epoll_ctl o efd EPOLL_CTL_DEL fd (mkEpollEvent 0 0).

(** [created] is the descriptor of [timerfd_create], [settime] whether the timer
    can be set. *)
Definition add_cron_task (junk : Z) (o : os) (epollfd created : Z) (settime : bool) : os * Z :=
  let o := os_open o created in
  if negb settime then (o, -1)
  else
    let '(o, rc) := epoll_ctl o epollfd EPOLL_CTL_ADD created
                      (mkEpollEvent EPOLLIN (fd_data junk created)) in
    if rc <? 0 then (o, -1) else (o, created).

(** ** Binding *)

(** The first address that a socket can be made for and bound to. *)
Definition bindable (rp : addrinfo) : Prop := is_Some (ai_socket rp) ∧ ai_bind rp = true.

#[export] Instance bindable_dec rp : Decision (bindable rp).
Proof. unfold bindable. apply _. Defined.

(** The descriptor that [socket] returns is not open. *)
Definition fresh_sockets (o : os) (rps : list addrinfo) : Prop :=
  Forall (λ rp, ∀ fd, ai_socket rp = Some fd → 0 <= fd ∧ o_fds o !! fd = None) rps.

Definition with_fd (o : os) (fd : Z) (i : fdinfo) : os :=
  mkOs (<[fd := i]> (o_fds o)) (o_epolls o) (o_counters o).

Lemma os_set_with o fd i f : os_set (with_fd o fd i) fd f = with_fd o fd (f i).
Proof. unfold os_set, with_fd. cbn. by rewrite alter_insert_eq. Qed.

Lemma bind_loop_spec ty o rps :
  os_wf o → fresh_sockets o rps →
  bind_loop ty o rps =
    match list_find bindable rps with
    | Some (_, rp) =>
        let fd := default (-1) (ai_socket rp) in
        (with_fd o fd (mkFd (Some ty) false false (ai_reuse rp) (Some (ai_addr rp)) None), fd)
    | None => (o, -1)
    end.
Proof.
  intros Hwf Hfr. induction Hfr as [|rp rps Hrp Hfr IH]; [done|]. cbn [bind_loop list_find].
  destruct (ai_socket rp) as [fd|] eqn:Es.
  - destruct (Hrp fd) as [_ Hfd]; [done|].
    change (os_socket o ty fd) with (with_fd o fd (new_socket ty)). destruct (ai_bind rp) eqn:Eb.
    + rewrite decide_True by (split; [by eexists|done]). cbn. rewrite Es. cbn.
      destruct (ai_reuse rp); by rewrite !os_set_with.
    + rewrite decide_False by (intros [_ ?]; congruence).
      replace (os_close (if ai_reuse rp then os_set (with_fd o fd (new_socket ty)) fd reuseaddr
                         else with_fd o fd (new_socket ty)) fd) with (o, 0).
      * cbn [fst]. rewrite IH. by destruct (list_find bindable rps) as [[? ?]|].
      * destruct (ai_reuse rp); rewrite ?os_set_with; unfold with_fd; by rewrite close_fresh.
  - rewrite decide_False by (intros [[? ?] _]; congruence).
    rewrite IH. by destruct (list_find bindable rps) as [[? ?]|].
Qed.

(** ** Properties *)

(** The answers that [make_listen] needs once a socket is bound: [fcntl] works, and [listen]
    does, which it cannot on a datagram socket. *)
Definition can_listen (an : answers) (family : Z) : bool :=
  an_getfl an && an_setfl an && an_listen an && negb (family =? UDP).

(** C36 Make_listen for a family other than Unix, whatever the system calls answer: the socket
    that it returns is that of the first address that getaddrinfo gives and that can be
    bound, bound to it, non-blocking and listening with the configured backlog, with
    TCP_NODELAY for INET, and it is the only descriptor that is new; the process
    aborts when getaddrinfo fails, when no address can be bound, when fcntl or listen fails,
    and always for UDP, since a datagram socket cannot listen. *)
Theorem make_listen_correct an o host family backlog :
  os_wf o → family ≠ UNIX → fresh_sockets o (default [] (an_getaddrinfo an)) →
  make_listen an o host family backlog =
    match list_find bindable (default [] (an_getaddrinfo an)) with
    | Some (_, rp) =>
        let fd := default (-1) (ai_socket rp) in
        let i := mkFd (Some SOCK_STREAM) true (family =? INET) (ai_reuse rp) (Some (ai_addr rp)) (Some backlog) in
        if can_listen an family then Some (with_fd o fd i, fd) else None
    | None => None
    end.
Proof.
  intros Hwf Hf Hfr. unfold make_listen, create_and_bind, create_and_bind_udp, create_and_bind_tcp.
  rewrite (proj2 (Z.eqb_neq family UNIX)) by done.
  destruct (an_getaddrinfo an) as [rps|]; cbn [default from_option id] in Hfr |- *; [|by destruct (family =? UDP)].
  set (ty := if family =? UDP then SOCK_DGRAM else SOCK_STREAM).
  replace (if family =? UDP then bind_loop SOCK_DGRAM o rps else bind_loop SOCK_STREAM o rps)
    with (bind_loop ty o rps) by (unfold ty; by destruct (family =? UDP)).
  rewrite bind_loop_spec by done. destruct (list_find bindable rps) as [[i rp]|] eqn:E; [|done].
  apply list_find_Some in E as (Hi & [[fd Hs] _] & _). cbn. rewrite Hs. cbn.
  destruct (proj1 (Forall_lookup _ _) Hfr i rp Hi fd Hs) as [H0 _].
  rewrite (proj2 (Z.eqb_neq fd (-1))) by lia. unfold set_nonblocking, can_listen.
  destruct (an_getfl an), (an_setfl an); [|done..]. cbn [negb andb]. change (0 =? -1) with false. cbv iota.
  rewrite os_set_with. unfold set_tcp_nodelay.
  replace (if family =? INET then os_set (with_fd o fd _) fd nodelay else with_fd o fd _)
    with (with_fd o fd (mkFd (Some ty) true (family =? INET) (ai_reuse rp) (Some (ai_addr rp)) None))
    by (destruct (family =? INET); by rewrite ?os_set_with).
  unfold os_listen. cbn [with_fd o_fds]. rewrite lookup_insert_eq, os_set_with. cbn.
  unfold ty. by destruct (an_listen an), (family =? UDP).
Qed.

Lemma make_listen_correct_witness :
  make_listen (mkAnswers (Some [mkAi (str "::1") None false false; mkAi (str "10.0.0.1") (Some 3) true false;
                                mkAi (str "127.0.0.1") (Some 3) true true]) None false true true true)
    (mkOs ∅ ∅ ∅) (str "localhost") INET 128 =
  Some (with_fd (mkOs ∅ ∅ ∅) 3 (mkFd (Some SOCK_STREAM) true true true (Some (str "127.0.0.1")) (Some 128)), 3).
Proof.
  apply (make_listen_correct
    (mkAnswers (Some [mkAi (str "::1") None false false; mkAi (str "10.0.0.1") (Some 3) true false;
                      mkAi (str "127.0.0.1") (Some 3) true true]) None false true true true)
    (mkOs ∅ ∅ ∅) (str "localhost") INET 128); [by split|done|].
  repeat (apply Forall_cons; split;
    [intros fd Hfd; cbn in Hfd; first [discriminate Hfd | injection Hfd as <-; split; [lia|reflexivity]]|]).
  by apply Forall_nil_2.
Defined.

(** A Unix socket that cannot be bound stays open, with nothing that refers to it. *)
Theorem unix_bind_leaks an o path fd :
  an_socket an = Some fd → an_bind an = false →
  create_and_bind_unix an o path = (with_fd o fd (new_socket SOCK_STREAM), -1).
Proof. intros H1 H2. unfold create_and_bind_unix. by rewrite H1, H2. Qed.

Lemma unix_bind_leaks_witness :
  create_and_bind_unix (mkAnswers None (Some 3) false true true true) (mkOs ∅ ∅ ∅) (str "/tmp/s") =
    (with_fd (mkOs ∅ ∅ ∅) 3 (new_socket SOCK_STREAM), -1).
Proof. apply (unix_bind_leaks (mkAnswers None (Some 3) false true true true)); reflexivity. Defined.
