(* ===== verification/Logging.v ===== *)
(** * Logging: t_log of src/util.c, config_print of src/config.c

    The text of a message is the format with its arguments put in.  [now] is the time
    and [junk] the contents of the part of an array that is not initialised. *)

From S2P Require Import Prelude Util Config.

(** ** Data *)

Definition MAX_LOG_SIZE : Z := 119.

(** The lines written to the standard output and, when it is open, to the log file. *)
Record logs := mkLogs {
  lg_stdout : list (list Z);
  lg_file : option (list (list Z))
}.

(** [fprintf(fp, ...)] and, for an open file, [fprintf(fh, ...)]. *)
Definition log_write (lg : logs) (line : list Z) : logs :=
  mkLogs (lg_stdout lg ++ [line]) ((λ f, f ++ [line]) <$> lg_file lg).

(** ** Operations *)

(** [opened] tells whether the file can be opened. *)
Definition t_log_init (now : Z) (lg : logs) (file : list Z) (opened : bool) : logs :=
  if opened then mkLogs (lg_stdout lg) (Some [])
  else mkLogs (lg_stdout lg ++ [print_dec now ++ str " * WARNING: Unable to open file " ++ file ++ [10]])
         None.

Section log.
Context (junk now : Z).

(** [msg] has [MAX_LOG_SIZE + 4] characters; [vsnprintf] stores what fits, and a NUL. *)
Definition t_log (min_level level : Z) (text : list Z) (lg : logs) : res logs :=
  if level <? min_level then Ok lg
  else
    let size := MAX_LOG_SIZE + 4 in
    let msg := take (Z.to_nat (size - 1)) text ++ [0] in
    let msg := msg ++ replicate (Z.to_nat size - length msg) junk in
    msg ← stores msg MAX_LOG_SIZE (str "...");
    msg ← aset msg (MAX_LOG_SIZE + 3) 0;
    mark ← aget (str "#i*!" ++ [0]) level;
    mret (log_write lg (print_dec now ++ [32; mark; 32] ++ cstring_of msg ++ [10])).

Definition tinfo (c : config) (text : list Z) (lg : logs) : res logs :=
  t_log (loglevel c) INFORMATION text lg.

(** The last of the first four entries of [lmap] with the level. *)
Definition level_name (level : Z) : option (list Z) :=
  foldl (λ name e, if e.2 =? level then Some e.1 else name) None (take 4 lmap).

Definition config_print (c : config) (lg : logs) : res logs :=
  if loglevel c <? WARNING then
    let sfamily := str (if socket_family c =? UNIX then "Unix" else "Tcp") in
    let llevel := level_name (loglevel c) in
    lg ← tinfo c (str "TrieDB v" ++ version c ++ str " is starting") lg;
    lg ← tinfo c (str "Mode: " ++ str (if mode c =? STANDALONE then "standalone" else "cluster")) lg;
    lg ← tinfo c (str "Network settings:") lg;
    lg ← tinfo c ([9] ++ str "Socket family: " ++ sfamily) lg;
    lg ← (if socket_family c =? UNIX then
            tinfo c ([9] ++ str "Unix socket: " ++ hostname c) lg
          else
            lg ← tinfo c ([9] ++ str "Address: " ++ hostname c) lg;
            lg ← tinfo c ([9] ++ str "Port: " ++ port c) lg;
            tinfo c ([9] ++ str "Tcp backlog: " ++ sprintf_d (tcp_backlog c)) lg);
    human_rsize ← memory_to_string (max_request_size c);
    lg ← tinfo c ([9] ++ str "Max request size: " ++ human_rsize) lg;
    lg ← tinfo c (str "Logging:") lg;
    llevel ← deref llevel;
    lg ← tinfo c ([9] ++ str "level: " ++ llevel) lg;
    lg ← tinfo c ([9] ++ str "logpath: " ++ logpath c) lg;
    human_memory ← memory_to_string (max_memory c);
    human_time ← time_to_string (mem_reclaim_time c);
    lg ← tinfo c (str "Max memory: " ++ human_memory) lg;
    tinfo c (str "Memory reclaim time: " ++ human_time) lg
  else Ok lg.

(** What [config_load] logs: two warnings when it cannot open the file.  (The one for
    an incomplete line is not reached: a line that begins with a NUL is skipped before.) *)
Definition config_load_log (c : config) (path : list Z) (fh : option (list Z)) (lg : logs)
  : res logs :=
  match fh with
  | None =>
      lg ← t_log (loglevel c) WARNING (str "WARNING: Unable to open conf file " ++ path) lg;
      t_log (loglevel c) WARNING (str "To specify a config file run triedb -c /path/to/conf") lg
  | Some _ => Ok lg
  end.
End log.

(** ** Specification *)

(** A message as it is shown: cut off, with dots, from the 119th character on. *)
Definition shown (text : list Z) : list Z :=
  if strlen text <? MAX_LOG_SIZE then text else take (Z.to_nat MAX_LOG_SIZE) text ++ str "...".

Definition log_line (now mark : Z) (text : list Z) : list Z :=
  print_dec now ++ [32; mark; 32] ++ shown text ++ [10].

Definition level_mark (level : Z) : Z :=
  if level =? 0 then 35 else if level =? 1 then 105 else if level =? 2 then 42 else 33.

(** The texts of [config_print]. *)
Definition config_texts (c : config) (name : list Z) : list (list Z) :=
  [str "TrieDB v" ++ version c ++ str " is starting";
   str "Mode: " ++ str (if mode c =? STANDALONE then "standalone" else "cluster");
   str "Network settings:";
   [9] ++ str "Socket family: " ++ str (if socket_family c =? UNIX then "Unix" else "Tcp")]
  ++ (if socket_family c =? UNIX then [[9] ++ str "Unix socket: " ++ hostname c]
      else [[9] ++ str "Address: " ++ hostname c; [9] ++ str "Port: " ++ port c;
            [9] ++ str "Tcp backlog: " ++ sprintf_d (tcp_backlog c)])
  ++ [[9] ++ str "Max request size: " ++ print_dec (max_request_size c / memory_unit (max_request_size c))
        ++ memory_suffix (max_request_size c);
      str "Logging:"; [9] ++ str "level: " ++ name; [9] ++ str "logpath: " ++ logpath c;
      str "Max memory: " ++ print_dec (max_memory c / memory_unit (max_memory c))
        ++ memory_suffix (max_memory c);
      str "Memory reclaim time: " ++ print_dec (mem_reclaim_time c / time_unit (mem_reclaim_time c))
        ++ time_suffix (mem_reclaim_time c)].

(** ** Messages *)

Lemma cstr_take s n : cstr s → cstr (take n s).
Proof. apply Forall_take. Qed.

(** The array after the dots are written, read as a string. *)
Lemma log_message junk text :
  cstr text →
  let msg := take 122 text ++ [0] in
  let msg := msg ++ replicate (123 - length msg) junk in
  ∃ msg1 msg2, stores msg 119 (str "...") = Ok msg1 ∧ aset msg1 122 0 = Ok msg2 ∧
    cstring_of msg2 = shown text.
Proof.
  intros Ht msg0 msg. assert (length msg = 123%nat) as Hlen.
  { unfold msg, msg0. rewrite length_app, length_replicate, length_app, length_take. cbn [length]. lia. }
  rewrite stores_spec by lia. rewrite decide_True by (right; rewrite Hlen; cbn; lia).
  assert (take 119 msg ++ str "..." ++ [0] = <[122%nat := 0]> (splice msg 119 (str "..."))) as Hsp.
  { unfold splice. change (119 + length (str "..."))%nat with 122%nat.
    assert (length (take 119 msg ++ str "...") = 122%nat) as Hl
      by (rewrite length_app, length_take, Hlen; done).
    rewrite (assoc_L (++) (take 119 msg) (str "...") (drop 122 msg)), insert_app_r_alt, Hl by lia.
    destruct (drop 122 msg) as [|a [|? ?]] eqn:Hd;
      apply (f_equal length) in Hd; rewrite length_drop, Hlen in Hd; cbn in Hd; [lia| |lia].
    by rewrite <-!(assoc_L (++)). }
  eexists _, (take 119 msg ++ str "..." ++ [0]). split_and!; [done| |].
  { change (Z.to_nat 119) with 119%nat.
    assert (length (splice msg 119 (str "...")) = 123%nat) as Hl
      by (rewrite splice_length; rewrite Hlen; [done|by apply Nat.leb_le]).
    rewrite aset_lt by (rewrite Hl; lia).
    change (Z.to_nat 122) with 122%nat. by rewrite Hsp. }
  unfold shown, MAX_LOG_SIZE. destruct (Z.ltb_spec (strlen text) 119) as [Hs|Hs]; unfold strlen in Hs.
  - assert (take 119 msg = text ++ 0 :: take (118 - length text) (replicate (122 - length text) junk)) as ->.
    { unfold msg, msg0. rewrite (take_ge text 122), <-(assoc_L (++)) by lia. rewrite take_app_ge by lia.
      replace (119 - length text)%nat with (S (118 - length text)) by lia. cbn [app take].
      do 4 f_equal. rewrite length_app. cbn [length]. lia. }
    rewrite <-(assoc_L (++)), cstring_of_app by done. cbn. by rewrite app_nil_r.
  - assert (take 119 msg = take 119 text) as ->.
    { unfold msg, msg0. rewrite <-(assoc_L (++)), take_app_le by (rewrite length_take; lia).
      by rewrite take_take. }
    rewrite cstring_of_app by by apply cstr_take. done.
Qed.

Lemma t_log_spec junk now min_level level text lg :
  min_level <= level → 0 <= level <= 3 → cstr text →
  t_log junk now min_level level text lg = Ok (log_write lg (log_line now (level_mark level) text)).
Proof.
  intros Hmin Hlev Ht. unfold t_log, MAX_LOG_SIZE.
  destruct (Z.ltb_spec level min_level); [lia|].
  destruct (log_message junk text Ht) as (m1 & m2 & H1 & H2 & H3).
  change (Z.to_nat (119 + 4 - 1)) with 122%nat. change (Z.to_nat (119 + 4)) with 123%nat.
  change (119 + 3) with 122. cbv zeta. rewrite H1, res_bind_Ok_l, H2, res_bind_Ok_l.
  assert (aget (str "#i*!" ++ [0]) level = Ok (level_mark level)) as ->.
  { assert (level = 0 ∨ level = 1 ∨ level = 2 ∨ level = 3) as [->|[->|[->| ->]]] by lia; done. }
  rewrite res_bind_Ok_l, H3. done.
Qed.

Lemma tinfo_spec junk now c text lg :
  loglevel c <= 1 → cstr text →
  tinfo junk now c text lg = Ok (log_write lg (log_line now 105 text)).
Proof. intros. unfold tinfo. by rewrite t_log_spec by (done || unfold INFORMATION; lia). Qed.

Lemma tinfo_bind {B} junk now c text lg (k : logs → res B) :
  loglevel c <= 1 → cstr text →
  (lg ← tinfo junk now c text lg; k lg) = k (log_write lg (log_line now 105 text)).
Proof. intros. by rewrite tinfo_spec. Qed.

Lemma cstr_sprintf_d n : cstr (sprintf_d n).
Proof.
  unfold sprintf_d. destruct (Z.ltb_spec n 0); [|by apply print_dec_cstr; lia].
  apply cstr_cons. split; [by split|]. apply print_dec_cstr. lia.
Qed.

(** A literal, or a text that is put together from literals and other strings. *)
Ltac cstr_tac :=
  first [assumption | apply cstr_app; split; cstr_tac
        | apply cstr_sprintf_d | apply print_dec_cstr; zdiv_lia
        | by apply (bool_decide_eq_true_1 (cstr _)); vm_compute].

Lemma memory_text_cstr m : 0 < m → cstr (print_dec (m / memory_unit m) ++ memory_suffix m).
Proof. intros Hm. unfold memory_unit, memory_suffix. repeat case_if; cstr_tac. Qed.

Lemma time_text_cstr t : 0 < t → cstr (print_dec (t / time_unit t) ++ time_suffix t).
Proof. intros Ht. unfold time_unit, time_suffix. repeat case_if; cstr_tac. Qed.

Record printable (c : config) : Prop := {
  pr_version : cstr (version c);
  pr_hostname : cstr (hostname c);
  pr_port : cstr (port c);
  pr_logpath : cstr (logpath c);
  pr_memory : 0 < max_memory c < 2 ^ 61;
  pr_request : 0 < max_request_size c < 2 ^ 61;
  pr_reclaim : 0 < mem_reclaim_time c < 2 ^ 31 * 86400
}.

(** ** Properties *)

(** At the levels DEBUG and INFORMATION the configuration is written line by line, with
    sizes and times in their units and the name of the level, each line cut off at 119
    characters and the same on both outputs; at the other levels nothing is written. *)
Theorem config_print_correct junk now c lg :
  printable c → 0 <= loglevel c <= 3 →
  config_print junk now c lg =
    Ok (if loglevel c <? WARNING then
          foldl (λ lg text, log_write lg (log_line now 105 text)) lg
            (config_texts c (str (if loglevel c =? DEBUG then "DEBUG" else "INFO")))
        else lg).
Proof.
  intros [Hv Hh Hp Hl Hm Hr Ht] Hlev. unfold config_print.
  destruct (Z.ltb_spec (loglevel c) WARNING) as [Hw|]; [|done]. unfold WARNING in Hw.
  assert (level_name (loglevel c) = Some (str (if loglevel c =? DEBUG then "DEBUG" else "INFO"))) as ->.
  { assert (loglevel c = 0 ∨ loglevel c = 1) as [-> | ->] by lia; done. }
  pose proof (memory_text_cstr _ (proj1 Hm)). pose proof (memory_text_cstr _ (proj1 Hr)).
  pose proof (time_text_cstr _ (proj1 Ht)).
  rewrite !memory_to_string_spec, time_to_string_spec by done.
  assert (cstr (str (if loglevel c =? DEBUG then "DEBUG" else "INFO"))) by (case_if; cstr_tac).
  assert (cstr (str (if mode c =? STANDALONE then "standalone" else "cluster"))) by (case_if; cstr_tac).
  unfold config_texts. destruct (socket_family c =? UNIX); cbn [deref].
  all: repeat first [rewrite tinfo_bind by (lia || cstr_tac) | rewrite res_bind_Ok_l
                    | rewrite tinfo_spec by (lia || cstr_tac)]; reflexivity.
Qed.

Lemma config_print_correct_witness :
  ∃ c, config_set_default 128 3 = Ok c ∧
  config_print 0 1500000000 c (mkLogs [] None) =
    Ok (foldl (λ lg text, log_write lg (log_line 1500000000 105 text)) (mkLogs [] None)
          (config_texts c (str "INFO"))).
Proof.
  eexists. split; [vm_compute; reflexivity|].
  match goal with |- context [config_print _ _ ?c _] =>
    apply (config_print_correct 0 1500000000 c (mkLogs [] None)) end.
  - split; cbn [version hostname port logpath max_memory max_request_size mem_reclaim_time];
      try lia; by apply (bool_decide_eq_true_1 (cstr _)); vm_compute.
  - cbn [loglevel]. lia.
Defined.
