(* ===== verification/Bst.v ===== *)
(** * The children tree: src/bst.c, src/bst.h

    A trie node keeps its children in a binary search tree keyed by the next
    byte of the key.  The comments of bst.c describe it as an AVL tree; the
    definitions below follow the code, including the expansion of its
    unparenthesised macros:
    - [MAX(a, b)] is [a > b ? a : b] and [HEIGHT(n)] is [!n ? 0 : n->height],
      so [1 + MAX((HEIGHT(l)), (HEIGHT(r)))] reads
      [(1 + HEIGHT(l)) > HEIGHT(r) ? HEIGHT(l) : HEIGHT(r)] ([insert_height]);
    - [MAX(HEIGHT(l), HEIGHT(r)) + 1] reads
      [!l ? 0 : (l->height > !r ? 0 : (r->height ? (!l ? 0 : l->height)
                                    : (!r ? 0 : r->height + 1)))]
      ([rotate_height]);
    - [balance > 1 && BALANCE(l) >= 0] reads
      [(balance > 1 && !l) ? 0 : HEIGHT(l->left) - HEIGHT(l->right) >= 0]
      ([delete_test]).

    A null pointer is [bst_null]; assignments to a node's fields build the node
    again; a null dereference is [Err NullDeref]. *)

From S2P Require Import Prelude.

(** ** Data *)

Inductive bst_node (A : Type) : Type :=
| bst_null
| bst_mk (key height : Z) (left right : bst_node A) (data : A).
Arguments bst_null {A}.
Arguments bst_mk {A} key height left right data.

Section Bst.
  Context {A : Type}.
  Implicit Types (t l r : bst_node A) (d : A) (k key : Z).

(** ** Operations *)

Definition HEIGHT (t : bst_node A) : Z :=
  match t with bst_null => 0 | bst_mk _ h _ _ _ => h end.

(** [BALANCE(node)] of a non-null node, from its children. *)
Definition BALANCE (l r : bst_node A) : Z := HEIGHT l - HEIGHT r.

Definition insert_height (l r : bst_node A) : Z :=
  if 1 + HEIGHT l >? HEIGHT r then HEIGHT l else HEIGHT r.

Definition rotate_height (l r : bst_node A) : res Z :=
  match l with
  | bst_null => Ok 0
  | bst_mk _ hl _ _ _ =>
      if hl >? (match r with bst_null => 1 | _ => 0 end) then Ok 0
      else match r with
           | bst_null => Err NullDeref
           | bst_mk _ hr _ _ _ => if hr =? 0 then Ok (hr + 1) else Ok hl
           end
  end.

Definition bst_new (key : Z) (data : A) : bst_node A :=
  bst_mk key 1 bst_null bst_null data.

Definition bst_rotate_right (y : bst_node A) : res (bst_node A) :=
  match y with
  | bst_null => Err NullDeref
  | bst_mk yk _ x yr yd =>
      match x with
      | bst_null => Err NullDeref
      | bst_mk xk _ xl t2 xd =>
          yh ← rotate_height t2 yr;
          let y' := bst_mk yk yh t2 yr yd in
          xh ← rotate_height xl y';
          mret (bst_mk xk xh xl y' xd)
      end
  end.

Definition bst_rotate_left (x : bst_node A) : res (bst_node A) :=
  match x with
  | bst_null => Err NullDeref
  | bst_mk xk _ y xr xd =>
      match y with
      | bst_null => Err NullDeref
      | bst_mk yk _ yl t2 yd =>
          xh ← rotate_height t2 xr;
          let x' := bst_mk xk xh t2 xr xd in
          yh ← rotate_height yl x';
          mret (bst_mk yk yh yl x' yd)
      end
  end.

(** [while (curr->left) curr = curr->left]; the key of the node reached is
    what the caller reads. *)
Fixpoint bst_min (t : bst_node A) : res (bst_node A) :=
  match t with
  | bst_null => Err NullDeref
  | bst_mk k h l r d =>
      match l with
      | bst_null => Ok (bst_mk k h l r d)
      | _ => bst_min l
      end
  end.

Definition bst_key (t : bst_node A) : res Z :=
  match t with bst_null => Err NullDeref | bst_mk k _ _ _ _ => Ok k end.

(** The rebalancing steps at the end of [bst_insert], on a node with its new
    height. *)
Definition insert_balance (key k h : Z) (l r : bst_node A) (d : A)
  : res (bst_node A) :=
  let node := bst_mk k h l r d in
  let balance := BALANCE l r in
  lt ← (if balance >? 1 then lk ← bst_key l; mret (key <? lk) else mret false);
  if (lt : bool) then bst_rotate_right node else
  gt ← (if balance <? -1 then rk ← bst_key r; mret (key >? rk) else mret false);
  if (gt : bool) then bst_rotate_left node else
  gt ← (if balance >? 1 then lk ← bst_key l; mret (key >? lk) else mret false);
  if (gt : bool) then
    l' ← bst_rotate_left l; bst_rotate_right (bst_mk k h l' r d)
  else
  lt ← (if balance <? -1 then rk ← bst_key r; mret (key <? rk) else mret false);
  if (lt : bool) then
    r' ← bst_rotate_right r; bst_rotate_left (bst_mk k h l r' d)
  else mret node.

Fixpoint bst_insert (node : bst_node A) (key : Z) (data : A)
  : res (bst_node A) :=
  match node with
  | bst_null => Ok (bst_new key data)
  | bst_mk k h l r d =>
      if key <? k then
        l' ← bst_insert l key data;
        insert_balance key k (insert_height l' r) l' r d
      else if key >? k then
        r' ← bst_insert r key data;
        insert_balance key k (insert_height l r') l r' d
      else Ok node
  end.

Fixpoint bst_search (node : bst_node A) (key : Z) : bst_node A :=
  match node with
  | bst_null => bst_null
  | bst_mk k h l r d =>
      if key =? k then node
      else if key <? k then bst_search l key
      else bst_search r key
  end.

(** [balance > 1 && BALANCE(child) >= 0] and [balance > 1 && BALANCE(child) < 0]
    as the preprocessor leaves them; [c] is the comparison with 0. *)
Definition delete_test (guard : bool) (child : bst_node A) (c : Z → bool)
  : res bool :=
  match child with
  | bst_null => if guard then Ok false else Err NullDeref
  | bst_mk _ _ cl cr _ => Ok (c (BALANCE cl cr))
  end.

(** The rebalancing steps at the end of [bst_delete]. *)
Definition delete_balance (k h : Z) (l r : bst_node A) (d : A)
  : res (bst_node A) :=
  let node := bst_mk k h l r d in
  let balance := BALANCE l r in
  b1 ← delete_test (balance >? 1) l (λ z, z >=? 0);
  if (b1 : bool) then bst_rotate_right node else
  b2 ← delete_test (balance >? 1) l (λ z, z <? 0);
  if (b2 : bool) then
    l' ← bst_rotate_left l; bst_rotate_right (bst_mk k h l' r d)
  else
  b3 ← delete_test (balance <? -1) r (λ z, z <=? 0);
  if (b3 : bool) then bst_rotate_left node else
  b4 ← delete_test (balance <? -1) r (λ z, z >? 0);
  if (b4 : bool) then
    r' ← bst_rotate_right r; bst_rotate_left (bst_mk k h l r' d)
  else mret node.

(** The statements of [bst_delete] after the removal: return on null, new
    height, rebalancing. *)
Definition delete_finish (node : bst_node A) : res (bst_node A) :=
  match node with
  | bst_null => Ok bst_null
  | bst_mk k h l r d => delete_balance k (insert_height l r) l r d
  end.

Fixpoint bst_delete (node : bst_node A) (key : Z) : res (bst_node A) :=
  match node with
  | bst_null => Ok bst_null
  | bst_mk k h l r d =>
      (* if (key < node->key) node->left = bst_delete(node->left, key); *)
      l1 ← (if key <? k then bst_delete l key else Ok l);
      if key >? k then
        r1 ← bst_delete r key;
        delete_finish (bst_mk k h l1 r1 d)
      else
        match l1, r with
        | bst_null, _ => delete_finish r
        | _, bst_null => delete_finish l1
        | _, _ =>
            m ← bst_min r;
            mk ← bst_key m;
            r1 ← bst_delete r mk;
            delete_finish (bst_mk mk h l1 r1 d)
        end
  end.

(** The assignment [p->data = x] through the pointer [p] that
    [bst_search(t, key)] returns. *)
Fixpoint bst_write (t : bst_node A) (key : Z) (x : A) : bst_node A :=
  match t with
  | bst_null => bst_null
  | bst_mk k h l r d =>
      if key =? k then bst_mk k h l r x
      else if key <? k then bst_mk k h (bst_write l key x) r d
      else bst_mk k h l (bst_write r key x) d
  end.

(** ** Specification *)

(** What a search finds: the data of the node. *)
Definition bst_data (t : bst_node A) : option A :=
  match t with bst_null => None | bst_mk _ _ _ _ d => Some d end.

Definition bst_lookup (t : bst_node A) (key : Z) : option A :=
  bst_data (bst_search t key).

(** The key-data pairs in the order of [children_prefix_find] and the other
    traversals of the tree: node, left, right. *)
Fixpoint bst_pairs (t : bst_node A) : list (Z * A) :=
  match t with
  | bst_null => []
  | bst_mk k _ l r d => (k, d) :: bst_pairs l ++ bst_pairs r
  end.

(** Search tree order. *)
Fixpoint bst_ordered (t : bst_node A) : Prop :=
  match t with
  | bst_null => True
  | bst_mk k _ l r _ =>
      Forall (λ p, p.1 < k) (bst_pairs l) ∧ Forall (λ p, k < p.1) (bst_pairs r)
      ∧ bst_ordered l ∧ bst_ordered r
  end.

(** Every stored height is 1. *)
Fixpoint bst_flat (t : bst_node A) : Prop :=
  match t with
  | bst_null => True
  | bst_mk _ h l r _ => h = 1 ∧ bst_flat l ∧ bst_flat r
  end.

(** The invariant of the trees that the program builds. *)
Definition bst_ok (t : bst_node A) : Prop := bst_ordered t ∧ bst_flat t.

(** Insertion without any balancing. *)
Fixpoint plain_insert (t : bst_node A) (key : Z) (data : A) : bst_node A :=
  match t with
  | bst_null => bst_new key data
  | bst_mk k h l r d =>
      if key <? k then bst_mk k h (plain_insert l key data) r d
      else if key >? k then bst_mk k h l (plain_insert r key data) d
      else t
  end.

(** The length of the longest path. *)
Fixpoint bst_depth (t : bst_node A) : nat :=
  match t with
  | bst_null => 0
  | bst_mk _ _ l r _ => S (bst_depth l `max` bst_depth r)
  end.

(** Insertion of several keys, one after the other. *)
Fixpoint insert_all (ks : list (Z * A)) (t : bst_node A) : res (bst_node A) :=
  match ks with
  | [] => Ok t
  | (k, d) :: ks => t' ← bst_insert t k d; insert_all ks t'
  end.

(** ** Search *)

Lemma bst_lookup_mk k h l r d key :
  bst_lookup (bst_mk k h l r d) key =
  if key =? k then Some d
  else if key <? k then bst_lookup l key else bst_lookup r key.
Proof. unfold bst_lookup. cbn. by repeat case_if. Qed.

Lemma bst_lookup_null key : bst_lookup bst_null key = None.
Proof. done. Qed.

Lemma bst_search_lookup t key :
  match bst_search t key with
  | bst_null => bst_lookup t key = None
  | bst_mk _ _ _ _ d => bst_lookup t key = Some d
  end.
Proof. unfold bst_lookup. by destruct (bst_search t key). Qed.

Lemma bst_ordered_pairs_lt t k d (P : Z → Prop) :
  Forall (λ p, P p.1) (bst_pairs t) → (k, d) ∈ bst_pairs t → P k.
Proof. intros H Hin. rewrite Forall_forall in H. by apply (H (k, d)). Qed.

(** In an ordered tree a search finds exactly the pairs of the tree. *)
Lemma bst_pairs_lookup t k d :
  bst_ordered t → (k, d) ∈ bst_pairs t ↔ bst_lookup t k = Some d.
Proof.
  induction t as [|k' h l IHl r IHr d']; cbn [bst_pairs bst_ordered].
  - intros _. rewrite bst_lookup_null. set_solver.
  - intros (Hl & Hr & Hol & Hor). rewrite bst_lookup_mk.
    rewrite elem_of_cons, elem_of_app, IHl, IHr by done.
    pose proof (bst_ordered_pairs_lt l k d (λ z, z < k') Hl) as Hl'.
    pose proof (bst_ordered_pairs_lt r k d (λ z, k' < z) Hr) as Hr'.
    rewrite IHl in Hl' by done. rewrite IHr in Hr' by done.
    repeat case_if; zbool; subst; split; intros;
      destruct_or?; simplify_eq; try tauto;
      try (specialize (Hl' ltac:(eassumption)); cbn in Hl'; lia);
      try (specialize (Hr' ltac:(eassumption)); cbn in Hr'; lia); auto.
Qed.

Lemma bst_pairs_nodup t : bst_ordered t → NoDup (bst_pairs t).*1.
Proof.
  induction t as [|k h l IHl r IHr d]; cbn [bst_pairs bst_ordered].
  - intros _. constructor.
  - intros (Hl & Hr & Hol & Hor). rewrite fmap_cons, fmap_app. cbn.
    rewrite NoDup_cons, NoDup_app. rewrite Forall_forall in Hl, Hr.
    split_and!; auto.
    + rewrite elem_of_app, !list_elem_of_fmap.
      intros [[[k1 d1] [-> H1]]|[[k1 d1] [-> H1]]];
        [apply Hl in H1|apply Hr in H1]; cbn in H1; lia.
    + intros x. rewrite !list_elem_of_fmap.
      intros [[k1 d1] [-> H1]] [[k2 d2] [E H2]].
      apply Hl in H1. apply Hr in H2. cbn in *. lia.
Qed.

(** ** Insertion *)

Lemma plain_insert_nonnull t key data : plain_insert t key data ≠ bst_null.
Proof. destruct t; cbn; [done|]. by repeat case_if. Qed.

Lemma bst_flat_height t : bst_flat t → HEIGHT t = 0 ∧ t = bst_null ∨ HEIGHT t = 1.
Proof. destruct t; cbn; naive_solver. Qed.

Lemma plain_insert_flat t key data : bst_flat t → bst_flat (plain_insert t key data).
Proof.
  induction t as [|k h l IHl r IHr d]; cbn [plain_insert bst_flat].
  - done.
  - intros (-> & Hl & Hr). repeat case_if; cbn; auto.
Qed.

(** With heights at most 1 the new height is 1 again and no rotation is
    selected. *)
Lemma insert_balance_flat key k l r d :
  bst_flat l → bst_flat r → l ≠ bst_null ∨ r ≠ bst_null →
  insert_balance key k (insert_height l r) l r d = Ok (bst_mk k 1 l r d).
Proof.
  intros Hl%bst_flat_height Hr%bst_flat_height Hne.
  unfold insert_balance, insert_height, BALANCE.
  destruct Hl as [[El ->]|El], Hr as [[Er ->]|Er]; rewrite ?El, ?Er; cbn;
    try done. naive_solver.
Qed.

Lemma bst_insert_flat_plain t key data :
  bst_flat t → bst_insert t key data = Ok (plain_insert t key data).
Proof.
  induction t as [|k h l IHl r IHr d]; cbn [plain_insert bst_insert bst_flat].
  - done.
  - intros (-> & Hl & Hr). repeat case_if; [|..|done].
    + rewrite IHl by done. cbn. apply insert_balance_flat; auto using plain_insert_flat.
      left. apply plain_insert_nonnull.
    + rewrite IHr by done. cbn. apply insert_balance_flat; auto using plain_insert_flat.
      right. apply plain_insert_nonnull.
Qed.

Lemma bst_lookup_plain_insert t key data k :
  bst_lookup (plain_insert t key data) k =
  if k =? key then Some (default data (bst_lookup t key)) else bst_lookup t k.
Proof.
  induction t as [|k' h l IHl r IHr d].
  - unfold bst_lookup. cbn. repeat case_if; done.
  - cbn [plain_insert]. rewrite (bst_lookup_mk _ _ _ _ _ key).
    repeat case_if; zbool; subst; try lia; rewrite !bst_lookup_mk;
      rewrite ?IHl, ?IHr; repeat case_if; zbool; subst; try lia; done.
Qed.

Lemma plain_insert_pairs t key data p :
  p ∈ bst_pairs (plain_insert t key data) → p = (key, data) ∨ p ∈ bst_pairs t.
Proof.
  induction t as [|k h l IHl r IHr d]; cbn [plain_insert bst_pairs].
  - set_solver.
  - repeat case_if; cbn [bst_pairs]; set_solver.
Qed.

Lemma plain_insert_ordered t key data :
  bst_ordered t → bst_ordered (plain_insert t key data).
Proof.
  induction t as [|k h l IHl r IHr d]; cbn [plain_insert bst_ordered].
  - cbn. by repeat constructor.
  - intros (Hl & Hr & Hol & Hor). repeat case_if; zbool; cbn; split_and!; auto.
    + rewrite Forall_forall in *. intros p [->|Hp]%plain_insert_pairs; cbn; auto.
    + rewrite Forall_forall in *. intros p [->|Hp]%plain_insert_pairs; cbn; auto.
Qed.

Lemma bst_ok_null : bst_ok bst_null.
Proof. done. Qed.

Lemma plain_insert_ok t key data : bst_ok t → bst_ok (plain_insert t key data).
Proof.
  intros [??]. split; auto using plain_insert_ordered, plain_insert_flat.
Qed.

Lemma bst_insert_ok t key data :
  bst_ok t → bst_insert t key data = Ok (plain_insert t key data).
Proof. intros [_ ?]. by apply bst_insert_flat_plain. Qed.

(** ** Writing through a pointer *)

Lemma bst_write_lookup t key x k :
  bst_lookup (bst_write t key x) k =
  if k =? key then (λ _, x) <$> bst_lookup t key else bst_lookup t k.
Proof.
  induction t as [|k' h l IHl r IHr d]; cbn [bst_write].
  - rewrite !bst_lookup_null. by case_if.
  - rewrite (bst_lookup_mk _ _ _ _ _ key).
    repeat case_if; zbool; subst; try lia; rewrite !bst_lookup_mk;
      rewrite ?IHl, ?IHr; repeat case_if; zbool; subst; try lia; done.
Qed.

Lemma bst_write_pairs t key x p :
  p ∈ bst_pairs (bst_write t key x) → p = (key, x) ∨ p ∈ bst_pairs t.
Proof.
  induction t as [|k h l IHl r IHr d]; cbn [bst_write bst_pairs].
  - set_solver.
  - repeat case_if; zbool; subst; cbn [bst_pairs]; set_solver.
Qed.

Lemma bst_write_keys t key x : (bst_pairs (bst_write t key x)).*1 = (bst_pairs t).*1.
Proof.
  induction t as [|k h l IHl r IHr d]; cbn [bst_write bst_pairs]; [done|].
  repeat case_if; cbn; rewrite ?fmap_app; congruence.
Qed.

Lemma Forall_keys_eq (P : Z → Prop) (l1 l2 : list (Z * A)) :
  l1.*1 = l2.*1 → Forall (λ p, P p.1) l1 → Forall (λ p, P p.1) l2.
Proof.
  intros E H. apply (Forall_fmap fst P). rewrite <-E. by apply (Forall_fmap fst P).
Qed.

Lemma bst_write_ok t key x : bst_ok t → bst_ok (bst_write t key x).
Proof.
  unfold bst_ok.
  induction t as [|k h l IHl r IHr d]; cbn [bst_write bst_ordered bst_flat]; [done|].
  intros [(Hl & Hr & Hol & Hor) (-> & Hfl & Hfr)].
  repeat case_if; cbn; split_and!; try done; try tauto.
  - by eapply (Forall_keys_eq (λ z, z < k)); [symmetry; apply bst_write_keys|].
  - by eapply (Forall_keys_eq (λ z, k < z)); [symmetry; apply bst_write_keys|].
Qed.

(** ** Sequences of insertions *)

Lemma insert_all_flat ks t :
  bst_flat t →
  insert_all ks t = Ok (foldl (λ t p, plain_insert t p.1 p.2) t ks).
Proof.
  revert t. induction ks as [|[k d] ks IH]; intros t Ht; cbn; [done|].
  rewrite bst_insert_flat_plain by done. cbn.
  apply IH. by apply plain_insert_flat.
Qed.

(** The tree in which every node has only a right child. *)
Fixpoint right_chain (ks : list (Z * A)) : bst_node A :=
  match ks with
  | [] => bst_null
  | p :: ks => bst_mk p.1 1 bst_null (right_chain ks) p.2
  end.

Lemma right_chain_flat ks : bst_flat (right_chain ks).
Proof. induction ks; cbn; auto. Qed.

Lemma right_chain_depth ks : bst_depth (right_chain ks) = length ks.
Proof. induction ks as [|p ks IH]; cbn; [done|]. by rewrite IH. Qed.

Lemma plain_insert_chain ks k d :
  Forall (λ p, p.1 < k) ks →
  plain_insert (right_chain ks) k d = right_chain (ks ++ [(k, d)]).
Proof.
  induction ks as [|[k' d'] ks IH]; intros H; cbn; [done|].
  apply Forall_cons in H as [Hk H]. cbn in Hk.
  repeat case_if; zbool; try lia. by rewrite IH.
Qed.

Lemma insert_all_chain ks ks' :
  StronglySorted (λ p q, p.1 < q.1) (ks ++ ks') →
  insert_all ks' (right_chain ks) = Ok (right_chain (ks ++ ks')).
Proof.
  revert ks. induction ks' as [|[k d] ks' IH]; intros ks Hs; cbn.
  - by rewrite app_nil_r.
  - rewrite bst_insert_flat_plain by apply right_chain_flat. cbn.
    rewrite plain_insert_chain; [rewrite IH|]; rewrite <-?app_assoc; [done..|].
    clear IH. induction ks as [|p ks IH]; [constructor|].
    cbn in Hs. inversion Hs as [|?? Hs' Hf]; subst.
    apply Forall_app in Hf as [_ Hf]. inversion Hf; subst.
    constructor; [done|]. by apply IH.
Qed.

End Bst.

#[export] Hint Resolve bst_ok_null plain_insert_ok bst_write_ok : triedb.

(** ** Properties *)

(** C38 bst_insert on the trees the program builds: it returns, keeps the search
    order and the stored heights, adds the key when it is absent, keeps the data
    of a key that is present, and changes no other key. *)
Theorem bst_insert_correct {A} (t : bst_node A) (key : Z) (data : A) :
  bst_ok t →
  ∃ t', bst_insert t key data = Ok t' ∧ bst_ok t' ∧
    ∀ k, bst_lookup t' k =
      if k =? key then Some (default data (bst_lookup t key))
      else bst_lookup t k.
Proof.
  intros Ht. exists (plain_insert t key data).
  split_and!; [by apply bst_insert_ok|by apply plain_insert_ok|].
  intros k. apply bst_lookup_plain_insert.
Qed.

Lemma bst_insert_correct_witness :
  ∃ t', bst_insert (bst_mk 98 1 (bst_new 97 true) bst_null true) 99 false = Ok t'
    ∧ bst_ok t' ∧
    ∀ k, bst_lookup t' k =
      if k =? 99 then Some (default false (bst_lookup
             (bst_mk 98 1 (bst_new 97 true) bst_null true) 99))
      else bst_lookup (bst_mk 98 1 (bst_new 97 true) bst_null true) k.
Proof.
  apply (bst_insert_correct (bst_mk 98 1 (bst_new 97 true) bst_null true) 99 false).
  split; cbn; split_and!; repeat constructor.
Defined.

(** No sequence of insertions ever rotates: the result is that of insertion
    into a plain binary search tree, and every stored height is 1. *)
Theorem bst_insert_never_rotates {A} (ks : list (Z * A)) :
  insert_all ks bst_null =
    Ok (foldl (λ t p, plain_insert t p.1 p.2) bst_null ks) ∧
  bst_flat (foldl (λ t p, plain_insert t p.1 p.2) bst_null ks).
Proof.
  split; [by apply insert_all_flat|].
  assert (∀ t, bst_flat t →
    bst_flat (foldl (λ t p, plain_insert t p.1 p.2) t ks)) as H; [|by apply H].
  induction ks as [|p ks IH]; intros t Ht; cbn; [done|].
  apply IH. by apply plain_insert_flat.
Qed.

(** Keys inserted in increasing order make a tree as deep as their number:
    the tree is not balanced. *)
Theorem bst_insert_degenerates {A} (ks : list (Z * A)) :
  StronglySorted (λ p q, p.1 < q.1) ks →
  ∃ t, insert_all ks bst_null = Ok t ∧ bst_depth t = length ks.
Proof.
  intros Hs. exists (right_chain ks). split; [|apply right_chain_depth].
  by apply (insert_all_chain []).
Qed.

Lemma bst_insert_degenerates_witness :
  ∃ t, insert_all [(97, tt); (98, tt); (99, tt); (100, tt)] bst_null = Ok t
    ∧ bst_depth t = 4%nat.
Proof.
  apply (bst_insert_degenerates [(97, tt); (98, tt); (99, tt); (100, tt)]).
  repeat constructor; cbn; lia.
Defined.

(** Bst_delete on the trees of two keys: the larger key under the smaller one
    makes it dereference a null pointer, and deleting the smaller key under the
    larger one removes both. *)
Theorem bst_delete_two {A} (k1 k2 : Z) (d1 d2 : A) :
  k1 < k2 →
  (t ← insert_all [(k1, d1); (k2, d2)] bst_null; bst_delete t k2)
    = Err NullDeref ∧
  (t ← insert_all [(k2, d2); (k1, d1)] bst_null; bst_delete t k1)
    = Ok bst_null.
Proof.
  intros Hk. rewrite !insert_all_flat by done. cbn.
  split; repeat (case_if; zbool; try lia; cbn); done.
Qed.

Lemma bst_delete_two_witness :
  (t ← insert_all [(97, 0); (98, 0)] bst_null; bst_delete t 98) = Err NullDeref ∧
  (t ← insert_all [(98, 0); (97, 0)] bst_null; bst_delete t 97) = Ok bst_null.
Proof. apply (bst_delete_two 97 98 0 0). lia. Defined.
