(* ===== verification/Vec.v ===== *)
(** * Dynamic arrays: src/vector.c, src/vector.h

    [items] is the block of [maxsize] pointers; a cell holds [Some a] for a
    pointer to an object with contents [a], [None] for NULL and for a cell not
    written since it was allocated.  [vector_qsort] exchanges the contents of
    the objects, not the pointers; with every object referred to by one cell of
    the vector (as in the program) this is an exchange of the cells' contents.
    Allocation is taken to succeed, except that a request that exceeds the
    address space fails. *)

From S2P Require Import Prelude.

Definition VECTOR_INITIAL_CAPACITY : Z := 4.

Record Vector (A : Type) : Type := mkVector {
  items : list (option A);
  maxsize : Z;
  vsize : Z
}.
Arguments mkVector {A} items maxsize vsize.
Arguments items {A} v : rename.
Arguments maxsize {A} v : rename.
Arguments vsize {A} v : rename.

Section Vec.
  Context {A : Type}.
  Implicit Types (v : Vector A) (a : A) (l : list A) (p : list (option A)).

(** ** Operations *)

Definition vector_new : Vector A :=
  {| items := replicate (Z.to_nat VECTOR_INITIAL_CAPACITY) None;
     maxsize := VECTOR_INITIAL_CAPACITY;
     vsize := 0 |}.

(** The pointers handed to the destructor (or to [tfree]), in order. *)
Definition vector_destroy (v : Vector A) : list (option A) :=
  take (Z.to_nat (vsize v)) (items v).

Definition vector_size (v : Vector A) : Z := vsize v.

(** [newsize] is an [int].  [trealloc] asserts a positive size; a negative
    [newsize] asks for more than the address space and fails, which leaves the
    vector unchanged. *)
Definition vector_resize (v : Vector A) (newsize : Z) : res (Vector A) :=
  if newsize =? 0 then Err AssertFailed
  else if newsize <? 0 then Ok v
  else
    let n := Z.to_nat newsize in
    Ok {| items := take n (items v) ++ replicate (n - length (items v)) None;
          maxsize := newsize;
          vsize := vsize v |}.

Definition vector_append (v : Vector A) (item : A) : res (Vector A) :=
  v1 ← (if maxsize v =? vsize v then vector_resize v (s32 (maxsize v * 2))
        else Ok v);
  its ← aset (items v1) (vsize v1) (Some item);
  mret {| items := its; maxsize := maxsize v1; vsize := u64 (vsize v1 + 1) |}.

Definition vector_set (v : Vector A) (index : Z) (item : A) : res (Vector A) :=
  if (index >=? 0) && (index <? vsize v) then
    its ← aset (items v) index (Some item);
    mret {| items := its; maxsize := maxsize v; vsize := vsize v |}
  else Ok v.

Definition vector_get (v : Vector A) (index : Z) : res (option A) :=
  aget (items v) index.

(** [items[i] = items[i + 1]; items[i + 1] = NULL], [n] times from [i] on. *)
Fixpoint shift_loop (n : nat) (p : list (option A)) (i : Z)
  : res (list (option A)) :=
  match n with
  | O => Ok p
  | S n =>
      x ← aget p (i + 1);
      p1 ← aset p i x;
      p2 ← aset p1 (i + 1) None;
      shift_loop n p2 (i + 1)
  end.

Definition vector_delete (v : Vector A) (index : Z) : res (Vector A) :=
  if (index <? 0) || (index >=? vsize v) then Ok v
  else
    p ← aset (items v) index None;
    p ← shift_loop (Z.to_nat (vsize v - 1 - index)) p index;
    let v1 := {| items := p; maxsize := maxsize v; vsize := vsize v - 1 |} in
    if (vsize v1 >? 0) && (vsize v1 =? maxsize v1 / 4) then
      vector_resize v1 (s32 (maxsize v1 / 2))
    else Ok v1.

(** The object a cell points to. *)
Definition vobj (p : list (option A)) (i : Z) : res A :=
  x ← aget p i; deref x.

(** [swap]: the contents of the two objects are exchanged. *)
Definition swap (p : list (option A)) (i j : Z) : res (list (option A)) :=
  x ← vobj p i;
  y ← vobj p j;
  p1 ← aset p i (Some y);
  aset p1 j (Some x).

Section qsort.
Context (cmp_func : A → A → bool).

(** The [for] loop of [quicksort], [n] iterations from [i] on; the pivot is the
    object of cell [right], whose contents are read again in each iteration. *)
Fixpoint partition_loop (n : nat) (p : list (option A)) (i count right : Z)
  : res (list (option A) * Z) :=
  match n with
  | O => Ok (p, count)
  | S n =>
      x ← vobj p i;
      pivot ← vobj p right;
      if cmp_func x pivot then
        p1 ← swap p count i;
        partition_loop n p1 (i + 1) (count + 1) right
      else partition_loop n p (i + 1) count right
  end.

Fixpoint quicksort (fuel : nat) (p : list (option A)) (left right : Z)
  : res (list (option A)) :=
  match fuel with
  | O => Err OutOfFuel
  | S fuel =>
      if left >=? right then Ok p
      else
        '(p1, count) ← partition_loop (Z.to_nat (right - left + 1)) p left left right;
        p2 ← quicksort fuel p1 left (count - 2);
        quicksort fuel p2 count right
  end.

Definition vector_qsort (v : Vector A) : res (Vector A) :=
  if vsize v <? 2 then Ok v
  else
    p ← quicksort (S (Z.to_nat (vsize v))) (items v) 0 (vsize v - 1);
    mret {| items := p; maxsize := maxsize v; vsize := vsize v |}.
End qsort.

(** ** Specification *)

(** [v] represents the list [l]: the live cells hold the elements of [l], the
    others are NULL, and the capacity is one the growth policy produces. *)
Record vec_repr (v : Vector A) (l : list A) : Prop := {
  vr_items : items v = (Some <$> l) ++ replicate (Z.to_nat (maxsize v) - length l) None;
  vr_size : vsize v = Z.of_nat (length l);
  vr_cap : Z.of_nat (length l) <= maxsize v;
  vr_max : 2 <= maxsize v <= 2 ^ 30
}.

(** ** Representation lemmas *)

Lemma vec_repr_length v l : vec_repr v l → Z.of_nat (length (items v)) = maxsize v.
Proof.
  intros [Hi Hs Hc Hm]. rewrite Hi, length_app, length_fmap, length_replicate. lia.
Qed.

Lemma vec_repr_inj v l1 l2 : vec_repr v l1 → vec_repr v l2 → l1 = l2.
Proof.
  intros [Hi1 Hs1 _ _] [Hi2 Hs2 _ _]. rewrite Hi1 in Hi2.
  apply (inj (fmap (M:=list) Some)).
  apply app_inj_1 in Hi2 as [? _]; [done|]. rewrite !length_fmap. lia.
Qed.

Lemma vector_new_repr : vec_repr vector_new [].
Proof. by split. Qed.

Lemma vector_resize_repr v l n :
  vec_repr v l → Z.of_nat (length l) <= n → 2 <= n <= 2 ^ 30 →
  ∃ v', vector_resize v n = Ok v' ∧ vec_repr v' l ∧ maxsize v' = n.
Proof.
  intros Hr Hl Hn. pose proof (vec_repr_length v l Hr) as Hlen.
  destruct Hr as [Hi Hs Hc Hm]. unfold vector_resize.
  repeat case_if; zbool; try lia. eexists; split_and!; [done| |done].
  split; cbn; [|lia..]. rewrite <-Hlen in *. rewrite Hi.
  rewrite take_app, take_ge by (rewrite length_fmap; lia).
  rewrite <-app_assoc. f_equal. rewrite take_replicate.
  rewrite length_app, length_fmap, length_replicate.
  rewrite <-replicate_add. f_equal. lia.
Qed.

Lemma vector_append_repr v l a :
  vec_repr v l → Z.of_nat (length l) < 2 ^ 29 →
  ∃ v', vector_append v a = Ok v' ∧ vec_repr v' (l ++ [a]).
Proof.
  intros Hr Hl. unfold vector_append.
  assert (∃ v1, (if maxsize v =? vsize v then vector_resize v (s32 (maxsize v * 2))
                 else Ok v) = Ok v1 ∧ vec_repr v1 l ∧ Z.of_nat (length l) < maxsize v1)
    as (v1 & -> & Hr1 & Hlt).
  { pose proof Hr as [Hi Hs Hc Hm]. case_if; zbool.
    - rewrite s32_small by (unfold INT_MIN, INT_MAX; lia).
      destruct (vector_resize_repr v l (maxsize v * 2)) as (v1 & ? & ? & ?);
        [done|lia..|]. exists v1. split_and!; [done..|lia].
    - exists v. split_and!; [done..|lia]. }
  clear v Hr. cbn. destruct Hr1 as [Hi Hs Hc Hm]. rewrite Hi, Hs.
  replace (Z.to_nat (maxsize v1) - length l)%nat
    with (S (Z.to_nat (maxsize v1) - length (l ++ [a])))
    by (rewrite length_app; cbn; lia).
  cbn [replicate]. rewrite aset_middle by (by rewrite length_fmap). cbn.
  eexists; split; [done|]. split; cbn.
  - by rewrite fmap_app, <-app_assoc.
  - rewrite length_app. cbn. rewrite u64_small by lia. lia.
  - rewrite length_app. cbn. lia.
  - done.
Qed.

Lemma vector_get_repr v l i a :
  vec_repr v l → 0 <= i → l !! Z.to_nat i = Some a → vector_get v i = Ok (Some a).
Proof.
  intros [Hi Hs Hc Hm] H0 Hl. unfold vector_get. rewrite Hi.
  apply aget_lookup; [done|]. apply lookup_app_l_Some.
  by rewrite list_lookup_fmap, Hl.
Qed.

Lemma vector_set_repr v l i a :
  vec_repr v l → 0 <= i < Z.of_nat (length l) →
  ∃ v', vector_set v i a = Ok v' ∧ vec_repr v' (<[Z.to_nat i := a]> l).
Proof.
  intros Hr Hi. pose proof (vec_repr_length v l Hr) as Hlen.
  destruct Hr as [Hit Hs Hc Hm]. unfold vector_set. rewrite Hs.
  case_if; [|apply andb_false_iff in E as [?|?]; zbool; lia].
  rewrite aset_lt by lia. cbn. eexists; split; [done|].
  split; cbn; rewrite ?length_insert; try done.
  rewrite Hit, insert_app_l by (rewrite length_fmap; lia).
  by rewrite list_fmap_insert.
Qed.

(** The shifting loop moves the cells after the deleted one down by one. *)
Lemma shift_loop_spec n p1 x q p2 i :
  length q = n → i = Z.of_nat (length p1) →
  shift_loop n (p1 ++ x :: q ++ p2) i =
    Ok (p1 ++ q ++ (if n is O then x else None) :: p2).
Proof.
  revert p1 x q i. induction n as [|n IH]; intros p1 x q i Hq ->; destruct q as [|y q];
    try discriminate; cbn [shift_loop]; [done|].
  cbn. rewrite (cons_middle x), (app_assoc p1).
  rewrite aget_middle by (rewrite length_app; cbn; lia). cbn.
  rewrite <-app_assoc. cbn. rewrite aset_middle by done. cbn.
  rewrite (cons_middle y), (app_assoc p1).
  rewrite aset_middle by (rewrite length_app; cbn; lia). cbn.
  rewrite (IH (p1 ++ [y]) None q) by (rewrite ?length_app; cbn in *; lia).
  rewrite <-!app_assoc. cbn. by destruct n.
Qed.

Lemma vector_delete_repr v l i :
  vec_repr v l → 0 <= i < Z.of_nat (length l) →
  ∃ v', vector_delete v i = Ok v' ∧ vec_repr v' (delete (Z.to_nat i) l).
Proof.
  intros [Hit Hs Hc Hm] Hi. unfold vector_delete.
  case_if; [apply orb_true_iff in E as [?|?]; zbool; lia|]. clear E.
  destruct (lookup_lt_is_Some_2 l (Z.to_nat i)) as [x Hx]; [lia|].
  apply list_elem_of_split_length in Hx as (l1 & l2 & -> & Hl1).
  rewrite length_app in Hit, Hs, Hc, Hi. rewrite length_cons in Hit, Hs, Hc, Hi.
  rewrite Hit, fmap_app. cbn.
  rewrite <-app_assoc. cbn. rewrite aset_middle by (rewrite length_fmap; lia). cbn.
  rewrite (shift_loop_spec _ _ None (Some <$> l2)) by (rewrite length_fmap; lia).
  cbn. rewrite Hl1, delete_middle.
  assert (vec_repr {| items := (Some <$> l1) ++ (Some <$> l2)
       ++ (if Z.to_nat (vsize v - 1 - i) is O then None else None)
       :: replicate (Z.to_nat (maxsize v) - (length l1 + S (length l2))) None;
       maxsize := maxsize v; vsize := vsize v - 1 |} (l1 ++ l2)) as Hr'.
  { split; cbn; rewrite ?length_app; [|lia..]. rewrite fmap_app, <-app_assoc.
    do 2 f_equal. destruct (Z.to_nat (vsize v - 1 - i));
      [rewrite <-(replicate_S _ None)|rewrite <-(replicate_S _ None)]; f_equal; lia. }
  case_if; [|eauto]. cbn [vsize maxsize] in *. zbool.
  rewrite s32_small by (unfold INT_MIN, INT_MAX; zdiv_lia).
  destruct (vector_resize_repr _ (l1 ++ l2) (maxsize v / 2) Hr') as (v' & ? & ? & _);
    [rewrite length_app; zdiv_lia|zdiv_lia|eauto].
Qed.

(** ** Sorting *)

Section qsort_lemmas.
Context (le : A → A → bool) `{!TotalPreorder le}.

Lemma vobj_middle p1 x p2 i :
  i = Z.of_nat (length p1) → vobj (p1 ++ Some x :: p2) i = Ok x.
Proof. intros. unfold vobj. by rewrite aget_middle. Qed.

Lemma swap_same p1 x p2 i :
  i = Z.of_nat (length p1) →
  swap (p1 ++ Some x :: p2) i i = Ok (p1 ++ Some x :: p2).
Proof.
  intros. unfold swap. rewrite vobj_middle by done. cbn.
  rewrite aset_middle by done. cbn. by apply aset_middle.
Qed.

Lemma swap_middle p1 x q y p2 i j :
  i = Z.of_nat (length p1) → j = i + 1 + Z.of_nat (length q) →
  swap (p1 ++ Some x :: q ++ Some y :: p2) i j = Ok (p1 ++ Some y :: q ++ Some x :: p2).
Proof.
  intros Hi Hj. unfold swap. rewrite (vobj_middle p1 x _ i) by done. cbn.
  assert (∀ z, p1 ++ z :: q ++ Some y :: p2 = (p1 ++ z :: q) ++ Some y :: p2) as E
    by (intros; by rewrite <-app_assoc).
  rewrite E, vobj_middle by (rewrite length_app; cbn; lia). cbn.
  rewrite <-E, aset_middle by done. cbn.
  rewrite E, aset_middle by (rewrite length_app; cbn; lia).
  by rewrite <-app_assoc.
Qed.

(** One exchange of the partition loop moves the element [y] behind [l1] and
    rotates [l2], the elements above the pivot. *)
Definition rotate1 (l : list A) : list A :=
  match l with [] => [] | b :: l => l ++ [b] end.

Lemma rotate1_perm l : rotate1 l ≡ₚ l.
Proof. destruct l; cbn; [done|]. by rewrite <-Permutation_cons_append. Qed.

Lemma swap_rotate p1 l1 l2 y p2 count i :
  count = Z.of_nat (length p1 + length l1) → i = count + Z.of_nat (length l2) →
  swap (p1 ++ (Some <$> l1) ++ (Some <$> l2) ++ Some y :: p2) count i =
  Ok (p1 ++ (Some <$> (l1 ++ [y])) ++ (Some <$> rotate1 l2) ++ p2).
Proof.
  intros Hc Hi. rewrite fmap_app, (app_assoc p1), (app_assoc p1).
  destruct l2 as [|b l2]; cbn in *.
  - replace i with count by lia. rewrite swap_same, <-!app_assoc; [done|].
    rewrite length_app, length_fmap. lia.
  - rewrite (swap_middle _ b) by (rewrite ?length_app, ?length_fmap; lia).
    by rewrite fmap_app, <-!app_assoc.
Qed.

(** The partition loop: [l1] holds what was found to be below the pivot [x],
    [l2] what was not, [l3] what is still to be compared. *)
Lemma partition_loop_spec l3 : ∀ p1 l1 l2 x p2 i count right,
  Forall (λ a, le a x = true) l1 → Forall (λ a, le a x = false) l2 →
  count = Z.of_nat (length p1 + length l1) →
  i = count + Z.of_nat (length l2) → right = i + Z.of_nat (length l3) →
  ∃ l1' l2',
    partition_loop le (S (length l3))
      (p1 ++ (Some <$> l1) ++ (Some <$> l2) ++ (Some <$> l3) ++ Some x :: p2)
      i count right
    = Ok (p1 ++ (Some <$> (l1' ++ [x])) ++ (Some <$> l2') ++ p2,
          Z.of_nat (length p1 + length l1') + 1) ∧
    l1' ++ l2' ≡ₚ l1 ++ l2 ++ l3 ∧
    Forall (λ a, le a x = true) l1' ∧ Forall (λ a, le a x = false) l2'.
Proof.
  induction l3 as [|y l3 IH]; intros p1 l1 l2 x p2 i count right H1 H2 Hc Hi Hr.
  - cbn [partition_loop fmap list_fmap app length] in *.
    replace right with i by lia.
    rewrite (app_assoc _ (Some <$> l2)), (app_assoc p1), !vobj_middle
      by (rewrite !length_app, !length_fmap; lia).
    cbn. rewrite tp_refl, <-!app_assoc, (swap_rotate p1 l1 l2 x p2) by done. cbn.
    exists l1, (rotate1 l2). split_and!; [do 2 f_equal; lia| |done|];
      by rewrite ?app_nil_r, rotate1_perm.
  - cbn [partition_loop fmap list_fmap app].
    change (length (y :: l3)) with (S (length l3)).
    rewrite (app_assoc _ (Some <$> l2)), (app_assoc p1), (vobj_middle _ y _ i)
      by (rewrite !length_app, !length_fmap; lia).
    rewrite app_comm_cons, (app_assoc _ (Some y :: _)), (vobj_middle _ x)
      by (cbn in Hr; rewrite !length_app; cbn; rewrite !length_fmap; lia).
    cbn [mbind res_bind]. rewrite <-!app_assoc. cbn [app]. case_if.
    + rewrite (swap_rotate p1 l1 l2 y) by done. cbn [mbind res_bind].
      destruct (IH p1 (l1 ++ [y]) (rotate1 l2) x p2 (i + 1) (count + 1) right)
        as (l1' & l2' & HE & HP & HF); cbn in Hr; rewrite ?rotate1_perm, ?length_app; cbn;
        [apply Forall_app; auto|done|lia..|].
      exists l1', l2'. split_and!; [done| |by apply HF..].
      rewrite HP, rotate1_perm, <-app_assoc. f_equiv. cbn. by apply Permutation_middle.
    + destruct (IH p1 l1 (l2 ++ [y]) x p2 (i + 1) count right)
        as (l1' & l2' & HE & HP & HF); cbn in Hr; rewrite ?length_app; cbn;
        [done|apply Forall_app; auto|lia..|].
      rewrite fmap_app, <-app_assoc in HE. cbn [app fmap list_fmap] in HE.
      exists l1', l2'. split_and!; [done| |by apply HF..].
      by rewrite HP, <-app_assoc.
Qed.

(** The recursion of [quicksort] on the cells [seg] between [left] and
    [right]; a segment of [n] cells needs fuel [n + 1] at most. *)
Lemma quicksort_spec n : ∀ p1 seg p2 left right fuel,
  (length seg <= n)%nat → (n < fuel)%nat →
  left = Z.of_nat (length p1) → right = left + Z.of_nat (length seg) - 1 →
  ∃ seg', quicksort le fuel (p1 ++ (Some <$> seg) ++ p2) left right
            = Ok (p1 ++ (Some <$> seg') ++ p2) ∧
    seg' ≡ₚ seg ∧ sorted_by le seg'.
Proof.
  induction n as [n IH] using lt_wf_ind.
  intros p1 seg p2 left right fuel Hn Hf Hl Hr.
  destruct fuel as [|fuel]; [lia|]. cbn [quicksort].
  case_if; zbool.
  { exists seg. split_and!; [done..|]. destruct seg as [|a [|b seg]]; cbn in *;
      [constructor|by repeat constructor|lia]. }
  destruct seg as [|x seg _] using rev_ind; [cbn in *; lia|].
  rewrite length_app in *. cbn in Hn, Hr.
  destruct (partition_loop_spec seg p1 [] [] x p2 left left right)
    as (l1 & l2 & HE & HP & HF1 & HF2); [constructor..|cbn; lia|cbn; lia|lia|].
  cbn [app fmap list_fmap] in HE, HP.
  replace (Z.to_nat (right - left + 1)) with (S (length seg)) by lia.
  rewrite fmap_app, <-app_assoc. cbn [app fmap list_fmap]. rewrite HE.
  cbn [mbind res_bind].
  assert (length l1 + length l2 = length seg)%nat as Hlen
    by (rewrite <-length_app; by apply Permutation_length).
  destruct (IH (length l1) ltac:(lia) p1 l1 (Some x :: (Some <$> l2) ++ p2) left
              (Z.of_nat (length p1 + length l1) + 1 - 2) fuel)
    as (s1 & HE1 & HP1 & HS1); [lia..|].
  rewrite fmap_app, <-app_assoc. cbn [app fmap list_fmap].
  rewrite HE1. cbn [mbind res_bind].
  destruct (IH (length l2) ltac:(lia) (p1 ++ (Some <$> s1) ++ [Some x]) l2 p2
              (Z.of_nat (length p1 + length l1) + 1) right fuel)
    as (s2 & HE2 & HP2 & HS2);
    [lia..|rewrite !length_app, length_fmap, HP1; cbn; lia|lia|].
  rewrite <-!app_assoc in HE2. cbn [app] in HE2. rewrite HE2.
  exists (s1 ++ x :: s2). rewrite fmap_app, <-app_assoc. split_and!; [done| |].
  - rewrite HP1, HP2, <-HP. rewrite <-Permutation_middle.
    by rewrite <-Permutation_cons_append.
  - rewrite <-HP1 in HF1. rewrite <-HP2 in HF2. rewrite Forall_forall in HF1, HF2.
    apply StronglySorted_app_intro; [done| |].
    + constructor; [done|]. apply Forall_forall. intros b Hb.
      destruct (tp_total (le:=le) x b) as [?|Hbx]; [done|]. by rewrite HF2 in Hbx.
    + intros a b Ha [->|Hb]%elem_of_cons; [by apply HF1|].
      apply (tp_trans (le:=le)) with x; [by apply HF1|].
      destruct (tp_total (le:=le) x b) as [?|Hbx]; [done|]. by rewrite HF2 in Hbx.
Qed.

End qsort_lemmas.

(** ** Sequences of operations *)

Inductive vec_op : Type :=
| VAppend (a : A)
| VSet (index : Z) (a : A)
| VDelete (index : Z).

Definition vec_step (v : Vector A) (op : vec_op) : res (Vector A) :=
  match op with
  | VAppend a => vector_append v a
  | VSet i a => vector_set v i a
  | VDelete i => vector_delete v i
  end.

(** The same operation on a list; an index outside of it changes nothing. *)
Definition list_step (l : list A) (op : vec_op) : list A :=
  match op with
  | VAppend a => l ++ [a]
  | VSet i a => if i <? 0 then l else <[Z.to_nat i := a]> l
  | VDelete i => if i <? 0 then l else delete (Z.to_nat i) l
  end.

Fixpoint vec_run (v : Vector A) (ops : list vec_op) : res (Vector A) :=
  match ops with
  | [] => Ok v
  | op :: ops => v' ← vec_step v op; vec_run v' ops
  end.

Lemma vec_step_repr v l op :
  vec_repr v l → Z.of_nat (length l) < 2 ^ 29 →
  ∃ v', vec_step v op = Ok v' ∧ vec_repr v' (list_step l op).
Proof.
  intros Hr Hl. pose proof (vr_size _ _ Hr) as Hs. destruct op as [a|i a|i]; cbn.
  - by apply vector_append_repr.
  - destruct (decide (0 <= i < Z.of_nat (length l))).
    + case_if; zbool; [lia|]. by apply vector_set_repr.
    + unfold vector_set. rewrite Hs. destruct ((i >=? 0) && _) eqn:E; zbool; [lia|].
      exists v. split; [done|]. case_if; zbool; [done|].
      by rewrite list_insert_ge by lia.
  - destruct (decide (0 <= i < Z.of_nat (length l))).
    + case_if; zbool; [lia|]. by apply vector_delete_repr.
    + unfold vector_delete. rewrite Hs.
      destruct ((i <? 0) || _) eqn:E; zbool; [|lia].
      exists v. split; [done|]. case_if; zbool; [done|].
      by rewrite list_delete_ge by lia.
Qed.

Lemma list_step_length l op : (length (list_step l op) <= S (length l))%nat.
Proof.
  destruct op as [a|i a|i]; cbn; repeat case_if; rewrite ?length_app, ?length_insert;
    cbn; try lia.
  destruct (decide (Z.to_nat i < length l)%nat).
  - rewrite length_delete; [lia|]. by apply lookup_lt_is_Some.
  - rewrite list_delete_ge by lia. lia.
Qed.

Lemma vec_run_repr ops v l :
  vec_repr v l → Z.of_nat (length l) + Z.of_nat (length ops) <= 2 ^ 29 →
  ∃ v', vec_run v ops = Ok v' ∧ vec_repr v' (foldl list_step l ops).
Proof.
  revert v l. induction ops as [|op ops IH]; intros v l Hr Hl; cbn [vec_run foldl].
  - eauto.
  - rewrite length_cons in Hl.
    destruct (vec_step_repr v l op Hr) as (v1 & -> & Hr1); [lia|]. cbn.
    apply IH; [done|]. pose proof (list_step_length l op). lia.
Qed.

End Vec.

(** ** Properties *)

(** C24 any sequence of appends, writes and deletions on a new vector does to its
    contents what the same sequence does to a list, growing and shrinking the
    block on the way, without an access outside of it. *)
Theorem vector_refines_list {A} (ops : list (vec_op (A:=A))) :
  Z.of_nat (length ops) <= 2 ^ 29 →
  ∃ v, vec_run vector_new ops = Ok v ∧ vec_repr v (foldl list_step [] ops) ∧
    ∀ i a, foldl list_step [] ops !! Z.to_nat i = Some a → 0 <= i →
      vector_get v i = Ok (Some a).
Proof.
  intros Hl. destruct (vec_run_repr ops vector_new []) as (v & Hv & Hr);
    [apply vector_new_repr|cbn; lia|].
  exists v. split_and!; [done..|]. intros. by eapply vector_get_repr.
Qed.

Lemma vector_refines_list_witness :
  ∃ v, vec_run vector_new
         [VAppend 1; VAppend 2; VAppend 3; VAppend 4; VAppend 5; VDelete 0; VSet 1 9]
       = Ok v ∧ vec_repr v [2; 9; 4; 5] ∧
    ∀ i a, [2; 9; 4; 5] !! Z.to_nat i = Some a → 0 <= i →
      vector_get v i = Ok (Some a).
Proof.
  apply (vector_refines_list
    [VAppend 1; VAppend 2; VAppend 3; VAppend 4; VAppend 5; VDelete 0; VSet 1 9]).
  cbn. lia.
Defined.

Lemma vector_qsort_repr {A} (le : A → A → bool) (v : Vector A) (l : list A) :
  TotalPreorder le → vec_repr v l →
  ∃ v' l', vector_qsort le v = Ok v' ∧ vec_repr v' l' ∧ l' ≡ₚ l ∧ sorted_by le l'.
Proof.
  intros Hle [Hi Hs Hc Hm]. unfold vector_qsort. case_if; zbool.
  { exists v, l. split_and!; try done. destruct l as [|a [|b l]];
      [constructor|by repeat constructor|rewrite !length_cons in Hs; lia]. }
  destruct (quicksort_spec le (length l) [] l
              (replicate (Z.to_nat (maxsize v) - length l) None) 0 (vsize v - 1)
              (S (Z.to_nat (vsize v)))) as (l' & HE & HP & HS); [lia|lia|done|lia|].
  cbn [app] in HE. rewrite Hi, HE. cbn. eexists _, l'. split_and!; [done| |done..].
  split; cbn; rewrite ?(Permutation_length HP); done.
Qed.

(** C23 vector_qsort terminates and leaves the vector with a sorted permutation of
    its elements, for every comparison function that is a total preorder. *)
Theorem vector_qsort_sorts {A} (le : A → A → bool) (v : Vector A) (l : list A) :
  TotalPreorder le → vec_repr v l →
  ∃ v' l', vector_qsort le v = Ok v' ∧ vec_repr v' l' ∧ l' ≡ₚ l ∧ sorted_by le l'.
Proof. apply vector_qsort_repr. Qed.

#[export] Instance leb_preorder : TotalPreorder Z.leb.
Proof.
  split; intros.
  - apply Z.leb_refl.
  - zbool. apply Z.leb_le. lia.
  - destruct (Z.leb_spec a b); [by left|right; apply Z.leb_le; lia].
Qed.

Lemma vector_qsort_sorts_witness :
  ∃ v' l', vector_qsort Z.leb (mkVector [Some 0; Some 5; Some 3; Some 4] 4 4) = Ok v'
    ∧ vec_repr v' l' ∧ l' ≡ₚ [0; 5; 3; 4] ∧ sorted_by Z.leb l'.
Proof.
  apply (vector_qsort_sorts Z.leb (mkVector [Some 0; Some 5; Some 3; Some 4] 4 4)
           [0; 5; 3; 4]); [apply leb_preorder|by split].
Defined.
