(* ===== verification/Trie.v ===== *)
(** * The trie: src/trie.c, src/trie.h

    A node keeps the character that leads to it, its children in a binary
    search tree keyed by their character, and the data of the key that ends
    there.  A key is the list of its characters.

    Pointers: a null pointer is [None]; the fields of a node reached by
    [trie_node_find] or by the loop of [trie_delete] are assigned through that
    pointer, which [trie_node_update] models by rebuilding the path.  The root
    of a trie is [None] once it has been released ([database_flush] does so and
    keeps the pointer). *)

From S2P Require Import Prelude Store Bst Vec.

(** ** Data *)

Inductive trie_node (A : Type) : Type :=
| mkNode (chr : Z) (children : bst_node (trie_node A)) (data : option A).
Arguments mkNode {A} chr children data.

(** [struct kv_obj]. *)
Record kv_obj (A : Type) : Type := mkKv { kv_key : list Z; kv_data : A }.
Arguments mkKv {A} kv_key kv_data.
Arguments kv_key {A} k : rename.
Arguments kv_data {A} k : rename.

(** A block of [tmalloc] seen from the pointer handed out: [hdr] is the size
    stored in the eight bytes before it, [cells] are its bytes. *)
Record chunk := mkChunk { hdr : Z; cells : list Z }.

Section Trie.
  Context {A : Type}.
  Implicit Types (n : trie_node A) (b : bst_node (trie_node A)) (d : A)
                 (k key prefix : list Z).

Definition chr (n : trie_node A) : Z := match n with mkNode c _ _ => c end.
Definition children (n : trie_node A) : bst_node (trie_node A) :=
  match n with mkNode _ b _ => b end.
Definition data (n : trie_node A) : option A := match n with mkNode _ _ d => d end.

(** [trie_destructor]: what it returns and the node it leaves behind (which has
    been released when the flag is false). *)
Definition trie_destructor : Type := trie_node A → bool → bool * trie_node A.

Record Trie : Type := mkTrie {
  destructor : option trie_destructor;
  root : option (trie_node A);
  tsize : Z
}.

(** ** Operations *)

Definition trie_is_free_node (n : trie_node A) : bool :=
  match children n with bst_null => true | _ => false end.

Fixpoint trie_walk (retnode : trie_node A) (prefix : list Z) : option (trie_node A) :=
  match prefix with
  | [] => Some retnode
  | c :: prefix =>
      match bst_search (children retnode) c with
      | bst_null => None
      | bst_mk _ _ _ _ child => trie_walk child prefix
      end
  end.

Definition trie_node_find (node : option (trie_node A)) (prefix : list Z)
  : option (trie_node A) :=
  match node with None => None | Some n => trie_walk n prefix end.

(** Assignments to the fields of the node found at [key]. *)
Fixpoint trie_node_update (n : trie_node A) (key : list Z)
    (f : trie_node A → trie_node A) : trie_node A :=
  match key with
  | [] => f n
  | c :: key =>
      match bst_search (children n) c with
      | bst_null => n
      | bst_mk _ _ _ _ child =>
          mkNode (chr n) (bst_write (children n) c (trie_node_update child key f))
                 (data n)
      end
  end.

Definition set_data (n : trie_node A) (d : option A) : trie_node A :=
  mkNode (chr n) (children n) d.

Definition set_children (n : trie_node A) (b : bst_node (trie_node A)) : trie_node A :=
  mkNode (chr n) b (data n).

(** [int] sums, left to right. *)
Fixpoint trie_children_count (node_count : trie_node A → res Z)
    (b : bst_node (trie_node A)) : res Z :=
  match b with
  | bst_null => Ok 0
  | bst_mk _ _ l r d =>
      c ← node_count d;
      cl ← trie_children_count node_count l;
      cr ← trie_children_count node_count r;
      s ← int_chk (c + cl);
      int_chk (s + cr)
  end.

Fixpoint trie_node_count (n : trie_node A) : res Z :=
  match n with
  | mkNode _ b (Some _) =>
      c ← trie_children_count trie_node_count b; int_chk (1 + c)
  | mkNode _ b None => trie_children_count trie_node_count b
  end.

Definition trie_create_node (c : Z) : trie_node A := mkNode c bst_null None.

Definition trie_new (destructor : option trie_destructor) : Trie :=
  {| destructor := destructor; root := Some (trie_create_node 0); tsize := 0 |}.

Definition trie_size (t : Trie) : Z := tsize t.

(** The loop over the key and the assignments after it; the result is the node
    at [cursor] and [*size]. *)
Fixpoint trie_node_insert (cursor : trie_node A) (key : list Z) (d : A) (size : Z)
  : res (trie_node A * Z) :=
  match key with
  | [] =>
      let size := match data cursor with None => u64 (size + 1) | Some _ => size end in
      Ok (set_data cursor (Some d), size)
  | c :: key =>
      match bst_search (children cursor) c with
      | bst_null =>
          let cur_node := trie_create_node c in
          b ← bst_insert (children cursor) c cur_node;
          '(cur_node, size) ← trie_node_insert cur_node key d size;
          mret (set_children cursor (bst_write b c cur_node), size)
      | bst_mk _ _ _ _ cur_node =>
          '(cur_node, size) ← trie_node_insert cur_node key d size;
          mret (set_children cursor (bst_write (children cursor) c cur_node), size)
      end
  end.

Definition the_root (t : Trie) : res (trie_node A) :=
  match root t with Some n => Ok n | None => Err UseAfterFree end.

Definition trie_insert (t : Trie) (key : list Z) (d : A) : res (Trie * A) :=
  r ← the_root t;
  '(r, size) ← trie_node_insert r key d (tsize t);
  mret ({| destructor := destructor t; root := Some r; tsize := size |}, d).

(** The value that [*ret] receives: [None] is a null pointer, for which the
    function returns false. *)
Definition trie_node_search (root : option (trie_node A)) (key : list Z) : option A :=
  match trie_node_find root key with
  | Some cursor => data cursor
  | None => None
  end.

Definition trie_find (t : Trie) (key : list Z) : res (option A) :=
  r ← the_root t; mret (trie_node_search (Some r) key).

Definition trie_delete (t : Trie) (key : list Z) : res (Trie * bool) :=
  match key with
  | [] => Ok (t, false)
  | _ =>
      r ← the_root t;
      match trie_walk r key with
      | None => Ok (t, false)
      | Some retnode =>
          match destructor t with
          | Some destroy =>
              let '(ret, node) := destroy retnode true in
              mret ({| destructor := destructor t;
                       root := Some (trie_node_update r key (λ _, node));
                       tsize := if (ret : bool) then u64 (tsize t - 1) else tsize t |},
                    ret)
          | None =>
              match data retnode with
              | Some _ =>
                  mret ({| destructor := destructor t;
                           root := Some (trie_node_update r key (λ n, set_data n None));
                           tsize := u64 (tsize t - 1) |}, true)
              | None => mret (t, true)
              end
          end
      end
  end.

(** The release of a subtree: the value of [*size] after it. *)
Fixpoint children_destroy (node_destroy : trie_node A → Z → Z)
    (b : bst_node (trie_node A)) (len : Z) : Z :=
  match b with
  | bst_null => len
  | bst_mk _ _ l r d =>
      let len := node_destroy d len in
      let len := children_destroy node_destroy l len in
      children_destroy node_destroy r len
  end.

Fixpoint trie_node_destroy (destructor : option trie_destructor) (n : trie_node A)
    (size : Z) : Z :=
  match n with
  | mkNode _ b d =>
      let size := children_destroy (trie_node_destroy destructor) b size in
      match destructor with
      | Some _ => size
      | None =>
          match d with
          | Some _ => if size >? 0 then u64 (size - 1) else size
          | None => size
          end
      end
  end.

Definition trie_prefix_delete (t : Trie) (prefix : list Z) : res Trie :=
  r ← the_root t;
  match trie_node_find (Some r) prefix with
  | None => Ok t
  | Some cursor =>
      if trie_is_free_node cursor then
        '(t, _) ← trie_delete t prefix; mret t
      else
        let size := children_destroy (trie_node_destroy (destructor t))
                      (children cursor) (tsize t) in
        let t1 := {| destructor := destructor t;
                     root := Some (trie_node_update r prefix (λ n, set_children n bst_null));
                     tsize := size |} in
        '(t2, _) ← trie_delete t1 prefix; mret t2
  end.

Definition trie_prefix_count (t : Trie) (prefix : list Z) : res Z :=
  r ← the_root t;
  match trie_node_find (Some r) prefix with
  | None => Ok 0
  | Some node => c ← trie_node_count node; int_chk (0 + c)
  end.

(** A store at [str[i]].  The byte before the block is the most significant one
    of the size (little endian). *)
Definition chunk_write (s : chunk) (i c : Z) : res chunk :=
  if i =? -1 then Ok {| hdr := hdr s mod 2 ^ 56 + u8 c * 2 ^ 56; cells := cells s |}
  else cs ← aset (cells s) i c; mret {| hdr := hdr s; cells := cs |}.

(** The string at the start of a block, up to its NUL. *)
Fixpoint cstring_at (cs : list Z) : res (list Z) :=
  match cs with
  | [] => Err OutOfBounds
  | c :: cs => if c =? 0 then Ok [] else s ← cstring_at cs; mret (c :: s)
  end.

(** [node_find] is the function for the node of a child. *)
Fixpoint children_prefix_find
    (node_find : trie_node A → chunk → Z → Vector (kv_obj A)
                 → res (chunk * Vector (kv_obj A)))
    (b : bst_node (trie_node A)) (str : chunk) (level : Z) (keys : Vector (kv_obj A))
  : res (chunk * Vector (kv_obj A)) :=
  match b with
  | bst_null => Ok (str, keys)
  | bst_mk _ _ l r d =>
      '(str, keys) ← node_find d str level keys;
      '(str, keys) ← children_prefix_find node_find l str level keys;
      children_prefix_find node_find r str level keys
  end.

(** When [level] reaches the size of the block the code reallocates it and keeps
    the new pointer in its own frame only; the callers go on with, and
    [trie_prefix_find] in the end releases, a pointer that [realloc] has made
    invalid.  The run is a use after free from there on. *)
Fixpoint trie_node_prefix_find (n : trie_node A) (str : chunk) (level : Z)
    (keys : Vector (kv_obj A)) : res (chunk * Vector (kv_obj A)) :=
  match n with
  | mkNode c b d =>
      if u64 level =? hdr str then Err UseAfterFree
      else
        str ← chunk_write str level c;
        '(str, keys) ←
          match d with
          | Some d =>
              str ← chunk_write str (level + 1) 0;
              key ← cstring_at (cells str);
              keys ← vector_append keys (mkKv key d);
              mret (str, keys)
          | None => mret (str, keys)
          end;
        children_prefix_find trie_node_prefix_find b str (level + 1) keys
  end.

(** [tmalloc(32)]: the contents of the new block are [junk], any 32 bytes. *)
Definition trie_prefix_find (junk : list Z) (t : Trie) (prefix : list Z)
  : res (option (Vector (kv_obj A))) :=
  r ← the_root t;
  match trie_node_find (Some r) prefix with
  | None => Ok None
  | Some node =>
      let plen := strlen prefix in
      if 32 <? plen then Err OutOfBounds
      else
        let str := {| hdr := 32; cells := prefix ++ drop (length prefix) (take 32 junk) |} in
        str ← chunk_write str plen 0;
        '(_, keys) ← trie_node_prefix_find node str (plen - 1) vector_new;
        mret (Some keys)
  end.

(** [trie_destroy] releases the root as well; nothing is left of the trie. *)
Definition trie_destroy (t : Trie) : res unit :=
  r ← the_root t;
  let _ := trie_node_destroy (destructor t) r (tsize t) in mret tt.

(** ** Specification *)

(** The keys below a node, each relative to the node, with their data, in the
    order of the traversals: the node itself, then for every node of the
    children tree its subtree, the left and the right children. *)
Fixpoint bst_entries (entries : trie_node A → list (list Z * A))
    (b : bst_node (trie_node A)) : list (list Z * A) :=
  match b with
  | bst_null => []
  | bst_mk c _ l r d =>
      (prod_map (cons c) id <$> entries d)
        ++ bst_entries entries l ++ bst_entries entries r
  end.

Fixpoint trie_entries (n : trie_node A) : list (list Z * A) :=
  match n with
  | mkNode _ b d =>
      match d with Some d => [([], d)] | None => [] end ++ bst_entries trie_entries b
  end.

(** The finite map that a node represents. *)
Definition node_map (n : trie_node A) : gmap (list Z) A :=
  list_to_map (trie_entries n).

(** The entries of a map whose key starts with [prefix]. *)
Definition with_prefix (prefix : list Z) (m : gmap (list Z) A) : gmap (list Z) A :=
  filter (λ p, prefix `prefix_of` p.1) m.

Definition without_prefix (prefix : list Z) (m : gmap (list Z) A) : gmap (list Z) A :=
  filter (λ p, ¬ prefix `prefix_of` p.1) m.

(** A predicate on all pairs of a children tree. *)
Fixpoint bst_all (P : Z → trie_node A → Prop) (b : bst_node (trie_node A)) : Prop :=
  match b with
  | bst_null => True
  | bst_mk c _ l r d => P c d ∧ bst_all P l ∧ bst_all P r
  end.

(** Well-formed nodes: the children trees satisfy their invariant, and a child
    carries the character that leads to it. *)
Fixpoint trie_wf (n : trie_node A) : Prop :=
  match n with
  | mkNode _ b _ =>
      bst_ok b ∧ bst_all (λ c child, is_char c ∧ chr child = c ∧ trie_wf child) b
  end.

(** The data found at a key below a node. *)
Definition node_get (n : trie_node A) (key : list Z) : option A :=
  trie_node_search (Some n) key.

(** What the trie relies on when it is given a destructor: called with the flag
    set, it reports whether the node had data and leaves the node without. *)
Class DataDestructor (destroy : trie_destructor) : Prop :=
  destroy_data n :
    destroy n true = (bool_decide (is_Some (data n)), set_data n None).

(** The nodes of the trie represent the map [m]. *)
Definition trie_tree (t : Trie) (m : gmap (list Z) A) : Prop :=
  ∃ r, root t = Some r ∧ trie_wf r ∧ chr r = 0 ∧ node_map r = m.

(** The trie [t] represents the map [m]; the size is kept in a [size_t]. *)
Record trie_repr (t : Trie) (m : gmap (list Z) A) : Prop := {
  tr_root : trie_tree t m;
  tr_size : tsize t = u64 (Z.of_nat (size m))
}.

(** ** Induction on nodes *)

Lemma trie_ind (P : trie_node A → Prop) :
  (∀ c b od, bst_all (λ _ n, P n) b → P (mkNode c b od)) → ∀ n, P n.
Proof.
  intros H. fix IH 1. intros [c b d]. apply H. revert b. fix IHb 1.
  intros [|k h l r x]; cbn; [exact I|]. split; [apply IH|split; apply IHb].
Qed.

Lemma bst_all_pairs P b : bst_all P b ↔ Forall (λ p, P p.1 p.2) (bst_pairs b).
Proof.
  induction b as [|c h l IHl r IHr d]; cbn [bst_all bst_pairs].
  - split; [constructor|done].
  - rewrite Forall_cons, Forall_app, IHl, IHr. done.
Qed.

Lemma bst_all_impl (P Q : Z → trie_node A → Prop) b :
  (∀ c n, P c n → Q c n) → bst_all P b → bst_all Q b.
Proof. intros H. induction b; cbn; naive_solver. Qed.

Lemma bst_all_lookup P b c n : bst_all P b → bst_lookup b c = Some n → P c n.
Proof.
  induction b as [|c' h l IHl r IHr d]; cbn [bst_all]; [done|].
  intros (Hd & Hl & Hr). rewrite bst_lookup_mk.
  repeat case_if; zbool; subst; intros; simplify_eq; auto.
Qed.

Lemma bst_all_insert P b c n : bst_all P b → P c n → bst_all P (plain_insert b c n).
Proof.
  rewrite !bst_all_pairs, !Forall_forall. intros H Hn [c' n'] Hin.
  apply plain_insert_pairs in Hin as [[= -> ->]|?]; [done|]. by apply (H (c', n')).
Qed.

Lemma bst_all_write P b c n : bst_all P b → P c n → bst_all P (bst_write b c n).
Proof.
  rewrite !bst_all_pairs, !Forall_forall. intros H Hn [c' n'] Hin.
  apply bst_write_pairs in Hin as [[= -> ->]|?]; [done|]. by apply (H (c', n')).
Qed.

(** ** Lookup *)

Lemma trie_walk_cons n c k :
  trie_walk n (c :: k) =
  match bst_lookup (children n) c with None => None | Some child => trie_walk child k end.
Proof. cbn. unfold bst_lookup. by destruct (bst_search (children n) c). Qed.

Lemma trie_walk_app n k1 k2 :
  trie_walk n (k1 ++ k2) =
  match trie_walk n k1 with None => None | Some m => trie_walk m k2 end.
Proof.
  revert n. induction k1 as [|c k1 IH]; intros n; [done|].
  rewrite <-app_comm_cons, !trie_walk_cons. by destruct (bst_lookup (children n) c).
Qed.

Lemma node_get_nil n : node_get n [] = data n.
Proof. done. Qed.

Lemma node_get_cons n c k :
  node_get n (c :: k) =
  match bst_lookup (children n) c with None => None | Some child => node_get child k end.
Proof.
  unfold node_get, trie_node_search, trie_node_find. rewrite trie_walk_cons.
  by destruct (bst_lookup (children n) c).
Qed.

Lemma node_get_app n k1 k2 :
  node_get n (k1 ++ k2) =
  match trie_walk n k1 with None => None | Some m => node_get m k2 end.
Proof.
  unfold node_get, trie_node_search, trie_node_find. rewrite trie_walk_app.
  by destruct (trie_walk n k1).
Qed.

Lemma trie_wf_child n c child :
  trie_wf n → bst_lookup (children n) c = Some child →
  is_char c ∧ chr child = c ∧ trie_wf child.
Proof.
  destruct n as [c' b od]. intros [_ H] Hl. exact (bst_all_lookup _ b c child H Hl).
Qed.

Lemma trie_wf_children n : trie_wf n → bst_ok (children n).
Proof. destruct n. by intros [? _]. Qed.

Lemma trie_wf_walk n k m : trie_wf n → trie_walk n k = Some m → trie_wf m.
Proof.
  revert n. induction k as [|c k IH]; intros n Hn; [cbn; naive_solver|].
  rewrite trie_walk_cons. destruct (bst_lookup _ _) eqn:E; [|done].
  eapply trie_wf_child in E as (_ & _ & ?); [|done]. by apply IH.
Qed.

Lemma bst_entries_elem f b k d :
  (k, d) ∈ bst_entries f b ↔
  ∃ c n k', (c, n) ∈ bst_pairs b ∧ k = c :: k' ∧ (k', d) ∈ f n.
Proof.
  induction b as [|c h l IHl r IHr n]; cbn [bst_entries bst_pairs].
  - split; [by intros ?%elem_of_nil|by intros (?&?&?&?%elem_of_nil&_)].
  - rewrite !elem_of_app, IHl, IHr, list_elem_of_fmap.
    setoid_rewrite elem_of_cons. setoid_rewrite elem_of_app. split.
    + intros [([k' d'] & [= -> ->] & ?)|[(?&?&?&?&?&?)|(?&?&?&?&?&?)]]; cbn;
        eauto 10.
    + intros (c' & n' & k' & [[= -> ->]|[?|?]] & -> & ?); [left|right; left|right; right].
      * exists (k', d). done.
      * eauto 10.
      * eauto 10.
Qed.

Lemma trie_entries_get n k d :
  trie_wf n → (k, d) ∈ trie_entries n ↔ node_get n k = Some d.
Proof.
  revert k d. induction n as [c b dd IH] using trie_ind. intros k d [Hok Hb].
  assert (∀ c n k d, (c, n) ∈ bst_pairs b →
    (k, d) ∈ trie_entries n ↔ node_get n k = Some d) as IH'.
  { intros c' n' k' d' Hin. rewrite bst_all_pairs, Forall_forall in IH, Hb.
    apply (IH _ Hin). by apply (Hb _ Hin). }
  cbn [trie_entries]. rewrite elem_of_app, bst_entries_elem. destruct k as [|x k].
  - rewrite node_get_nil. cbn [data]. split.
    + intros [?|(?&?&?&_&?&_)]; [|done].
      destruct dd; [|by apply elem_of_nil in H].
      by apply list_elem_of_singleton in H as [= ->].
    + intros ->. left. by apply list_elem_of_singleton.
  - rewrite node_get_cons. cbn [children]. split.
    + intros [?|(c' & n' & k' & Hp & [= -> ->] & He)].
      { by destruct dd; [apply list_elem_of_singleton in H|apply elem_of_nil in H]. }
      pose proof Hp as Hl. apply bst_pairs_lookup in Hl; [|by apply Hok].
      rewrite Hl. by eapply IH'.
    + destruct (bst_lookup b x) as [n'|] eqn:Hl; [|done]. intros Hg.
      apply bst_pairs_lookup in Hl; [|by apply Hok]. right.
      exists x, n', k. split_and!; [done..|]. by eapply IH'.
Qed.

Lemma bst_entries_nodup f b :
  NoDup (bst_pairs b).*1 → (∀ c n, (c, n) ∈ bst_pairs b → NoDup (f n).*1) →
  NoDup (bst_entries f b).*1.
Proof.
  induction b as [|c h l IHl r IHr n]; cbn [bst_entries bst_pairs]; intros Hnd Hf.
  { constructor. }
  rewrite fmap_cons, fmap_app, NoDup_cons, NoDup_app in Hnd.
  destruct Hnd as (Hc & Hl & Hlr & Hr). rewrite elem_of_app in Hc.
  assert (∀ b' k, k ∈ (bst_entries f b').*1 →
          ∃ c' k', k = c' :: k' ∧ c' ∈ (bst_pairs b').*1) as Hk.
  { intros b' k [[k' d'] [-> Hin]]%list_elem_of_fmap.
    apply bst_entries_elem in Hin as (c' & n' & k'' & ? & -> & _).
    exists c', k''. split; [done|]. apply list_elem_of_fmap. by exists (c', n'). }
  rewrite !fmap_app, !NoDup_app. setoid_rewrite elem_of_app.
  assert (∀ k, k ∈ (prod_map (cons c) id <$> f n).*1 → ∃ k', k = c :: k') as Hhd.
  { intros k [[k1 d1] [-> [[k2 d2] [[= -> ->] _]]%list_elem_of_fmap]]%list_elem_of_fmap.
    cbn. eauto. }
  split_and!.
  - rewrite <-list_fmap_compose.
    replace (fst ∘ prod_map (cons c) id) with (cons c ∘ @fst (list Z) A) by done.
    rewrite list_fmap_compose. apply NoDup_fmap_2; [apply _|].
    apply (Hf c). by left.
  - intros k (k' & ->)%Hhd [(c1 & k1 & [= <- <-] & ?)%Hk|(c1 & k1 & [= <- <-] & ?)%Hk];
      tauto.
  - apply IHl; [done|]. intros. eapply Hf. right. apply elem_of_app. eauto.
  - intros k (c1 & k1 & -> & ?)%Hk (c2 & k2 & [= <- <-] & ?)%Hk. by eapply Hlr.
  - apply IHr; [done|]. intros. eapply Hf. right. apply elem_of_app. eauto.
Qed.

Lemma trie_entries_nodup n : trie_wf n → NoDup (trie_entries n).*1.
Proof.
  induction n as [c b d IH] using trie_ind. intros [Hok Hb]. cbn [trie_entries].
  rewrite fmap_app. rewrite bst_all_pairs, Forall_forall in IH, Hb.
  assert (NoDup (bst_entries trie_entries b).*1).
  { apply bst_entries_nodup; [apply bst_pairs_nodup, Hok|].
    intros c' n' Hin. apply (IH _ Hin). by apply (Hb _ Hin). }
  destruct d as [d|]; cbn; [|done]. apply NoDup_cons. split; [|done].
  intros [[k' d'] [E Hin]]%list_elem_of_fmap. cbn in E. subst k'.
  by apply bst_entries_elem in Hin as (?&?&?&_&?&_).
Qed.

Lemma node_map_lookup n k : trie_wf n → node_map n !! k = node_get n k.
Proof.
  intros Hn. apply option_eq. intros d. rewrite <-trie_entries_get by done.
  symmetry. apply elem_of_list_to_map. by apply trie_entries_nodup.
Qed.

Lemma node_map_size n : trie_wf n → size (node_map n) = length (trie_entries n).
Proof.
  intros Hn. rewrite <-(map_size_list_to_map (trie_entries n)); [done|].
  by apply trie_entries_nodup.
Qed.

Lemma node_map_lookup_app n k1 k2 m :
  trie_wf n → trie_walk n k1 = Some m → node_map n !! (k1 ++ k2) = node_map m !! k2.
Proof.
  intros Hn Hm. rewrite !node_map_lookup; [|by eapply trie_wf_walk|done].
  by rewrite node_get_app, Hm.
Qed.

(** ** Assignments through a pointer *)

Lemma trie_node_update_cons n c k f child :
  bst_lookup (children n) c = Some child →
  trie_node_update n (c :: k) f =
    mkNode (chr n) (bst_write (children n) c (trie_node_update child k f)) (data n).
Proof.
  unfold bst_lookup. cbn. destruct (bst_search (children n) c); cbn; intros; by simplify_eq.
Qed.

Lemma set_children_wf n b :
  bst_ok b → bst_all (λ c m, is_char c ∧ chr m = c ∧ trie_wf m) b →
  trie_wf (set_children n b).
Proof. by split. Qed.

Lemma set_data_wf n od : trie_wf n → trie_wf (set_data n od).
Proof. by destruct n. Qed.

Lemma trie_wf_all n :
  trie_wf n → bst_all (λ c m, is_char c ∧ chr m = c ∧ trie_wf m) (children n).
Proof. destruct n. by intros [_ ?]. Qed.

Lemma trie_node_update_wf n k f m :
  trie_wf n → trie_walk n k = Some m → trie_wf (f m) → chr (f m) = chr m →
  trie_wf (trie_node_update n k f) ∧ chr (trie_node_update n k f) = chr n.
Proof.
  revert n. induction k as [|c k IH]; intros n Hn; [cbn; naive_solver|].
  rewrite trie_walk_cons. destruct (bst_lookup _ _) as [child|] eqn:E; [|done].
  intros Hw Hf Hc. rewrite (trie_node_update_cons _ _ _ _ _ E).
  pose proof (trie_wf_child _ _ _ Hn E) as (Hch & Hcc & Hwf).
  destruct (IH child) as [? ?]; [done..|]. split; [|done].
  split; [by apply bst_write_ok, trie_wf_children|].
  apply bst_all_write; [by apply trie_wf_all|]. by rewrite H0.
Qed.

Lemma node_get_update n k f m s :
  trie_walk n k = Some m → node_get (trie_node_update n k f) (k ++ s) = node_get (f m) s.
Proof.
  revert n. induction k as [|c k IH]; intros n; [cbn; naive_solver|].
  rewrite trie_walk_cons. destruct (bst_lookup _ _) as [child|] eqn:E; [|done].
  intros Hw. rewrite (trie_node_update_cons _ _ _ _ _ E). cbn [app].
  rewrite node_get_cons. cbn [children]. rewrite bst_write_lookup, Z.eqb_refl, E.
  cbn. by apply IH.
Qed.

Lemma node_get_update_ne n k f m k' :
  trie_walk n k = Some m → ¬ k `prefix_of` k' →
  node_get (trie_node_update n k f) k' = node_get n k'.
Proof.
  revert n k'. induction k as [|c k IH]; intros n k'.
  { intros _ []. apply prefix_nil. }
  rewrite trie_walk_cons. destruct (bst_lookup _ _) as [child|] eqn:E; [|done].
  intros Hw Hp. rewrite (trie_node_update_cons _ _ _ _ _ E).
  destruct k' as [|c' k']; [done|]. rewrite !node_get_cons. cbn [children].
  rewrite bst_write_lookup. case_if; zbool; subst; [|done]. rewrite E. cbn.
  apply IH; [done|]. intros ?. apply Hp. by apply prefix_cons.
Qed.

(** ** Insertion *)

Lemma trie_wf_create c : trie_wf (trie_create_node c).
Proof. by split. Qed.

Lemma trie_node_insert_spec n k d size :
  trie_wf n → cstr k →
  ∃ n', trie_node_insert n k d size =
          Ok (n', match node_get n k with None => u64 (size + 1) | Some _ => size end) ∧
    trie_wf n' ∧ chr n' = chr n ∧
    ∀ k', node_get n' k' = if decide (k' = k) then Some d else node_get n k'.
Proof.
  revert n. induction k as [|c k IH]; intros n Hn Hk.
  - cbn [trie_node_insert]. eexists; split_and!; [done|by apply set_data_wf|done|].
    intros [|c' k']; [done|]. rewrite decide_False by done. by rewrite !node_get_cons.
  - apply cstr_cons in Hk as [Hc Hk]. cbn [trie_node_insert].
    rewrite node_get_cons. pose proof (bst_search_lookup (children n) c) as Hs.
    pose proof (trie_wf_children n Hn) as Hok.
    destruct (bst_search (children n) c) as [|c0 h0 l0 r0 cur]; rewrite Hs.
    + rewrite bst_insert_ok by done. cbn [mbind res_bind].
      destruct (IH (trie_create_node c)) as (n' & -> & Hwf & Hchr & Hget);
        [by split|done|]. cbn [mbind res_bind].
      assert (node_get (trie_create_node c) k = None) as ->.
      { destruct k; [done|]. by rewrite node_get_cons. }
      eexists; split_and!; [done| |done|].
      * apply set_children_wf; [by auto with triedb|].
        apply bst_all_write; [|done]. apply bst_all_insert; [by apply trie_wf_all|].
        split_and!; [done..|]. by split.
      * intros [|c' k']; [done|]. rewrite !node_get_cons. cbn [children set_children].
        rewrite bst_write_lookup, !bst_lookup_plain_insert, Z.eqb_refl, Hs. cbn.
        case_if; zbool; subst.
        -- rewrite Hget, Hs. repeat case_decide; simplify_eq; [done..|].
           destruct k'; [done|]. by rewrite node_get_cons.
        -- by rewrite decide_False by congruence.
    + destruct (trie_wf_child n c cur Hn Hs) as (_ & Hcc & Hwc).
      destruct (IH cur) as (n' & -> & Hwf & Hchr & Hget); [done..|].
      cbn [mbind res_bind]. eexists; split_and!; [done| |done|].
      * apply set_children_wf; [by apply bst_write_ok|].
        apply bst_all_write; [by apply trie_wf_all|]. split_and!; [done|congruence|done].
      * intros [|c' k']; [done|]. rewrite !node_get_cons. cbn [children set_children].
        rewrite bst_write_lookup. case_if; zbool; subst.
        -- rewrite Hs. cbn. rewrite Hget. by repeat case_decide; simplify_eq.
        -- by rewrite decide_False by congruence.
Qed.

Lemma trie_insert_tree t m k d :
  trie_tree t m → cstr k →
  ∃ t', trie_insert t k d = Ok (t', d) ∧ trie_tree t' (<[k := d]> m) ∧
    destructor t' = destructor t ∧
    tsize t' = match m !! k with None => u64 (tsize t + 1) | Some _ => tsize t end.
Proof.
  intros (r & Hr & Hwf & Hr0 & <-) Hk. unfold trie_insert, the_root. rewrite Hr.
  cbn [mbind res_bind].
  destruct (trie_node_insert_spec r k d (tsize t) Hwf Hk) as (r' & -> & Hwf' & Hc & Hget).
  cbn [mbind res_bind]. eexists; split_and!; [done| |done|by rewrite node_map_lookup].
  exists r'. split_and!; [done..|by rewrite Hc|]. apply map_eq. intros k'.
  rewrite node_map_lookup, Hget, lookup_insert, node_map_lookup by done.
  by repeat case_decide; simplify_eq.
Qed.

Lemma trie_insert_repr t m k d :
  trie_repr t m → cstr k →
  ∃ t', trie_insert t k d = Ok (t', d) ∧ trie_repr t' (<[k := d]> m) ∧
    destructor t' = destructor t.
Proof.
  intros [Ht Hs] Hk. destruct (trie_insert_tree t m k d Ht Hk) as (t' & -> & Ht' & Hd & Hsz).
  exists t'. split_and!; [done| |done]. split; [done|]. rewrite Hsz.
  destruct (m !! k) eqn:E.
  - rewrite map_size_insert_Some by by rewrite E. done.
  - rewrite map_size_insert_None by done. rewrite Hs, u64_add_idemp_l. f_equal. lia.
Qed.

(** ** Deletion *)

(** An assignment to the data of the node of a key. *)
Lemma update_data_map r k m (x : option A) :
  trie_wf r → trie_walk r k = Some m →
  trie_wf (trie_node_update r k (λ n, set_data n x)) ∧
  chr (trie_node_update r k (λ n, set_data n x)) = chr r ∧
  node_map (trie_node_update r k (λ n, set_data n x)) = partial_alter (λ _, x) k (node_map r).
Proof.
  intros Hr Hm. assert (trie_wf m) by by eapply trie_wf_walk.
  destruct (trie_node_update_wf r k (λ n, set_data n x) m) as [Hwf Hc];
    [done..|by apply set_data_wf|done|]. split; [done|]. split; [done|].
  apply map_eq. intros k'. rewrite node_map_lookup by done.
  destruct (decide (k `prefix_of` k')) as [[s ->]|Hp].
  - rewrite (node_get_update _ _ _ m) by done.
    destruct s as [|c s]; [by rewrite app_nil_r, lookup_partial_alter_eq|].
    rewrite lookup_partial_alter_ne by (intros E; apply (f_equal length) in E;
      rewrite length_app in E; cbn in E; lia).
    rewrite node_map_lookup, node_get_app, Hm by done. by rewrite !node_get_cons.
  - rewrite (node_get_update_ne _ _ _ m) by done.
    rewrite lookup_partial_alter_ne by (intros ->; by apply Hp). by rewrite node_map_lookup.
Qed.

Lemma clear_data_map r k m :
  trie_wf r → trie_walk r k = Some m →
  trie_wf (trie_node_update r k (λ n, set_data n None)) ∧
  chr (trie_node_update r k (λ n, set_data n None)) = chr r ∧
  node_map (trie_node_update r k (λ n, set_data n None)) = delete k (node_map r).
Proof. apply update_data_map. Qed.

(** An assignment to the data of a key that is present. *)
Lemma write_data_tree t m k (x : A) :
  trie_tree t m → is_Some (m !! k) →
  ∃ r, root t = Some r ∧
    trie_tree {| destructor := destructor t;
                 root := Some (trie_node_update r k (λ n, set_data n (Some x)));
                 tsize := tsize t |} (<[k := x]> m).
Proof.
  intros (r & Hr & Hwf & Hr0 & <-) [d Hd]. exists r. split; [done|].
  rewrite node_map_lookup in Hd by done. unfold node_get, trie_node_search in Hd.
  destruct (trie_node_find (Some r) k) as [n|] eqn:En; [|done].
  destruct (update_data_map r k n (Some x) Hwf En) as (? & ? & ?).
  eexists. split_and!; [done|done|cbn; congruence|done].
Qed.

Lemma delete_size m k (x : A) :
  (m : gmap (list Z) A) !! k = Some x →
  u64 (u64 (Z.of_nat (size m)) - 1) = u64 (Z.of_nat (size (delete k m))).
Proof.
  intros Hx. rewrite u64_sub_idemp_l. f_equal.
  rewrite <-(insert_delete_id m k x) at 1 by done.
  rewrite map_size_insert_None by apply lookup_delete_eq. lia.
Qed.

Lemma update_const n k m x :
  trie_walk n k = Some m → trie_node_update n k (λ _, set_data m x) =
                           trie_node_update n k (λ n, set_data n x).
Proof.
  revert n. induction k as [|c k IH]; intros n; [cbn; naive_solver|].
  rewrite trie_walk_cons. destruct (bst_lookup _ _) as [child|] eqn:E; [|done].
  intros Hw. rewrite !(trie_node_update_cons _ _ _ _ _ E). by rewrite IH.
Qed.

(** Deletion with a destructor, of a non-empty key. *)
Lemma trie_delete_tree t m k destroy :
  trie_tree t m → destructor t = Some destroy → DataDestructor destroy → k ≠ [] →
  ∃ t', trie_delete t k = Ok (t', bool_decide (is_Some (m !! k))) ∧
    trie_tree t' (delete k m) ∧ destructor t' = destructor t ∧
    tsize t' = if bool_decide (is_Some (m !! k)) then u64 (tsize t - 1) else tsize t.
Proof.
  intros (r & Hr & Hwf & Hr0 & <-) Hd Hdd Hk. unfold trie_delete, the_root.
  rewrite Hr, Hd. destruct k as [|c k]; [done|]. cbn [mbind res_bind].
  remember (c :: k) as key eqn:Ekey.
  assert (node_map r !! key = trie_node_search (Some r) key) as Hget
    by by rewrite node_map_lookup.
  unfold trie_node_search, trie_node_find in Hget. rewrite Hget.
  destruct (trie_walk r key) as [m|] eqn:Hm.
  - rewrite destroy_data. cbn [mret res_ret].
    destruct (clear_data_map r key m) as (Hwf' & Hc' & Hmap); [done..|].
    eexists; split_and!; [done| |done|done].
    eexists; split_and!; [done|..]; rewrite update_const by done; congruence.
  - rewrite bool_decide_false by by intros [].
    exists t. split_and!; [done| |done..].
    rewrite delete_id by done. eexists; eauto 10.
Qed.

Lemma trie_delete_repr t m k destroy :
  trie_repr t m → destructor t = Some destroy → DataDestructor destroy → k ≠ [] →
  ∃ t', trie_delete t k = Ok (t', bool_decide (is_Some (m !! k))) ∧
    trie_repr t' (delete k m) ∧ destructor t' = destructor t.
Proof.
  intros [Ht Hs] Hd Hdd Hk.
  destruct (trie_delete_tree t m k destroy Ht Hd Hdd Hk) as (t' & -> & Ht' & Hd' & Hsz).
  exists t'. split_and!; [done| |done]. split; [done|]. rewrite Hsz.
  case_bool_decide as Hsome.
  - destruct Hsome as [x Hx]. rewrite Hs. by eapply delete_size.
  - rewrite Hs, delete_id; [done|]. by destruct (m !! k); [destruct Hsome|].
Qed.

(** Deletion without a destructor: the result says only whether the node of the
    key exists. *)
Lemma trie_delete_plain_repr t m k :
  trie_repr t m → destructor t = None → k ≠ [] →
  ∃ t' ret, trie_delete t k = Ok (t', ret) ∧ trie_repr t' (delete k m) ∧
    destructor t' = None ∧ (is_Some (m !! k) → ret = true).
Proof.
  intros [(r & Hr & Hwf & Hr0 & <-) Hs] Hd Hk. unfold trie_delete, the_root.
  rewrite Hr, Hd. destruct k as [|c k]; [done|]. cbn [mbind res_bind].
  remember (c :: k) as key eqn:Ekey.
  assert (node_map r !! key = trie_node_search (Some r) key) as Hget
    by by rewrite node_map_lookup.
  unfold trie_node_search, trie_node_find in Hget.
  destruct (trie_walk r key) as [m|] eqn:Hm.
  - destruct (clear_data_map r key m) as (Hwf' & Hc' & Hmap); [done..|].
    destruct (data m) as [x|]; eexists _, _; (split_and!; [done| |done|done]).
    + split; cbn; [|rewrite Hs; by eapply delete_size].
      eexists; split_and!; [done..|congruence|done].
    + rewrite delete_id by done. split; [by eexists; eauto 10|done].
  - eexists _, _; split_and!; [done| |done|by rewrite Hget; intros []].
    rewrite delete_id by done. split; [by eexists; eauto 10|done].
Qed.

Lemma trie_find_tree t m k : trie_tree t m → trie_find t k = Ok (m !! k).
Proof.
  intros (r & Hr & Hwf & Hr0 & <-). unfold trie_find, the_root. rewrite Hr. cbn.
  by rewrite node_map_lookup.
Qed.

Lemma trie_find_repr t m k : trie_repr t m → trie_find t k = Ok (m !! k).
Proof. intros [Ht _]. by apply trie_find_tree. Qed.

Lemma trie_new_repr dd : trie_repr (trie_new dd) ∅.
Proof. split; [|done]. eexists; split_and!; [done|by split|done..]. Qed.

(** ** Keys with a common prefix *)

(** The keys below [prefix] are those of the node found there. *)
Lemma with_prefix_node r p m :
  trie_wf r → trie_walk r p = Some m →
  with_prefix p (node_map r) = kmap (app p) (node_map m).
Proof.
  intros Hr Hm. assert (trie_wf m) by by eapply trie_wf_walk.
  apply map_eq. intros k. apply option_eq. intros x. unfold with_prefix.
  rewrite map_lookup_filter_Some, lookup_kmap_Some by apply _. cbn. split.
  - intros [Hk [s ->]]. exists s. split; [done|].
    by rewrite <-Hk, (node_map_lookup_app r p s m).
  - intros (s & -> & Hs). split; [|by exists s].
    by rewrite (node_map_lookup_app r p s m).
Qed.

Lemma with_prefix_none r p :
  trie_wf r → trie_walk r p = None → with_prefix p (node_map r) = ∅.
Proof.
  intros Hr Hm. apply map_eq. intros k. rewrite lookup_empty.
  apply map_lookup_filter_None. right. intros x Hx [s E]. cbn in E. subst k.
  by rewrite node_map_lookup, node_get_app, Hm in Hx.
Qed.

Lemma with_prefix_size r p m :
  trie_wf r → trie_walk r p = Some m →
  size (with_prefix p (node_map r)) = length (trie_entries m).
Proof.
  intros Hr Hm. rewrite (with_prefix_node _ _ m) by done.
  rewrite <-length_map_to_list, map_to_list_kmap by apply _.
  rewrite length_fmap, length_map_to_list. apply node_map_size. by eapply trie_wf_walk.
Qed.

(** ** Counting *)

Lemma bst_entries_mk_length f c h l r n :
  length (bst_entries f (bst_mk c h l r n)) =
  (length (f n) + length (bst_entries f l) + length (bst_entries f r))%nat.
Proof. cbn. rewrite !length_app, length_fmap. lia. Qed.

(** The count is the number of keys, or the sum overflows. *)
Lemma trie_children_count_spec b :
  bst_all (λ _ n, trie_node_count n = int_chk (Z.of_nat (length (trie_entries n)))) b →
  trie_children_count trie_node_count b =
    int_chk (Z.of_nat (length (bst_entries trie_entries b))).
Proof.
  induction b as [|c h l IHl r IHr n]; cbn [bst_all]; [done|].
  intros (Hn & Hl & Hr). rewrite bst_entries_mk_length.
  cbn [trie_children_count]. rewrite Hn, IHl, IHr by done.
  set (a := length (trie_entries n)). set (x := length (bst_entries _ l)).
  set (y := length (bst_entries _ r)).
  rewrite !Nat2Z.inj_add.
  destruct (decide (Z.of_nat a + Z.of_nat x + Z.of_nat y <= INT_MAX)).
  - rewrite !(int_chk_Ok (Z.of_nat _)) by (unfold INT_MIN; lia). cbn [mbind res_bind].
    rewrite (int_chk_Ok (_ + Z.of_nat x)) by (unfold INT_MIN; lia). done.
  - rewrite (int_chk_over (_ + _ + _)) by lia.
    destruct (int_chk_cases (Z.of_nat a)) as [[-> _]| ->]; cbn [mbind res_bind]; [|done].
    destruct (int_chk_cases (Z.of_nat x)) as [[-> _]| ->]; cbn [mbind res_bind]; [|done].
    destruct (int_chk_cases (Z.of_nat y)) as [[-> _]| ->]; cbn [mbind res_bind]; [|done].
    destruct (int_chk_cases (Z.of_nat a + Z.of_nat x)) as [[-> _]| ->]; cbn [mbind res_bind]; [|done].
    apply int_chk_over. lia.
Qed.

Lemma trie_node_count_spec n :
  trie_node_count n = int_chk (Z.of_nat (length (trie_entries n))).
Proof.
  induction n as [c b [d|] IH] using trie_ind; cbn [trie_node_count trie_entries];
    rewrite length_app, trie_children_count_spec by done; cbn [length]; [|done].
  set (x := length _).
  destruct (decide (Z.of_nat x <= INT_MAX)).
  - rewrite int_chk_Ok by (unfold INT_MIN; lia). cbn [mbind res_bind]. f_equal. lia.
  - by rewrite !int_chk_over by lia.
Qed.

Lemma trie_prefix_count_tree t m p :
  trie_tree t m → trie_prefix_count t p = int_chk (Z.of_nat (size (with_prefix p m))).
Proof.
  intros (r & Hr & Hwf & Hr0 & <-). unfold trie_prefix_count, the_root, trie_node_find.
  rewrite Hr. cbn [mbind res_bind]. destruct (trie_walk r p) as [n|] eqn:Hn.
  - rewrite (with_prefix_size _ _ n), trie_node_count_spec by done.
    destruct (int_chk_cases (Z.of_nat (length (trie_entries n)))) as [[E ?]| E]; by rewrite E.
  - by rewrite with_prefix_none.
Qed.

(** ** Release of a subtree *)

Lemma node_destroy_destructor destroy n s : trie_node_destroy (Some destroy) n s = s.
Proof.
  revert s. induction n as [c b od IH] using trie_ind. intros s. cbn.
  revert s. induction b as [|c' h l IHl r IHr n]; intros s; cbn; [done|].
  destruct IH as (Hn & Hl & Hr). rewrite Hn, IHl by done. by apply IHr.
Qed.

Lemma children_destroy_destructor destroy b s :
  children_destroy (trie_node_destroy (Some destroy)) b s = s.
Proof.
  revert s. induction b as [|c h l IHl r IHr n]; intros s; cbn; [done|].
  by rewrite node_destroy_destructor, IHl, IHr.
Qed.

Definition counts_down (f : Z → Z) (k : nat) : Prop :=
  ∀ s, Z.of_nat k <= s < 2 ^ 64 → f s = s - Z.of_nat k.

Lemma children_destroy_counts f g b :
  bst_all (λ _ n, counts_down (f n) (length (g n))) b →
  counts_down (children_destroy f b) (length (bst_entries g b)).
Proof.
  induction b as [|c h l IHl r IHr n]; intros Hb s; [cbn; lia|].
  destruct Hb as (Hn & Hl & Hr). rewrite bst_entries_mk_length. intros Hs. cbn.
  rewrite Hn by lia. rewrite IHl by (done || lia). rewrite IHr by (done || lia). lia.
Qed.

Lemma node_destroy_counts n :
  counts_down (trie_node_destroy None n) (length (trie_entries n)).
Proof.
  induction n as [c b od IH] using trie_ind. intros s.
  cbn [trie_node_destroy trie_entries]. rewrite length_app. intros Hs.
  rewrite (children_destroy_counts _ trie_entries b IH) by lia.
  destruct od as [d|]; cbn [length] in *; [|lia].
  case_if; zbool; [|lia]. rewrite u64_small by lia. lia.
Qed.

(** ** Deletion of a prefix *)

(** What is left when the children of the node at [p] are gone. *)
Definition cut_below (p : list Z) (m : gmap (list Z) A) : gmap (list Z) A :=
  filter (λ kd, ¬ p `prefix_of` kd.1 ∨ kd.1 = p) m.

(** What [trie_prefix_delete] leaves: the empty prefix spares the empty key,
    which [trie_delete] never removes. *)
Definition prefix_deleted (p : list Z) (m : gmap (list Z) A) : gmap (list Z) A :=
  match p with [] => cut_below [] m | _ => without_prefix p m end.

Lemma delete_cut_below p m : delete p (cut_below p m) = without_prefix p m.
Proof.
  unfold cut_below, without_prefix. apply map_eq. intros k. apply option_eq. intros x.
  rewrite lookup_delete_Some, !map_lookup_filter_Some. cbn. naive_solver.
Qed.

Lemma cut_below_lookup_self p m : cut_below p m !! p = m !! p.
Proof.
  unfold cut_below. apply option_eq. intros x. rewrite map_lookup_filter_Some. cbn.
  naive_solver.
Qed.

Lemma cut_below_free r p n :
  trie_wf r → trie_walk r p = Some n → children n = bst_null →
  cut_below p (node_map r) = node_map r.
Proof.
  intros Hr Hn Hb. unfold cut_below. apply map_filter_id. intros k x Hx. cbn.
  destruct (decide (p `prefix_of` k)) as [[s ->]|]; [right|by left].
  rewrite node_map_lookup, node_get_app, Hn in Hx by done.
  destruct s as [|c s]; [by rewrite app_nil_r|].
  by rewrite node_get_cons, Hb in Hx.
Qed.

Lemma clear_children_map r p n :
  trie_wf r → trie_walk r p = Some n →
  trie_wf (trie_node_update r p (λ n, set_children n bst_null)) ∧
  chr (trie_node_update r p (λ n, set_children n bst_null)) = chr r ∧
  node_map (trie_node_update r p (λ n, set_children n bst_null)) =
    cut_below p (node_map r).
Proof.
  intros Hr Hn. destruct (trie_node_update_wf r p (λ n, set_children n bst_null) n)
    as [Hwf Hc]; [done..|by apply set_children_wf|done|]. split; [done|]. split; [done|].
  unfold cut_below. apply map_eq. intros k. rewrite node_map_lookup by done.
  destruct (decide (p `prefix_of` k)) as [[s ->]|Hp].
  - rewrite (node_get_update _ _ _ n) by done. destruct s as [|c s].
    + rewrite app_nil_r. symmetry. fold (cut_below p (node_map r)).
      rewrite cut_below_lookup_self, node_map_lookup by done.
      unfold node_get, trie_node_search, trie_node_find. by rewrite Hn.
    + rewrite node_get_cons. cbn [children set_children]. rewrite bst_lookup_null.
      symmetry. apply map_lookup_filter_None. right. intros x _ [H|H]; cbn in H.
      * apply H. by exists (c :: s).
      * apply (f_equal length) in H. rewrite length_app in H. cbn in H. lia.
  - rewrite (node_get_update_ne _ _ _ n) by done. rewrite <-node_map_lookup by done.
    destruct (node_map r !! k) as [x|] eqn:Hk; symmetry.
    + apply map_lookup_filter_Some. cbn. auto.
    + apply map_lookup_filter_None. auto.
Qed.

(** The number of keys that disappear with the children. *)
Lemma cut_below_size r p n :
  trie_wf r → trie_walk r p = Some n →
  size (node_map r) =
  (size (cut_below p (node_map r)) + length (bst_entries trie_entries (children n)))%nat.
Proof.
  intros Hr Hn. destruct (clear_children_map r p n) as (Hwf & _ & Hmap); [done..|].
  assert (∀ r', trie_wf r' →
    size (node_map r') = (size (with_prefix p (node_map r'))
                          + size (without_prefix p (node_map r')))%nat) as Hsplit.
  { intros r' _. unfold with_prefix, without_prefix.
    rewrite <-map_size_disj_union by apply map_disjoint_filter_complement.
    by rewrite map_filter_union_complement. }
  rewrite <-Hmap, (Hsplit r), (Hsplit (trie_node_update _ _ _)) by done.
  rewrite (with_prefix_size r p n) by done.
  assert (trie_walk (trie_node_update r p (λ n, set_children n bst_null)) p
          = Some (set_children n bst_null)) as Hn'.
  { clear -Hn. revert r Hn. induction p as [|c p IH]; intros r; [cbn; naive_solver|].
    rewrite trie_walk_cons. destruct (bst_lookup _ _) as [child|] eqn:E; [|done].
    intros Hw. rewrite (trie_node_update_cons _ _ _ _ _ E), trie_walk_cons.
    cbn [children]. rewrite bst_write_lookup, Z.eqb_refl, E. cbn. by apply IH. }
  rewrite (with_prefix_size _ p _ Hwf Hn'), Hmap.
  assert (without_prefix p (cut_below p (node_map r)) = without_prefix p (node_map r)) as ->.
  { unfold without_prefix, cut_below. apply map_eq. intros k. apply option_eq. intros x.
    rewrite !map_lookup_filter_Some. cbn. naive_solver. }
  destruct n as [c b od]. cbn [trie_entries set_children children chr data].
  rewrite !length_app. cbn [bst_entries length]. lia.
Qed.

(** The two steps of [trie_prefix_delete] on the map, and the size that the
    release of the children leaves in [*size]. *)
Lemma trie_prefix_delete_split t r p n :
  root t = Some r → trie_wf r → trie_walk r p = Some n →
  ∃ t1, trie_prefix_delete t p = ('(t2, _) ← trie_delete t1 p; mret t2) ∧
    destructor t1 = destructor t ∧
    (∃ r1, root t1 = Some r1 ∧ trie_wf r1 ∧ chr r1 = chr r ∧
           node_map r1 = cut_below p (node_map r)) ∧
    tsize t1 = children_destroy (trie_node_destroy (destructor t)) (children n) (tsize t).
Proof.
  intros Hr Hwf Hn. unfold trie_prefix_delete, the_root, trie_node_find.
  rewrite Hr. cbn [mbind res_bind]. rewrite Hn. unfold trie_is_free_node.
  destruct (children n) eqn:Hb.
  - exists t. split_and!; [done..| |done]. exists r. split_and!; [done..|].
    symmetry. by eapply cut_below_free.
  - eexists; split_and!; [reflexivity|done| |done]. cbn.
    destruct (clear_children_map r p n) as (? & ? & ?); [done..|]. eauto 10.
Qed.

Lemma without_prefix_none r p :
  trie_wf r → trie_walk r p = None → without_prefix p (node_map r) = node_map r.
Proof.
  intros Hr Hn. apply map_filter_id. intros k x Hx [s E]. cbn in E. subst k.
  by rewrite node_map_lookup, node_get_app, Hn in Hx.
Qed.

Lemma trie_prefix_delete_tree destroy t m p :
  DataDestructor destroy → trie_tree t m → destructor t = Some destroy →
  ∃ t', trie_prefix_delete t p = Ok t' ∧ trie_tree t' (prefix_deleted p m) ∧
    destructor t' = Some destroy ∧
    tsize t' = if bool_decide (p ≠ [] ∧ is_Some (m !! p)) then u64 (tsize t - 1)
               else tsize t.
Proof.
  intros Hdd (r & Hr & Hwf & Hr0 & <-) Hd.
  destruct (trie_walk r p) as [n|] eqn:Hn.
  - destruct (trie_prefix_delete_split t r p n)
      as (t1 & -> & Hd1 & (r1 & Hr1 & Hwf1 & Hc1 & Hm1) & Hs1); [done..|].
    rewrite Hd, children_destroy_destructor in Hs1.
    assert (trie_tree t1 (cut_below p (node_map r))) as Ht1
      by (exists r1; split_and!; [done..|congruence|done]).
    destruct p as [|c p].
    { exists t1. rewrite bool_decide_false by tauto. split_and!; [done..|congruence|done]. }
    destruct (trie_delete_tree t1 _ (c :: p) destroy Ht1) as (t2 & -> & Ht2 & Hd2 & Hs2);
      [congruence|done..|].
    exists t2. cbn [mbind res_bind]. rewrite delete_cut_below in Ht2.
    rewrite cut_below_lookup_self in Hs2. split_and!; [done..|congruence|].
    rewrite Hs2, Hs1. by repeat case_bool_decide; naive_solver.
  - unfold trie_prefix_delete, the_root, trie_node_find. rewrite Hr. cbn [mbind res_bind].
    rewrite Hn. exists t. split_and!; [done| |done|].
    + exists r. split_and!; [done..|]. destruct p as [|c p]; [done|].
      cbn [prefix_deleted]. by rewrite without_prefix_none.
    + rewrite bool_decide_false; [done|].
      rewrite node_map_lookup by done. unfold node_get, trie_node_search, trie_node_find.
      rewrite Hn. by intros [_ []].
Qed.

(** ** Search of a prefix *)

(** No node below [n] is reached by more than [L] characters. *)
Definition depth_le (n : trie_node A) (L : nat) : Prop :=
  ∀ k m, trie_walk n k = Some m → (length k <= L)%nat.

Definition kvs (path : list Z) (es : list (list Z * A)) : list (kv_obj A) :=
  (λ e, mkKv (path ++ e.1) e.2) <$> es.

(** The block has its 32 bytes, and [path] at its start. *)
Record holds (s : chunk) (path : list Z) : Prop := {
  ho_hdr : hdr s = 32;
  ho_len : length (cells s) = 32%nat;
  ho_path : take (length path) (cells s) = path
}.

Lemma holds_take s path (i : nat) : holds s path → holds s (take i path).
Proof.
  intros [H1 H2 H3]. split; [done..|]. rewrite <-H3 at 2. by rewrite length_take, take_take.
Qed.

Lemma cstring_at_app k cs : cstr k → cstring_at (k ++ 0 :: cs) = Ok k.
Proof.
  induction k as [|c k IH]; intros Hk; cbn; [done|].
  apply cstr_cons in Hk as [Hc Hk]. unfold is_char in Hc.
  case_if; zbool; [lia|]. by rewrite IH.
Qed.

Lemma holds_split s path :
  holds s path → ∃ rest, cells s = path ++ rest ∧ (length path + length rest = 32)%nat.
Proof.
  intros [H1 H2 H3]. exists (drop (length path) (cells s)). split.
  - by rewrite <-H3 at 1; rewrite take_drop.
  - rewrite length_drop, H2. pose proof (f_equal length H3) as E.
    rewrite length_take in E. lia.
Qed.

(** The store of a character at the end of [path], and of the NUL. *)
Lemma chunk_write_path s path c :
  holds s path → (length path < 32)%nat →
  ∃ s', chunk_write s (Z.of_nat (length path)) c = Ok s' ∧ holds s' (path ++ [c]).
Proof.
  intros Hh Hl. destruct (holds_split s path Hh) as (rest & Hc & Hr).
  unfold chunk_write. case_if; zbool; [lia|]. rewrite Hc.
  destruct rest as [|x rest]; [cbn in Hr; lia|].
  rewrite aset_middle by done. cbn. eexists; split; [done|]. destruct Hh as [H1 H2 H3].
  split; cbn; [done|rewrite length_app in *; cbn in *; lia|].
  replace (path ++ c :: rest) with ((path ++ [c]) ++ rest) by by rewrite <-app_assoc.
  by rewrite take_app_length.
Qed.

Lemma chunk_write_end s path :
  holds s path → (length path < 32)%nat → cstr path →
  ∃ s', chunk_write s (Z.of_nat (length path)) 0 = Ok s' ∧ holds s' path ∧
    cstring_at (cells s') = Ok path.
Proof.
  intros Hh Hl Hp. destruct (chunk_write_path s path 0 Hh Hl) as (s' & E & Hh').
  exists s'. split_and!; [done| |].
  - rewrite <-(take_app_length path [0]). by apply holds_take.
  - destruct (holds_split _ _ Hh') as (rest & -> & _). rewrite <-app_assoc.
    by apply cstring_at_app.
Qed.

(** The byte before the block receives the NUL of the root. *)
Lemma chunk_write_root s path :
  holds s path → ∃ s', chunk_write s (-1) 0 = Ok s' ∧ holds s' path.
Proof.
  intros [H1 H2 H3]. eexists; split; [reflexivity|]. split; cbn; [by rewrite H1|done..].
Qed.

Definition find_spec (n : trie_node A) : Prop :=
  ∀ path s keys l,
    trie_wf n → cstr path →
    (path = [] ∧ chr n = 0 ∨ last path = Some (chr n)) →
    holds s (take (length path - 1) path) →
    (∀ k m, trie_walk n k = Some m → (length path + length k <= 31)%nat) →
    vec_repr keys l → Z.of_nat (length l) + Z.of_nat (length (trie_entries n)) < 2 ^ 29 →
    ∃ s' keys',
      trie_node_prefix_find n s (Z.of_nat (length path) - 1) keys = Ok (s', keys') ∧
      holds s' (take (length path - 1) path) ∧
      vec_repr keys' (l ++ kvs path (trie_entries n)).

Lemma children_find_spec b :
  bst_all (λ _ n, find_spec n) b →
  ∀ path s keys l,
    bst_all (λ c n, is_char c ∧ chr n = c ∧ trie_wf n) b → cstr path →
    holds s path →
    bst_all (λ c n, ∀ k m, trie_walk n k = Some m →
                      (length path + S (length k) <= 31)%nat) b →
    vec_repr keys l →
    Z.of_nat (length l) + Z.of_nat (length (bst_entries trie_entries b)) < 2 ^ 29 →
    ∃ s' keys',
      children_prefix_find trie_node_prefix_find b s (Z.of_nat (length path)) keys
        = Ok (s', keys') ∧
      holds s' path ∧ vec_repr keys' (l ++ kvs path (bst_entries trie_entries b)).
Proof.
  induction b as [|c h lt IHl rt IHr n]; intros Hf path s keys l Hwf Hp Hh Hd Hv Hlen.
  { exists s, keys. split_and!; [done..|]. cbn. by rewrite app_nil_r. }
  destruct Hf as (Hfn & Hfl & Hfr), Hwf as ((Hc & Hcc & Hwn) & Hwl & Hwr),
    Hd as (Hdn & Hdl & Hdr).
  rewrite bst_entries_mk_length in Hlen. cbn [children_prefix_find].
  assert (length (path ++ [c]) = S (length path)) as Epath
    by (rewrite length_app; cbn; lia).
  destruct (Hfn (path ++ [c]) s keys l) as (s1 & k1 & E1 & Hh1 & Hv1); [done|..|lia|].
  { apply cstr_app. split; [done|]. by repeat constructor; apply Hc. }
  { right. by rewrite last_snoc, Hcc. }
  { rewrite Epath. replace (S (length path) - 1)%nat with (length path) by lia.
    by rewrite take_app_length. }
  { intros k m Hk. rewrite Epath. specialize (Hdn k m Hk). lia. }
  { done. }
  rewrite Epath in E1, Hh1.
  replace (Z.of_nat (S (length path)) - 1) with (Z.of_nat (length path)) in E1 by lia.
  replace (S (length path) - 1)%nat with (length path) in Hh1 by lia.
  rewrite take_app_length in Hh1. rewrite E1. cbn [mbind res_bind].
  assert (∀ x y, length (x ++ kvs path y) = (length x + length y)%nat) as Hkl
    by (intros; unfold kvs; rewrite length_app, length_fmap; done).
  destruct (IHl Hfl path s1 k1 (l ++ kvs (path ++ [c]) (trie_entries n)))
    as (s2 & k2 & E2 & Hh2 & Hv2); [done..| |].
  { unfold kvs. rewrite length_app, length_fmap. lia. }
  rewrite E2. cbn [mbind res_bind].
  destruct (IHr Hfr path s2 k2 ((l ++ kvs (path ++ [c]) (trie_entries n))
                                  ++ kvs path (bst_entries trie_entries lt)))
    as (s3 & k3 & E3 & Hh3 & Hv3); [done..| |].
  { rewrite Hkl. unfold kvs. rewrite length_app, length_fmap. lia. }
  exists s3, k3. split_and!; [done..|]. cbn [bst_entries].
  unfold kvs in *. rewrite !fmap_app, <-list_fmap_compose. rewrite <-!app_assoc in Hv3.
  erewrite (list_fmap_ext (_ ∘ prod_map (cons c) id)); [exact Hv3|].
  intros _ [k x] _. cbn. by rewrite <-app_assoc.
Qed.

Lemma node_find_spec n : find_spec n.
Proof.
  induction n as [c b od IH] using trie_ind.
  intros path s keys l Hwf Hp Hlast Hh Hd Hv Hlen.
  pose proof Hwf as [Hok Hb]. cbn [chr trie_node_prefix_find trie_entries] in *.
  assert (length path <= 31)%nat as H31 by (specialize (Hd [] _ eq_refl); cbn in Hd; lia).
  destruct (u64 (Z.of_nat (length path) - 1) =? hdr s) eqn:E.
  { zbool. rewrite (ho_hdr _ _ Hh) in E. destruct path as [|x path]; [done|].
    rewrite u64_small in E; rewrite length_cons in *; lia. }
  clear E. assert (∃ s1, chunk_write s (Z.of_nat (length path) - 1) c = Ok s1 ∧
                         holds s1 path) as (s1 & -> & Hh1).
  { destruct Hlast as [[-> ->]|Hl]; [by apply chunk_write_root|].
    apply last_Some in Hl as (path' & ->). rewrite length_app in *. cbn in Hh, H31.
    rewrite Nat.add_sub, take_app_length in Hh.
    destruct (chunk_write_path s path' c) as (s1 & E & ?); [done|lia|].
    exists s1. split; [|done]. rewrite <-E. f_equal. cbn. lia. }
  cbn [mbind res_bind].
  replace (Z.of_nat (length path) - 1 + 1) with (Z.of_nat (length path)) by lia.
  assert (∃ s2 (k2 : Vector (kv_obj A)), (match od with
     | Some d => str ← chunk_write s1 (Z.of_nat (length path)) 0;
         key ← cstring_at (cells str); ks ← vector_append keys (mkKv key d); mret (str, ks)
     | None => mret (s1, keys) end) = Ok (s2, k2) ∧ holds s2 path ∧
     vec_repr k2 (l ++ kvs path (match od with Some d => [([], d)] | None => [] end)))
    as (s2 & k2 & E2 & Hh2 & Hv2).
  { destruct od as [d|]; [|exists s1, keys; rewrite app_nil_r; done].
    destruct (chunk_write_end s1 path) as (s2 & -> & ? & E); [done|lia|done|].
    cbn [mbind res_bind]. rewrite E. cbn [mbind res_bind].
    destruct (vector_append_repr keys l (mkKv path d) Hv) as (k2 & -> & ?);
      [rewrite length_app in Hlen; cbn in Hlen; lia|].
    exists s2, k2. split_and!; [done..|]. cbn. by rewrite app_nil_r. }
  rewrite E2. cbn [mbind res_bind].
  destruct (children_find_spec b IH path s2 k2
              (l ++ kvs path (match od with Some d => [([], d)] | None => [] end)))
    as (s3 & k3 & E3 & Hh3 & Hv3); [done..| |done| |].
  { rewrite bst_all_pairs, Forall_forall. intros [c' n'] Hin k m Hk. cbn in Hk.
    apply bst_pairs_lookup in Hin; [|by apply Hok].
    specialize (Hd (c' :: k) m). rewrite trie_walk_cons in Hd. cbn [children] in Hd.
    rewrite Hin in Hd. specialize (Hd Hk). cbn in Hd. lia. }
  { unfold kvs. rewrite !length_app, length_fmap in *. lia. }
  exists s3, k3. split_and!; [done|by apply holds_take|].
  unfold kvs in *. by rewrite fmap_app, app_assoc.
Qed.

Lemma trie_prefix_find_spec junk t r p n :
  root t = Some r → trie_wf r → chr r = 0 → cstr p → (32 <= length junk)%nat →
  depth_le r 31 → trie_walk r p = Some n →
  Z.of_nat (length (trie_entries n)) < 2 ^ 29 →
  ∃ v, trie_prefix_find junk t p = Ok (Some v) ∧ vec_repr v (kvs p (trie_entries n)).
Proof.
  intros Hr Hwf Hroot Hp Hj Hd Hn Hlen. unfold trie_prefix_find, the_root, trie_node_find.
  rewrite Hr. cbn [mbind res_bind]. rewrite Hn.
  pose proof (Hd p n Hn) as Hpl. unfold strlen. case_if; zbool; [lia|]. clear E.
  destruct (chunk_write_end {| hdr := 32; cells := p ++ drop (length p) (take 32 junk) |} p)
    as (s1 & -> & Hh1 & _); [|lia|done|].
  { split; cbn; [done| |by rewrite take_app_length].
    rewrite length_app, length_drop, length_take. lia. }
  cbn [mbind res_bind].
  destruct (node_find_spec n p s1 vector_new []) as (s2 & v & -> & _ & Hv);
    [by eapply trie_wf_walk|done| |by apply holds_take| |apply vector_new_repr|done|].
  - destruct p as [|c p _] using rev_ind; [left; by simplify_eq/=|right].
    rewrite last_snoc. rewrite trie_walk_app in Hn.
    destruct (trie_walk r p) as [m|] eqn:Hm; [|done].
    rewrite trie_walk_cons in Hn. destruct (bst_lookup _ _) as [child|] eqn:E; [|done].
    cbn in Hn. simplify_eq. eapply trie_wf_child in E as (_ & -> & _); [done|].
    by eapply trie_wf_walk.
  - intros k m Hk. rewrite <-length_app. apply (Hd _ m). by rewrite trie_walk_app, Hn.
  - exists v. done.
Qed.

(** Insertion adds nodes only on the path of the key. *)
Lemma trie_node_insert_walk n k d s n' s' k' m :
  trie_wf n → cstr k → trie_node_insert n k d s = Ok (n', s') →
  trie_walk n' k' = Some m → k' `prefix_of` k ∨ is_Some (trie_walk n k').
Proof.
  revert n n' k' s'. induction k as [|c k IH]; intros n n' k' s' Hn Hk Hi Hw.
  { cbn in Hi. res_simpl. simplify_eq. right. destruct k'; [done|].
    rewrite trie_walk_cons in *. cbn [children set_data] in Hw.
    destruct (bst_lookup _ _); eauto. }
  apply cstr_cons in Hk as [Hc Hk]. cbn [trie_node_insert] in Hi.
  destruct k' as [|c' k']; [left; apply prefix_nil|].
  pose proof (bst_search_lookup (children n) c) as Hs.
  rewrite trie_walk_cons in Hw |- *.
  destruct (bst_search (children n) c) as [|c0 h0 l0 r0 cur].
  - rewrite bst_insert_ok in Hi by by apply trie_wf_children. cbn [mbind res_bind] in Hi.
    destruct (trie_node_insert (trie_create_node c) k d s) as [[cur s1]|] eqn:E;
      res_simpl; simplify_eq. cbn [children set_children] in Hw.
    rewrite bst_write_lookup, !bst_lookup_plain_insert, Z.eqb_refl in Hw.
    destruct (Z.eqb_spec c' c) as [->|?]; cbn in Hw.
    + left. apply prefix_cons.
      destruct (IH _ _ _ _ (trie_wf_create c) Hk E Hw) as [?|[x Hx]]; [done|].
      destruct k' as [|c'' k'']; [apply prefix_nil|]. by rewrite trie_walk_cons in Hx.
    + right. destruct (bst_lookup (children n) c'); eauto.
  - destruct (trie_node_insert cur k d s) as [[cur' s1]|] eqn:E; res_simpl; simplify_eq.
    cbn [children set_children] in Hw. rewrite bst_write_lookup in Hw.
    destruct (Z.eqb_spec c' c) as [->|?].
    + rewrite Hs in *. cbn in Hw.
      destruct (trie_wf_child n c cur Hn Hs) as (_ & _ & Hwc).
      destruct (IH _ _ _ _ Hwc Hk E Hw) as [?|?]; [left; by apply prefix_cons|by right].
    + right. destruct (bst_lookup (children n) c'); eauto.
Qed.

Lemma trie_insert_depth t t' r k d d' :
  root t = Some r → trie_wf r → cstr k → (length k <= 31)%nat → depth_le r 31 →
  trie_insert t k d = Ok (t', d') → ∃ r', root t' = Some r' ∧ depth_le r' 31.
Proof.
  intros Hr Hwf Hk Hl Hd Hi. unfold trie_insert, the_root in Hi. rewrite Hr in Hi.
  cbn [mbind res_bind] in Hi.
  destruct (trie_node_insert r k d (tsize t)) as [[r' s']|] eqn:E; res_simpl.
  simplify_eq. exists r'. split; [done|]. intros k' m Hm.
  eapply trie_node_insert_walk in Hm as [Hp|[x Hx]]; [| |done..].
  - apply prefix_length in Hp. lia.
  - by eapply Hd.
Qed.

(** ** The trie with a destructor is a key-value store *)

#[export] Program Instance trie_store (destroy : trie_destructor)
    `{!DataDestructor destroy} : KVStore Trie A := {|
  kv_repr t m := trie_repr t m ∧ destructor t = Some destroy;
  kv_put t k d := fst <$> trie_insert t k d;
  kv_get t k := trie_find t k;
  kv_del t k := trie_delete t k
|}.
Next Obligation.
  intros destroy ? t m k d [Hr Hd] Hk.
  destruct (trie_insert_repr t m k d Hr Hk) as (t' & -> & ? & ?). cbn.
  exists t'. split_and!; [done..|congruence].
Qed.
Next Obligation. intros destroy ? t m k [Hr Hd]. by apply trie_find_repr. Qed.
Next Obligation.
  intros destroy ? t m k [Hr Hd]. case_decide as Hk.
  - subst. rewrite bool_decide_false by tauto. by exists t.
  - destruct (trie_delete_repr t m k destroy Hr Hd _ Hk) as (t' & -> & ? & ?).
    exists t'. split_and!; [|done|congruence].
    do 2 f_equal. apply bool_decide_ext. tauto.
Qed.

End Trie.
Arguments trie_destructor A : clear implicits.
Arguments Trie A : clear implicits.

(** ** Properties *)

(** The destructor of the tests and of the server on nodes whose data is the
    object itself: it reports whether there was data and clears it. *)
Definition clear_destructor {A} : trie_destructor A := λ n _,
  (bool_decide (is_Some (data n)), set_data n None).

#[export] Instance clear_destructor_ok {A} : DataDestructor (clear_destructor (A:=A)).
Proof. by intros n. Qed.

(** Trie_insert returns, represents the map with the key added or replaced,
    counts a new key and not a replaced one, and a search then finds the new
    data under the key and the old data under the others. *)
Theorem trie_insert_correct {A} (t : Trie A) (m : gmap (list Z) A) (k : list Z) (d : A) :
  trie_repr t m → cstr k →
  ∃ t', trie_insert t k d = Ok (t', d) ∧ trie_repr t' (<[k := d]> m) ∧
    ∀ k', trie_find t' k' = Ok (if decide (k' = k) then Some d else m !! k').
Proof.
  intros Hr Hk. destruct (trie_insert_repr t m k d Hr Hk) as (t' & E & Hr' & _).
  exists t'. split_and!; [done..|]. intros k'. rewrite (trie_find_repr _ _ _ Hr').
  rewrite lookup_insert. by repeat case_decide; simplify_eq.
Qed.

Lemma trie_insert_correct_witness :
  ∃ t', trie_insert (trie_new (A:=Z) None) [104; 105] 7 = Ok (t', 7) ∧
    trie_repr t' (<[[104; 105] := 7]> ∅) ∧
    ∀ k', trie_find t' k' =
      Ok (if decide (k' = [104; 105]) then Some 7 else (∅ : gmap (list Z) Z) !! k').
Proof.
  apply (trie_insert_correct (trie_new None) ∅ [104; 105] 7);
    [apply trie_new_repr|by repeat constructor].
Defined.

(** C4 with the destructor of the server, any sequence of insertions, searches and
    deletions gives the answers of a finite map and ends in the trie that
    represents it, its size included. *)
Theorem trie_refines_map {A} (destroy : trie_destructor A) (Hd : DataDestructor destroy)
    (ops : list (store_op A)) :
  Forall (λ op, cstr (op_key op)) ops →
  ∃ t, store_run (H:=trie_store destroy) (trie_new (Some destroy)) ops
         = Ok (t, (map_run ∅ ops).2) ∧
    trie_repr t (map_run ∅ ops).1.
Proof.
  intros Hk.
  destruct (store_run_refines (H:=trie_store destroy) ops (trie_new (Some destroy)) ∅)
    as (t & E & [Hr _]); [|done|by exists t].
  split; [apply trie_new_repr|done].
Qed.

Lemma trie_refines_map_witness :
  ∃ t, store_run (H:=trie_store clear_destructor) (trie_new (Some clear_destructor))
         [SPut [97] 1; SPut [97; 98] 2; SDel [97]; SGet [97]; SGet [97; 98]; SDel [97]]
       = Ok (t, [OUnit; OUnit; OBool true; OVal None; OVal (Some 2); OBool false]) ∧
    trie_repr t (map_run ∅
         [SPut [97] 1; SPut [97; 98] 2; SDel [97]; SGet [97]; SGet [97; 98]; SDel [97]]).1.
Proof.
  apply (trie_refines_map clear_destructor clear_destructor_ok
    [SPut [97] 1; SPut [97; 98] 2; SDel [97]; SGet [97]; SGet [97; 98]; SDel [97]]).
  by repeat constructor.
Defined.

(** Trie_prefix_count returns the number of keys that start with the prefix,
    as long as that number is an int. *)
Theorem trie_prefix_count_correct {A} (t : Trie A) (m : gmap (list Z) A) (p : list Z) :
  trie_repr t m → Z.of_nat (size (with_prefix p m)) <= INT_MAX →
  trie_prefix_count t p = Ok (Z.of_nat (size (with_prefix p m))).
Proof.
  intros [Ht _] Hmax. rewrite (trie_prefix_count_tree t m) by done. apply int_chk_Ok.
  unfold INT_MIN. lia.
Qed.

Lemma trie_prefix_count_correct_witness :
  ∃ t, trie_repr t (<[[104; 101] := 1]> (<[[104] := 2]> (<[[120] := 3]> ∅))) ∧
    trie_prefix_count t [104] = Ok 2.
Proof.
  destruct (trie_insert_repr (trie_new None) ∅ [120] 3) as (t1 & _ & H1 & _);
    [apply trie_new_repr|by repeat constructor|].
  destruct (trie_insert_repr t1 _ [104] 2 H1) as (t2 & _ & H2 & _);
    [by repeat constructor|].
  destruct (trie_insert_repr t2 _ [104; 101] 1 H2) as (t3 & _ & H3 & _);
    [by repeat constructor|].
  exists t3. split; [done|].
  apply (trie_prefix_count_correct t3 _ [104] H3). vm_compute. discriminate.
Defined.

(** C18 when no path of the trie is longer than 31 characters (a path, not a key: the nodes
    of deleted keys stay), trie_prefix_find
    returns the pairs of the keys that start with the prefix, each once and with
    its whole key, and null when no path leads to the prefix; none of its
    stores leaves the 32 byte buffer.  There are less than 2^29 such keys. *)
Theorem trie_prefix_find_correct {A} (junk : list Z) (t : Trie A)
    (m : gmap (list Z) A) (r : trie_node A) (p : list Z) :
  trie_repr t m → root t = Some r → depth_le r 31 → cstr p →
  (32 <= length junk)%nat → Z.of_nat (size (with_prefix p m)) < 2 ^ 29 →
  match trie_walk r p with
  | None => trie_prefix_find junk t p = Ok None ∧ with_prefix p m = ∅
  | Some _ =>
      ∃ v l, trie_prefix_find junk t p = Ok (Some v) ∧ vec_repr v l ∧
        (λ kv, (kv_key kv, kv_data kv)) <$> l ≡ₚ map_to_list (with_prefix p m)
  end.
Proof.
  intros [(r' & Hr' & Hwf & Hr0 & <-) _] Hr Hd Hp Hj Hlen.
  rewrite Hr in Hr'. injection Hr' as <-.
  destruct (trie_walk r p) as [n|] eqn:Hn.
  - destruct (trie_prefix_find_spec junk t r p n) as (v & E & Hv); [try done..|].
    { by rewrite <-(with_prefix_size r p n). }
    exists v, (kvs p (trie_entries n)). split_and!; [done..|].
    rewrite (with_prefix_node _ _ n) by done. rewrite map_to_list_kmap by apply _.
    assert (trie_wf n) by by eapply trie_wf_walk.
    unfold node_map. rewrite map_to_list_to_map by by apply trie_entries_nodup.
    unfold kvs. rewrite <-list_fmap_compose. by f_equiv.
  - split; [|by apply with_prefix_none].
    unfold trie_prefix_find, the_root, trie_node_find. rewrite Hr. cbn. by rewrite Hn.
Qed.

Lemma trie_prefix_find_correct_witness :
  ∃ t r, trie_repr t (<[[104; 105] := 7]> (∅ : gmap (list Z) Z)) ∧ root t = Some r ∧
    match trie_walk r [104] with
    | None => trie_prefix_find (replicate 32 0) t [104] = Ok None
              ∧ with_prefix [104] (<[[104; 105] := 7]> (∅ : gmap (list Z) Z)) = ∅
    | Some _ =>
        ∃ v l, trie_prefix_find (replicate 32 0) t [104] = Ok (Some v) ∧ vec_repr v l ∧
          (λ kv, (kv_key kv, kv_data kv)) <$> l
            ≡ₚ map_to_list (with_prefix [104] (<[[104; 105] := 7]> (∅ : gmap (list Z) Z)))
    end.
Proof.
  destruct (trie_insert_repr (trie_new None) ∅ [104; 105] 7) as (t & Ht & Hr & _);
    [apply trie_new_repr|by repeat constructor|].
  destruct (trie_insert_depth (trie_new None) t (trie_create_node 0) [104; 105] 7 7)
    as (r & Hroot & Hd); [done|by split|by repeat constructor|cbn; lia| |done|].
  { intros [|c k] x; [cbn; lia|]. by rewrite trie_walk_cons. }
  exists t, r. split_and!; [done..|].
  apply (trie_prefix_find_correct (replicate 32 0) t _ r [104]); try done.
  by repeat constructor.
Defined.

(** Without a destructor the size is that of the map. *)
Lemma trie_prefix_delete_plain {A} (t : Trie A) (m : gmap (list Z) A) (p : list Z) :
  trie_repr t m → destructor t = None → Z.of_nat (size m) < 2 ^ 64 →
  ∃ t', trie_prefix_delete t p = Ok t' ∧ trie_repr t' (prefix_deleted p m).
Proof.
  intros [(r & Hr & Hwf & Hr0 & <-) Hs] Hd Hlt.
  destruct (trie_walk r p) as [n|] eqn:Hn.
  - destruct (trie_prefix_delete_split t r p n) as (t1 & -> & Hd1 & (r1 & Hr1 & Hwf1 & Hc1 & Hm1) & Hs1);
      [done..|].
    assert (trie_repr t1 (cut_below p (node_map r))) as Hrep.
    { pose proof (cut_below_size r p n Hwf Hn) as Hsz. split.
      - exists r1. split_and!; [done..|congruence|done].
      - rewrite Hs1, Hd, (children_destroy_counts _ trie_entries), Hs.
        + rewrite !u64_small by lia. lia.
        + rewrite bst_all_pairs, Forall_forall. intros ? _. apply node_destroy_counts.
        + rewrite Hs, u64_small by lia. lia. }
    destruct p as [|c p].
    + exists t1. done.
    + destruct (trie_delete_plain_repr t1 _ (c :: p) Hrep) as (t2 & ret & -> & Hr2 & _);
        [congruence|done|]. exists t2. split; [done|].
      by rewrite delete_cut_below in Hr2.
  - unfold trie_prefix_delete, the_root, trie_node_find. rewrite Hr. cbn. rewrite Hn.
    exists t. split; [done|]. destruct p as [|c p]; [done|]. cbn [prefix_deleted].
    rewrite without_prefix_none by done. split; [by eexists; eauto 10|done].
Qed.

(** With a destructor, at most one is taken off the size: the keys below the prefix stay
    counted. *)
Lemma trie_prefix_delete_size {A} (destroy : trie_destructor A) (t : Trie A)
    (m : gmap (list Z) A) (p : list Z) :
  DataDestructor destroy → trie_repr t m → destructor t = Some destroy →
  ∃ t', trie_prefix_delete t p = Ok t' ∧ trie_tree t' (prefix_deleted p m) ∧
    tsize t' = if bool_decide (p ≠ [] ∧ is_Some (m !! p)) then u64 (tsize t - 1)
               else tsize t.
Proof.
  intros Hdd [Ht _] Hd.
  destruct (trie_prefix_delete_tree destroy t m p Hdd Ht Hd) as (t' & ? & ? & _ & ?).
  by exists t'.
Qed.

(** C21 trie_prefix_delete removes exactly the keys that start with the prefix (the empty key
    excepted when the prefix is empty), with or without a destructor.  Without one the size
    drops to the number of the keys that remain; with a destructor of the kind that the
    server has, which clears the data of a node, the keys below the prefix stay
    counted: the size drops by one when the prefix is itself a key, and else not at all. *)
Theorem trie_prefix_delete_correct {A} (t : Trie A) (m : gmap (list Z) A) (p : list Z) :
  trie_repr t m → Z.of_nat (size m) < 2 ^ 64 →
  (∀ destroy, destructor t = Some destroy → DataDestructor destroy) →
  ∃ t', trie_prefix_delete t p = Ok t' ∧ trie_tree t' (prefix_deleted p m) ∧
    tsize t' = match destructor t with
               | None => u64 (Z.of_nat (size (prefix_deleted p m)))
               | Some _ => if bool_decide (p ≠ [] ∧ is_Some (m !! p)) then u64 (tsize t - 1) else tsize t
               end.
Proof.
  intros Ht Hlt Hd. destruct (destructor t) as [destroy|] eqn:E.
  - by apply (trie_prefix_delete_size destroy t m p); [apply Hd|..].
  - destruct (trie_prefix_delete_plain t m p Ht E Hlt) as (t' & H1 & H2 & H3). by exists t'.
Qed.

Lemma trie_prefix_delete_correct_witness :
  ∃ t, trie_repr t (<[[104; 101] := 1]> (<[[104; 102] := 3]> ∅)) ∧ tsize t = 2 ∧
    ∃ t', trie_prefix_delete t [104] = Ok t' ∧
      trie_tree t' (prefix_deleted [104] (<[[104; 101] := 1]> (<[[104; 102] := 3]> ∅))) ∧ tsize t' = 2.
Proof.
  destruct (trie_insert_repr (trie_new (Some clear_destructor)) ∅ [104; 102] 3)
    as (t1 & _ & H1 & D1); [apply trie_new_repr|by repeat constructor|].
  destruct (trie_insert_repr t1 _ [104; 101] 1 H1) as (t2 & _ & H2 & D2);
    [by repeat constructor|].
  assert (tsize t2 = 2) as Hsz by (by rewrite (tr_size _ _ H2)).
  exists t2. split_and!; [exact H2|exact Hsz|].
  destruct (trie_prefix_delete_correct t2 _ [104] H2) as (t' & E & Ht' & Hs').
  - by vm_compute.
  - intros destroy. rewrite D2, D1. intros [= <-]. apply clear_destructor_ok.
  - exists t'. split_and!; [exact E|exact Ht'|]. rewrite Hs', D2, D1, Hsz. reflexivity.
Defined.
