(* ===== verification/Pack.v ===== *)
(** * Binary packing: src/pack.c, src/pack.h

    Integers are stored most significant byte first.  A buffer is the list of
    the bytes of the block it points into together with an offset; a store or
    a load outside of the block is a fault.  A variadic argument is the value
    passed; [va_arg] converts it to the type it is read with. *)

From S2P Require Import Prelude Util.

(** ** Byte strings

    A byte string is a block of [tmalloc]; its length is the size that the
    header of the block holds.  [ptr] is the address [malloc] returns. *)

Definition bstring_len (m : mem) (s : Z) : res Z :=
  match blocks m !! s with Some n => Ok n | None => Err UseAfterFree end.

Definition bstring_copy (m : mem) (ptr : Z) (init : list Z) (len : Z)
    : res (mem * (Z * list Z)) :=
  m' ← tmalloc m ptr len;
  str ← loads init 0 (Z.to_nat len);
  mret (m', (ptr, str)).

(** [init] is a C string: its characters and the terminating NUL. *)
Definition bstring_new (m : mem) (ptr : Z) (init : option (list Z))
    : res (mem * option (Z * list Z)) :=
  match init with
  | None => Ok (m, None)
  | Some init =>
      '(m', s) ← bstring_copy m ptr (init ++ [0]) (strlen init);
      mret (m', Some s)
  end.

Definition bstring_empty (m : mem) (ptr : Z) (len : Z) : res (mem * (Z * list Z)) :=
  m' ← tmalloc m ptr len;
  mret (m', (ptr, replicate (Z.to_nat len) 0)).

Definition bstring_destroy (m : mem) (s : option Z) : res mem := tfree m s.

(** ** Fixed width integers *)

Definition htonll (block : list Z) (off num : Z) : res (list Z) :=
  stores block off
    [u8 (Z.land (Z.shiftr num 56) 255); u8 (Z.land (Z.shiftr num 48) 255);
     u8 (Z.land (Z.shiftr num 40) 255); u8 (Z.land (Z.shiftr num 32) 255);
     u8 (Z.land (Z.shiftr num 24) 255); u8 (Z.land (Z.shiftr num 16) 255);
     u8 (Z.land (Z.shiftr num 8) 255); u8 (Z.land (Z.shiftr num 0) 255)].

Definition packi16 (buf : list Z) (off val : Z) : res (list Z) :=
  let val := u16 val in
  stores buf off [u8 (Z.shiftr val 8); u8 val].

Definition packi32 (buf : list Z) (off val : Z) : res (list Z) :=
  let val := u32 val in
  stores buf off
    [u8 (Z.shiftr val 24); u8 (Z.shiftr val 16); u8 (Z.shiftr val 8); u8 val].

Definition packi64 (buf : list Z) (off val : Z) : res (list Z) :=
  let val := u64 val in
  stores buf off
    [u8 (Z.shiftr val 56); u8 (Z.shiftr val 48); u8 (Z.shiftr val 40);
     u8 (Z.shiftr val 32); u8 (Z.shiftr val 24); u8 (Z.shiftr val 16);
     u8 (Z.shiftr val 8); u8 val].

Definition unpacku16 (buf : list Z) (off : Z) : res Z :=
  b0 ← aget buf off; b1 ← aget buf (off + 1);
  mret (Z.lor (Z.shiftl b0 8) b1).

Definition unpacki16 (buf : list Z) (off : Z) : res Z :=
  i2 ← unpacku16 buf off;
  mret (if i2 <=? 0x7fff then i2 else s32 (u32 (-1 - u32 (0xffff - i2)))).

Definition unpacku32 (buf : list Z) (off : Z) : res Z :=
  b0 ← aget buf off; b1 ← aget buf (off + 1);
  b2 ← aget buf (off + 2); b3 ← aget buf (off + 3);
  mret (Z.lor (Z.lor (Z.lor (Z.shiftl b0 24) (Z.shiftl b1 16)) (Z.shiftl b2 8)) b3).

Definition unpacki32 (buf : list Z) (off : Z) : res Z :=
  i2 ← unpacku32 buf off;
  mret (if i2 <=? 0x7fffffff then i2 else -1 - s64 (u64 (0xffffffff - i2))).

Definition unpacku64 (buf : list Z) (off : Z) : res Z :=
  b0 ← aget buf off; b1 ← aget buf (off + 1);
  b2 ← aget buf (off + 2); b3 ← aget buf (off + 3);
  b4 ← aget buf (off + 4); b5 ← aget buf (off + 5);
  b6 ← aget buf (off + 6); b7 ← aget buf (off + 7);
  mret (Z.lor (Z.lor (Z.lor (Z.lor (Z.lor (Z.lor (Z.lor
          (Z.shiftl b0 56) (Z.shiftl b1 48)) (Z.shiftl b2 40)) (Z.shiftl b3 32))
          (Z.shiftl b4 24)) (Z.shiftl b5 16)) (Z.shiftl b6 8)) b7).

Definition unpacki64 (buf : list Z) (off : Z) : res Z :=
  i2 ← unpacku64 buf off;
  mret (if i2 <=? 0x7fffffffffffffff then i2
        else -1 - s64 (u64 (0xffffffffffffffff - i2))).

Definition ntohll (block : list Z) (off : Z) : res Z := unpacku64 block off.

(** ** The format driven [pack] *)

Inductive varg : Type :=
| AInt (z : Z)            (* an argument of an integer type *)
| AStr (s : list Z).      (* a [char *] to a C string *)

(** [va_arg] read with an integer type, [conv] the conversion to it. *)
Definition va_int (conv : Z → Z) (ap : list varg) : res (Z * list varg) :=
  match ap with AInt z :: ap => Ok (conv z, ap) | _ => Err BadArgument end.

Definition va_str (ap : list varg) : res (list Z * list varg) :=
  match ap with AStr s :: ap => Ok (s, ap) | _ => Err BadArgument end.

(** The loop over the format string; [size] is the [unsigned int] that [pack]
    returns, [off] the position of [buf] in its block. *)
Fixpoint pack_loop (buf : list Z) (off : Z) (format : list Z) (ap : list varg)
    (size : Z) : res (list Z * Z) :=
  match format with
  | [] => Ok (buf, size)
  | c :: format =>
      if c =? 98 (* 'b' *) then
        '(b, ap) ← va_int (s8 ∘ s32) ap;
        buf ← aset buf off (u8 b);
        pack_loop buf (off + 1) format ap (u32 (size + 1))
      else if c =? 66 (* 'B' *) then
        '(B, ap) ← va_int (u8 ∘ u32) ap;
        buf ← aset buf off B;
        pack_loop buf (off + 1) format ap (u32 (size + 1))
      else if c =? 104 (* 'h' *) then
        '(h, ap) ← va_int s32 ap;
        buf ← packi16 buf off h;
        pack_loop buf (off + 2) format ap (u32 (size + 2))
      else if c =? 72 (* 'H' *) then
        '(H, ap) ← va_int u32 ap;
        buf ← packi16 buf off H;
        pack_loop buf (off + 2) format ap (u32 (size + 2))
      else if c =? 105 (* 'i' *) then
        '(i, ap) ← va_int s64 ap;
        buf ← packi32 buf off i;
        pack_loop buf (off + 4) format ap (u32 (size + 4))
      else if c =? 73 (* 'I' *) then
        '(I', ap) ← va_int u64 ap;
        buf ← packi32 buf off I';
        pack_loop buf (off + 4) format ap (u32 (size + 4))
      else if c =? 113 (* 'q' *) then
        '(q, ap) ← va_int s64 ap;
        buf ← packi64 buf off q;
        pack_loop buf (off + 8) format ap (u32 (size + 8))
      else if c =? 81 (* 'Q' *) then
        '(Q, ap) ← va_int u64 ap;
        buf ← packi64 buf off Q;
        pack_loop buf (off + 8) format ap (u32 (size + 8))
      else if c =? 115 (* 's' *) then
        '(s, ap) ← va_str ap;
        let len := u32 (strlen s) in
        cpy ← loads (s ++ [0]) 0 (Z.to_nat len);
        buf ← stores buf off cpy;
        pack_loop buf (off + len) format ap size
      else pack_loop buf off format ap size
  end.

Definition pack (buf : list Z) (off : Z) (format : list Z) (ap : list varg)
    : res (list Z * Z) := pack_loop buf off format ap 0.

(** ** The format driven [unpack]

    The arguments are pointers: to an integer object, to a block of
    characters, given by its present content, or null.  The result lists what is
    stored: for an integer the value and the [sizeof] of the type of the
    pointer it is stored through, for a string the block after the copy. *)

Inductive parg : Type :=
| PNum
| PStr (dst : list Z)
| PNull.

Inductive uval : Type :=
| VNum (sizeof z : Z)
| VStr (dst : list Z).

Definition va_num (ap : list parg) : res (list parg) :=
  match ap with
  | PNum :: ap => Ok ap
  | PNull :: _ => Err NullDeref
  | _ => Err BadArgument
  end.

Definition va_dst (ap : list parg) : res (list Z * list parg) :=
  match ap with
  | PStr d :: ap => Ok (d, ap)
  | PNull :: _ => Err NullDeref
  | _ => Err BadArgument
  end.

Fixpoint unpack_loop (buf : list Z) (off : Z) (format : list Z) (ap : list parg)
    (maxstrlen : Z) : res (list uval) :=
  match format with
  | [] => Ok []
  | c :: format =>
      if c =? 98 (* 'b' *) then
        ap ← va_num ap;
        x ← aget buf off;
        let b := if x <=? 0x7f then x else s8 (-1 - u8 (0xff - x)) in
        vs ← unpack_loop buf (off + 1) format ap 0;
        mret (VNum 1 b :: vs)
      else if c =? 66 (* 'B' *) then
        ap ← va_num ap;
        x ← aget buf off;
        vs ← unpack_loop buf (off + 1) format ap 0;
        mret (VNum 1 x :: vs)
      else if c =? 104 (* 'h' *) then
        ap ← va_num ap;
        h ← unpacki16 buf off;
        vs ← unpack_loop buf (off + 2) format ap 0;
        mret (VNum 4 h :: vs)
      else if c =? 72 (* 'H' *) then
        ap ← va_num ap;
        H ← unpacku16 buf off;
        vs ← unpack_loop buf (off + 2) format ap 0;
        mret (VNum 4 H :: vs)
      else if c =? 105 (* 'i' *) then
        ap ← va_num ap;
        i ← unpacki32 buf off;
        vs ← unpack_loop buf (off + 4) format ap 0;
        mret (VNum 8 i :: vs)
      else if c =? 73 (* 'I' *) then
        ap ← va_num ap;
        I' ← unpacku32 buf off;
        vs ← unpack_loop buf (off + 4) format ap 0;
        mret (VNum 8 I' :: vs)
      else if c =? 113 (* 'q' *) then
        ap ← va_num ap;
        q ← unpacki64 buf off;
        vs ← unpack_loop buf (off + 8) format ap 0;
        mret (VNum 8 q :: vs)
      else if c =? 81 (* 'Q' *) then
        ap ← va_num ap;
        Q ← unpacku64 buf off;
        vs ← unpack_loop buf (off + 8) format ap 0;
        mret (VNum 8 Q :: vs)
      else if c =? 115 (* 's' *) then
        '(s, ap) ← va_dst ap;
        cpy ← loads buf off (Z.to_nat maxstrlen);
        s ← stores s 0 cpy;
        s ← aset s maxstrlen 0;
        vs ← unpack_loop buf (off + maxstrlen) format ap 0;
        mret (VStr s :: vs)
      else if isdigit c then
        unpack_loop buf off format ap (u32 (maxstrlen * 10 + (c - 48)))
      else unpack_loop buf off format ap 0
  end.

Definition unpack (buf : list Z) (off : Z) (format : list Z) (ap : list parg)
    : res (list uval) := unpack_loop buf off format ap 0.

(** ** Specification

    One item of a packed record.  Its bytes, the format character and argument
    that make [pack] write it, and the format and destination that make
    [unpack] read it back. *)

Inductive item : Type :=
| I8 (z : Z) | U8 (z : Z)
| I16 (z : Z) | U16 (z : Z)
| I32 (z : Z) | U32 (z : Z)
| I64 (z : Z) | U64 (z : Z)
| Str (s : list Z).

(** The [n] bytes of [z], most significant first. *)
Fixpoint be_bytes (n : nat) (z : Z) : list Z :=
  match n with O => [] | S n => be_bytes n (z / 256) ++ [z mod 256] end.

(** The number that bytes denote, most significant first. *)
Definition be_val (bs : list Z) : Z := foldl (λ a b, a * 256 + b) 0 bs.

Definition item_bytes (it : item) : list Z :=
  match it with
  | I8 z | U8 z => be_bytes 1 z
  | I16 z | U16 z => be_bytes 2 z
  | I32 z | U32 z => be_bytes 4 z
  | I64 z | U64 z => be_bytes 8 z
  | Str s => s
  end.

Definition item_fmt (it : item) : list Z :=
  match it with
  | I8 _ => [98] | U8 _ => [66] | I16 _ => [104] | U16 _ => [72]
  | I32 _ => [105] | U32 _ => [73] | I64 _ => [113] | U64 _ => [81]
  | Str _ => [115]
  end.

Definition item_arg (it : item) : varg :=
  match it with
  | I8 z | U8 z | I16 z | U16 z | I32 z | U32 z | I64 z | U64 z => AInt z
  | Str s => AStr s
  end.

(** What [pack] adds to the size it returns: nothing for a string. *)
Definition item_size (it : item) : Z :=
  match it with Str _ => 0 | _ => Z.of_nat (length (item_bytes it)) end.

Definition items_bytes (its : list item) : list Z := its ≫= item_bytes.
Definition items_fmt (its : list item) : list Z := its ≫= item_fmt.
Definition items_args (its : list item) : list varg := item_arg <$> its.
Definition items_size (its : list item) : Z := foldr (λ it n, item_size it + n) 0 its.

(** The format that reads the items back: a string is preceded by its length. *)
Definition item_ufmt (it : item) : list Z :=
  match it with Str s => print_dec (strlen s) ++ [115] | _ => item_fmt it end.
Definition items_ufmt (its : list item) : list Z := its ≫= item_ufmt.

(** The values that are in range of the item's type. *)
Definition item_ok (it : item) : Prop :=
  match it with
  | I8 z => -2 ^ 7 <= z < 2 ^ 7
  | U8 z => 0 <= z < 2 ^ 8
  | I16 z => -2 ^ 15 <= z < 2 ^ 15
  | U16 z => 0 <= z < 2 ^ 16
  | I32 z => -2 ^ 31 <= z < 2 ^ 31
  | U32 z => 0 <= z < 2 ^ 32
  | I64 z => -2 ^ 63 <= z < 2 ^ 63
  | U64 z => 0 <= z < 2 ^ 64
  | Str s => strlen s < 2 ^ 32
  end.

(** The pointer [p] can receive the item: a string needs room for its NUL. *)
Definition item_dst (it : item) (p : parg) : Prop :=
  match it, p with
  | Str s, PStr d => (length s < length d)%nat
  | Str _, _ => False
  | _, PNum => True
  | _, _ => False
  end.

(** What the pointer holds then. *)
Definition item_val (it : item) (p : parg) : uval :=
  match it, p with
  | Str s, PStr d => VStr (splice d 0 (s ++ [0]))
  | Str s, _ => VStr s
  | I8 z, _ | U8 z, _ => VNum 1 z
  | I16 z, _ | U16 z, _ => VNum 4 z
  | I32 z, _ | U32 z, _ | I64 z, _ | U64 z, _ => VNum 8 z
  end.

(** ** Big-endian numbers *)

Lemma be_bytes_length n z : length (be_bytes n z) = n.
Proof.
  revert z. induction n as [|n IH]; intros z; cbn; [done|].
  rewrite length_app, IH. cbn. lia.
Qed.

Lemma be_bytes_bytes n z : bytes (be_bytes n z).
Proof.
  revert z. induction n as [|n IH]; intros z; cbn; [constructor|].
  apply bytes_app. split; [apply IH|]. repeat constructor; zdiv_lia.
Qed.

Lemma be_val_snoc bs b : be_val (bs ++ [b]) = be_val bs * 256 + b.
Proof. unfold be_val. by rewrite foldl_app. Qed.

Lemma be_val_bytes n z : be_val (be_bytes n z) = z mod 256 ^ Z.of_nat n.
Proof.
  revert z. induction n as [|n IH]; intros z; [by rewrite Z.mod_1_r|].
  cbn [be_bytes]. rewrite be_val_snoc, IH, Nat2Z.inj_succ, Z.pow_succ_r by lia.
  rewrite Z.rem_mul_r by lia. lia.
Qed.

Lemma u8_shiftr_mod z k m :
  0 <= k → k + 8 <= m → u8 (Z.shiftr (z mod 2 ^ m) k) = z / 2 ^ k mod 256.
Proof.
  intros Hk Hm. unfold u8. change 256 with (2 ^ 8).
  rewrite <-!Z.land_ones, <-Z.shiftr_div_pow2 by lia.
  apply Z.bits_inj'. intros i Hi.
  rewrite !Z.land_spec, !Z.shiftr_spec, Z.land_spec, !Z.testbit_ones by lia.
  destruct (i <? 8) eqn:E; [|by rewrite !andb_false_r]. zbool.
  rewrite (proj2 (Z.ltb_lt (i + k) m)) by lia.
  rewrite !(proj2 (Z.leb_le 0 _)) by lia. by rewrite !andb_true_r.
Qed.

Lemma u8_mod z m : 8 <= m → u8 (z mod 2 ^ m) = z mod 256.
Proof.
  intros. rewrite <-(Z.shiftr_0_r (z mod 2 ^ m)), u8_shiftr_mod by lia.
  by rewrite Z.div_1_r.
Qed.

Lemma packi16_spec buf off z : packi16 buf off z = stores buf off (be_bytes 2 z).
Proof. unfold packi16, u16. by rewrite u8_shiftr_mod, u8_mod by lia. Qed.

Lemma packi32_spec buf off z : packi32 buf off z = stores buf off (be_bytes 4 z).
Proof.
  unfold packi32, u32. rewrite !u8_shiftr_mod, u8_mod by lia.
  cbn [be_bytes app]. by rewrite !Z.div_div by lia.
Qed.

Lemma packi64_spec buf off z : packi64 buf off z = stores buf off (be_bytes 8 z).
Proof.
  unfold packi64, u64. rewrite !u8_shiftr_mod, u8_mod by lia.
  cbn [be_bytes app]. by rewrite !Z.div_div by lia.
Qed.

Lemma be_bytes_congr n z z' :
  z mod 256 ^ Z.of_nat n = z' mod 256 ^ Z.of_nat n → be_bytes n z = be_bytes n z'.
Proof.
  revert z z'. induction n as [|n IH]; intros z z'; [done|].
  rewrite Nat2Z.inj_succ, Z.pow_succ_r by lia. rewrite !Z.rem_mul_r by lia. intros H.
  cbn [be_bytes].
  pose proof (Z.mod_pos_bound z 256 ltac:(lia)).
  pose proof (Z.mod_pos_bound z' 256 ltac:(lia)).
  f_equal; [apply IH; lia|f_equal; lia].
Qed.

(** The conversions of [va_arg] keep the bytes that are stored. *)
Lemma conv_mod z :
  (s8 (s32 z)) mod 2 ^ 8 = z mod 2 ^ 8 ∧ (u8 (u32 z)) mod 2 ^ 8 = z mod 2 ^ 8 ∧
  s32 z mod 2 ^ 16 = z mod 2 ^ 16 ∧ u32 z mod 2 ^ 16 = z mod 2 ^ 16 ∧
  s64 z mod 2 ^ 32 = z mod 2 ^ 32 ∧ u64 z mod 2 ^ 32 = z mod 2 ^ 32 ∧
  s64 z mod 2 ^ 64 = z mod 2 ^ 64 ∧ u64 z mod 2 ^ 64 = z mod 2 ^ 64.
Proof. unfold s8, s32, s64, u8, u32, u64. split_and!; zdiv_lia. Qed.

Lemma lor_shiftl_byte a b k :
  0 <= k → is_byte b → Z.lor (Z.shiftl a (k + 8)) (Z.shiftl b k) = Z.shiftl (a * 256 + b) k.
Proof.
  unfold is_byte. intros Hk Hb. rewrite (Z.add_comm k), <-Z.shiftl_shiftl, <-Z.shiftl_lor by lia.
  f_equal. change (a * 256) with (a * 2 ^ 8). rewrite <-(Z.shiftl_mul_pow2 a 8) by lia.
  symmetry. rewrite <-Z.lxor_lor, Z.add_nocarry_lxor; [done| |].
  all: apply Z.bits_inj'; intros i Hi; rewrite Z.land_spec, Z.shiftl_spec, Z.bits_0 by lia.
  all: destruct (Z.ltb_spec i 8); [rewrite (Z.testbit_neg_r a) by lia; done|].
  all: rewrite (Z.bits_above_log2 b i); [by rewrite andb_false_r|lia|].
  all: destruct (decide (b = 0)) as [->|]; [cbn; lia|].
  all: apply Z.log2_lt_pow2; [lia|]; eapply Z.lt_le_trans with (2 ^ 8); [lia|].
  all: apply Z.pow_le_mono_r; lia.
Qed.

Lemma lor_shiftl_next a b k8 k :
  k8 = k + 8 → 0 <= k → is_byte b →
  Z.lor (Z.shiftl a k8) (Z.shiftl b k) = Z.shiftl (a * 256 + b) k.
Proof. intros ->. apply lor_shiftl_byte. Qed.

Lemma lor_byte a b : is_byte b → Z.lor (Z.shiftl a 8) b = a * 256 + b.
Proof.
  intros. pose proof (lor_shiftl_byte a b 0) as E. cbn [Z.add] in E.
  rewrite !Z.shiftl_0_r in E. by apply E.
Qed.

(** ** Reading a number back *)

Lemma aget_at (l1 bs l2 : list Z) (off : Z) (i : nat) (b : Z) :
  off = Z.of_nat (length l1) → bs !! i = Some b →
  aget (l1 ++ bs ++ l2) (off + Z.of_nat i) = Ok b.
Proof.
  intros -> Hb. apply aget_lookup; [lia|].
  replace (Z.to_nat _) with (length l1 + i)%nat by lia.
  rewrite lookup_app_r by lia. rewrite lookup_app_l_Some with (x := b); [done|].
  by replace (length l1 + i - length l1)%nat with i by lia.
Qed.

(** Loads the bytes of an explicit list one by one. *)
Ltac load_bytes :=
  repeat match goal with
  | H : bytes (_ :: _) |- _ => apply Forall_cons in H as [? H]
  | H : Forall is_byte (_ :: _) |- _ => apply Forall_cons in H as [? H]
  end;
  match goal with
  | |- context [aget (?l1 ++ ?bs ++ ?l2) ?off] =>
      rewrite <-(Z.add_0_r off) at 1;
      let r i :=
        (let H := fresh in
         pose proof (aget_at l1 bs l2 off i _ ltac:(done) eq_refl) as H;
         cbv [Z.of_nat Pos.of_succ_nat Pos.succ] in H; rewrite H; clear H;
         cbn [mbind res_bind]) in
      try r 0%nat; try r 1%nat; try r 2%nat; try r 3%nat;
      try r 4%nat; try r 5%nat; try r 6%nat; try r 7%nat
  end.

Section unpack_numbers.
Context (l1 bs l2 : list Z) (off : Z).
Context (Hoff : off = Z.of_nat (length l1)) (Hbs : bytes bs).

Lemma unpacku16_spec :
  length bs = 2%nat → unpacku16 (l1 ++ bs ++ l2) off = Ok (be_val bs).
Proof.
  destruct bs as [|b0 [|b1 [|]]]; intros [=]. unfold unpacku16. load_bytes.
  by rewrite lor_byte.
Qed.

Lemma unpacku32_spec :
  length bs = 4%nat → unpacku32 (l1 ++ bs ++ l2) off = Ok (be_val bs).
Proof.
  destruct bs as [|b0 [|b1 [|b2 [|b3 [|]]]]]; intros [=]. unfold unpacku32. load_bytes.
  by rewrite !lor_shiftl_next, lor_byte by done.
Qed.

Lemma unpacku64_spec :
  length bs = 8%nat → unpacku64 (l1 ++ bs ++ l2) off = Ok (be_val bs).
Proof.
  destruct bs as [|b0 [|b1 [|b2 [|b3 [|b4 [|b5 [|b6 [|b7 [|]]]]]]]]]; intros [=].
  unfold unpacku64. load_bytes.
  by rewrite !lor_shiftl_next, lor_byte by done.
Qed.
End unpack_numbers.

(** ** [pack] writes the bytes of the items *)

Lemma item_bytes_num it :
  (∀ s, it ≠ Str s) → item_size it = Z.of_nat (length (item_bytes it)).
Proof. destruct it; naive_solver. Qed.

Lemma loads_cstr s : loads (s ++ [0]) 0 (length s) = Ok s.
Proof. by apply (loads_middle [] s [0]). Qed.

(** One step of the loop, for each kind of item. *)
Lemma pack_loop_item buf off it fmt ap size :
  item_ok it →
  pack_loop buf off (item_fmt it ++ fmt) (item_arg it :: ap) size =
    (buf ← stores buf off (item_bytes it);
     pack_loop buf (off + Z.of_nat (length (item_bytes it))) fmt ap
       match it with Str _ => size | _ => u32 (size + item_size it) end).
Proof.
  destruct (conv_mod (match it with
    | I8 z | U8 z | I16 z | U16 z | I32 z | U32 z | I64 z | U64 z => z
    | Str _ => 0 end)) as (?&?&?&?&?&?&?&?).
  intros Hok. destruct it as [z|z|z|z|z|z|z|z|s];
    cbn [item_fmt item_arg app pack_loop Z.eqb Pos.eqb va_int va_str mbind res_bind item_bytes
         compose].
  - cbn [be_bytes stores app]. rewrite res_bind_assoc. unfold u8. by rewrite H.
  - cbn [be_bytes stores app]. rewrite res_bind_assoc.
    unfold u8 in *. rewrite Zmod_mod in H0. by rewrite H0.
  - rewrite packi16_spec, be_bytes_length. by erewrite be_bytes_congr.
  - rewrite packi16_spec, be_bytes_length. by erewrite be_bytes_congr.
  - rewrite packi32_spec, be_bytes_length. by erewrite be_bytes_congr.
  - rewrite packi32_spec, be_bytes_length. by erewrite be_bytes_congr.
  - rewrite packi64_spec, be_bytes_length. by erewrite be_bytes_congr.
  - rewrite packi64_spec, be_bytes_length. by erewrite be_bytes_congr.
  - cbn [item_ok] in Hok. rewrite u32_small by (unfold strlen in *; lia).
    unfold strlen. by rewrite Nat2Z.id, loads_cstr.
Qed.

(** [pack] is a sequence of byte stores. *)
Lemma pack_loop_stores its buf off size :
  0 <= size < 2 ^ 32 → Forall item_ok its →
  pack_loop buf off (items_fmt its) (items_args its) size =
    (buf' ← stores buf off (items_bytes its);
     Ok (buf', u32 (size + items_size its))).
Proof.
  revert buf off size. induction its as [|it its IH]; intros buf off size Hsize Hok.
  { cbn. by rewrite Z.add_0_r, u32_small. }
  apply Forall_cons in Hok as [Hit Hok].
  change (items_fmt (it :: its)) with (item_fmt it ++ items_fmt its).
  change (items_args (it :: its)) with (item_arg it :: items_args its).
  change (items_bytes (it :: its)) with (item_bytes it ++ items_bytes its).
  rewrite pack_loop_item, stores_app, res_bind_assoc by done.
  destruct (stores buf off (item_bytes it)) as [buf'|]; [|done]. cbn [mbind res_bind].
  assert (0 <= u32 (size + item_size it) < 2 ^ 32) by (apply Z.mod_pos_bound; lia).
  rewrite IH by (done || by destruct it).
  destruct (stores buf' _ _) as [buf''|]; [|done]. cbn [mbind res_bind]. do 2 f_equal.
  change (items_size (it :: its)) with (item_size it + items_size its).
  destruct it; unfold u32; rewrite ?Zplus_mod_idemp_l;
    apply (f_equal (λ x, x mod 2 ^ 32)); rewrite ?Z.add_assoc; try done.
  by rewrite Z.add_0_r.
Qed.

Lemma pack_stores its buf off :
  Forall item_ok its →
  pack buf off (items_fmt its) (items_args its) =
    (buf' ← stores buf off (items_bytes its); Ok (buf', u32 (items_size its))).
Proof. intros. by apply pack_loop_stores. Qed.

(** ** [unpack] reads the items back *)

Lemma unpack_loop_digit buf off c fmt ap n :
  48 <= c <= 57 →
  unpack_loop buf off (c :: fmt) ap n = unpack_loop buf off fmt ap (u32 (n * 10 + (c - 48))).
Proof.
  intros Hc. cbn [unpack_loop].
  rewrite (proj2 (isdigit_spec c) Hc).
  repeat match goal with
  | |- context [c =? ?k] => rewrite (proj2 (Z.eqb_neq c k)) by lia
  end. done.
Qed.

Lemma unpack_loop_digits buf off s fmt ap n :
  Forall (λ c, 48 <= c <= 57) s →
  unpack_loop buf off (s ++ fmt) ap (u32 n) = unpack_loop buf off fmt ap (u32 (dec_from n s)).
Proof.
  intros Hs. revert n. induction Hs as [|c s Hc Hs IH]; intros n; cbn [app]; [done|].
  rewrite unpack_loop_digit by done.
  replace (u32 (u32 n * 10 + (c - 48))) with (u32 (n * 10 + (c - 48)));
    [by rewrite IH|].
  unfold u32. symmetry. rewrite Z.add_mod, Zmult_mod_idemp_l, <-Z.add_mod by lia. done.
Qed.

Lemma store_str (d s : list Z) :
  (length s < length d)%nat →
  (d' ← stores d 0 s; aset d' (Z.of_nat (length s)) 0) = Ok (splice d 0 (s ++ [0])).
Proof.
  intros Hl. rewrite stores_fits by lia. cbn [mbind res_bind].
  assert (∀ x, aset x (Z.of_nat (length s)) 0 = stores x (Z.of_nat (length s)) [0]) as ->
    by (intros; cbn; by destruct (aset _ _ _)).
  rewrite stores_fits; [|lia|rewrite splice_length by lia; cbn; lia].
  rewrite Nat2Z.id. f_equal. apply (splice_splice d 0 s [0]). cbn. lia.
Qed.

(** The values of the signed types, from the unsigned number read. *)
Lemma resign_ok z :
  (-2 ^ 7 <= z < 2 ^ 7 →
     (if z mod 256 <=? 0x7f then z mod 256 else s8 (-1 - u8 (0xff - z mod 256))) = z) ∧
  (-2 ^ 15 <= z < 2 ^ 15 → (if z mod 2 ^ 16 <=? 0x7fff then z mod 2 ^ 16
     else s32 (u32 (-1 - u32 (0xffff - z mod 2 ^ 16)))) = z) ∧
  (-2 ^ 31 <= z < 2 ^ 31 → (if z mod 2 ^ 32 <=? 0x7fffffff then z mod 2 ^ 32
     else -1 - s64 (u64 (0xffffffff - z mod 2 ^ 32))) = z) ∧
  (-2 ^ 63 <= z < 2 ^ 63 → (if z mod 2 ^ 64 <=? 0x7fffffffffffffff then z mod 2 ^ 64
     else -1 - s64 (u64 (0xffffffffffffffff - z mod 2 ^ 64))) = z).
Proof.
  unfold s8, u8, s32, u32, s64, u64.
  split_and!; intros; case_if; zbool; zdiv_lia.
Qed.

Lemma unpack_loop_item l1 it l2 off fmt p ap :
  off = Z.of_nat (length l1) → item_ok it → item_dst it p →
  unpack_loop (l1 ++ item_bytes it ++ l2) off (item_ufmt it ++ fmt) (p :: ap) 0 =
    (vs ← unpack_loop (l1 ++ item_bytes it ++ l2)
            (off + Z.of_nat (length (item_bytes it))) fmt ap 0;
     mret (item_val it p :: vs)).
Proof.
  intros Hoff Hok Hd.
  destruct (resign_ok (match it with
    | I8 z | U8 z | I16 z | U16 z | I32 z | U32 z | I64 z | U64 z => z
    | Str _ => 0 end)) as (R8 & R16 & R32 & R64).
  destruct it as [z|z|z|z|z|z|z|z|s], p as [|d|]; try done; cbn [item_ok] in Hok;
    cbn [item_ufmt item_fmt item_bytes app unpack_loop Z.eqb Pos.eqb va_num mbind res_bind item_val].
  - rewrite (aget_middle l1 (z mod 256) l2) by done. cbn [mbind res_bind]. by rewrite R8.
  - rewrite (aget_middle l1 (z mod 256) l2) by done. cbn [mbind res_bind].
    by rewrite Z.mod_small.
  - unfold unpacki16. rewrite unpacku16_spec, be_val_bytes; auto using be_bytes_bytes, be_bytes_length.
    cbn [mbind res_bind]. unfold mret at 1, res_ret at 1. cbn [mbind res_bind].
    rewrite be_bytes_length. change (256 ^ Z.of_nat 2) with (2 ^ 16). by rewrite R16.
  - rewrite unpacku16_spec, be_val_bytes; auto using be_bytes_bytes, be_bytes_length.
    cbn [mbind res_bind]. rewrite be_bytes_length. by rewrite Z.mod_small.
  - unfold unpacki32. rewrite unpacku32_spec, be_val_bytes; auto using be_bytes_bytes, be_bytes_length.
    cbn [mbind res_bind]. unfold mret at 1, res_ret at 1. cbn [mbind res_bind].
    rewrite be_bytes_length. change (256 ^ Z.of_nat 4) with (2 ^ 32). by rewrite R32.
  - rewrite unpacku32_spec, be_val_bytes; auto using be_bytes_bytes, be_bytes_length.
    cbn [mbind res_bind]. rewrite be_bytes_length. by rewrite Z.mod_small.
  - unfold unpacki64. rewrite unpacku64_spec, be_val_bytes; auto using be_bytes_bytes, be_bytes_length.
    cbn [mbind res_bind]. unfold mret at 1, res_ret at 1. cbn [mbind res_bind].
    rewrite be_bytes_length. change (256 ^ Z.of_nat 8) with (2 ^ 64). by rewrite R64.
  - rewrite unpacku64_spec, be_val_bytes; auto using be_bytes_bytes, be_bytes_length.
    cbn [mbind res_bind]. rewrite be_bytes_length. by rewrite Z.mod_small.
  - cbn [item_dst] in Hd. rewrite <-(assoc_L (++)).
    rewrite (unpack_loop_digits _ _ (print_dec (strlen s)) _ _ 0) by (apply print_dec_Forall; apply strlen_nonneg).
    change (dec_from 0 ?s) with (dec_val s).
    rewrite print_dec_val, u32_small by (unfold strlen in *; lia).
    cbn [app unpack_loop Z.eqb Pos.eqb va_dst mbind res_bind]. unfold strlen.
    rewrite Nat2Z.id, loads_middle by done. cbn [mbind res_bind].
    rewrite <-res_bind_assoc, store_str by done. done.
Qed.

Lemma unpack_items its l1 l2 off ps :
  off = Z.of_nat (length l1) → Forall item_ok its → Forall2 item_dst its ps →
  unpack (l1 ++ items_bytes its ++ l2) off (items_ufmt its) ps
    = Ok (zip_with item_val its ps).
Proof.
  intros Hoff Hok Hd. unfold unpack. revert l1 off Hoff Hok.
  induction Hd as [|it p its ps Hit Hd IH]; intros l1 off -> Hok; [done|].
  apply Forall_cons in Hok as [Hok1 Hok].
  change (items_ufmt (it :: its)) with (item_ufmt it ++ items_ufmt its).
  change (items_bytes (it :: its)) with (item_bytes it ++ items_bytes its).
  rewrite <-(assoc_L (++) (item_bytes it)), unpack_loop_item by done.
  rewrite (assoc_L (++) l1), IH; [done| |done]. rewrite length_app. lia.
Qed.

Lemma bstring_copy_len m ptr s :
  s ≠ [] →
  ∃ m', bstring_copy m ptr s (strlen s) = Ok (m', (ptr, s)) ∧
    bstring_len m' ptr = Ok (strlen s).
Proof.
  intros Hs. unfold bstring_copy, tmalloc, strlen.
  assert ((Z.of_nat (length s) >? 0) = true) as -> by (destruct s; [done|reflexivity]).
  cbn [cassert mbind res_bind]. unfold mret at 1, res_ret at 1. cbn [mbind res_bind].
  rewrite Nat2Z.id. pose proof (loads_middle [] s [] 0 eq_refl) as Hl.
  rewrite app_nil_l, app_nil_r in Hl. rewrite Hl. cbn [mbind res_bind].
  eexists. split; [done|]. unfold bstring_len. cbn. by rewrite lookup_insert_eq.
Qed.

(** ** Properties *)

(** For every record of integers and strings, pack writes exactly its
    big-endian bytes at the position given and nothing else, and returns the
    size of the integers alone (the strings are not counted, and no length is
    stored before them); it runs out of the block exactly when the bytes do not
    fit. *)
Theorem pack_writes_items (its : list item) (buf : list Z) (off : Z) :
  0 <= off <= Z.of_nat (length buf) → Forall item_ok its →
  pack buf off (items_fmt its) (items_args its) =
    if decide (off + Z.of_nat (length (items_bytes its)) <= Z.of_nat (length buf))
    then Ok (splice buf (Z.to_nat off) (items_bytes its), u32 (items_size its))
    else Err OutOfBounds.
Proof.
  intros Hoff Hok. rewrite pack_stores, stores_spec by (done || lia).
  repeat case_decide; try done; [|naive_solver lia].
  destruct H as [E|]; [rewrite E in *; cbn in *; lia|lia].
Qed.

Lemma pack_writes_items_witness :
  pack [9; 9; 9; 9; 9; 9; 9] 1 (str "Hsb") [AInt 258; AStr [104; 105]; AInt (-1)]
  = Ok ([9; 1; 2; 104; 105; 255; 9], 3).
Proof.
  apply (pack_writes_items [U16 258; Str [104; 105]; I8 (-1)]);
    [cbn; lia|by repeat constructor].
Defined.

(** C16 unpack, with the lengths of the strings in its format, reads back every
    record that pack wrote: each integer as stored, for the signed types sign
    included, and each string followed by its NUL. *)
Theorem pack_unpack_roundtrip (its : list item) (buf : list Z) (off : Z) (ps : list parg) :
  0 <= off → off + Z.of_nat (length (items_bytes its)) <= Z.of_nat (length buf) →
  Forall item_ok its → Forall2 item_dst its ps →
  ∃ buf' size, pack buf off (items_fmt its) (items_args its) = Ok (buf', size) ∧
    length buf' = length buf ∧
    unpack buf' off (items_ufmt its) ps = Ok (zip_with item_val its ps).
Proof.
  intros Hoff Hfit Hok Hd. rewrite pack_stores, stores_fits by done.
  eexists _, _. split_and!; [done|apply splice_length; lia|].
  apply unpack_items; [|done..]. rewrite length_take. lia.
Qed.

Lemma pack_unpack_roundtrip_witness :
  ∃ buf' size, pack (replicate 20 7) 2 (str "iHsq") [AInt (-5); AInt 2; AStr [97; 98]; AInt (-1)]
      = Ok (buf', size) ∧ length buf' = 20%nat ∧
    unpack buf' 2 (str "iH2sq") [PNum; PNum; PStr [0; 0; 0; 3]; PNum]
      = Ok [VNum 8 (-5); VNum 4 2; VStr [97; 98; 0; 3]; VNum 8 (-1)].
Proof.
  apply (pack_unpack_roundtrip [I32 (-5); U16 2; Str [97; 98]; I64 (-1)]
           (replicate 20 7) 2 [PNum; PNum; PStr [0; 0; 0; 3]; PNum]);
    [lia|cbn; lia|by repeat constructor|repeat constructor; cbn; lia].
Defined.
