(* ===== verification/Db.v ===== *)
(** * The database: src/db.c, src/db.h (and the node destructor of src/server.c)

    A database is a trie whose data are items: a value (a C string), a time to
    live in seconds, the times of creation and of the last write.  An item is
    kept with the address of its structure, which the server compares.  [now] is
    what [time(NULL)] returns during the call, [ptr] the address that [tmalloc]
    returns. *)

From S2P Require Import Prelude Store Util Bst Vec Trie.

(** ** Data *)

Record db_item := mkItem {
  ttl : Z;                        (* short *)
  idata : option (list Z);        (* void *, a C string in this program *)
  ctime : Z;
  lstime : Z;
  iaddr : Z                       (* the address of the structure *)
}.

Record database := mkDb {
  db_name : list Z;
  db_data : Trie db_item
}.

#[export] Instance db_item_eq_dec : EqDecision db_item.
Proof. solve_decision. Defined.

(** ** Operations *)

(** [trie_node_destructor] of server.c: the item and its data are released; with
    the flag false the node is released too. *)
Definition trie_node_destructor : trie_destructor db_item := λ node dataonly,
  match data node with
  | None => (false, node)
  | Some _ => (true, set_data node None)
  end.

Definition database_init (name : list Z) (destructor : option (trie_destructor db_item))
  : database := {| db_name := name; db_data := trie_new destructor |}.

Definition database_size (db : database) : Z := tsize (db_data db).

Definition with_data (db : database) (t : Trie db_item) : database :=
  {| db_name := db_name db; db_data := t |}.

Definition database_insert (db : database) (key : list Z) (data : option (list Z))
    (ttl now ptr : Z) : res database :=
  let item := {| ttl := s16 ttl; idata := data; ctime := now; lstime := now; iaddr := ptr |} in
  '(t, _) ← trie_insert (db_data db) key item;
  mret (with_data db t).

(** [Some item]: true with [*ret = item]; [None]: false. *)
Definition database_search (db : database) (key : list Z) (now : Z)
  : res (option db_item) :=
  item ← trie_find (db_data db) key;
  match item with
  | None => mret None
  | Some item =>
      if (ttl item >? -1) && (ttl item <=? now - ctime item) then mret None
      else mret (Some item)
  end.

Definition database_remove (db : database) (key : list Z) : res (database * bool) :=
  '(t, b) ← trie_delete (db_data db) key;
  mret (with_data db t, b).

Definition database_prefix_remove (db : database) (prefix : list Z) : res database :=
  t ← trie_prefix_delete (db_data db) prefix;
  mret (with_data db t).

Definition database_prefix_count (db : database) (prefix : list Z) : res Z :=
  trie_prefix_count (db_data db) prefix.

Definition database_prefix_keys (junk : list Z) (db : database) (prefix : list Z)
  : res (option (Vector (kv_obj db_item))) := trie_prefix_find junk (db_data db) prefix.

Definition database_prefix_search (junk : list Z) (db : database) (prefix : list Z)
  : res (option (Vector (kv_obj db_item))) := trie_prefix_find junk (db_data db) prefix.

(** The traversal of a children tree that [bst_node_integer_mod],
    [bst_node_prefix_set] and [bst_node_prefix_ttl] have in common; [walk] is
    their call for the trie node. *)
Fixpoint bst_node_walk (walk : trie_node db_item → res (trie_node db_item))
    (node : bst_node (trie_node db_item)) : res (bst_node (trie_node db_item)) :=
  match node with
  | bst_null => Ok bst_null
  | bst_mk k h l r d =>
      l ← bst_node_walk walk l;
      r ← bst_node_walk walk r;
      d ← walk d;
      mret (bst_mk k h l r d)
  end.

(** The body of the [if] of [trie_node_integer_mod]; [tmp] has 12 bytes. *)
Definition item_integer_mod (inc : bool) (now : Z) (item : db_item) : res db_item :=
  match idata item with
  | Some s =>
      if is_integer s then
        n ← parse_int s;
        n ← int_chk (if inc then n + 1 else n - 1);
        let tmp := sprintf_d n in
        if strlen tmp + 1 <=? 12 then
          mret {| ttl := ttl item; idata := Some tmp; ctime := ctime item; lstime := now;
                  iaddr := iaddr item |}
        else Err OutOfBounds
      else mret item
  | None => mret item
  end.

(** The parameter [value] is not used by the code. *)
Fixpoint trie_node_integer_mod (value : Z) (inc : bool) (now : Z)
    (node : trie_node db_item) : res (trie_node db_item) :=
  match node with
  | mkNode c b d =>
      match b, d with
      | bst_null, None => mret node
      | _, _ =>
          d ← match d with
              | Some item => item ← item_integer_mod inc now item; mret (Some item)
              | None => mret None
              end;
          b ← bst_node_walk (trie_node_integer_mod value inc now) b;
          mret (mkNode c b d)
      end
  end.

Fixpoint trie_node_prefix_set (val : list Z) (newttl now : Z)
    (node : trie_node db_item) : res (trie_node db_item) :=
  match node with
  | mkNode c b d =>
      b ← bst_node_walk (trie_node_prefix_set val newttl now) b;
      let d := match d with
               | Some item => Some {| ttl := newttl; idata := Some val; ctime := ctime item;
                                      lstime := now; iaddr := iaddr item |}
               | None => None
               end in
      mret (mkNode c b d)
  end.

Fixpoint trie_node_prefix_ttl (newttl now : Z) (node : trie_node db_item)
  : res (trie_node db_item) :=
  match node with
  | mkNode c b d =>
      b ← bst_node_walk (trie_node_prefix_ttl newttl now) b;
      let d := match d with
               | Some item =>
                   match idata item with
                   | Some _ => Some {| ttl := newttl; idata := idata item; ctime := ctime item;
                                       lstime := now; iaddr := iaddr item |}
                   | None => Some item
                   end
               | None => None
               end in
      mret (mkNode c b d)
  end.

Definition bst_node_integer_mod (value : Z) (inc : bool) (now : Z) :=
  bst_node_walk (trie_node_integer_mod value inc now).
Definition bst_node_prefix_set (val : list Z) (newttl now : Z) :=
  bst_node_walk (trie_node_prefix_set val newttl now).
Definition bst_node_prefix_ttl (newttl now : Z) :=
  bst_node_walk (trie_node_prefix_ttl newttl now).

(** The part that the four functions on a prefix share: find the node of the
    prefix and change the subtree in place. *)
Definition database_prefix_walk (walk : trie_node db_item → res (trie_node db_item))
    (db : database) (prefix : list Z) : res database :=
  r ← the_root (db_data db);
  match trie_node_find (Some r) prefix with
  | None => mret db
  | Some node =>
      node ← walk node;
      mret (with_data db {| destructor := destructor (db_data db);
                            root := Some (trie_node_update r prefix (λ _, node));
                            tsize := tsize (db_data db) |})
  end.

Definition database_prefix_inc (db : database) (prefix : list Z) (now : Z) : res database :=
  database_prefix_walk (trie_node_integer_mod 1 true now) db prefix.

Definition database_prefix_dec (db : database) (prefix : list Z) (now : Z) : res database :=
  database_prefix_walk (trie_node_integer_mod 1 false now) db prefix.

Definition database_prefix_set (db : database) (prefix val : list Z) (newttl now : Z)
  : res database :=
  database_prefix_walk (trie_node_prefix_set val (s16 newttl) now) db prefix.

Definition database_prefix_ttl (db : database) (prefix : list Z) (newttl now : Z)
  : res database :=
  database_prefix_walk (trie_node_prefix_ttl (s16 newttl) now) db prefix.

(** The whole tree is released, the root included; [root] keeps its address. *)
Definition database_flush (db : database) : res database :=
  r ← the_root (db_data db);
  mret (with_data db
    {| destructor := destructor (db_data db);
       root := None;
       tsize := trie_node_destroy (destructor (db_data db)) r (tsize (db_data db)) |}).

(** ** Specification

    A database represents a finite map from keys to items; every operation is
    an operation on that map. *)

Definition db_repr (db : database) (m : gmap (list Z) db_item) : Prop :=
  trie_tree (db_data db) m ∧ destructor (db_data db) = Some trie_node_destructor.

(** The item is past its time to live. *)
Definition expired (now : Z) (item : db_item) : bool :=
  (ttl item >? -1) && (ttl item <=? now - ctime item).

(** The effect of an increment ([delta] 1) or decrement (-1) on an item, and
    whether the arithmetic on its value stays within [int]. *)
Definition mod_fits (delta : Z) (item : db_item) : bool :=
  match idata item with
  | Some s => negb (is_integer s) ||
              ((dec_val s <=? INT_MAX) && (dec_val s + delta <=? INT_MAX))
  | None => true
  end.

Definition mod_item (delta now : Z) (item : db_item) : db_item :=
  match idata item with
  | Some s => if is_integer s then mkItem (ttl item) (Some (sprintf_d (dec_val s + delta)))
                                     (ctime item) now (iaddr item)
              else item
  | None => item
  end.

Definition set_item (val : list Z) (newttl now : Z) (item : db_item) : db_item :=
  mkItem newttl (Some val) (ctime item) now (iaddr item).

Definition ttl_item (newttl now : Z) (item : db_item) : db_item :=
  match idata item with
  | Some s => mkItem newttl (Some s) (ctime item) now (iaddr item)
  | None => item
  end.

(** [f] applied to the items whose key starts with [p]. *)
Definition map_prefix (f : db_item → db_item) (p : list Z) (m : gmap (list Z) db_item)
  : gmap (list Z) db_item :=
  map_imap (λ k x, Some (if decide (p `prefix_of` k) then f x else x)) m.

Inductive db_op : Type :=
| DInsert (k : list Z) (v : option (list Z)) (t ptr : Z)
| DSearch (k : list Z)
| DRemove (k : list Z)
| DPrefixRemove (p : list Z)
| DPrefixCount (p : list Z)
| DPrefixInc (p : list Z)
| DPrefixDec (p : list Z)
| DPrefixSet (p v : list Z) (t : Z)
| DPrefixTtl (p : list Z) (t : Z).

Inductive db_out : Type :=
| RUnit
| RItem (item : option db_item)
| RBool (b : bool)
| RCount (n : Z).

Definition db_step (now : Z) (db : database) (op : db_op) : res (database * db_out) :=
  match op with
  | DInsert k v t ptr => db ← database_insert db k v t now ptr; mret (db, RUnit)
  | DSearch k => it ← database_search db k now; mret (db, RItem it)
  | DRemove k => '(db, b) ← database_remove db k; mret (db, RBool b)
  | DPrefixRemove p => db ← database_prefix_remove db p; mret (db, RUnit)
  | DPrefixCount p => n ← database_prefix_count db p; mret (db, RCount n)
  | DPrefixInc p => db ← database_prefix_inc db p now; mret (db, RUnit)
  | DPrefixDec p => db ← database_prefix_dec db p now; mret (db, RUnit)
  | DPrefixSet p v t => db ← database_prefix_set db p v t now; mret (db, RUnit)
  | DPrefixTtl p t => db ← database_prefix_ttl db p t now; mret (db, RUnit)
  end.

(** The same on a finite map. *)
Definition spec_mod (delta now : Z) (p : list Z) (m : gmap (list Z) db_item)
  : res (gmap (list Z) db_item * db_out) :=
  if decide (map_Forall (λ _ it, mod_fits delta it = true) (with_prefix p m))
  then Ok (map_prefix (mod_item delta now) p m, RUnit) else Err SignedOverflow.

Definition spec_step (now : Z) (m : gmap (list Z) db_item) (op : db_op)
  : res (gmap (list Z) db_item * db_out) :=
  match op with
  | DInsert k v t ptr => Ok (<[k := mkItem (s16 t) v now now ptr]> m, RUnit)
  | DSearch k =>
      Ok (m, RItem (it ← m !! k; if expired now it then None else Some it))
  | DRemove k => Ok (if decide (k = []) then m else delete k m,
                     RBool (bool_decide (k ≠ [] ∧ is_Some (m !! k))))
  | DPrefixRemove p => Ok (prefix_deleted p m, RUnit)
  | DPrefixCount p => n ← int_chk (Z.of_nat (size (with_prefix p m))); Ok (m, RCount n)
  | DPrefixInc p => spec_mod 1 now p m
  | DPrefixDec p => spec_mod (-1) now p m
  | DPrefixSet p v t => Ok (map_prefix (set_item v (s16 t) now) p m, RUnit)
  | DPrefixTtl p t => Ok (map_prefix (ttl_item (s16 t) now) p m, RUnit)
  end.

(** Sequences of operations, each at its time. *)
Section run.
Context {S : Type} (step : Z → S → db_op → res (S * db_out)).

Fixpoint run (s : S) (ops : list (Z * db_op)) : res (S * list db_out) :=
  match ops with
  | [] => Ok (s, [])
  | (now, op) :: ops =>
      '(s, o) ← step now s op;
      '(s, os) ← run s ops;
      mret (s, o :: os)
  end.
End run.

Definition op_key_ok (op : db_op) : Prop :=
  match op with DInsert k _ _ _ => cstr k | _ => True end.
#[export] Instance op_key_ok_dec op : Decision (op_key_ok op).
Proof. destruct op; cbn; apply _. Defined.

#[export] Instance trie_node_destructor_ok : DataDestructor trie_node_destructor.
Proof. intros [c b [d|]]; done. Qed.

(** ** Changing every item of a subtree *)

Fixpoint bst_map {A} (f : A → A) (b : bst_node A) : bst_node A :=
  match b with
  | bst_null => bst_null
  | bst_mk k h l r d => bst_mk k h (bst_map f l) (bst_map f r) (f d)
  end.

Fixpoint trie_map {A} (f : A → A) (n : trie_node A) : trie_node A :=
  match n with mkNode c b d => mkNode c (bst_map (trie_map f) b) (f <$> d) end.

Section walk.
Context (f : db_item → db_item) (ok : db_item → bool).

Abbreviation all_ok es := (Forall (λ e : list Z * db_item, ok e.2 = true) es).

(** What a traversal computes when the only thing that can go wrong is an
    overflow on an item. *)
Definition walks (w : trie_node db_item → res (trie_node db_item)) (n : trie_node db_item) :=
  w n = if decide (all_ok (trie_entries n)) then Ok (trie_map f n) else Err SignedOverflow.

Lemma bst_node_walk_spec w b :
  bst_all (λ _ n, walks w n) b →
  bst_node_walk w b =
    if decide (all_ok (bst_entries trie_entries b)) then Ok (bst_map (trie_map f) b)
    else Err SignedOverflow.
Proof.
  induction b as [|c h l IHl r IHr n]; cbn [bst_all].
  { intros _. by rewrite decide_True by constructor. }
  intros (Hn & Hl & Hr). cbn [bst_node_walk bst_entries bst_map].
  rewrite (IHl Hl), (IHr Hr), Hn.
  assert (∀ es : list (list Z * db_item), all_ok (prod_map (cons c) id <$> es) ↔ all_ok es) as E.
  { intros es. rewrite Forall_fmap. done. }
  repeat case_decide; cbn [mbind res_bind]; rewrite ?Forall_app, ?E in *; tauto || done.
Qed.
End walk.

Lemma item_integer_mod_spec (inc : bool) now item :
  let delta := if inc then 1 else -1 in
  item_integer_mod inc now item =
    if mod_fits delta item then Ok (mod_item delta now item) else Err SignedOverflow.
Proof.
  intros delta. unfold item_integer_mod, mod_fits, mod_item.
  destruct (idata item) as [s|]; [|done]. destruct (is_integer s) eqn:Hs; cbn [negb orb]; [|done].
  rewrite parse_int_spec by done. pose proof (dec_val_nonneg s Hs).
  destruct (Z.leb_spec (dec_val s) INT_MAX); cbn [andb].
  - rewrite int_chk_Ok by (unfold INT_MIN; lia). cbn [mbind res_bind].
    replace (if inc then dec_val s + 1 else dec_val s - 1) with (dec_val s + delta)
      by (destruct inc; subst delta; lia).
    destruct (Z.leb_spec (dec_val s + delta) INT_MAX).
    + assert (INT_MIN <= dec_val s + delta <= INT_MAX) as Hr
        by (unfold INT_MIN; destruct inc; subst delta; lia).
      rewrite int_chk_Ok by done. cbn [mbind res_bind].
      apply sprintf_d_length in Hr. by rewrite (proj2 (Z.leb_le _ _) Hr).
    + by rewrite int_chk_over by done.
  - by rewrite int_chk_over by done.
Qed.

Lemma trie_node_integer_mod_walks value (inc : bool) now n :
  let delta := if inc then 1 else -1 in
  walks (mod_item delta now) (mod_fits delta) (trie_node_integer_mod value inc now) n.
Proof.
  intros delta. induction n as [c b d IH] using trie_ind. unfold walks.
  transitivity (d' ← match d with
                     | Some item => item ← item_integer_mod inc now item; mret (Some item)
                     | None => mret None end;
                b' ← bst_node_walk (trie_node_integer_mod value inc now) b;
                mret (mkNode c b' d')); [by destruct b, d|].
  rewrite (bst_node_walk_spec _ _ _ _ IH). cbn [trie_entries trie_map].
  destruct d as [item|]; cbn [mbind res_bind app fmap option_fmap option_map].
  - rewrite item_integer_mod_spec. fold delta.
    destruct (mod_fits delta item) eqn:E; cbn [mbind res_bind mret res_ret].
    + repeat case_decide; rewrite ?Forall_cons in *; cbn [snd] in *; tauto || done.
    + rewrite decide_False; [done|]. rewrite Forall_cons. cbn. rewrite E. by intros [].
  - cbn [mret res_ret mbind res_bind]. by repeat case_decide.
Qed.

(** A traversal that cannot fail. *)
Lemma walks_true f w n : walks f (λ _, true) w n → w n = Ok (trie_map f n).
Proof. intros ->. rewrite decide_True; [done|]. by apply Forall_true. Qed.

Lemma trie_node_prefix_set_walks val newttl now n :
  walks (set_item val newttl now) (λ _, true) (trie_node_prefix_set val newttl now) n.
Proof.
  induction n as [c b d IH] using trie_ind. unfold walks. cbn [trie_node_prefix_set].
  rewrite (bst_node_walk_spec _ _ _ _ IH). rewrite !decide_True by by apply Forall_true.
  by destruct d.
Qed.

Lemma trie_node_prefix_ttl_walks newttl now n :
  walks (ttl_item newttl now) (λ _, true) (trie_node_prefix_ttl newttl now) n.
Proof.
  induction n as [c b d IH] using trie_ind. unfold walks. cbn [trie_node_prefix_ttl].
  rewrite (bst_node_walk_spec _ _ _ _ IH). rewrite !decide_True by by apply Forall_true.
  destruct d as [[? [s|] ? ?]|]; done.
Qed.

Section trie_map_lemmas.
Context {A : Type} (f : A → A).

Lemma bst_map_lookup {B} (g : B → B) b c : bst_lookup (bst_map g b) c = g <$> bst_lookup b c.
Proof.
  induction b as [|k h l IHl r IHr d]; [done|]. cbn [bst_map].
  rewrite !bst_lookup_mk. by repeat case_if.
Qed.

Lemma bst_map_pairs {B} (g : B → B) b : bst_pairs (bst_map g b) = prod_map id g <$> bst_pairs b.
Proof.
  induction b as [|k h l IHl r IHr d]; [done|]. cbn [bst_map bst_pairs].
  by rewrite IHl, IHr, fmap_cons, fmap_app.
Qed.

Lemma bst_map_ok {B} (g : B → B) b : bst_ok b → bst_ok (bst_map g b).
Proof.
  unfold bst_ok. induction b as [|k h l IHl r IHr d]; [done|].
  cbn [bst_map bst_ordered bst_flat]. rewrite !bst_map_pairs, !Forall_fmap.
  intros [(?&?&?&?) (?&?&?)]. destruct IHl, IHr; [done..|]. done.
Qed.

Lemma trie_map_chr n : chr (trie_map f n) = chr n.
Proof. by destruct n. Qed.

Lemma trie_map_get n k : node_get (trie_map f n) k = f <$> node_get n k.
Proof.
  revert n. induction k as [|c k IH]; intros [c' b d]; [done|].
  rewrite !node_get_cons. cbn [trie_map children]. rewrite bst_map_lookup.
  destruct (bst_lookup b c); [apply IH|done].
Qed.

Lemma trie_map_wf n : trie_wf n → trie_wf (trie_map f n).
Proof.
  induction n as [c b d IH] using trie_ind. cbn [trie_wf trie_map]. intros [Hok Hall].
  split; [by apply bst_map_ok|]. clear Hok.
  induction b as [|k h l IHl r IHr x]; [done|]. cbn [bst_map bst_all] in *.
  destruct IH as (?&?&?), Hall as ((?&?&?)&?&?).
  split_and!; auto. by rewrite trie_map_chr.
Qed.
End trie_map_lemmas.

(** ** Operations on a prefix *)

Lemma map_prefix_lookup f p m k :
  map_prefix f p m !! k = (λ x, if decide (p `prefix_of` k) then f x else x) <$> m !! k.
Proof. unfold map_prefix. rewrite map_lookup_imap. by destruct (m !! k). Qed.

Lemma map_prefix_none f p m : with_prefix p m = ∅ → map_prefix f p m = m.
Proof.
  intros H. apply map_eq. intros k. rewrite map_prefix_lookup.
  destruct (m !! k) as [x|] eqn:E; [|done]. cbn. case_decide as Hp; [|done].
  exfalso. assert (with_prefix p m !! k = Some x) as Hx.
  { unfold with_prefix. by apply map_lookup_filter_Some. }
  by rewrite H in Hx.
Qed.

(** The items below the node of the prefix are those with the prefix. *)
Lemma entries_with_prefix r p n (P : db_item → Prop) :
  trie_wf r → trie_walk r p = Some n →
  Forall (λ e, P e.2) (trie_entries n) ↔ map_Forall (λ _ it, P it) (with_prefix p (node_map r)).
Proof.
  intros Hr Hn. assert (trie_wf n) as Hwn by by eapply trie_wf_walk.
  rewrite (with_prefix_node r p n), Forall_forall by done. unfold map_Forall. split.
  - intros H k it (k' & -> & Hk)%lookup_kmap_Some; [|apply _].
    apply (H (k', it)). apply trie_entries_get; [done|]. by rewrite <-node_map_lookup.
  - intros H [k it] Hin. apply (H (p ++ k)). rewrite lookup_kmap by apply _.
    rewrite node_map_lookup by done. by apply trie_entries_get.
Qed.

Lemma prefix_walk_map r p n f :
  trie_wf r → trie_walk r p = Some n →
  trie_wf (trie_node_update r p (λ _, trie_map f n)) ∧
  chr (trie_node_update r p (λ _, trie_map f n)) = chr r ∧
  node_map (trie_node_update r p (λ _, trie_map f n)) = map_prefix f p (node_map r).
Proof.
  intros Hr Hn. assert (trie_wf n) by by eapply trie_wf_walk.
  destruct (trie_node_update_wf r p (λ _, trie_map f n) n) as [Hwf Hc];
    [done..|by apply trie_map_wf|apply trie_map_chr|].
  split_and!; [done..|]. apply map_eq. intros k.
  rewrite node_map_lookup, map_prefix_lookup, node_map_lookup by done.
  case_decide as Hp.
  - destruct Hp as [s ->]. rewrite (node_get_update _ _ _ n), trie_map_get by done.
    by rewrite node_get_app, Hn.
  - rewrite (node_get_update_ne _ _ _ n) by done. by destruct (node_get r k).
Qed.

Lemma database_prefix_walk_spec w f ok db m p :
  (∀ n, walks f ok w n) → db_repr db m →
  if decide (map_Forall (λ _ it, ok it = true) (with_prefix p m))
  then ∃ db', database_prefix_walk w db p = Ok db' ∧ db_repr db' (map_prefix f p m)
  else database_prefix_walk w db p = Err SignedOverflow.
Proof.
  intros Hw [(r & Hr & Hwf & Hr0 & <-) Hd]. unfold database_prefix_walk, the_root, trie_node_find.
  rewrite Hr. cbn [mbind res_bind]. destruct (trie_walk r p) as [n|] eqn:Hn.
  - rewrite Hw. pose proof (entries_with_prefix r p n (λ it, ok it = true) Hwf Hn) as HF.
    repeat case_decide; cbn [mbind res_bind]; try done; [|tauto..].
    eexists; split; [done|]. split; [|done].
    destruct (prefix_walk_map r p n f) as (? & ? & ?); [done..|].
    eexists; split_and!; [done..|congruence|done].
  - rewrite with_prefix_none by done. rewrite decide_True by apply map_Forall_empty.
    exists db. split; [done|]. split; [|done].
    rewrite map_prefix_none by by apply with_prefix_none. by exists r.
Qed.

Lemma prefix_walk_total w f db m p :
  (∀ n, walks f (λ _, true) w n) → db_repr db m →
  ∃ db', database_prefix_walk w db p = Ok db' ∧ db_repr db' (map_prefix f p m).
Proof.
  intros Hw Hr. pose proof (database_prefix_walk_spec w f _ db m p Hw Hr) as H.
  by rewrite decide_True in H.
Qed.

(** A step of the database is the step of the map. *)
Definition refines (r : res (database * db_out)) (s : res (gmap (list Z) db_item * db_out)) :=
  match s with
  | Ok (m, o) => ∃ db, r = Ok (db, o) ∧ db_repr db m
  | Err f => r = Err f
  end.

Lemma spec_mod_refines (inc : bool) now db m p :
  db_repr db m →
  refines (db ← database_prefix_walk (trie_node_integer_mod 1 inc now) db p; mret (db, RUnit))
    (spec_mod (if inc then 1 else -1) now p m).
Proof.
  intros Hr. unfold refines, spec_mod.
  pose proof (database_prefix_walk_spec _ _ _ db m p
    (trie_node_integer_mod_walks 1 inc now) Hr) as H.
  case_decide; [|by rewrite H]. destruct H as (db' & -> & ?). by exists db'.
Qed.

Lemma db_step_refines now db m op :
  db_repr db m → op_key_ok op → refines (db_step now db op) (spec_step now m op).
Proof.
  intros Hr Hk. pose proof Hr as [Ht Hd].
  destruct op as [k v t ptr|k|k|p|p|p|p|p v t|p t]; cbn [db_step spec_step op_key_ok] in *;
    [..|apply (spec_mod_refines true); done|apply (spec_mod_refines false); done| |];
    unfold refines.
  - unfold database_insert.
    destruct (trie_insert_tree _ m k (mkItem (s16 t) v now now ptr) Ht Hk) as (t' & -> & Ht' & Hd' & _).
    eexists; split; [done|]. split; [done|]. cbn. congruence.
  - unfold database_search. rewrite (trie_find_tree _ m) by done. cbn [mbind res_bind option_bind].
    exists db. split; [|done]. destruct (m !! k) as [it|]; [|done].
    cbn [mbind option_bind]. unfold expired. by destruct (_ && _).
  - unfold database_remove. case_decide as E.
    + subst. rewrite bool_decide_false by tauto. exists db. split; [by destruct db|done].
    + destruct (trie_delete_tree _ m k _ Ht Hd _ E) as (t' & -> & Ht' & Hd' & _).
      exists (with_data db t'). split; [|by split; [done|cbn; congruence]].
      cbn. do 3 f_equal. apply bool_decide_ext. tauto.
  - unfold database_prefix_remove.
    destruct (trie_prefix_delete_tree _ _ m p _ Ht Hd) as (t' & -> & Ht' & Hd' & _).
    eexists; split; [done|]. by split.
  - unfold database_prefix_count. rewrite (trie_prefix_count_tree _ m) by done.
    destruct (int_chk _); cbn [mbind res_bind]; [|done]. eauto.
  - unfold database_prefix_set.
    destruct (prefix_walk_total _ _ db m p (trie_node_prefix_set_walks v (s16 t) now) Hr)
      as (db' & -> & ?). eauto.
  - unfold database_prefix_ttl.
    destruct (prefix_walk_total _ _ db m p (trie_node_prefix_ttl_walks (s16 t) now) Hr)
      as (db' & -> & ?). eauto.
Qed.

Lemma db_run_refines ops db m :
  db_repr db m → Forall (λ o, op_key_ok o.2) ops →
  match run spec_step m ops with
  | Ok (m', os) => ∃ db', run db_step db ops = Ok (db', os) ∧ db_repr db' m'
  | Err f => run db_step db ops = Err f
  end.
Proof.
  revert db m. induction ops as [|[now op] ops IH]; intros db m Hr Hk; cbn [run].
  { eauto. }
  apply Forall_cons in Hk as [Hk1 Hk].
  pose proof (db_step_refines now db m op Hr Hk1) as Hs. unfold refines in Hs.
  destruct (spec_step now m op) as [[m1 o]|f]; cbn [mbind res_bind]; [|by rewrite Hs].
  destruct Hs as (db1 & -> & Hr1). cbn [mbind res_bind]. specialize (IH db1 m1 Hr1 Hk).
  destruct (run spec_step m1 ops) as [[m2 os]|f]; cbn [mbind res_bind]; [|by rewrite IH].
  destruct IH as (db2 & -> & Hr2). by exists db2.
Qed.

(** ** Properties *)

Lemma database_init_repr name : db_repr (database_init name (Some trie_node_destructor)) ∅.
Proof. split; [apply trie_new_repr|done]. Qed.

(** C3 a database created with the server's destructor refines a finite map from
    keys to items: for every sequence of insertions, searches, removals, prefix
    removals, prefix counts, prefix increments and decrements, prefix writes and
    TTL changes, at any times, the answers are those of the map, an expired item
    not being found, and the run is undefined (an int overflow) exactly when a
    value or a count in the map leaves the range of int. *)
Theorem database_refines_map (name : list Z) (ops : list (Z * db_op)) :
  Forall (λ o, op_key_ok o.2) ops →
  match run spec_step ∅ ops with
  | Ok (m, os) =>
      ∃ db, run db_step (database_init name (Some trie_node_destructor)) ops = Ok (db, os)
            ∧ db_repr db m
  | Err f => run db_step (database_init name (Some trie_node_destructor)) ops = Err f
  end.
Proof. intros Hk. apply db_run_refines; [apply database_init_repr|done]. Qed.

Definition demo_ops : list (Z * db_op) :=
  [(100, DInsert (str "a1") (Some (str "41")) (-1) 64);
   (101, DInsert (str "a2") (Some (str "xyz")) 10 128);
   (102, DPrefixInc (str "a"));
   (103, DSearch (str "a1"));
   (111, DSearch (str "a2"));
   (112, DPrefixCount (str "a"));
   (113, DPrefixRemove (str "a"));
   (114, DSearch (str "a1"))].

Lemma database_refines_map_witness :
  ∃ db, run db_step (database_init [] (Some trie_node_destructor)) demo_ops
      = Ok (db, [RUnit; RUnit; RUnit; RItem (Some (mkItem (-1) (Some (str "42")) 100 102 64));
                 RItem None; RCount 2; RUnit; RItem None])
    ∧ db_repr db ∅.
Proof.
  pose proof (database_refines_map [] demo_ops) as H.
  assert (Forall (λ o, op_key_ok o.2) demo_ops) as Hk
    by (apply (bool_decide_unpack _); vm_compute; exact I).
  specialize (H Hk). revert H.
  replace (run spec_step ∅ demo_ops) with
    (Ok (∅ : gmap (list Z) db_item,
         [RUnit; RUnit; RUnit; RItem (Some (mkItem (-1) (Some (str "42")) 100 102 64));
          RItem None; RCount 2; RUnit; RItem None]))
    by (vm_compute; reflexivity).
  exact id.
Defined.

(** A search finds an inserted item until its time to live is over, counted
    from the insertion, and for ever when the time to live is negative. *)
Theorem database_insert_search (db : database) (m : gmap (list Z) db_item)
    (key : list Z) (v : option (list Z)) (t now later ptr : Z) :
  db_repr db m → cstr key → -2 ^ 15 <= t < 2 ^ 15 →
  ∃ db', database_insert db key v t now ptr = Ok db' ∧
    database_search db' key later =
      Ok (if (0 <=? t) && (t <=? later - now) then None else Some (mkItem t v now now ptr)).
Proof.
  intros Hr Hk Ht. pose proof (db_step_refines now db m (DInsert key v t ptr) Hr Hk) as H1.
  destruct H1 as (db' & H1 & Hr'). cbn [db_step] in H1. res_simpl. simplify_eq.
  exists db'. split; [done|].
  pose proof (db_step_refines later db' _ (DSearch key) Hr' I) as H2.
  destruct H2 as (db2 & H2 & _). cbn [db_step] in H2. res_simpl. simplify_eq.
  rewrite lookup_insert_eq. cbn. unfold expired. cbn.
  assert (s16 t = t) as -> by (unfold s16; zdiv_lia).
  rewrite Z.gtb_ltb. replace (-1 <? t) with (0 <=? t)
    by (destruct (Z.leb_spec 0 t), (Z.ltb_spec (-1) t); lia || done).
  by destruct (_ && _).
Qed.

Lemma database_insert_search_witness :
  ∃ db', database_insert (database_init [] (Some trie_node_destructor)) (str "k")
           (Some (str "v")) 5 100 64 = Ok db' ∧
    database_search db' (str "k") 105 = Ok None.
Proof.
  apply (database_insert_search (database_init [] (Some trie_node_destructor)) ∅ (str "k")
           (Some (str "v")) 5 100 105 64);
    [apply database_init_repr|by repeat constructor|lia].
Defined.

(** After database_flush the root is a dangling pointer: the next insertion,
    search, removal or operation on a prefix uses released memory. *)
Theorem database_flush_dangling (db db' : database) (key v : list Z) (t now ptr : Z) :
  database_flush db = Ok db' →
  database_insert db' key (Some v) t now ptr = Err UseAfterFree ∧
  database_search db' key now = Err UseAfterFree ∧
  (key ≠ [] → database_remove db' key = Err UseAfterFree) ∧
  database_prefix_count db' key = Err UseAfterFree ∧
  database_prefix_inc db' key now = Err UseAfterFree ∧
  database_flush db' = Err UseAfterFree.
Proof.
  unfold database_flush. intros H. res_simpl. simplify_eq. split_and!; try done.
  by destruct key.
Qed.

Lemma database_flush_dangling_witness :
  ∃ db', database_flush (database_init [] (Some trie_node_destructor)) = Ok db' ∧
    database_search db' (str "k") 7 = Err UseAfterFree.
Proof.
  eexists. split; [reflexivity|].
  apply (database_flush_dangling (database_init [] (Some trie_node_destructor)) _
           (str "k") [] 0 7 64). reflexivity.
Defined.
