(* ===== verification/Protocol.v ===== *)
(** * The wire protocol: src/protocol.c, src/protocol.h

    A packet is a header byte (operation code in the high four bits, flags
    below), the remaining length in one to four bytes of seven bits each, and
    the body.  A block of [tmalloc] is the list of its bytes; the bytes of a new
    block are [junk], any value.  The layout of the structures that [unpack]
    writes into is that of the little endian LP64 targets. *)

From S2P Require Import Prelude Util Config Store Bst Vec Trie Pack Db.

(** ** Data *)

Inductive opcode : Type :=
| ACK | PUT | GET | DEL | TTL | INC | DEC | CNT
| USE | KEYS | PING | QUIT | DB | INFO | FLUSH | JOIN.

#[export] Instance opcode_eq_dec : EqDecision opcode.
Proof. solve_decision. Defined.

Definition opcode_val (o : opcode) : Z :=
  match o with
  | ACK => 0 | PUT => 1 | GET => 2 | DEL => 3 | TTL => 4 | INC => 5 | DEC => 6
  | CNT => 7 | USE => 8 | KEYS => 9 | PING => 10 | QUIT => 11 | DB => 12
  | INFO => 13 | FLUSH => 14 | JOIN => 15
  end.

(** [union header]: the byte and its bit fields. *)
Definition header := Z.
Definition bits_reserved (h : header) : Z := Z.land h 1.
Definition bits_request (h : header) : Z := Z.land (Z.shiftr h 1) 1.
Definition bits_sync (h : header) : Z := Z.land (Z.shiftr h 2) 1.
Definition bits_prefix (h : header) : Z := Z.land (Z.shiftr h 3) 1.
Definition bits_opcode (h : header) : Z := Z.land (Z.shiftr h 4) 15.

(** Requests: the members of [union triedb_request].  No unpack handler fills in
    the one of TTL.  A pointer to characters is the block it points to. *)
Record put := mkPut {
  put_header : header;
  put_ttl : Z;               (* int *)
  put_keylen : Z;            (* unsigned short *)
  put_key : list Z;
  put_val : list Z
}.
Record get := mkGet { get_header : header; get_key : list Z }.
Record ttl_request := mkTtl { ttl_header : header; ttl_ttl : Z; ttl_key : list Z }.
Record ack := mkAck { ack_header : header; ack_rc : Z }.

Inductive triedb_request : Type :=
| RPut (p : put)
| RGet (g : get)
| RTtl (t : ttl_request)
| RAck (a : ack).

(** Responses. *)
Record tuple := mkTuple {
  tu_ttl : Z;                (* int *)
  tu_keylen : Z;             (* unsigned short *)
  tu_key : list Z;
  tu_val : list Z
}.

Inductive triedb_response : Type :=
| AckRes (byte rc : Z)
| CntRes (byte val : Z)
| GetPrefixRes (byte tuples_len : Z) (tuples : list tuple)
| GetRes (byte : Z) (val : tuple)
| JoinRes (byte tuples_len : Z) (tuples : list tuple).

(** ** Remaining length *)

Definition MAX_LEN_BYTES : Z := 4.

(** The [do ... while] loop; it returns at the latest in its fifth round. *)
Fixpoint encode_length_loop (fuel : nat) (buf : list Z) (off len bytes : Z)
  : res (list Z * Z) :=
  match fuel with
  | O => Err OutOfFuel
  | S fuel =>
      if bytes + 1 >? MAX_LEN_BYTES then Ok (buf, bytes)
      else
        let d := s8 (len mod 128) in
        let len := len / 128 in
        let d := if len >? 0 then s8 (Z.lor d 0x80) else d in
        buf ← aset buf (off + bytes) (u8 d);
        let bytes := bytes + 1 in
        if len >? 0 then encode_length_loop fuel buf off len bytes
        else Ok (buf, bytes)
  end.

Definition encode_length (buf : list Z) (off len : Z) : res (list Z * Z) :=
  encode_length_loop 5 buf off len 0.

(** [multiplier] is an [int] and overflows in the fifth round.  The result is
    the value and [*pos]; [*buf] has advanced by [*pos]. *)
Fixpoint decode_length_loop (fuel : nat) (buf : list Z) (off multiplier value pos : Z)
  : res (Z * Z) :=
  match fuel with
  | O => Err OutOfFuel
  | S fuel =>
      b ← aget buf off;
      let c := s8 b in
      v ← int_chk (Z.land c 127 * multiplier);
      let value := u64 (value + v) in
      multiplier ← int_chk (multiplier * 128);
      if Z.land c 128 =? 0 then Ok (value, u32 (pos + 1))
      else decode_length_loop fuel buf (off + 1) multiplier value (u32 (pos + 1))
  end.

Definition decode_length (buf : list Z) (off : Z) : res (Z * Z) :=
  decode_length_loop 5 buf off 1 0 0.

(** ** Requests *)

(** [tmalloc(size)] for a [size_t]: the size with the header wraps around; the
    header does not fit a block of less than eight bytes; [malloc] returns null
    for more than [PTRDIFF_MAX] bytes. *)
Definition PTRDIFF_MAX : Z := 2 ^ 63 - 1.

Definition tmalloc_block (junk size : Z) : res (option (list Z)) :=
  _ ← cassert (size >? 0);
  let real := u64 (size + SIZEOF_SIZE_T) in
  if real >? PTRDIFF_MAX then Ok None
  else if real <? SIZEOF_SIZE_T then Err OutOfBounds
  else Ok (Some (replicate (Z.to_nat (real - SIZEOF_SIZE_T)) junk)).

Definition ptr_arg (p : option (list Z)) : parg :=
  match p with Some b => PStr b | None => PNull end.

(** [sprintf] into an array of [n] characters. *)
Definition sprintf_buf (n : Z) (s : list Z) : res (list Z) :=
  if strlen s + 1 <=? n then Ok s else Err OutOfBounds.

(** An object of [n] bytes, least significant first. *)
Definition le_bytes (n : nat) (z : Z) : list Z := reverse (be_bytes n z).
Definition le_val (bs : list Z) : Z := be_val (reverse bs).

(** [unpack(raw, "iH", &ttl, &keylen)]: the bytes 4 to 11 of the structure, which
    hold the [int] ttl, the [unsigned short] keylen and two bytes of padding,
    receive a [long int] at the address of ttl and then an [unsigned int] at the
    address of keylen. *)
Definition store_ttl_keylen (vs : list uval) : res (Z * Z) :=
  match vs with
  | [VNum si i; VNum sH H] =>
      let fields := replicate 8 0 in
      fields ← stores fields 0 (le_bytes (Z.to_nat si) i);
      fields ← stores fields 4 (le_bytes (Z.to_nat sH) H);
      ttl ← loads fields 0 4;
      keylen ← loads fields 4 2;
      mret (s32 (le_val ttl), le_val keylen)
  | _ => Err BadArgument
  end.

Definition vstr (v : uval) : res (list Z) :=
  match v with VStr b => Ok b | VNum _ _ => Err BadArgument end.

Definition unpack_triedb_put (junk : Z) (raw : list Z) (off : Z) (hdr : header)
    (len : Z) : res triedb_request :=
  vs ← unpack raw off (str "iH") [PNum; PNum];
  '(ttl, keylen) ← store_ttl_keylen vs;
  let pkt_len := u64 (len - (4 + 2 + keylen)) in
  fmt ← sprintf_buf 32 (sprintf_d keylen ++ str "s" ++ sprintf_d (s64 pkt_len) ++ str "s");
  key ← tmalloc_block junk (keylen + 1);
  val ← tmalloc_block junk (u64 (pkt_len + 1));
  vs ← unpack raw (off + 6) fmt [ptr_arg key; ptr_arg val];
  match vs with
  | [VStr key; VStr val] =>
      mret (RPut {| put_header := hdr; put_ttl := ttl; put_keylen := keylen;
                    put_key := key; put_val := val |})
  | _ => Err BadArgument
  end.

Definition unpack_triedb_get (junk : Z) (raw : list Z) (off : Z) (hdr : header)
    (len : Z) : res triedb_request :=
  key ← tmalloc_block junk (u64 (len + 1));
  fmt ← sprintf_buf 10 (sprintf_d (s64 len) ++ str "s");
  vs ← unpack raw off fmt [ptr_arg key];
  match vs with
  | [VStr key] => mret (RGet {| get_header := hdr; get_key := key |})
  | _ => Err BadArgument
  end.

(** The first byte read is discarded. *)
Definition unpack_triedb_ack (junk : Z) (raw : list Z) (off : Z) (hdr : header)
    (len : Z) : res triedb_request :=
  vs ← unpack raw off (str "BB") [PNum; PNum];
  match vs with
  | [_; VNum _ rc] => mret (RAck {| ack_header := hdr; ack_rc := rc |})
  | _ => Err BadArgument
  end.

Definition unpack_triedb_join (junk : Z) (raw : list Z) (off : Z) (hdr : header)
    (len : Z) : res triedb_request := unpack_triedb_ack junk raw off hdr len.

Definition unpack_handler : Type := Z → list Z → Z → header → Z → res triedb_request.

Definition unpack_handlers : list (option unpack_handler) :=
  [None; Some unpack_triedb_put; Some unpack_triedb_get; Some unpack_triedb_get;
   None; None; None; None; None; None; None; None; None;
   Some unpack_triedb_ack; Some unpack_triedb_ack; Some unpack_triedb_join].

(** The handlers return [len], which becomes the [int] result. *)
Definition unpack_triedb_request (junk : Z) (raw : list Z) (off opcode len : Z)
  : res (triedb_request * Z) :=
  let header := opcode in
  h ← aget unpack_handlers (bits_opcode header);
  h ← deref h;
  pkt ← h junk raw off header len;
  mret (pkt, s32 len).

(** [triedb_request_destroy]: [key] and [pkt] are the addresses of the blocks. *)
Definition triedb_request_destroy (m : mem) (hdr : header) (key : option Z) (pkt : Z)
  : res mem :=
  let op := bits_opcode hdr in
  m ← (if (op =? opcode_val PUT) || (op =? opcode_val GET) || (op =? opcode_val DEL)
       then tfree m key else Ok m);
  tfree m (Some pkt).

(** ** Responses *)

Definition ack_response (byte rc : Z) : triedb_response := AckRes (u8 byte) (u8 rc).
Definition cnt_response (byte val : Z) : triedb_response := CntRes (u8 byte) (u64 val).

Definition SIZEOF_TUPLE : Z := 24.

(** The loop that fills the array of tuples from the vector: index [i], [n]
    rounds to go. *)
Fixpoint fill_tuples (n : nat) (v : Vector (kv_obj db_item)) (i : Z)
  : res (list tuple) :=
  match n with
  | O => Ok []
  | S n =>
      x ← vector_get v i;
      kv ← deref x;
      let item := kv_data kv in
      val ← deref (idata item);
      let t := {| tu_ttl := ttl item; tu_keylen := u16 (strlen (kv_key kv));
                  tu_key := kv_key kv; tu_val := val |} in
      ts ← fill_tuples n v (i + 1);
      mret (t :: ts)
  end.

Definition response_tuples (v : Vector (kv_obj db_item)) : res (Z * list tuple) :=
  let tuples_len := u16 (vsize v) in
  _ ← cassert (u64 (vsize v * SIZEOF_TUPLE) >? 0);
  tuples ← fill_tuples (Z.to_nat (vector_size v)) v 0;
  mret (tuples_len, tuples).

(** The argument is a vector for a prefix request, else a tuple. *)
Definition get_response (byte : Z) (arg : Vector (kv_obj db_item) + tuple)
  : res triedb_response :=
  let byte := u8 byte in
  match bits_prefix byte =? 1, arg with
  | true, inl v =>
      '(n, ts) ← response_tuples v; mret (GetPrefixRes byte n ts)
  | false, inr t => mret (GetRes byte t)
  | _, _ => Err BadArgument
  end.

Definition join_response (byte : Z) (v : Vector (kv_obj db_item)) : res triedb_response :=
  '(n, ts) ← response_tuples v; mret (JoinRes (u8 byte) n ts).

(** ** Serialisation of responses *)

Definition pack_buf (raw : list Z) (off : Z) (fmt : list Z) (ap : list varg)
  : res (list Z) := '(raw, _) ← pack raw off fmt ap; mret raw.

Definition new_block (junk size : Z) : res (list Z) :=
  b ← tmalloc_block junk size; deref b.

Definition pack_response_ack (junk byte rc : Z) : res (list Z) :=
  raw ← new_block junk 3;
  pack_buf raw 0 (str "BBB") [AInt byte; AInt 1; AInt rc].

Definition pack_response_cnt (junk byte val : Z) : res (list Z) :=
  raw ← new_block junk 10;
  pack_buf raw 0 (str "BBQ") [AInt byte; AInt 8; AInt val].

(** The size of the body: [sizeof(unsigned short)] and, for each tuple, its key,
    value, time to live and two lengths. *)
Definition tuple_len (t : tuple) : Z := tu_keylen t + strlen (tu_val t) + 4 + 2 * 2.

Fixpoint tuples_length (length : Z) (ts : list tuple) : Z :=
  match ts with [] => length | t :: ts => tuples_length (u64 (length + tuple_len t)) ts end.

(** The loop that packs the tuples at [p + pos]. *)
Fixpoint pack_tuples (raw : list Z) (p pos : Z) (ts : list tuple) : res (list Z) :=
  match ts with
  | [] => Ok raw
  | t :: ts =>
      raw ← pack_buf raw (p + pos) (str "iHsHs")
              [AInt (tu_ttl t); AInt (tu_keylen t); AStr (tu_key t);
               AInt (strlen (tu_val t)); AStr (tu_val t)];
      pos ← int_chk (pos + tuple_len t);
      pack_tuples raw p pos ts
  end.

(** The body that the prefix form of [pack_response_get] and
    [pack_response_join] share; the loops run over [tuples_len] elements of the
    array. *)
Definition pack_response_tuples (junk byte tuples_len : Z) (tuples : list tuple)
  : res (list Z) :=
  if Z.of_nat (length tuples) <? tuples_len then Err OutOfBounds
  else
    let ts := take (Z.to_nat tuples_len) tuples in
    let length := tuples_length 2 ts in
    raw ← new_block junk (u64 (length + 2));
    raw ← pack_buf raw 0 (str "B") [AInt byte];
    '(raw, steps) ← encode_length raw 1 length;
    raw ← pack_buf raw (steps + 1) (str "H") [AInt tuples_len];
    pack_tuples raw (3 + steps) 0 ts.

Definition pack_response_get (junk : Z) (r : triedb_response) : res (list Z) :=
  match r with
  | GetPrefixRes byte tuples_len tuples => pack_response_tuples junk byte tuples_len tuples
  | GetRes byte t =>
      let length := u64 (tu_keylen t + strlen (tu_val t) + 4 + 2) in
      raw ← new_block junk (u64 (length + 2));
      raw ← pack_buf raw 0 (str "B") [AInt byte];
      '(raw, steps) ← encode_length raw 1 length;
      pack_buf raw (steps + 1) (str "iHss")
        [AInt (tu_ttl t); AInt (tu_keylen t); AStr (tu_key t); AStr (tu_val t)]
  | _ => Err BadArgument
  end.

Definition pack_response_join (junk : Z) (r : triedb_response) : res (list Z) :=
  match r with
  | JoinRes byte tuples_len tuples => pack_response_tuples junk byte tuples_len tuples
  | _ => Err BadArgument
  end.

(** [pack_ack] and [pack_cnt] pack into a local array and copy it. *)
Definition pack_ack (junk : Z) (m : mem) (ptr byte rc : Z) : res (mem * (Z * list Z)) :=
  raw ← pack_buf (replicate 3 junk) 0 (str "BBB") [AInt byte; AInt 1; AInt rc];
  bstring_copy m ptr raw 3.

Definition pack_cnt (junk : Z) (m : mem) (ptr byte val : Z) : res (mem * (Z * list Z)) :=
  raw ← pack_buf (replicate 10 junk) 0 (str "BBQ") [AInt byte; AInt 8; AInt val];
  bstring_copy m ptr raw 10.

(** [struct informations]. *)
Record informations := mkInformations {
  nclients : Z; nconnections : Z; nnodes : Z; start_time : Z; uptime : Z; nrequests : Z;
  bytes_recv : Z; bytes_sent : Z; nkeys : Z
}.

Definition pack_info (m : mem) (ptr : Z) (conf : config) (infos : informations)
  : res (mem * (Z * list Z)) :=
  let vlen := strlen (version conf) in
  let llen := strlen (logpath conf) in
  let hlen := strlen (hostname conf) in
  let plen := strlen (port conf) in
  let size := u64 (vlen + 1 + llen + 1 + hlen + 1 + plen + 1
                   + 1 + 1 + 1 + 8 + 8 + 8 + 4 + 4 + 4 + 8 + 8 + 4 + 8 + 8 + 8) in
  '(m, (ptr, raw)) ← bstring_empty m ptr (u64 (size + 1));
  raw ← pack_buf raw 0 (str "BIIQQIQQQBBBQQQiBsBsBsBs")
    [AInt 0xd0;
     AInt (nclients infos); AInt (nconnections infos); AInt (start_time infos);
     AInt (uptime infos); AInt (nrequests infos); AInt (bytes_recv infos);
     AInt (bytes_sent infos); AInt (nkeys infos);
     AInt (mode conf); AInt (loglevel conf); AInt (socket_family conf);
     AInt (max_memory conf); AInt (mem_reclaim_time conf);
     AInt (max_request_size conf); AInt (tcp_backlog conf);
     AInt vlen; AStr (version conf); AInt llen; AStr (logpath conf);
     AInt hlen; AStr (hostname conf); AInt plen; AStr (port conf)];
  mret (m, (ptr, raw)).

(** The union is read with the member that the handler of the type expects; a
    response built for another one is a [BadArgument]. *)
Definition as_ack (junk : Z) (r : triedb_response) : res (list Z) :=
  match r with AckRes b rc => pack_response_ack junk b rc | _ => Err BadArgument end.
Definition as_cnt (junk : Z) (r : triedb_response) : res (list Z) :=
  match r with CntRes b v => pack_response_cnt junk b v | _ => Err BadArgument end.

Definition pack_handlers : list (option (Z → triedb_response → res (list Z))) :=
  [None; Some as_ack; Some pack_response_get; Some as_ack; Some as_ack; Some as_ack;
   Some as_ack; Some as_cnt; None; None; None; None; None; None; Some pack_response_join].

Definition pack_response (junk : Z) (res : triedb_response) (type : Z) : Prelude.res (list Z) :=
  h ← aget pack_handlers type;
  h ← deref h;
  h junk res.

(** ** Specification *)

(** The remaining length in at most [n] bytes, least significant first, the top
    bit set where more follow. *)
Fixpoint len_bytes (n : nat) (len : Z) : list Z :=
  match n with
  | O => []
  | S n => if len / 128 >? 0 then (len mod 128 + 128) :: len_bytes n (len / 128)
           else [len mod 128]
  end.

(** A tuple as the handlers make it. *)
Record tuple_ok (t : tuple) : Prop := {
  to_ttl : -2 ^ 31 <= tu_ttl t < 2 ^ 31;
  to_keylen : tu_keylen t = strlen (tu_key t);
  to_key : strlen (tu_key t) < 2 ^ 16;
  to_val : strlen (tu_val t) < 2 ^ 16
}.

Definition tuple_items (t : tuple) : list item :=
  [I32 (tu_ttl t); U16 (tu_keylen t); Str (tu_key t); U16 (strlen (tu_val t)); Str (tu_val t)].

Definition single_items (t : tuple) : list item :=
  [I32 (tu_ttl t); U16 (tu_keylen t); Str (tu_key t); Str (tu_val t)].

(** A packet: header byte, remaining length, body. *)
Definition packet (byte : Z) (body : list Z) : list Z :=
  byte :: len_bytes 4 (Z.of_nat (length body)) ++ body.

Definition prefix_body (ts : list tuple) : list Z :=
  be_bytes 2 (Z.of_nat (length ts)) ++ (ts ≫= λ t, items_bytes (tuple_items t)).

(** ** Remaining length *)

Lemma byte_cases (P : Z → Prop) `{∀ z, Decision (P z)} :
  bool_decide (Forall P (seqZ 0 256)) = true → ∀ b, is_byte b → P b.
Proof.
  intros E b Hb. rewrite bool_decide_eq_true, Forall_seqZ in E. unfold is_byte in Hb.
  apply E. lia.
Qed.

Lemma len_digit b :
  is_byte b → Z.land (s8 b) 127 = b mod 128 ∧ (Z.land (s8 b) 128 =? 0) = (b <? 128).
Proof.
  revert b. apply (byte_cases (λ b, Z.land (s8 b) 127 = b mod 128
    ∧ (Z.land (s8 b) 128 =? 0) = (b <? 128))). vm_compute. reflexivity.
Qed.

Lemma len_digit_more x :
  0 <= x < 128 → u8 (s8 (Z.lor (s8 x) 0x80)) = x + 128 ∧ u8 (s8 x) = x.
Proof.
  intros Hx. assert (is_byte x) as Hb by (unfold is_byte; lia). revert x Hb Hx.
  apply (byte_cases (λ x, 0 <= x < 128 → u8 (s8 (Z.lor (s8 x) 0x80)) = x + 128 ∧ u8 (s8 x) = x)). vm_compute. reflexivity.
Qed.

Lemma len_bytes_nonempty n len : len_bytes (S n) len ≠ [].
Proof. cbn. by case_if. Qed.

Lemma len_bytes_length n len : (length (len_bytes n len) <= n)%nat.
Proof.
  revert len. induction n as [|n IH]; intros len; cbn; [lia|].
  case_if; cbn; [|lia]. specialize (IH (len / 128)). lia.
Qed.

(** The loop is a sequence of byte stores. *)
Lemma encode_length_loop_spec k fuel buf off len bytes :
  0 <= len → bytes = 4 - Z.of_nat k → (k < fuel)%nat → (k <= 4)%nat →
  encode_length_loop fuel buf off len bytes =
    (buf' ← stores buf (off + bytes) (len_bytes k len);
     Ok (buf', bytes + Z.of_nat (length (len_bytes k len)))).
Proof.
  revert fuel buf len bytes. induction k as [|k IH]; intros fuel buf len bytes Hlen -> Hf Hk;
    (destruct fuel as [|fuel]; [lia|]); cbn [encode_length_loop len_bytes]; unfold MAX_LEN_BYTES.
  { rewrite Z.gtb_ltb. destruct (Z.ltb_spec 4 (4 - Z.of_nat 0 + 1)); [|lia].
    cbn [stores mbind res_bind length]. by rewrite Z.add_0_r. }
  rewrite Z.gtb_ltb. destruct (Z.ltb_spec 4 (4 - Z.of_nat (S k) + 1)); [lia|].
  destruct (len_digit_more (len mod 128)) as [Hm Hd]; [zdiv_lia|].
  destruct (len / 128 >? 0) eqn:E.
  - rewrite Hm. cbn [stores]. rewrite res_bind_assoc.
    destruct (aset buf _ _) as [buf'|]; [|done]. cbn [mbind res_bind].
    rewrite IH; [|zdiv_lia|lia..]. cbn [length].
    replace (off + (4 - Z.of_nat (S k) + 1)) with (off + (4 - Z.of_nat (S k)) + 1) by lia.
    destruct (stores buf' _ _); [|done]. cbn [mbind res_bind]. do 2 f_equal. lia.
  - rewrite Hd. cbn [stores]. rewrite res_bind_assoc. by destruct (aset buf _ _).
Qed.

Lemma encode_length_spec buf off len :
  0 <= len →
  encode_length buf off len =
    (buf' ← stores buf off (len_bytes 4 len);
     Ok (buf', Z.of_nat (length (len_bytes 4 len)))).
Proof.
  intros. unfold encode_length. rewrite (encode_length_loop_spec 4) by (done || lia).
  replace (off + 0) with off by lia. by destruct (stores _ _ _).
Qed.

Lemma decode_length_loop_spec k fuel l1 l2 len value pos mult :
  0 <= len < 128 ^ Z.of_nat k → (1 <= k <= 4)%nat → (k <= fuel)%nat →
  mult = 128 ^ (4 - Z.of_nat k) → 0 <= value < mult → 0 <= pos <= 4 - Z.of_nat k →
  decode_length_loop fuel (l1 ++ len_bytes k len ++ l2) (Z.of_nat (length l1)) mult value pos
    = Ok (value + len * mult, pos + Z.of_nat (length (len_bytes k len))).
Proof.
  revert fuel l1 len value pos mult.
  induction k as [|k IH]; intros fuel l1 len value pos mult Hlen Hk Hf Hm Hv Hp; [lia|].
  destruct fuel as [|fuel]; [lia|].
  assert (mult * 128 = 128 ^ (4 - Z.of_nat k)) as Hm128.
  { rewrite Hm, Z.mul_comm, <-Z.pow_succ_r by lia. f_equal. lia. }
  assert (128 ^ (4 - Z.of_nat k) <= 128 ^ 4) by (apply Z.pow_le_mono_r; lia).
  rewrite Nat2Z.inj_succ, Z.pow_succ_r in Hlen by lia.
  cbn [len_bytes decode_length_loop].
  destruct (len / 128 >? 0) eqn:E; zbool.
  - cbn [app]. rewrite aget_middle by done. cbn [mbind res_bind].
    destruct (len_digit (len mod 128 + 128)) as [-> ->]; [unfold is_byte; zdiv_lia|].
    replace ((len mod 128 + 128) mod 128) with (len mod 128) by zdiv_lia.
    assert (0 <= len mod 128 < 128) by zdiv_lia.
    rewrite int_chk_Ok by (unfold INT_MIN, INT_MAX; nia). cbn [mbind res_bind].
    rewrite int_chk_Ok by (unfold INT_MIN, INT_MAX; nia). cbn [mbind res_bind].
    destruct (Z.ltb_spec (len mod 128 + 128) 128); [lia|].
    rewrite u64_small, u32_small by nia.
    assert (1 <= k)%nat by (destruct k; [cbn in Hlen; zdiv_lia|lia]).
    specialize (IH fuel (l1 ++ [len mod 128 + 128]) (len / 128)
      (value + len mod 128 * mult) (pos + 1) (mult * 128)).
    rewrite <-(assoc_L (++)), length_app in IH. cbn [app length] in IH.
    replace (Z.of_nat (length l1) + 1) with (Z.of_nat (length l1 + 1)) by lia.
    rewrite IH; [|zdiv_lia|lia..|nia|lia]. cbn [length]. f_equal. f_equal; [|lia].
    rewrite (Z.div_mod len 128) at 3 by lia. ring.
  - cbn [app]. rewrite aget_middle by done. cbn [mbind res_bind].
    destruct (len_digit (len mod 128)) as [-> ->]; [unfold is_byte; zdiv_lia|].
    rewrite Zmod_mod. assert (len mod 128 = len) as -> by zdiv_lia.
    assert (0 <= len < 128) by zdiv_lia.
    rewrite int_chk_Ok by (unfold INT_MIN, INT_MAX; nia). cbn [mbind res_bind].
    rewrite int_chk_Ok by (unfold INT_MIN, INT_MAX; nia). cbn [mbind res_bind].
    destruct (Z.ltb_spec len 128); [|lia]. by rewrite u64_small, u32_small by nia.
Qed.

(** ** Response packets *)

Lemma new_block_ok junk n :
  0 < n → n + 8 <= PTRDIFF_MAX → new_block junk n = Ok (replicate (Z.to_nat n) junk).
Proof.
  unfold new_block, tmalloc_block, SIZEOF_SIZE_T, PTRDIFF_MAX. intros H1 H2.
  rewrite (Z.gtb_ltb n 0), (proj2 (Z.ltb_lt 0 n)) by lia. cbn [cassert mbind res_bind].
  rewrite u64_small, Z.gtb_ltb by lia.
  rewrite (proj2 (Z.ltb_ge (2 ^ 63 - 1) (n + 8))), (proj2 (Z.ltb_ge (n + 8) 8)) by lia.
  cbn [mbind res_bind deref]. by rewrite Z.add_simpl_r.
Qed.

Lemma pack_buf_stores its fmt ap buf off :
  fmt = items_fmt its → ap = items_args its → Forall item_ok its →
  pack_buf buf off fmt ap = stores buf off (items_bytes its).
Proof.
  intros -> -> Hok. unfold pack_buf. rewrite pack_stores by done.
  by destruct (stores _ _ _).
Qed.

(** The header byte, the remaining length and the body, stored in turn. *)
Lemma packet_stores byte body buf (k : list Z → Z → res (list Z)) :
  is_byte byte →
  (∀ raw steps, k raw steps = stores raw (steps + 1) body) →
  (raw ← pack_buf buf 0 (str "B") [AInt byte];
   '(raw, steps) ← encode_length raw 1 (Z.of_nat (length body));
   k raw steps) = stores buf 0 (packet byte body).
Proof.
  intros Hb Hk. unfold packet. set (lb := len_bytes 4 _).
  change (byte :: lb ++ body) with ([byte] ++ lb ++ body).
  rewrite (pack_buf_stores [U8 byte]); [|done|done|by constructor].
  rewrite (stores_app buf).
  replace (items_bytes [U8 byte]) with [byte]
    by (cbn; by rewrite Z.mod_small).
  destruct (stores buf 0 [byte]) as [raw|]; [|done]. cbn [mbind res_bind].
  rewrite encode_length_spec, stores_app by lia. fold lb.
  change (0 + Z.of_nat (length [byte])) with 1.
  destruct (stores raw 1 lb) as [raw'|]; [|done]. cbn [mbind res_bind].
  rewrite Hk. f_equal. lia.
Qed.

Lemma tuple_items_ok t : tuple_ok t → Forall item_ok (tuple_items t).
Proof.
  intros [? Hk ? ?]. pose proof (strlen_nonneg (tu_key t)).
  pose proof (strlen_nonneg (tu_val t)).
  repeat constructor; cbn [item_ok]; rewrite ?Hk; lia.
Qed.

Lemma single_items_ok t : tuple_ok t → Forall item_ok (single_items t).
Proof.
  intros [? Hk ? ?]. pose proof (strlen_nonneg (tu_key t)).
  pose proof (strlen_nonneg (tu_val t)).
  repeat constructor; cbn [item_ok]; rewrite ?Hk; lia.
Qed.

Lemma tuple_items_length t :
  tuple_ok t → Z.of_nat (length (items_bytes (tuple_items t))) = tuple_len t.
Proof.
  intros [_ Hk _ _]. unfold tuple_len. rewrite Hk. unfold items_bytes, strlen.
  cbn [tuple_items mbind list_bind item_bytes]. rewrite !length_app, !be_bytes_length.
  cbn [length]. lia.
Qed.

Lemma single_items_length t :
  tuple_ok t →
  Z.of_nat (length (items_bytes (single_items t))) = tu_keylen t + strlen (tu_val t) + 4 + 2.
Proof.
  intros [_ Hk _ _]. rewrite Hk. unfold items_bytes, strlen.
  cbn [single_items mbind list_bind item_bytes]. rewrite !length_app, !be_bytes_length.
  cbn [length]. lia.
Qed.

Lemma tuple_len_bound t : tuple_ok t → 8 <= tuple_len t < 2 ^ 18.
Proof.
  intros [_ Hk ? ?]. unfold tuple_len. rewrite Hk.
  pose proof (strlen_nonneg (tu_key t)). pose proof (strlen_nonneg (tu_val t)). lia.
Qed.

Definition tuples_bytes (ts : list tuple) : list Z := ts ≫= λ t, items_bytes (tuple_items t).

Lemma tuples_bytes_length ts :
  Forall tuple_ok ts → Z.of_nat (length (tuples_bytes ts)) <= Z.of_nat (length ts) * 2 ^ 18.
Proof.
  induction 1 as [|t ts Ht Hts IH]; [done|]. unfold tuples_bytes in *.
  cbn [mbind list_bind]. rewrite length_app, Nat2Z.inj_add, tuple_items_length by done.
  pose proof (tuple_len_bound t Ht). rewrite length_cons. lia.
Qed.

Lemma tuples_length_spec ts n :
  Forall tuple_ok ts → 0 <= n → n + Z.of_nat (length (tuples_bytes ts)) < 2 ^ 64 →
  tuples_length n ts = n + Z.of_nat (length (tuples_bytes ts)).
Proof.
  intros Hts. revert n. induction Hts as [|t ts Ht Hts IH]; intros n H0 Hn; cbn [tuples_length].
  { cbn. lia. }
  unfold tuples_bytes in *. cbn [mbind list_bind] in *.
  rewrite length_app, Nat2Z.inj_add, tuple_items_length in * by done.
  pose proof (tuple_len_bound t Ht). rewrite u64_small by lia. rewrite IH by lia. lia.
Qed.

Lemma pack_tuples_spec ts raw p pos :
  Forall tuple_ok ts → 0 <= pos → pos + Z.of_nat (length (tuples_bytes ts)) <= INT_MAX →
  pack_tuples raw p pos ts = stores raw (p + pos) (tuples_bytes ts).
Proof.
  intros Hts. revert raw pos. induction Hts as [|t ts Ht Hts IH]; intros raw pos H0 Hp.
  { done. }
  unfold tuples_bytes in *. cbn [mbind list_bind pack_tuples] in *.
  rewrite length_app, Nat2Z.inj_add, tuple_items_length in Hp by done.
  pose proof (tuple_len_bound t Ht).
  rewrite (pack_buf_stores (tuple_items t)), stores_app by (done || by apply tuple_items_ok).
  destruct (stores raw _ (items_bytes (tuple_items t))) as [raw'|]; [|done].
  cbn [mbind res_bind]. rewrite int_chk_Ok by (unfold INT_MIN; lia). cbn [mbind res_bind].
  rewrite IH by lia. rewrite tuple_items_length by done. f_equal. lia.
Qed.

(** What the stores of a packet do to a block with two bytes more than the body. *)
Lemma packet_block junk byte body :
  stores (replicate (length body + 2) junk) 0 (packet byte body) =
    if decide (Z.of_nat (length body) < 128) then Ok (packet byte body) else Err OutOfBounds.
Proof.
  set (n := length body). pose proof (len_bytes_nonempty 3 (Z.of_nat n)) as Hne.
  assert (length (packet byte body) = 1 + length (len_bytes 4 (Z.of_nat n)) + n)%nat as Hl.
  { unfold packet. cbn [length]. rewrite length_app. fold n. lia. }
  case_decide.
  - assert (length (packet byte body) = n + 2)%nat as Hl2.
    { rewrite Hl. cbn [len_bytes]. rewrite Z.gtb_ltb.
      destruct (Z.ltb_spec 0 (Z.of_nat n / 128)); [zdiv_lia|]. cbn. lia. }
    rewrite stores_fits by (rewrite ?length_replicate; lia). f_equal. unfold splice.
    cbn [Z.to_nat take app]. rewrite drop_ge by (rewrite length_replicate; lia).
    apply app_nil_r.
  - assert (n + 2 < length (packet byte body))%nat.
    { rewrite Hl. cbn [len_bytes]. rewrite Z.gtb_ltb.
      destruct (Z.ltb_spec 0 (Z.of_nat n / 128)); [|zdiv_lia]. cbn [length].
      destruct (_ >? 0); cbn [length]; lia. }
    rewrite stores_overflow; [done|lia|done|rewrite length_replicate; lia].
Qed.

Lemma pack_single_spec junk byte t :
  is_byte byte → tuple_ok t →
  pack_response_get junk (GetRes byte t) =
    stores (replicate (length (items_bytes (single_items t)) + 2) junk) 0
      (packet byte (items_bytes (single_items t))).
Proof.
  intros Hb Ht. pose proof (single_items_length t Ht) as Hl. destruct (Ht) as [_ Hk ? ?].
  pose proof (strlen_nonneg (tu_key t)). pose proof (strlen_nonneg (tu_val t)).
  cbn [pack_response_get]. rewrite <-Hl in *. set (body := items_bytes _) in *.
  rewrite (u64_small (Z.of_nat (length body))) by lia.
  rewrite u64_small, new_block_ok by (unfold PTRDIFF_MAX; lia). cbn [mbind res_bind].
  replace (Z.to_nat (Z.of_nat (length body) + 2)) with (length body + 2)%nat by lia.
  apply packet_stores; [done|]. intros raw steps.
  by apply (pack_buf_stores (single_items t)); [..|apply single_items_ok].
Qed.

Lemma pack_prefix_spec junk byte ts :
  is_byte byte → Forall tuple_ok ts → Z.of_nat (length ts) < 2 ^ 16 →
  Z.of_nat (length (tuples_bytes ts)) <= INT_MAX →
  pack_response_tuples junk byte (Z.of_nat (length ts)) ts =
    stores (replicate (length (prefix_body ts) + 2) junk) 0 (packet byte (prefix_body ts)).
Proof.
  intros Hb Hts Hn Hmax. unfold pack_response_tuples.
  destruct (Z.ltb_spec (Z.of_nat (length ts)) (Z.of_nat (length ts))); [lia|].
  rewrite Nat2Z.id, take_ge by done. unfold INT_MAX in *.
  rewrite tuples_length_spec by (done || lia).
  assert (2 + Z.of_nat (length (tuples_bytes ts)) = Z.of_nat (length (prefix_body ts))) as E.
  { unfold prefix_body. rewrite length_app, be_bytes_length. fold (tuples_bytes ts). lia. }
  rewrite u64_small, new_block_ok by (unfold PTRDIFF_MAX; lia). cbn [mbind res_bind].
  rewrite E. replace (Z.to_nat (Z.of_nat (length (prefix_body ts)) + 2))
    with (length (prefix_body ts) + 2)%nat by lia.
  apply packet_stores; [done|]. intros raw steps.
  rewrite (pack_buf_stores [U16 (Z.of_nat (length ts))]); [|done|done|constructor; [cbn; lia|done]].
  unfold prefix_body. rewrite stores_app. cbn [items_bytes mbind list_bind item_bytes].
  rewrite app_nil_r. destruct (stores raw _ (be_bytes 2 _)) as [raw'|]; [|done].
  cbn [mbind res_bind]. rewrite pack_tuples_spec by (done || unfold INT_MAX; lia).
  rewrite be_bytes_length. f_equal. lia.
Qed.

Lemma decode_length_app l1 len l2 off :
  0 <= len < 2 ^ 28 → off = Z.of_nat (length l1) →
  decode_length (l1 ++ len_bytes 4 len ++ l2) off
    = Ok (len, Z.of_nat (length (len_bytes 4 len))).
Proof.
  intros Hlen ->. unfold decode_length. rewrite (decode_length_loop_spec 4) by (done || lia).
  do 2 f_equal. lia.
Qed.

Lemma aget_byte buf i :
  bytes buf → match aget buf i with Ok b => is_byte b | Err f => f = OutOfBounds end.
Proof.
  intros Hb. unfold aget. case_if; [done|]. destruct (buf !! Z.to_nat i) eqn:El; [|done].
  by eapply Forall_lookup_1 in El.
Qed.

Lemma decode_length_loop_bounded k buf off value mult pos :
  bytes buf → (k <= 4)%nat → mult = 128 ^ (4 - Z.of_nat k) → 0 <= value < mult →
  pos = 4 - Z.of_nat k →
  match decode_length_loop (S k) buf off mult value pos with
  | Ok (v, pos') => 0 <= v < 2 ^ 28 ∧ 1 <= pos' <= 4
  | Err f => f = OutOfBounds ∨ f = SignedOverflow
  end.
Proof.
  intros Hb. revert off value mult pos.
  induction k as [|k IH]; intros off value mult pos Hk Hm Hv Hp.
  all: set (fuel := S _) in |- *; cbn [decode_length_loop fuel]; subst fuel.
  all: pose proof (aget_byte buf off Hb) as Hget.
  all: destruct (aget buf off) as [b|f]; [|by left]; cbn [mbind res_bind].
  all: destruct (len_digit b Hget) as [-> ->].
  all: assert (0 <= b mod 128 < 128) by zdiv_lia.
  all: destruct (int_chk_cases (b mod 128 * mult)) as [[-> _]| ->]; [|by right].
  all: cbn [mbind res_bind].
  - rewrite (int_chk_over (mult * 128)) by (rewrite Hm; unfold INT_MAX; cbn; lia). by right.
  - assert (mult * 128 = 128 ^ (4 - Z.of_nat k)) as Hm128.
    { rewrite Hm, Z.mul_comm, <-Z.pow_succ_r by lia. f_equal. lia. }
    assert (128 ^ (4 - Z.of_nat k) <= 128 ^ 4) by (apply Z.pow_le_mono_r; lia).
    rewrite int_chk_Ok by (unfold INT_MIN, INT_MAX; lia). cbn [mbind res_bind].
    rewrite u64_small, u32_small by nia.
    destruct (b <? 128); [split; [nia|lia]|]. apply IH; [lia|done|nia|lia].
Qed.

(** ** Properties *)

(** C17 encode_length and decode_length are inverse for every length below 2^28:
    one to four bytes are written, and reading them back gives the length and
    the number of bytes. *)
Theorem length_roundtrip (buf : list Z) (off len : Z) :
  0 <= len < 2 ^ 28 → 0 <= off → off + 4 <= Z.of_nat (length buf) →
  ∃ buf' steps, encode_length buf off len = Ok (buf', steps) ∧ 1 <= steps <= 4 ∧
    decode_length buf' off = Ok (len, steps).
Proof.
  intros Hlen Hoff Hfit. pose proof (len_bytes_length 4 len) as Hl.
  pose proof (len_bytes_nonempty 3 len) as Hne.
  rewrite encode_length_spec, stores_fits by lia. cbn [mbind res_bind].
  eexists _, _. split_and!; [done|destruct (len_bytes 4 len); [done|cbn; lia]|lia|].
  apply decode_length_app; [done|]. rewrite length_take. lia.
Qed.

Lemma length_roundtrip_witness :
  ∃ buf' steps, encode_length (replicate 6 0) 1 300 = Ok (buf', steps) ∧ 1 <= steps <= 4 ∧
    decode_length buf' 1 = Ok (300, steps).
Proof. apply (length_roundtrip (replicate 6 0) 1 300); cbn; lia. Defined.

(** Decode_length always stops: on any bytes it returns a length below 2^28
    read from one to four bytes, or it leaves the buffer, or, when four bytes
    with the continuation bit are followed by a fifth, its multiplier
    overflows. *)
Theorem decode_length_bounded (buf : list Z) (off : Z) :
  bytes buf →
  match decode_length buf off with
  | Ok (v, pos) => 0 <= v < 2 ^ 28 ∧ 1 <= pos <= 4
  | Err f => f = OutOfBounds ∨ f = SignedOverflow
  end.
Proof.
  intros Hb. by apply (decode_length_loop_bounded 4).
Qed.

Lemma decode_length_bounded_witness :
  match decode_length [0x80; 0x80; 0x80; 0x80; 1] 0 with
  | Ok (v, pos) => 0 <= v < 2 ^ 28 ∧ 1 <= pos <= 4
  | Err f => f = OutOfBounds ∨ f = SignedOverflow
  end.
Proof.
  apply (decode_length_bounded [0x80; 0x80; 0x80; 0x80; 1] 0).
  repeat constructor; lia.
Defined.

(** The response to GET is the packet of its tuple, header byte, remaining
    length and body, when the body is shorter than 128 bytes; from 128 bytes on
    the remaining length takes a second byte, for which the block of
    length + 2 bytes has no room, and the last store is out of bounds. *)
Theorem pack_response_get_single (junk byte : Z) (t : tuple) :
  is_byte byte → tuple_ok t →
  pack_response_get junk (GetRes byte t) =
    if decide (tu_keylen t + strlen (tu_val t) + 6 < 128)
    then Ok (packet byte (items_bytes (single_items t))) else Err OutOfBounds.
Proof.
  intros Hb Ht. rewrite pack_single_spec, packet_block by done.
  pose proof (single_items_length t Ht). repeat case_decide; done || lia.
Qed.

Lemma pack_response_get_single_witness :
  pack_response_get 0 (GetRes 32 (mkTuple (-1) 3 (str "key") (str "value")))
  = Ok ([32; 14; 255; 255; 255; 255; 0; 3] ++ str "keyvalue").
Proof.
  apply (pack_response_get_single 0 32 (mkTuple (-1) 3 (str "key") (str "value")));
    [unfold is_byte; lia|split; cbn; lia || done].
Defined.

(** C34 the response to a GET or JOIN on a prefix is the packet with the number of
    tuples and the tuples in order, with the same bound: below 128 bytes of body
    it is complete, above it runs out of its block. *)
Theorem pack_response_prefix (junk byte : Z) (ts : list tuple) :
  is_byte byte → Forall tuple_ok ts → Z.of_nat (length ts) < 2 ^ 13 →
  (pack_response_get junk (GetPrefixRes byte (Z.of_nat (length ts)) ts) =
     if decide (Z.of_nat (length (prefix_body ts)) < 128)
     then Ok (packet byte (prefix_body ts)) else Err OutOfBounds) ∧
  pack_response_join junk (JoinRes byte (Z.of_nat (length ts)) ts) =
    pack_response_get junk (GetPrefixRes byte (Z.of_nat (length ts)) ts).
Proof.
  intros Hb Hts Hn. split; [|done]. cbn [pack_response_get].
  pose proof (tuples_bytes_length ts Hts).
  rewrite pack_prefix_spec, packet_block by (done || unfold INT_MAX; lia). done.
Qed.

Lemma pack_response_prefix_witness :
  pack_response_get 0 (GetPrefixRes 40 1 [mkTuple 7 1 (str "k") (str "v")])
    = Ok [40; 12; 0; 1; 0; 0; 0; 7; 0; 1; 107; 0; 1; 118] ∧
  pack_response_join 0 (JoinRes 40 1 [mkTuple 7 1 (str "k") (str "v")]) =
    pack_response_get 0 (GetPrefixRes 40 1 [mkTuple 7 1 (str "k") (str "v")]).
Proof.
  apply (pack_response_prefix 0 40 [mkTuple 7 1 (str "k") (str "v")]);
    [unfold is_byte; lia|repeat constructor; cbn; lia || done|cbn; lia].
Defined.

(** ** Requests *)

Lemma le_fields ttl keylen :
  -2 ^ 31 <= ttl < 2 ^ 31 → 0 <= keylen < 2 ^ 16 →
  store_ttl_keylen [VNum 8 ttl; VNum 4 keylen] = Ok (ttl, keylen).
Proof.
  intros Ht Hk.
  transitivity (Ok (s32 (be_val (be_bytes 4 ttl)), be_val (be_bytes 2 keylen))).
  { reflexivity. }
  rewrite !be_val_bytes. change (256 ^ Z.of_nat 4) with (2 ^ 32).
  change (256 ^ Z.of_nat 2) with (2 ^ 16). rewrite (Z.mod_small keylen) by done.
  do 2 f_equal. unfold s32. zdiv_lia.
Qed.

Lemma tmalloc_block_ok junk n :
  0 < n → n + 8 <= PTRDIFF_MAX →
  tmalloc_block junk n = Ok (Some (replicate (Z.to_nat n) junk)).
Proof.
  intros H1 H2. pose proof (new_block_ok junk n H1 H2) as H. unfold new_block in H.
  destruct (tmalloc_block junk n) as [[b|]|]; cbn in H; congruence.
Qed.

Lemma splice_all (d bs : list Z) : length d = length bs → splice d 0 bs = bs.
Proof. intros H. unfold splice. cbn. rewrite drop_ge by lia. apply app_nil_r. Qed.

Lemma sprintf_d_nonneg n : 0 <= n → sprintf_d n = print_dec n.
Proof. intros. unfold sprintf_d. by destruct (Z.ltb_spec n 0); [lia|]. Qed.

Lemma print_dec_length n (k : nat) :
  0 <= n < 10 ^ Z.of_nat (S k) → strlen (print_dec n) <= Z.of_nat (S k).
Proof.
  intros H. unfold strlen, print_dec. pose proof (digits_length_upper 20 n [] k H). cbn in *. lia.
Qed.

Lemma s64_small z : -2 ^ 63 <= z < 2 ^ 63 → s64 z = z.
Proof. intros. unfold s64. zdiv_lia. Qed.

(** A negative length in the format is read without its sign; a null
    destination is then written to. *)
Lemma unpack_null_second raw off d keylen n :
  0 <= keylen → 0 <= n →
  ∃ f, unpack raw off (print_dec keylen ++ str "s" ++ (45 :: print_dec n) ++ str "s")
         [PStr d; PNull] = Err f.
Proof.
  intros Hk Hn. unfold unpack. change 0 with (u32 0) at 1.
  rewrite unpack_loop_digits by by apply print_dec_Forall.
  set (k := u32 _). clearbody k.
  change (str "s" ++ (45 :: print_dec n) ++ str "s") with ([115; 45] ++ print_dec n ++ [115]).
  assert (∀ off', ∃ f, unpack_loop raw off' (45 :: print_dec n ++ [115]) [PNull] 0 = Err f) as Hrest.
  { intros off'. cbn [unpack_loop Z.eqb Pos.eqb]. change (isdigit 45) with false. cbv iota.
    change 0 with (u32 0). rewrite unpack_loop_digits by by apply print_dec_Forall.
    cbn [unpack_loop Z.eqb Pos.eqb va_dst mbind res_bind]. by eexists. }
  cbn [app]. set (rest := 45 :: _) in *. cbn [unpack_loop Z.eqb Pos.eqb va_dst mbind res_bind].
  destruct (loads raw off _) as [cpy|]; [|by eexists]. cbn [mbind res_bind].
  destruct (stores d 0 cpy) as [d'|]; [|by eexists]. cbn [mbind res_bind].
  destruct (aset d' k 0) as [d''|]; [|by eexists]. cbn [mbind res_bind].
  destruct (Hrest (off + k)) as [f ->]. by eexists.
Qed.

(** The body of a PUT request. *)
Definition put_body (t : Z) (key val : list Z) : list Z :=
  be_bytes 4 t ++ be_bytes 2 (strlen key) ++ key ++ val.

(** A PUT request whose body is time to live, key length, key and value is
    unpacked to these four, key and value followed by a NUL, wherever it lies in
    the buffer. *)
Lemma unpack_put_correct (junk : Z) (l1 l2 : list Z) (h t : Z) (key val : list Z) :
  -2 ^ 31 <= t < 2 ^ 31 → strlen key < 2 ^ 16 → strlen val < 2 ^ 31 →
  unpack_triedb_put junk (l1 ++ put_body t key val ++ l2) (Z.of_nat (length l1)) h
    (Z.of_nat (length (put_body t key val)))
  = Ok (RPut {| put_header := h; put_ttl := t; put_keylen := strlen key;
                put_key := key ++ [0]; put_val := val ++ [0] |}).
Proof.
  intros Ht Hk Hv. pose proof (strlen_nonneg key). pose proof (strlen_nonneg val).
  unfold unpack_triedb_put, put_body.
  pose proof (unpack_items [I32 t; U16 (strlen key)] l1 (key ++ val ++ l2)
    (Z.of_nat (length l1)) [PNum; PNum] eq_refl) as Hu1.
  unfold items_bytes in Hu1. cbn [mbind list_bind item_bytes] in Hu1.
  rewrite app_nil_r in Hu1. rewrite <-!(assoc_L (++)) in *.
  change (items_ufmt [I32 t; U16 (strlen key)]) with (str "iH") in Hu1.
  rewrite Hu1 by (repeat constructor; cbn [item_ok]; lia). cbn [mbind res_bind zip_with item_val].
  rewrite le_fields by lia. cbn [mbind res_bind].
  rewrite !length_app, !be_bytes_length.
  assert (u64 (Z.of_nat (4 + (2 + (length key + length val))) - (4 + 2 + strlen key)) = strlen val)
    as -> by (rewrite u64_small; unfold strlen in *; lia).
  rewrite s64_small, !sprintf_d_nonneg by lia.
  change (print_dec (strlen key) ++ str "s" ++ print_dec (strlen val) ++ str "s")
    with (print_dec (strlen key) ++ [115] ++ print_dec (strlen val) ++ [115]).
  pose proof (print_dec_length (strlen key) 4 ltac:(lia)).
  pose proof (print_dec_length (strlen val) 9 ltac:(lia)).
  unfold sprintf_buf. rewrite !strlen_app. change (strlen [115]) with 1.
  rewrite (proj2 (Z.leb_le _ _)) by lia. cbn [mbind res_bind].
  rewrite u64_small by lia. rewrite !tmalloc_block_ok by (unfold PTRDIFF_MAX; lia).
  cbn [mbind res_bind ptr_arg].
  pose proof (unpack_items [Str key; Str val] (l1 ++ be_bytes 4 t ++ be_bytes 2 (strlen key)) l2
    (Z.of_nat (length l1) + 6)
    [PStr (replicate (Z.to_nat (strlen key + 1)) junk);
     PStr (replicate (Z.to_nat (strlen val + 1)) junk)]) as Hu2.
  unfold items_bytes, items_ufmt in Hu2. cbn [mbind list_bind item_bytes item_ufmt] in Hu2.
  rewrite !app_nil_r in Hu2. rewrite <-!(assoc_L (++)) in Hu2.
  rewrite Hu2; [|rewrite !length_app, !be_bytes_length; lia
               |repeat constructor; cbn [item_ok]; lia
               |repeat constructor; cbn [item_dst]; rewrite length_replicate;
                unfold strlen; lia].
  cbn [mbind res_bind zip_with item_val].
  rewrite !splice_all; [done|..]; rewrite length_replicate, length_app; unfold strlen; cbn; lia.
Qed.

(** A PUT request whose remaining length is smaller than what its key length
    promises never unpacks: the subtraction wraps around, and the allocation of
    the value, or the copy into it, is undefined. *)
Theorem unpack_put_short (junk : Z) (raw : list Z) (off h len t keylen : Z) :
  unpack raw off (str "iH") [PNum; PNum] = Ok [VNum 8 t; VNum 4 keylen] →
  -2 ^ 31 <= t < 2 ^ 31 → 0 <= keylen < 2 ^ 16 → 0 <= len < 6 + keylen →
  ∃ f, unpack_triedb_put junk raw off h len = Err f.
Proof.
  intros Hu Ht Hk Hlen. unfold unpack_triedb_put. rewrite Hu. cbn [mbind res_bind].
  rewrite le_fields by done. cbn [mbind res_bind].
  set (n := 6 + keylen - len).
  assert (u64 (len - (4 + 2 + keylen)) = 2 ^ 64 - n) as -> by (unfold u64, n; zdiv_lia).
  assert (s64 (2 ^ 64 - n) = - n) as -> by (unfold s64, n; zdiv_lia).
  rewrite (sprintf_d_nonneg keylen) by lia.
  assert (sprintf_d (- n) = 45 :: print_dec n) as ->.
  { unfold sprintf_d. destruct (Z.ltb_spec (- n) 0); [|lia]. by rewrite Z.opp_involutive. }
  unfold sprintf_buf. destruct (_ <=? 32); [|by eexists]. cbn [mbind res_bind].
  rewrite (tmalloc_block_ok junk (keylen + 1)) by (unfold PTRDIFF_MAX; lia).
  cbn [mbind res_bind]. assert (1 <= n < 2 ^ 17) as Hn by lia. clearbody n.
  destruct (decide (n = 1)) as [->|Hn1]; [by eexists|].
  rewrite u64_small by lia. unfold tmalloc_block.
  rewrite (Z.gtb_ltb (2 ^ 64 - n + 1)), (proj2 (Z.ltb_lt 0 (2 ^ 64 - n + 1))) by lia. cbn [cassert mbind res_bind]. unfold SIZEOF_SIZE_T.
  destruct (decide (n <= 9)) as [Hn9|Hn9].
  - assert (u64 (2 ^ 64 - n + 1 + 8) = 9 - n) as -> by (unfold u64; zdiv_lia).
    unfold PTRDIFF_MAX. rewrite (Z.gtb_ltb (9 - n)), (proj2 (Z.ltb_ge (2 ^ 63 - 1) (9 - n))) by lia.
    rewrite (proj2 (Z.ltb_lt (9 - n) 8)) by lia. by eexists.
  - rewrite u64_small by lia. unfold PTRDIFF_MAX.
    rewrite (Z.gtb_ltb (2 ^ 64 - n + 1 + 8)), (proj2 (Z.ltb_lt (2 ^ 63 - 1) _)) by lia.
    cbn [mbind res_bind ptr_arg].
    destruct (unpack_null_second raw (off + 6) (replicate (Z.to_nat (keylen + 1)) junk) keylen n)
      as [f Hf]; [lia..|]. rewrite Hf. by eexists.
Qed.

Lemma unpack_put_short_witness :
  ∃ f, unpack_triedb_put 0 [0; 0; 0; 1; 0; 200; 107] 0 16 7 = Err f.
Proof.
  apply (unpack_put_short 0 [0; 0; 0; 1; 0; 200; 107] 0 16 7 1 200); [reflexivity|lia..].
Defined.

(** A GET or DEL request is unpacked to its body as the key, followed by a
    NUL, as long as the length has at most eight digits; with nine, below
    2^28, the format overflows its array of ten characters. *)
Lemma unpack_get_correct (junk : Z) (l1 l2 : list Z) (h : Z) (key : list Z) :
  strlen key < 2 ^ 28 →
  unpack_triedb_get junk (l1 ++ key ++ l2) (Z.of_nat (length l1)) h (strlen key)
  = if decide (strlen key < 10 ^ 8)
    then Ok (RGet {| get_header := h; get_key := key ++ [0] |})
    else Err OutOfBounds.
Proof.
  intros Hk. pose proof (strlen_nonneg key). unfold unpack_triedb_get.
  rewrite u64_small, tmalloc_block_ok by (unfold PTRDIFF_MAX; lia). cbn [mbind res_bind ptr_arg].
  rewrite s64_small, sprintf_d_nonneg by lia. unfold sprintf_buf. rewrite strlen_app.
  change (strlen (str "s")) with 1. case_decide as Hd.
  - pose proof (print_dec_length (strlen key) 7 ltac:(lia)).
    rewrite (proj2 (Z.leb_le (strlen (print_dec (strlen key)) + 1 + 1) 10)) by lia.
    cbn [mbind res_bind].
    pose proof (unpack_items [Str key] l1 l2 (Z.of_nat (length l1))
      [PStr (replicate (Z.to_nat (strlen key + 1)) junk)] eq_refl) as Hu.
    unfold items_bytes, items_ufmt in Hu. cbn [mbind list_bind item_bytes item_ufmt] in Hu.
    rewrite !app_nil_r in Hu. change (str "s") with [115].
    rewrite Hu; [|by repeat constructor; cbn [item_ok]; lia
                 |repeat constructor; cbn [item_dst]; rewrite length_replicate;
                  unfold strlen; lia].
    cbn [mbind res_bind zip_with item_val].
    rewrite splice_all; [done|]. rewrite length_replicate, length_app. unfold strlen. cbn. lia.
  - assert (9 <= strlen (print_dec (strlen key))).
    { unfold strlen at 1. unfold print_dec.
      pose proof (digits_length_lower 20 (strlen key) [] 8 ltac:(lia) ltac:(lia)).
      cbn [length] in *. lia. }
    by rewrite (proj2 (Z.leb_gt (strlen (print_dec (strlen key)) + 1 + 1) 10)) by lia.
Qed.

(** The table of unpack handlers has no entry for ACK, TTL, INC, DEC, CNT, USE,
    KEYS, PING, QUIT and DB: a request with one of these operation codes makes
    the server call a null pointer. *)
Theorem unpack_request_null (junk : Z) (raw : list Z) (off h len : Z) :
  bits_opcode h = opcode_val ACK ∨
    opcode_val TTL <= bits_opcode h <= opcode_val DB →
  unpack_triedb_request junk raw off h len = Err NullDeref.
Proof.
  unfold unpack_triedb_request, opcode_val. intros H.
  assert (bits_opcode h ∈ [0; 4; 5; 6; 7; 8; 9; 10; 11; 12]) as Hin.
  { destruct H as [->|H]; [by left|].
    assert (bits_opcode h ∈ seqZ 4 9) as Hs by (apply elem_of_seqZ; lia).
    by right. }
  repeat (apply elem_of_cons in Hin as [->|Hin]; [done|]). by apply not_elem_of_nil in Hin.
Qed.

Lemma unpack_request_null_witness :
  unpack_triedb_request 0 (str "counter") 0 0x50 7 = Err NullDeref.
Proof. apply (unpack_request_null 0 (str "counter") 0 0x50 7). right. split; vm_compute; discriminate. Defined.

(** Acknowledgements and counts are packets of three and ten bytes: the header
    byte, the length of the body, and the return code or the count most
    significant byte first; the byte strings have these lengths. *)
Theorem pack_ack_cnt_exact (junk ptr byte rc val : Z) (m : mem) :
  is_byte byte → is_byte rc → 0 <= val < 2 ^ 64 →
  (∃ m', pack_ack junk m ptr byte rc = Ok (m', (ptr, packet byte [rc])) ∧
     bstring_len m' ptr = Ok 3) ∧
  ∃ m', pack_cnt junk m ptr byte val = Ok (m', (ptr, packet byte (be_bytes 8 val))) ∧
    bstring_len m' ptr = Ok 10.
Proof.
  intros Hb Hrc Hv. unfold pack_ack, pack_cnt. split.
  - rewrite (pack_buf_stores [U8 byte; U8 1; U8 rc]);
      [|done|done|by repeat constructor; unfold is_byte in *; cbn [item_ok]; lia].
    rewrite stores_fits by (rewrite ?length_replicate; cbn; lia).
    change (Z.to_nat 0) with 0%nat. rewrite splice_all by done. cbn [mbind res_bind].
    replace (items_bytes [U8 byte; U8 1; U8 rc]) with (packet byte [rc])
      by (cbn; by rewrite !Z.mod_small).
    by apply (bstring_copy_len m ptr (packet byte [rc])).
  - rewrite (pack_buf_stores [U8 byte; U8 8; U64 val]);
      [|done|done|by repeat constructor; unfold is_byte in *; cbn [item_ok]; lia].
    rewrite stores_fits by (rewrite ?length_replicate; cbn; lia).
    change (Z.to_nat 0) with 0%nat. rewrite splice_all by done. cbn [mbind res_bind].
    replace (items_bytes [U8 byte; U8 8; U64 val]) with (packet byte (be_bytes 8 val))
      by (cbn; by rewrite (Z.mod_small byte)).
    by apply (bstring_copy_len m ptr (packet byte (be_bytes 8 val))).
Qed.

Lemma pack_ack_cnt_exact_witness :
  (∃ m', pack_ack 0 (mkMem 0 ∅) 64 0 1 = Ok (m', (64, packet 0 [1])) ∧
     bstring_len m' 64 = Ok 3) ∧
  ∃ m', pack_cnt 0 (mkMem 0 ∅) 64 0 7 = Ok (m', (64, packet 0 (be_bytes 8 7))) ∧
    bstring_len m' 64 = Ok 10.
Proof.
  apply (pack_ack_cnt_exact 0 64 0 1 7 (mkMem 0 ∅)); unfold is_byte; lia.
Defined.

(** The fields of an INFO reply. *)
Definition info_items (conf : config) (infos : informations) : list item :=
  [U8 0xd0; U32 (nclients infos); U32 (nconnections infos); U64 (start_time infos);
   U64 (uptime infos); U32 (nrequests infos); U64 (bytes_recv infos);
   U64 (bytes_sent infos); U64 (nkeys infos);
   U8 (mode conf); U8 (loglevel conf); U8 (socket_family conf);
   U64 (max_memory conf); U64 (mem_reclaim_time conf);
   U64 (max_request_size conf); I32 (tcp_backlog conf);
   U8 (strlen (version conf)); Str (version conf);
   U8 (strlen (logpath conf)); Str (logpath conf);
   U8 (strlen (hostname conf)); Str (hostname conf);
   U8 (strlen (port conf)); Str (port conf)].

Lemma info_strings_short conf infos :
  Forall item_ok (info_items conf infos) →
  strlen (version conf) < 256 ∧ strlen (logpath conf) < 256 ∧
  strlen (hostname conf) < 256 ∧ strlen (port conf) < 256.
Proof.
  intros Hok. rewrite Forall_forall in Hok. unfold info_items in Hok.
  split_and!; (match goal with |- strlen ?s < _ =>
    specialize (Hok (U8 (strlen s))); cbn [item_ok] in Hok; apply Hok; set_solver end).
Qed.

Lemma info_items_length conf infos :
  strlen (items_bytes (info_items conf infos)) =
    strlen (version conf) + 1 + strlen (logpath conf) + 1
    + strlen (hostname conf) + 1 + strlen (port conf) + 1
    + 1 + 1 + 1 + 8 + 8 + 8 + 4 + 4 + 4 + 8 + 8 + 4 + 8 + 8 + 8 + 1.
Proof.
  assert (∀ n z, strlen (be_bytes n z) = Z.of_nat n) as Hbe
    by (intros; unfold strlen; by rewrite be_bytes_length).
  unfold items_bytes, info_items. cbn [mbind list_bind item_bytes].
  rewrite !strlen_app, !Hbe. change (strlen []) with 0. lia.
Qed.

Lemma bstring_empty_ok m ptr n :
  0 < n →
  ∃ m', bstring_empty m ptr n = Ok (m', (ptr, replicate (Z.to_nat n) 0)) ∧
    bstring_len m' ptr = Ok n.
Proof.
  intros Hn. unfold bstring_empty, tmalloc.
  rewrite (Z.gtb_ltb n), (proj2 (Z.ltb_lt 0 n)) by lia.
  eexists. split; [reflexivity|]. unfold bstring_len. cbn. by rewrite lookup_insert_eq.
Qed.

(** With all fields in the range of their types and strings of less than 256
    characters (those of the configuration have at most 254), the size that
    pack_info computes is exactly that of the fields: the reply holds them all
    and every byte of the block is written. *)
Theorem pack_info_exact (m : mem) (ptr : Z) (conf : config) (infos : informations) :
  Forall item_ok (info_items conf infos) →
  ∃ m', pack_info m ptr conf infos = Ok (m', (ptr, items_bytes (info_items conf infos))) ∧
    bstring_len m' ptr = Ok (strlen (items_bytes (info_items conf infos))).
Proof.
  intros Hok. unfold pack_info. pose proof (info_strings_short _ _ Hok) as (?&?&?&?).
  pose proof (strlen_nonneg (version conf)). pose proof (strlen_nonneg (logpath conf)).
  pose proof (strlen_nonneg (hostname conf)). pose proof (strlen_nonneg (port conf)).
  pose proof (info_items_length conf infos) as Hlen.
  rewrite (u64_small (_ + 8)), u64_small by lia. rewrite <-Hlen.
  destruct (bstring_empty_ok m ptr (strlen (items_bytes (info_items conf infos))))
    as (m' & Hbs & Hm'); [lia|]. exists m'. split; [|exact Hm'].
  eapply res_bind_eq; [exact Hbs|]. cbv beta iota.
  eapply res_bind_eq; [|reflexivity].
  rewrite (pack_buf_stores (info_items conf infos)); [|reflexivity|reflexivity|exact Hok].
  rewrite stores_fits by (rewrite ?length_replicate; unfold strlen; lia).
  rewrite splice_all by (rewrite length_replicate; unfold strlen; lia). reflexivity.
Qed.

Definition demo_conf : config :=
  mkConfig (str "0.6.11") 0 3 2 (-1) 1 (str "/tmp/triedb.log") (str "127.0.0.1") (str "9090")
    (2 ^ 32) 86400 (2 ^ 21) 128.
Definition demo_infos : informations := mkInformations 1 2 0 1500000000 60 10 100 200 3.

Lemma pack_info_exact_witness :
  ∃ m', pack_info (mkMem 0 ∅) 64 demo_conf demo_infos =
      Ok (m', (64, items_bytes (info_items demo_conf demo_infos))) ∧
    bstring_len m' 64 = Ok (strlen (items_bytes (info_items demo_conf demo_infos))).
Proof.
  apply (pack_info_exact (mkMem 0 ∅) 64 demo_conf demo_infos).
  repeat (constructor; [first [reflexivity | split; [vm_compute; discriminate|reflexivity]]|]).
  constructor.
Defined.
