(* ===== verification/Network.v ===== *)
(** * Packets on a socket: src/network.c and the reading of requests of src/server.c

    A socket delivers what has arrived in pieces: [read] returns bytes of the
    first piece, at most as many as it is asked for, and [EAGAIN] between two
    arrivals.  An empty piece is the end of the stream.  [write] accepts at most
    as many bytes as the next element of a list says.  The buffer is the block
    of [max_request_size] bytes that an I/O thread keeps for all its requests,
    so it holds the bytes of earlier requests. *)

From S2P Require Import Prelude Util Config Store Bst Vec Trie Pack Db Protocol.

(** ** System calls *)

Inductive arrival :=
| Data (bs : list Z)
| Again                    (* EAGAIN or EWOULDBLOCK *)
| Fail.                    (* any other error *)

Definition sys_read (sock : list arrival) (n : Z) : arrival * list arrival :=
  match sock with
  | [] => (Again, [])
  | Data bs :: sock =>
      (Data (take (Z.to_nat n) bs),
       match drop (Z.to_nat n) bs with [] => sock | rest => Data rest :: sock end)
  | e :: sock => (e, sock)
  end.

Inductive acceptance :=
| Accept (n : nat)
| WAgain
| WFail.

(** ** network.c *)

(** [n] is the number of iterations that are enough: each reads a byte. *)
Fixpoint recv_loop (fuel : nat) (sock : list arrival) (buf : list Z)
    (off total bufsize : Z) : res (list arrival * list Z * Z) :=
  match fuel with
  | O => Err OutOfFuel
  | S fuel =>
      if total <? s64 bufsize then
        match sys_read sock (u64 (bufsize - total)) with
        | (Again, sock) => Ok (sock, buf, total)
        | (Fail, sock) => Ok (sock, buf, -1)
        | (Data [], sock) => Ok (sock, buf, 0)
        | (Data bs, sock) =>
            buf ← stores buf off bs;
            recv_loop fuel sock buf (off + strlen bs) (total + strlen bs) bufsize
        end
      else Ok (sock, buf, total)
  end.

Definition recv_bytes (sock : list arrival) (buf : list Z) (off bufsize : Z)
  : res (list arrival * list Z * Z) :=
  recv_loop (S (Z.to_nat bufsize)) sock buf off 0 bufsize.

(** [sent] are the bytes accepted so far; the loop goes on for as long as the
    socket accepts. *)
Fixpoint send_loop (sock : list acceptance) (buf : list Z) (total : nat)
  : list acceptance * list Z * Z :=
  if (total <? length buf)%nat then
    match sock with
    | [] => ([], take total buf, Z.of_nat total)
    | WAgain :: sock => (sock, take total buf, Z.of_nat total)
    | WFail :: sock => (sock, take total buf, -1)
    | Accept n :: sock => send_loop sock buf (total + Nat.min n (length buf - total))
    end
  else (sock, take total buf, Z.of_nat total).

(** What the socket has left, the bytes it accepted, the result. *)
Definition send_bytes (sock : list acceptance) (buf : list Z)
  : list acceptance * list Z * Z := send_loop sock buf 0.

(** ** Receiving a packet: server.c *)

Definition ERRCLIENTDC : Z := 1.
Definition ERRPACKETERR : Z := 2.
Definition ERRMAXREQSIZE : Z := 3.

(** The effects of [recv_packet]: the socket, whether it was closed, the
    buffer, the header, by how much [*buf] is moved, the result. *)
Record received := mkReceived {
  rv_sock : list arrival;
  rv_closed : bool;
  rv_buf : list Z;
  rv_header : Z;
  rv_off : Z;
  rv_bytes : Z
}.

(** [tmpbuf] is [off]: 1 after the header, [1 + pos] after [decode_length].
    [n - pos - 1] is computed as an [unsigned]. *)
Definition recv_packet (max_request_size : Z) (sock : list arrival) (buf : list Z)
    (header : Z) : res received :=
  '(sock, buf, nbytes) ← recv_bytes sock buf 0 4;
  if nbytes <=? 0 then mret (mkReceived sock false buf header 0 (- ERRCLIENTDC))
  else
    header ← aget buf 0;
    if (opcode_val INFO <? Z.shiftr header 4) || (opcode_val PUT >? Z.shiftr header 4)
    then mret (mkReceived sock false buf header 0 (- ERRPACKETERR))
    else
      '(tlen, pos) ← decode_length buf 1;
      if tlen >? max_request_size then
        mret (mkReceived sock false buf header (u32 (pos + 1)) (- ERRMAXREQSIZE))
      else if tlen <=? 4 then
        mret (mkReceived sock false buf header (u32 (pos + 1)) nbytes)
      else
        '(sock, buf, n) ← recv_bytes sock buf (1 + pos + pos + 1) (u64 (tlen - pos));
        let n := s32 n in
        if n <? 0 then mret (mkReceived sock true buf header 0 nbytes)
        else mret (mkReceived sock false buf header (u32 (pos + 1))
                     (s64 (nbytes + u32 (u32 n - pos - 1)))).

(** ** Reading a request: server.c *)

(** The outcome of [read_data]: its result, the request when it is 0, the socket
    and buffer, and the statistics. *)
Record request_read := mkRequestRead {
  rr_rc : Z;
  rr_pkt : option triedb_request;
  rr_sock : list arrival;
  rr_closed : bool;
  rr_buf : list Z;
  rr_info : informations
}.

Definition drop_client (i : informations) : informations :=
  mkInformations (u32 (nclients i - 1)) (u32 (nconnections i - 1)) (nnodes i) (start_time i)
    (uptime i) (nrequests i) (bytes_recv i) (bytes_sent i) (nkeys i).

Definition add_bytes_recv (i : informations) (n : Z) : informations :=
  mkInformations (nclients i) (nconnections i) (nnodes i) (start_time i)
    (uptime i) (nrequests i) (u64 (bytes_recv i + n)) (bytes_sent i) (nkeys i).

Definition read_data (junk max_request_size : Z) (sock : list arrival) (buffer : list Z)
    (info : informations) : res request_read :=
  r ← recv_packet max_request_size sock buffer 0;
  let bytes := rv_bytes r in
  if (bytes =? - ERRCLIENTDC) || (bytes =? - ERRMAXREQSIZE) then
    mret (mkRequestRead (- ERRCLIENTDC) None (rv_sock r) true (rv_buf r) (drop_client info))
  else if bytes =? - ERRPACKETERR then
    mret (mkRequestRead (- ERRPACKETERR) None (rv_sock r) (rv_closed r) (rv_buf r) info)
  else
    '(pkt, _) ← unpack_triedb_request junk (rv_buf r) (rv_off r) (rv_header r) (u64 bytes);
    mret (mkRequestRead 0 (Some pkt) (rv_sock r) (rv_closed r) (rv_buf r)
            (add_bytes_recv info bytes)).

(** ** Specification *)

(** The bytes [bs] have arrived, in any pieces, and no more before [s]. *)
Definition arrives (sock : list arrival) (bs : list Z) (s : list arrival) : Prop :=
  ∃ chunks, Forall (λ c, c ≠ []) chunks ∧ concat chunks = bs ∧
    sock = (Data <$> chunks) ++ Again :: s.

(** ** Reading from a socket *)

Lemma splice_nil {A} (l : list A) i : splice l i [] = l.
Proof. unfold splice. cbn. by rewrite Nat.add_0_r, take_drop. Qed.

Lemma recv_loop_stop fuel sock buf off total bufsize :
  0 <= bufsize < 2 ^ 63 → bufsize <= total →
  recv_loop (S fuel) sock buf off total bufsize = Ok (sock, buf, total).
Proof.
  intros Hb Ht. cbn [recv_loop]. rewrite s64_small by lia.
  by destruct (Z.ltb_spec total bufsize); [lia|].
Qed.

Lemma recv_loop_again fuel s buf off total bufsize :
  0 <= bufsize < 2 ^ 63 → total < bufsize →
  recv_loop (S fuel) (Again :: s) buf off total bufsize = Ok (s, buf, total).
Proof.
  intros Hb Ht. cbn [recv_loop]. rewrite s64_small by lia.
  by destruct (Z.ltb_spec total bufsize); [|lia].
Qed.

(** One [read] of the first piece. *)
Lemma recv_loop_data fuel c sock buf (off m : nat) total :
  c ≠ [] → m ≠ 0%nat → 0 <= total → total + Z.of_nat m < 2 ^ 63 →
  (off + Nat.min m (length c) <= length buf)%nat →
  recv_loop (S fuel) (Data c :: sock) buf (Z.of_nat off) total (total + Z.of_nat m) =
    recv_loop fuel (match drop m c with [] => sock | rest => Data rest :: sock end)
      (splice buf off (take m c)) (Z.of_nat (off + Nat.min m (length c)))
      (total + Z.of_nat (Nat.min m (length c))) (total + Z.of_nat m).
Proof.
  intros Hc Hm Ht Hb Hfit. cbn [recv_loop sys_read].
  rewrite s64_small by lia. destruct (Z.ltb_spec total (total + Z.of_nat m)); [|lia].
  rewrite u64_small by lia. replace (Z.to_nat (total + Z.of_nat m - total)) with m by lia.
  destruct (take m c) as [|b bs] eqn:E; [by destruct c; destruct m|].
  assert (length (b :: bs) = Nat.min m (length c)) as Hl by (by rewrite <-E, length_take).
  rewrite stores_fits by lia. rewrite res_bind_Ok_l, Nat2Z.id. unfold strlen. rewrite Hl.
  f_equal. lia.
Qed.

Lemma recv_loop_arrives chunks s fuel buf (off m : nat) total :
  Forall (λ c, c ≠ []) chunks → 0 <= total → total + Z.of_nat m < 2 ^ 63 → (m < fuel)%nat →
  (off + Nat.min m (length (concat chunks)) <= length buf)%nat →
  ∃ sock', recv_loop fuel ((Data <$> chunks) ++ Again :: s) buf (Z.of_nat off) total
             (total + Z.of_nat m) =
      Ok (sock', splice buf off (take m (concat chunks)),
          total + Z.of_nat (Nat.min m (length (concat chunks)))) ∧
    if decide (m <= length (concat chunks))%nat
    then arrives sock' (drop m (concat chunks)) s else sock' = s.
Proof.
  intros Hne. revert fuel buf off m total.
  induction Hne as [|c chunks Hc Hne IH]; intros fuel buf off m total Ht Hb Hf Hfit;
    (destruct fuel as [|fuel]; [lia|]); (destruct (decide (m = 0%nat)) as [->|Hm];
      [rewrite recv_loop_stop by lia; eexists;
       rewrite take_0, splice_nil, drop_0; split; [do 2 f_equal; lia|];
       rewrite decide_True by lia; eexists; split_and!; [|done|done]; by constructor|]).
  - cbn [fmap list_fmap concat app] in *. rewrite recv_loop_again by lia.
    exists s. cbn [length]. rewrite take_nil, splice_nil, Nat.min_0_r, decide_False by lia.
    split; [|done]. do 2 f_equal. lia.
  - cbn [fmap list_fmap concat app] in *. rewrite length_app in *.
    rewrite recv_loop_data by (done || lia).
    destruct (decide (length c <= m)%nat) as [Hle|Hgt].
    + rewrite (drop_ge c m) by lia. rewrite (take_ge c m), (Nat.min_r m (length c)) by lia.
      replace (total + Z.of_nat m)
        with (total + Z.of_nat (length c) + Z.of_nat (m - length c)) by lia.
      assert (0 < length c)%nat by (destruct c; [done|cbn; lia]).
      destruct (IH fuel (splice buf off c) (off + length c)%nat (m - length c)%nat
                  (total + Z.of_nat (length c))) as (sock' & Hr & Hs);
        [lia|lia|lia|rewrite splice_length by lia; lia|].
      exists sock'. rewrite Hr. rewrite take_app, drop_app, (take_ge c m), (drop_ge c m) by lia.
      rewrite splice_splice by (rewrite length_take; lia). split.
      * do 2 f_equal. lia.
      * revert Hs. cbn [app]. repeat case_decide; (done || lia).
    + destruct fuel as [|fuel]; [lia|].
      rewrite recv_loop_stop by lia. eexists. rewrite take_app_le, drop_app_le by lia.
      rewrite !Nat.min_l by lia. split; [done|]. rewrite decide_True by lia.
      destruct (drop m c) as [|b r] eqn:E.
      { apply (f_equal length) in E. rewrite length_drop in E. cbn in E. lia. }
      exists ((b :: r) :: chunks). split_and!; [by constructor|done|done].
Qed.

Lemma recv_bytes_arrives sock bs s buf (off m : nat) :
  arrives sock bs s → Z.of_nat m < 2 ^ 63 → (off + Nat.min m (length bs) <= length buf)%nat →
  ∃ sock', recv_bytes sock buf (Z.of_nat off) (Z.of_nat m) =
      Ok (sock', splice buf off (take m bs), Z.of_nat (Nat.min m (length bs))) ∧
    if decide (m <= length bs)%nat then arrives sock' (drop m bs) s else sock' = s.
Proof.
  intros (chunks & Hne & <- & ->) Hm Hfit. unfold recv_bytes. rewrite Nat2Z.id.
  destruct (recv_loop_arrives chunks s (S m) buf off m 0 Hne) as (sock' & Hr & Hs);
    [lia|lia|lia|done|]. exists sock'. by rewrite !Z.add_0_l in Hr.
Qed.

(** ** Receiving a packet *)

Lemma packet_short h body :
  Z.of_nat (length body) < 128 → packet h body = [h; Z.of_nat (length body)] ++ body.
Proof.
  intros H. unfold packet. cbn [len_bytes]. rewrite Z.div_small by lia.
  cbn. by rewrite Z.mod_small by lia.
Qed.

Lemma len_bytes_two t : 128 <= t < 2 ^ 14 → len_bytes 4 t = [t mod 128 + 128; t / 128].
Proof.
  intros H. cbn [len_bytes]. rewrite !Z.gtb_ltb.
  destruct (Z.ltb_spec 0 (t / 128)); [|zdiv_lia].
  destruct (Z.ltb_spec 0 (t / 128 / 128)); [zdiv_lia|].
  rewrite (Z.mod_small (t / 128)) by zdiv_lia. done.
Qed.

(** The header of a request that [recv_packet] accepts. *)
Definition request_header (h : Z) : Prop :=
  opcode_val PUT <= Z.shiftr h 4 <= opcode_val INFO.

#[export] Instance request_header_dec h : Decision (request_header h).
Proof. unfold request_header. apply _. Defined.

(** The first four bytes. *)
Lemma recv_bytes_first sock bs s buf :
  arrives sock bs s → (4 <= length buf)%nat →
  ∃ sock', recv_bytes sock buf 0 4 =
      Ok (sock', take 4 bs ++ drop (Nat.min 4 (length bs)) buf,
          Z.of_nat (Nat.min 4 (length bs))) ∧
    if decide (4 <= length bs)%nat then arrives sock' (drop 4 bs) s else sock' = s.
Proof.
  intros Ha Hb. destruct (recv_bytes_arrives sock bs s buf 0 4 Ha) as (sock' & Hr & Hs);
    [lia|lia|]. exists sock'. split; [|done].
  unfold splice in Hr. rewrite length_take in Hr. exact Hr.
Qed.

Lemma splice_prefix {A} (l bs : list A) n m :
  (n <= length bs)%nat → (m = length bs - n)%nat → (length bs <= length l)%nat →
  splice (take n bs ++ drop n l) n (take m (drop n bs)) = bs ++ drop (length bs) l.
Proof.
  intros Hn -> Hl. rewrite (take_ge (drop n bs)) by (rewrite length_drop; lia).
  unfold splice. rewrite length_drop.
  rewrite take_app_le by (rewrite length_take; lia). rewrite take_take, Nat.min_id.
  rewrite (assoc_L (++)), take_drop. f_equal.
  rewrite drop_app_ge by (rewrite length_take; lia). rewrite length_take, drop_drop.
  f_equal. lia.
Qed.

Lemma splice_gap {A} (l a bs : list A) n g :
  length a = n → (n + g <= length l)%nat →
  splice (a ++ drop n l) (n + g) bs =
    a ++ take g (drop n l) ++ bs ++ drop (n + g + length bs) l.
Proof.
  intros <- Hl. unfold splice.
  rewrite take_app_add, <-(assoc_L (++)). do 3 f_equal.
  rewrite drop_app_ge by lia. rewrite drop_drop. f_equal. lia.
Qed.

(** The header and the remaining length, and what follows the first read. *)
Lemma recv_packet_head max sock bs s buf hdr0 h lb rest t :
  arrives sock bs s → (4 <= length buf)%nat → request_header h →
  lb = len_bytes 4 t → 0 <= t < 2 ^ 28 →
  take 4 bs ++ drop (Nat.min 4 (length bs)) buf = [h] ++ lb ++ rest → (0 < length bs)%nat →
  ∃ sock', (if decide (4 <= length bs)%nat then arrives sock' (drop 4 bs) s else sock' = s) ∧
    recv_packet max sock buf hdr0 =
      let nbytes := Z.of_nat (Nat.min 4 (length bs)) in
      let pos := Z.of_nat (length lb) in
      let buf := [h] ++ lb ++ rest in
      if t >? max then Ok (mkReceived sock' false buf h (pos + 1) (- ERRMAXREQSIZE))
      else if t <=? 4 then Ok (mkReceived sock' false buf h (pos + 1) nbytes)
      else
        '(sock, buf, n) ← recv_bytes sock' buf (2 + 2 * pos) (u64 (t - pos));
        let n := s32 n in
        if n <? 0 then Ok (mkReceived sock true buf h 0 nbytes)
        else Ok (mkReceived sock false buf h (pos + 1)
                   (s64 (nbytes + u32 (u32 n - pos - 1)))).
Proof.
  intros Ha Hb Hh -> Ht Hbuf Hbs.
  destruct (recv_bytes_first sock bs s buf Ha Hb) as (sock' & Hr & Hs).
  exists sock'. split; [done|]. unfold recv_packet. rewrite Hr, res_bind_Ok_l.
  destruct (Z.leb_spec (Z.of_nat (Nat.min 4 (length bs))) 0); [lia|].
  rewrite Hbuf. cbn [app].
  change (aget (h :: len_bytes 4 t ++ rest) 0) with (Ok h). rewrite res_bind_Ok_l.
  unfold request_header in Hh.
  destruct (Z.ltb_spec (opcode_val INFO) (Z.shiftr h 4)); [lia|].
  rewrite Z.gtb_ltb. destruct (Z.ltb_spec (Z.shiftr h 4) (opcode_val PUT)); [lia|].
  cbn [orb].
  pose proof (decode_length_app [h] t rest 1 Ht eq_refl) as Hd. cbn [app] in Hd.
  rewrite Hd, res_bind_Ok_l.
  pose proof (len_bytes_length 4 t). rewrite u32_small by lia.
  destruct (t >? max); [reflexivity|]. destruct (t <=? 4); [reflexivity|].
  replace (1 + Z.of_nat (length (len_bytes 4 t)) + Z.of_nat (length (len_bytes 4 t)) + 1)
    with (2 + 2 * Z.of_nat (length (len_bytes 4 t))) by lia. done.
Qed.

Section receive.
Context (max hdr0 h : Z) (body : list Z) (sock s : list arrival) (buf : list Z).
Context (Hh : request_header h) (Hmax : Z.of_nat (length body) <= max).
Abbreviation t := (length body).

(** A part of a packet of 5 to 127 bytes of body, of at least 4 bytes. *)
Lemma recv_packet_part k :
  (5 <= t <= 127)%nat → (4 <= k <= t + 2)%nat → arrives sock (take k (packet h body)) s →
  (t + 2 <= length buf)%nat →
  recv_packet max sock buf hdr0 =
    Ok (mkReceived s false (take k (packet h body) ++ drop k buf) h 2
          (if decide (6 <= k)%nat then Z.of_nat k - 2 else 2 ^ 32 + Z.of_nat k - 2)).
Proof.
  intros Ht Hk Ha Hb. rewrite packet_short in * by lia.
  set (pkt := [h; Z.of_nat t] ++ body) in *.
  assert (length pkt = t + 2)%nat as Hpkt by (subst pkt; rewrite length_app; cbn; lia).
  assert (length (take k pkt) = k) as Hl by (rewrite length_take; lia).
  assert (len_bytes 4 (Z.of_nat t) = [Z.of_nat t]) as Hlb.
  { cbn [len_bytes]. rewrite Z.div_small, Z.mod_small by lia. done. }
  destruct (recv_packet_head max sock (take k pkt) s buf hdr0 h _
              (take 2 body ++ drop 4 buf) (Z.of_nat t) Ha ltac:(lia) Hh eq_refl)
    as (sock' & Hs & ->); [lia|rewrite Hl, Nat.min_l, take_take, Nat.min_l, Hlb by lia; done
                          |lia|].
  rewrite Hl, decide_True in Hs by lia. cbv zeta. rewrite Hlb.
  rewrite Z.gtb_ltb. destruct (Z.ltb_spec max (Z.of_nat t)); [lia|].
  destruct (Z.leb_spec (Z.of_nat t) 4); [lia|].
  rewrite u64_small by (cbn [length]; lia).
  replace ([h] ++ [Z.of_nat t] ++ take 2 body ++ drop 4 buf)
    with (take 4 (take k pkt) ++ drop 4 buf)
    by (rewrite take_take, Nat.min_l by lia; done).
  destruct (recv_bytes_arrives sock' (drop 4 (take k pkt)) s
              (take 4 (take k pkt) ++ drop 4 buf) 4 (t - 1) Hs)
    as (sock'' & Hr & Hs''); [lia|rewrite length_app, !length_take, !length_drop; lia|].
  rewrite length_drop, Hl in Hr, Hs''. rewrite decide_False in Hs'' by lia. subst sock''.
  rewrite Nat.min_r in Hr by lia.
  replace (2 + 2 * Z.of_nat (length [Z.of_nat t])) with (Z.of_nat 4) by done.
  replace (Z.of_nat t - Z.of_nat (length [Z.of_nat t])) with (Z.of_nat (t - 1))
    by (cbn [length]; lia).
  rewrite Hr, res_bind_Ok_l. rewrite (s32_small (Z.of_nat (k - 4))) by (unfold INT_MIN, INT_MAX; lia).
  destruct (Z.ltb_spec (Z.of_nat (k - 4)) 0); [lia|].
  rewrite (take_ge (drop 4 (take k pkt))) by (rewrite length_drop; lia).
  pose proof (splice_prefix buf (take k pkt) 4 (k - 4) ltac:(lia) ltac:(lia) ltac:(lia)) as Hsp.
  rewrite (take_ge (drop 4 (take k pkt))) in Hsp by (rewrite length_drop; lia).
  rewrite Hsp, Hl. f_equal. f_equal. rewrite Nat.min_l by lia. cbn [length].
  rewrite (u32_small (Z.of_nat (k - 4))) by lia. case_decide.
  - rewrite u32_small by lia. rewrite s64_small; lia.
  - replace (u32 _) with (2 ^ 32 + Z.of_nat k - 6).
    + rewrite s64_small; lia.
    + unfold u32. zdiv_lia.
Qed.

(** A packet of at most 4 bytes of body: what follows the first 4 bytes stays
    in the socket, and the result is not the length of the body. *)
Lemma recv_packet_small :
  (t <= 4)%nat → arrives sock (packet h body) s → (4 <= length buf)%nat →
  ∃ sock', recv_packet max sock buf hdr0 =
      Ok (mkReceived sock' false
            (take 4 (packet h body) ++ drop (Nat.min 4 (t + 2)) buf) h 2
            (Z.of_nat (Nat.min 4 (t + 2)))) ∧
    if decide (2 <= t)%nat then arrives sock' (drop 2 body) s else sock' = s.
Proof.
  intros Ht Ha Hb. rewrite packet_short in * by lia.
  assert (len_bytes 4 (Z.of_nat t) = [Z.of_nat t]) as Hlb.
  { cbn [len_bytes]. rewrite Z.div_small, Z.mod_small by lia. done. }
  destruct (recv_packet_head max sock _ s buf hdr0 h _
              (take 2 body ++ drop (Nat.min 4 (t + 2)) buf) (Z.of_nat t) Ha Hb Hh eq_refl)
    as (sock' & Hs & ->); [lia|rewrite Hlb, length_app; cbn [app length take];
                               by rewrite Nat.add_comm
                          |cbn; lia|].
  cbv zeta. rewrite Hlb, Z.gtb_ltb. destruct (Z.ltb_spec max (Z.of_nat t)); [lia|].
  destruct (Z.leb_spec (Z.of_nat t) 4); [|lia]. exists sock'.
  rewrite length_app, (Nat.add_comm (length [h; Z.of_nat t])) in *. cbn [length] in *.
  split; [done|]. revert Hs. repeat case_decide; (done || lia).
Qed.

(** A packet of 128 bytes of body and more, whose length takes two bytes: the
    rest is read to two bytes behind its place, and the last byte stays in the
    socket. *)
Lemma recv_packet_large :
  (128 <= t)%nat → Z.of_nat t < 2 ^ 14 → arrives sock (packet h body) s →
  (t + 4 <= length buf)%nat →
  ∃ sock', recv_packet max sock buf hdr0 =
      Ok (mkReceived sock' false
            (take 4 (packet h body) ++ take 2 (drop 4 buf)
               ++ take (t - 2) (drop 1 body) ++ drop (t + 4) buf) h 3 (Z.of_nat t - 1)) ∧
    arrives sock' (drop (t - 1) body) s.
Proof.
  intros Ht1 Ht2 Ha Hb. pose proof (len_bytes_two (Z.of_nat t) ltac:(lia)) as Hlb.
  set (b1 := Z.of_nat t mod 128 + 128) in *. set (b2 := Z.of_nat t / 128) in *.
  assert (packet h body = [h; b1; b2] ++ body) as Hpk by (unfold packet; by rewrite Hlb).
  rewrite Hpk in *.
  assert (length ([h; b1; b2] ++ body) = t + 3)%nat as Hl
    by (rewrite length_app; cbn [length]; lia).
  destruct (recv_packet_head max sock _ s buf hdr0 h _
              (take 1 body ++ drop 4 buf) (Z.of_nat t) Ha ltac:(lia) Hh eq_refl)
    as (sock' & Hs & ->); [lia|rewrite Hlb, Hl, Nat.min_l by lia; done|lia|].
  rewrite Hl, decide_True in Hs by lia. cbv zeta. rewrite Hlb, Z.gtb_ltb.
  destruct (Z.ltb_spec max (Z.of_nat t)); [lia|].
  destruct (Z.leb_spec (Z.of_nat t) 4); [lia|].
  rewrite u64_small by (cbn [length]; lia). rewrite Hl, (Nat.min_l 4) by lia.
  change (drop 4 ([h; b1; b2] ++ body)) with (drop 1 body) in Hs.
  assert (length (take 1 body) = 1%nat) as H1 by (rewrite length_take; lia).
  destruct (recv_bytes_arrives sock' (drop 1 body) s
              ([h; b1; b2] ++ take 1 body ++ drop 4 buf) 6 (t - 2) Hs)
    as (sock'' & Hr & Hs'');
    [lia|rewrite !length_app, !length_drop, H1; cbn [length]; lia|].
  rewrite length_drop in Hr, Hs''. rewrite decide_True in Hs'' by lia.
  rewrite Nat.min_l in Hr by lia. exists sock''. split.
  2:{ rewrite drop_drop in Hs''. by replace (1 + (t - 2))%nat with (t - 1)%nat in Hs'' by lia. }
  replace (2 + 2 * Z.of_nat (length [b1; b2])) with (Z.of_nat 6) by done.
  replace (Z.of_nat t - Z.of_nat (length [b1; b2])) with (Z.of_nat (t - 2))
    by (cbn [length]; lia).
  change ([h] ++ [b1; b2] ++ take 1 body ++ drop 4 buf)
    with ([h; b1; b2] ++ take 1 body ++ drop 4 buf).
  rewrite Hr, res_bind_Ok_l. rewrite s32_small by (unfold INT_MIN, INT_MAX; lia).
  destruct (Z.ltb_spec (Z.of_nat (t - 2)) 0); [lia|].
  rewrite (u32_small (Z.of_nat (t - 2))) by lia. cbn [length].
  rewrite u32_small, s64_small by lia. f_equal. f_equal; [|lia].
  rewrite (assoc_L (++) [h; b1; b2]), (splice_gap _ _ _ 4 2)
    by (rewrite ?length_app, ?length_take, ?length_drop; cbn [length]; lia).
  rewrite length_take, length_drop. do 4 f_equal. lia.
Qed.
End receive.

(** ** Reading a request *)

Lemma take_packet h body k : (length body + 5 <= k)%nat → take k (packet h body) = packet h body.
Proof.
  intros H. apply take_ge. unfold packet.
  pose proof (len_bytes_length 4 (Z.of_nat (length body))).
  cbn [length]. rewrite length_app. lia.
Qed.

(** A whole packet of 5 to 127 bytes of body. *)
Lemma recv_packet_whole max hdr0 h body sock s buf :
  request_header h → Z.of_nat (length body) <= max → (5 <= length body <= 127)%nat →
  arrives sock (packet h body) s → (length body + 2 <= length buf)%nat →
  recv_packet max sock buf hdr0 =
    Ok (mkReceived s false ([h; Z.of_nat (length body)] ++ body ++ drop (length body + 2) buf)
          h 2 (Z.of_nat (length body))).
Proof.
  intros Hh Hmax Ht Ha Hb.
  assert (packet h body = [h; Z.of_nat (length body)] ++ body) as Hpk by (apply packet_short; lia).
  assert (take (length body + 2) (packet h body) = packet h body) as Htk
    by (apply take_ge; rewrite Hpk, length_app; cbn [length]; lia).
  rewrite (recv_packet_part max hdr0 h body sock s buf Hh Hmax (length body + 2))
    by (rewrite ?Htk; (done || lia)).
  rewrite Htk, Hpk, decide_True, <-(assoc_L (++)) by lia. do 2 f_equal. lia.
Qed.

Lemma read_data_whole junk max h body sock s buf info pkt rc :
  request_header h → Z.of_nat (length body) <= max → (5 <= length body <= 127)%nat →
  arrives sock (packet h body) s → (length body + 2 <= length buf)%nat →
  let buf' := [h; Z.of_nat (length body)] ++ body ++ drop (length body + 2) buf in
  unpack_triedb_request junk buf' 2 h (Z.of_nat (length body)) = Ok (pkt, rc) →
  read_data junk max sock buf info =
    Ok (mkRequestRead 0 (Some pkt) s false buf' (add_bytes_recv info (Z.of_nat (length body)))).
Proof.
  intros Hh Hmax Ht Ha Hb buf' Hu. unfold read_data.
  rewrite (recv_packet_whole max 0 h body sock s buf) by done.
  rewrite res_bind_Ok_l. cbn [rv_bytes rv_sock rv_closed rv_buf rv_off rv_header].
  destruct (Z.eqb_spec (Z.of_nat (length body)) (- ERRCLIENTDC)) as [E|_]; [unfold ERRCLIENTDC in E; lia|].
  destruct (Z.eqb_spec (Z.of_nat (length body)) (- ERRMAXREQSIZE)) as [E|_]; [unfold ERRMAXREQSIZE in E; lia|].
  destruct (Z.eqb_spec (Z.of_nat (length body)) (- ERRPACKETERR)) as [E|_]; [unfold ERRPACKETERR in E; lia|].
  cbn [orb]. rewrite u64_small by lia. fold buf'. rewrite Hu. done.
Qed.

Lemma bits_opcode_shiftr h : is_byte h → bits_opcode h = Z.shiftr h 4.
Proof.
  unfold is_byte. intros H. unfold bits_opcode. change 15 with (Z.ones 4).
  rewrite Z.land_ones, Z.shiftr_div_pow2 by lia. apply Z.mod_small. zdiv_lia.
Qed.

Lemma request_header_opcode h o :
  is_byte h → bits_opcode h = opcode_val o → o = PUT ∨ o = GET ∨ o = DEL → request_header h.
Proof.
  intros Hb Ho Hcase. rewrite bits_opcode_shiftr in Ho by done. unfold request_header.
  rewrite Ho. destruct Hcase as [->|[->| ->]]; cbn; lia.
Qed.

(** The handlers of PUT, GET and DEL. *)
Lemma unpack_request_handler junk raw off h len o pkt :
  bits_opcode h = opcode_val o → o = PUT ∨ o = GET ∨ o = DEL →
  (if decide (o = PUT) then unpack_triedb_put junk raw off h len
   else unpack_triedb_get junk raw off h len) = Ok pkt →
  unpack_triedb_request junk raw off h len = Ok (pkt, s32 len).
Proof.
  intros Ho Hcase Hu. unfold unpack_triedb_request. rewrite Ho.
  assert (aget unpack_handlers (opcode_val o) =
            Ok (Some (if decide (o = PUT) then unpack_triedb_put else unpack_triedb_get))) as ->
    by (destruct Hcase as [->|[->| ->]]; reflexivity).
  rewrite res_bind_Ok_l. cbn [deref]. rewrite res_bind_Ok_l.
  destruct (decide (o = PUT)); by rewrite Hu.
Qed.

(** The buffer after a packet of less than 128 bytes of body. *)
Definition buffer_after (h : Z) (body buf : list Z) : list Z :=
  [h; Z.of_nat (length body)] ++ body ++ drop (length body + 2) buf.

Lemma buffer_after_length h body buf :
  (length body + 2 <= length buf)%nat → length (buffer_after h body buf) = length buf.
Proof. intros. unfold buffer_after. rewrite !length_app, length_drop. cbn. lia. Qed.

Lemma put_body_length t key val :
  Z.of_nat (length (put_body t key val)) = 6 + strlen key + strlen val.
Proof. unfold put_body. rewrite !length_app, !be_bytes_length. unfold strlen. lia. Qed.

Lemma read_put_spec (junk max h t : Z) (key val : list Z) (sock s : list arrival)
    (buf : list Z) (info : informations) :
  is_byte h → bits_opcode h = opcode_val PUT → -2 ^ 31 <= t < 2 ^ 31 →
  strlen key + strlen val <= 121 → 127 <= max → 129 <= Z.of_nat (length buf) →
  arrives sock (packet h (put_body t key val)) s →
  read_data junk max sock buf info =
    Ok (mkRequestRead 0
          (Some (RPut {| put_header := h; put_ttl := t; put_keylen := strlen key;
                         put_key := key ++ [0]; put_val := val ++ [0] |}))
          s false (buffer_after h (put_body t key val) buf)
          (add_bytes_recv info (6 + strlen key + strlen val))).
Proof.
  intros Hb Ho Ht Hlen Hmax Hbuf Ha. pose proof (put_body_length t key val) as Hl.
  pose proof (strlen_nonneg key). pose proof (strlen_nonneg val).
  rewrite <-Hl. eapply (read_data_whole junk max h (put_body t key val) sock s buf info);
    [by eapply request_header_opcode; [..|left]|lia|lia|done|lia|].
  eapply unpack_request_handler; [done|by left|]. rewrite decide_True by done.
  apply (unpack_put_correct junk [h; Z.of_nat (length (put_body t key val))]); lia.
Qed.

Lemma read_get_spec (junk max h : Z) (o : opcode) (key : list Z) (sock s : list arrival)
    (buf : list Z) (info : informations) :
  is_byte h → bits_opcode h = opcode_val o → o = GET ∨ o = DEL →
  5 <= strlen key <= 127 → 127 <= max → 129 <= Z.of_nat (length buf) →
  arrives sock (packet h key) s →
  read_data junk max sock buf info =
    Ok (mkRequestRead 0 (Some (RGet {| get_header := h; get_key := key ++ [0] |}))
          s false (buffer_after h key buf) (add_bytes_recv info (strlen key))).
Proof.
  intros Hb Ho Hcase Hlen Hmax Hbuf Ha. unfold strlen in Hlen.
  assert (o = PUT ∨ o = GET ∨ o = DEL) as Hc3 by by right.
  eapply (read_data_whole junk max h key sock s buf info);
    [by eapply request_header_opcode|lia|lia|done|lia|].
  eapply unpack_request_handler; [done|done|].
  rewrite decide_False by (by destruct Hcase as [->| ->]).
  change (Z.of_nat (length key)) with (strlen key).
  rewrite (unpack_get_correct junk [h; strlen key]) by (unfold strlen; lia).
  rewrite decide_True; [done|unfold strlen; lia].
Qed.

(** ** Writing to a socket *)

Lemma send_loop_accepts ns s buf total :
  (total <= length buf)%nat →
  ∃ ns', send_loop ((Accept <$> ns) ++ s) buf total =
      send_loop ((Accept <$> ns') ++ s) buf (Nat.min (total + sum_list ns) (length buf)) ∧
    ((total + sum_list ns < length buf)%nat → ns' = []).
Proof.
  revert total. induction ns as [|n ns IH]; intros total Ht; cbn [fmap list_fmap app sum_list].
  - exists []. split; [|done]. rewrite Nat.add_0_r, Nat.min_l by lia. done.
  - change (id n) with n. destruct (Nat.ltb_spec total (length buf)).
    + destruct (IH (total + Nat.min n (length buf - total))%nat) as (ns' & IH1 & IH2); [lia|].
      exists ns'. cbn [send_loop]. destruct (Nat.ltb_spec total (length buf)); [|lia].
      rewrite IH1. split; [f_equal; lia|]. intros. apply IH2. lia.
    + exists (n :: ns). split; [|intros; exfalso; lia]. cbn [fmap list_fmap app].
      f_equal. lia.
Qed.

Lemma send_loop_end sock buf total :
  (length buf <= total)%nat → send_loop sock buf total = (sock, take total buf, Z.of_nat total).
Proof.
  intros H. destruct sock; cbn [send_loop]; by destruct (Nat.ltb_spec total (length buf)); [lia|].
Qed.

(** The socket accepts [sum_list ns] bytes and no more for now. *)
Lemma send_bytes_take ns s buf :
  ∃ s', send_bytes ((Accept <$> ns) ++ WAgain :: s) buf =
    (s', take (sum_list ns) buf, Z.of_nat (Nat.min (sum_list ns) (length buf))).
Proof.
  unfold send_bytes. destruct (send_loop_accepts ns (WAgain :: s) buf 0) as (ns' & -> & Hn); [lia|].
  rewrite Nat.add_0_l in *. destruct (decide (length buf <= sum_list ns)%nat).
  - rewrite Nat.min_r, send_loop_end by lia. eexists. by rewrite !take_ge by lia.
  - rewrite Hn, Nat.min_l by lia. cbn [fmap list_fmap app send_loop].
    destruct (Nat.ltb_spec (sum_list ns) (length buf)); [by eexists|lia].
Qed.

(** ** Properties *)

(** C15 a PUT request of up to 127 bytes of body that arrives whole, in any
    pieces, with nothing after it before read would block, is read as it was sent: time to
    live, key and value, whatever the buffer held before, and the statistics count its body.
    The buffer has 129 bytes or more, and requests of 127 bytes are not above the limit.  A
    request that follows at once would lose its first byte to this one
    (pipelined_request_damaged). *)
Theorem read_data_put (junk max h t : Z) (key val : list Z) (sock s : list arrival)
    (buf : list Z) (info : informations) :
  is_byte h → bits_opcode h = opcode_val PUT → -2 ^ 31 <= t < 2 ^ 31 →
  strlen key + strlen val <= 121 → 127 <= max → 129 <= Z.of_nat (length buf) →
  arrives sock (packet h (put_body t key val)) s →
  ∃ buf', read_data junk max sock buf info =
    Ok (mkRequestRead 0
          (Some (RPut {| put_header := h; put_ttl := t; put_keylen := strlen key;
                         put_key := key ++ [0]; put_val := val ++ [0] |}))
          s false buf' (add_bytes_recv info (6 + strlen key + strlen val))).
Proof. intros. eexists. by apply read_put_spec. Qed.

Lemma read_data_put_witness :
  ∃ buf', read_data 0 2097152
    [Data (firstn 3 (packet 16 (put_body (-1) (str "key") (str "value"))));
     Data (skipn 3 (packet 16 (put_body (-1) (str "key") (str "value")))); Again]
    (replicate 200 7) demo_infos =
    Ok (mkRequestRead 0
          (Some (RPut {| put_header := 16; put_ttl := -1; put_keylen := 3;
                         put_key := str "key" ++ [0]; put_val := str "value" ++ [0] |}))
          [] false buf' (add_bytes_recv demo_infos 14)).
Proof.
  apply (read_data_put 0 2097152 16 (-1) (str "key") (str "value"));
    [by split|reflexivity|lia|by vm_compute|lia|rewrite length_replicate; lia|].
  eexists [_; _]. split_and!; cycle 2; [reflexivity|repeat (constructor; [discriminate|]); constructor|reflexivity].
Defined.

(** The second [recv_bytes] asks for one byte more than the packet has left: of a GET that
    follows the PUT at once the first byte is taken and becomes the end of the value, and
    the rest of the GET is no packet. *)
Theorem pipelined_request_damaged :
  ∃ buf info, read_data 0 2097152
    [Data (packet 16 (put_body (-1) (str "key") (str "value")) ++ packet 32 (str "hello")); Again]
    (replicate 200 7) demo_infos =
    Ok (mkRequestRead 0
          (Some (RPut {| put_header := 16; put_ttl := -1; put_keylen := 3;
                         put_key := str "key" ++ [0]; put_val := str "value" ++ [32; 0] |}))
          [Data (skipn 1 (packet 32 (str "hello"))); Again] false buf info).
Proof. eexists _, _. vm_compute. reflexivity. Qed.

(** A GET or DEL request for a key of 5 to 127 characters that arrives whole, with nothing
    after it, is read as it was sent. *)
Theorem read_data_get (junk max h : Z) (o : opcode) (key : list Z) (sock s : list arrival)
    (buf : list Z) (info : informations) :
  is_byte h → bits_opcode h = opcode_val o → o = GET ∨ o = DEL →
  5 <= strlen key <= 127 → 127 <= max → 129 <= Z.of_nat (length buf) →
  arrives sock (packet h key) s →
  ∃ buf', read_data junk max sock buf info =
    Ok (mkRequestRead 0 (Some (RGet {| get_header := h; get_key := key ++ [0] |}))
          s false buf' (add_bytes_recv info (strlen key))).
Proof. intros. eexists. by eapply read_get_spec. Qed.

Lemma read_data_get_witness :
  ∃ buf', read_data 0 2097152 [Data (packet 32 (str "hello")); Again] (replicate 200 7) demo_infos =
    Ok (mkRequestRead 0 (Some (RGet {| get_header := 32; get_key := str "hello" ++ [0] |}))
          [] false buf' (add_bytes_recv demo_infos 5)).
Proof.
  apply (read_data_get 0 2097152 32 GET (str "hello"));
    [by split|reflexivity|by left|by vm_compute|lia|rewrite length_replicate; lia|].
  eexists [_]. split_and!; cycle 2; [reflexivity|repeat (constructor; [discriminate|]); constructor|reflexivity].
Defined.

(** A GET or DEL request for a key of two characters is read with two more,
    the bytes that an earlier request left in the buffer: for a body of at most
    four bytes recv_packet returns the number of bytes of its first read. *)
Theorem read_data_get_stale (junk max h a b x y : Z) (o : opcode) (sock s : list arrival)
    (l1 l2 : list Z) (info : informations) :
  is_byte h → bits_opcode h = opcode_val o → o = GET ∨ o = DEL → 2 <= max →
  length l1 = 4%nat → arrives sock (packet h [a; b]) s →
  ∃ sock' buf', read_data junk max sock (l1 ++ [x; y] ++ l2) info =
    Ok (mkRequestRead 0 (Some (RGet {| get_header := h; get_key := [a; b; x; y; 0] |}))
          sock' false buf' (add_bytes_recv info 4)).
Proof.
  intros Hb Ho Hcase Hmax Hl1 Ha.
  assert (o = PUT ∨ o = GET ∨ o = DEL) as Hc3 by by right.
  destruct (recv_packet_small max 0 h [a; b] sock s (l1 ++ [x; y] ++ l2)) as (sock' & Hr & _);
    [by eapply request_header_opcode|cbn; lia|cbn; lia|done|rewrite length_app; lia|].
  exists sock'. eexists. unfold read_data. rewrite Hr, res_bind_Ok_l.
  cbn [rv_bytes rv_sock rv_closed rv_buf rv_off rv_header].
  change (Z.of_nat (Nat.min 4 (length [a; b] + 2))) with 4. cbn [Z.eqb orb].
  change (Nat.min 4 (length [a; b] + 2)) with 4%nat.
  rewrite <-Hl1, drop_app_length, Hl1. change (take 4 (packet h [a; b])) with [h; 2; a; b].
  rewrite (unpack_request_handler junk _ 2 h 4 o
             (RGet {| get_header := h; get_key := [a; b; x; y] ++ [0] |})); [done|done|done|].
  rewrite decide_False by (by destruct Hcase as [->| ->]).
  apply (unpack_get_correct junk [h; 2] l2 h [a; b; x; y]). done.
Qed.

Lemma read_data_get_stale_witness :
  ∃ sock' buf', read_data 0 2097152 [Data (packet 32 (str "ab")); Again] ([1; 2; 3; 4] ++ [5; 6] ++ replicate 9 7)
      demo_infos =
    Ok (mkRequestRead 0 (Some (RGet {| get_header := 32; get_key := [97; 98; 5; 6; 0] |}))
          sock' false buf' (add_bytes_recv demo_infos 4)).
Proof.
  apply (read_data_get_stale 0 2097152 32 97 98 5 6 GET _ [] [1; 2; 3; 4]);
    [by split|reflexivity|by left|lia|reflexivity|].
  eexists [_]. split_and!; cycle 2; [reflexivity|repeat (constructor; [discriminate|]); constructor|reflexivity].
Defined.

(** A packet of 5 to 127 bytes of body of which only the first [k] bytes have
    arrived is taken for complete: the result is [k - 2] instead of the length
    of the body, and about 2^32 when less than six bytes have arrived, because
    the subtraction of unsigned numbers wraps around. *)
Theorem recv_packet_truncated (max hdr0 h : Z) (body : list Z) (sock s : list arrival)
    (buf : list Z) (k : nat) :
  request_header h → Z.of_nat (length body) <= max → (5 <= length body <= 127)%nat →
  (4 <= k < length body + 2)%nat → arrives sock (take k (packet h body)) s →
  (length body + 2 <= length buf)%nat →
  recv_packet max sock buf hdr0 =
    Ok (mkReceived s false (take k (packet h body) ++ drop k buf) h 2
          (if decide (6 <= k)%nat then Z.of_nat k - 2 else 2 ^ 32 + Z.of_nat k - 2)).
Proof. intros. apply recv_packet_part; (done || lia). Qed.

Lemma recv_packet_truncated_witness :
  recv_packet 2097152 [Data [32; 5; 104; 101]; Again; Data (str "llo")] (replicate 9 7) 0 =
    Ok (mkReceived [Data (str "llo")] false [32; 5; 104; 101; 7; 7; 7; 7; 7] 32 2 4294967298).
Proof.
  apply (recv_packet_truncated 2097152 0 32 (str "hello") _ [Data (str "llo")] (replicate 9 7) 4);
    [by split|by vm_compute|cbn; lia|cbn; lia| |cbn; lia].
  eexists [_]. split_and!; cycle 2; [reflexivity|repeat (constructor; [discriminate|]); constructor|reflexivity].
Defined.

(** A packet whose body has 128 bytes or more (here below 2^14) is not received
    as it was sent: after the first four bytes the rest is stored two bytes
    behind its place, the result is one less than the length of the body, and
    the last byte stays in the socket, in front of the next packet. *)
Theorem recv_packet_displaced (max hdr0 h : Z) (body : list Z) (sock s : list arrival)
    (buf : list Z) :
  request_header h → Z.of_nat (length body) <= max →
  128 <= Z.of_nat (length body) < 2 ^ 14 → arrives sock (packet h body) s →
  (length body + 4 <= length buf)%nat →
  ∃ sock', recv_packet max sock buf hdr0 =
      Ok (mkReceived sock' false
            (take 4 (packet h body) ++ take 2 (drop 4 buf)
               ++ take (length body - 2) (drop 1 body) ++ drop (length body + 4) buf)
            h 3 (Z.of_nat (length body) - 1)) ∧
    arrives sock' (drop (length body - 1) body) s.
Proof. intros. apply recv_packet_large; (done || lia). Qed.

Lemma recv_packet_displaced_witness :
  ∃ sock', recv_packet 2097152 [Data (packet 32 (replicate 128 97)); Again] (replicate 140 7) 0 =
      Ok (mkReceived sock' false
            ([32; 128; 1; 97] ++ [7; 7] ++ replicate 126 97 ++ replicate 8 7) 32 3 127) ∧
    arrives sock' [97] [].
Proof.
  apply (recv_packet_displaced 2097152 0 32 (replicate 128 97) _ [] (replicate 140 7));
    [by split|rewrite length_replicate; lia|rewrite length_replicate; lia
    | |rewrite !length_replicate; lia].
  eexists [_]. split_and!; cycle 2; [reflexivity|repeat (constructor; [discriminate|]); constructor|].
  apply app_nil_r.
Defined.

(** Send_bytes hands the bytes to the socket in order and none twice: all of
    them when the socket accepts that many, and it returns their number; when the
    socket has accepted [sum_list ns] of them and then would block, those and
    their number, and -1 after an error. *)
Theorem send_bytes_correct (ns : list nat) (s : list acceptance) (buf : list Z) :
  if decide (length buf <= sum_list ns)%nat then
    ∃ s', send_bytes ((Accept <$> ns) ++ s) buf = (s', buf, strlen buf)
  else
    send_bytes ((Accept <$> ns) ++ WAgain :: s) buf =
      (s, take (sum_list ns) buf, Z.of_nat (sum_list ns)) ∧
    send_bytes ((Accept <$> ns) ++ WFail :: s) buf = (s, take (sum_list ns) buf, -1).
Proof.
  unfold send_bytes. case_decide as Hd.
  - destruct (send_loop_accepts ns s buf 0) as (ns' & -> & _); [lia|].
    rewrite Nat.min_r by lia. eexists. rewrite send_loop_end, take_ge by lia. done.
  - destruct (send_loop_accepts ns (WAgain :: s) buf 0) as (ns1 & -> & H1); [lia|].
    destruct (send_loop_accepts ns (WFail :: s) buf 0) as (ns2 & -> & H2); [lia|].
    rewrite H1, H2, Nat.min_l, Nat.add_0_l by lia. cbn [fmap list_fmap app send_loop].
    by destruct (Nat.ltb_spec (sum_list ns) (length buf)); [|lia].
Qed.
