(* ===== verification/Peer.v ===== *)
(** * Packets from other nodes: unpack_triedb_response of src/protocol.c and
    read_packet of src/server.c

    The array of tuples of a join response is a block of bytes: [unpack] writes the
    characters of a key to the place of the pointer [key] of the tuple. *)

From S2P Require Import Prelude Util Config Store Bst Vec Trie Pack Db Protocol.

(** ** Data *)

(** [union triedb_packet]; a response that no function has filled in has no value. *)
Inductive triedb_packet : Type :=
| PktRequest (r : triedb_request)
| PktResponse (r : option triedb_response).

(** ** Operations *)

(** [struct tuple]: a time to live and a key length, the pointers at 8 and 16. *)
Definition KEY_OFFSET : Z := 8.
Definition VAL_OFFSET : Z := 16.

(** [unpack(raw, "H", &len); sprintf(fmt, "%ds", len); unpack(raw, fmt, tuples + at)]
    with [char fmt[5]]; [raw] is where the response starts, in every round. *)
Definition unpack_field (raw : list Z) (off : Z) (tuples : list Z) (at' : Z) : res (list Z) :=
  vs ← unpack raw off (str "H") [PNum];
  match vs with
  | [VNum _ len] =>
      fmt ← sprintf_buf 5 (sprintf_d (s32 len) ++ str "s");
      vs ← unpack raw off fmt [PStr (drop (Z.to_nat at') tuples)];
      match vs with
      | [VStr d] => mret (take (Z.to_nat at') tuples ++ d)
      | _ => Err BadArgument
      end
  | _ => Err BadArgument
  end.

(** The loop over the tuples: index [i], [n] rounds to go. *)
Fixpoint join_res_loop (n : nat) (raw : list Z) (off : Z) (i : Z) (tuples : list Z)
  : res (list Z) :=
  match n with
  | O => Ok tuples
  | S n =>
      tuples ← unpack_field raw off tuples (i * SIZEOF_TUPLE + KEY_OFFSET);
      tuples ← unpack_field raw off tuples (i * SIZEOF_TUPLE + VAL_OFFSET);
      join_res_loop n raw off (i + 1) tuples
  end.

(** The response is built in a new block that is not stored in [pkt] ([None]); the
    second component is the array of tuples of that block. *)
Definition unpack_triedb_join_res (junk : Z) (raw : list Z) (off : Z) (hdr : header) (len : Z)
  : res (option triedb_response * list Z * Z) :=
  vs ← unpack raw off (str "H") [PNum];
  match vs with
  | [VNum _ n] =>
      let tuples_len := u16 n in
      tuples ← new_block junk (u64 (SIZEOF_TUPLE * tuples_len));
      tuples ← join_res_loop (Z.to_nat tuples_len) raw off 0 tuples;
      mret (None, tuples, len)
  | _ => Err BadArgument
  end.

Definition unpack_triedb_response (junk : Z) (raw : list Z) (off opcode len : Z)
  : res (option triedb_response * Z) :=
  let header := opcode in
  '(pkt, _, rc) ← unpack_triedb_join_res junk raw off header len;
  mret (pkt, s32 rc).

(** The packet is a request when bit 7 of its header is set. *)
Definition read_packet (junk : Z) (buffer : list Z) : res (triedb_packet * Z) :=
  header ← aget buffer 0;
  '(bytes, pos) ← decode_length buffer 1;
  if Z.land (Z.shiftr header 7) 1 =? 1 then
    '(req, _) ← unpack_triedb_request junk buffer (1 + pos) header bytes;
    mret (PktRequest req, 0)
  else
    '(res, _) ← unpack_triedb_response junk buffer (1 + pos) header bytes;
    mret (PktResponse res, 0).

(** [tuples] and [response] are the addresses of the blocks. *)
Definition get_response_destroy (m : mem) (hdr : header) (tuples response : Z) : res mem :=
  m ← (if bits_prefix hdr =? 1 then tfree m (Some tuples) else Ok m);
  tfree m (Some response).

Definition join_response_destroy (m : mem) (tuples response : Z) : res mem :=
  m ← tfree m (Some tuples);
  tfree m (Some response).

(** ** Join responses *)

Lemma loads_cases (l : list Z) (i : Z) (n : nat) :
  0 <= i →
  (∃ bs, loads l i n = Ok bs ∧ length bs = n) ∨
  loads l i n = Err OutOfBounds ∧ Z.of_nat (length l) < i + Z.of_nat n.
Proof.
  revert i. induction n as [|n IH]; intros i Hi; cbn [loads]; [left; by exists []|].
  unfold aget at 1 2. destruct (Z.ltb_spec i 0); [lia|].
  destruct (l !! Z.to_nat i) as [b|] eqn:Hb; [|right; apply lookup_ge_None in Hb; split; [done|lia]].
  cbn [mbind res_bind].
  destruct (IH (i + 1)) as [(bs & -> & <-)|[-> ?]]; [lia|left; by exists (b :: bs)|right].
  split; [done|lia].
Qed.

(** A string of [n] characters goes into a block that has more than [n] bytes and to
    no other. *)
Lemma unpack_string_cases (raw d : list Z) (off n : Z) :
  0 <= off → 0 <= n < 2 ^ 32 →
  (∃ d', unpack raw off (print_dec n ++ str "s") [PStr d] = Ok [VStr d'] ∧
         length d' = length d ∧ n < Z.of_nat (length d)) ∨
  unpack raw off (print_dec n ++ str "s") [PStr d] = Err OutOfBounds ∧
    (Z.of_nat (length raw) < off + n ∨ Z.of_nat (length d) <= n).
Proof.
  intros Ho Hn.
  assert (unpack raw off (print_dec n ++ str "s") [PStr d] = unpack_loop raw off [115] [PStr d] n)
    as ->.
  { unfold unpack. change 0 with (u32 0) at 1.
    rewrite unpack_loop_digits by (apply print_dec_Forall; lia).
    change (dec_from 0 (print_dec n)) with (dec_val (print_dec n)).
    by rewrite print_dec_val, u32_small by lia. }
  cbn [unpack_loop Z.eqb Pos.eqb va_dst mbind res_bind].
  destruct (loads_cases raw off (Z.to_nat n) Ho) as [(bs & -> & Hbs)|[-> ?]];
    [|right; split; [done|lia]].
  cbn [mbind res_bind]. rewrite stores_spec by lia.
  case_decide as Hd; [|right; split; [done|apply Decidable.not_or in Hd; lia]].
  cbn [mbind res_bind]. assert (length (splice d (Z.to_nat 0) bs) = length d) as Hl.
  { destruct Hd as [->|Hd]; [|apply splice_length; lia].
    unfold splice. rewrite !length_app, length_take, length_drop. cbn. lia. }
  unfold aset. rewrite Hl. destruct (Z.leb_spec 0 n); [|lia].
  destruct (Z.ltb_spec n (Z.of_nat (length d))); [left|right; split; [done|lia]].
  eexists. split; [done|]. by rewrite length_insert.
Qed.

Section join_response.
Context (l1 l2 : list Z) (n : Z) (Hn : 0 <= n < 2 ^ 16).
Local Abbreviation raw := (l1 ++ be_bytes 2 n ++ l2).
Local Abbreviation off := (Z.of_nat (length l1)).

Lemma unpack_count : unpack raw off (str "H") [PNum] = Ok [VNum 4 n].
Proof.
  pose proof (unpack_items [U16 n] l1 l2 off [PNum] eq_refl) as H.
  unfold items_bytes in H. cbn [mbind list_bind item_bytes] in H. rewrite app_nil_r in H.
  apply H; [|by repeat constructor]. repeat constructor; cbn [item_ok]; lia.
Qed.

(** Whatever the place, the length that is read is the number of tuples. *)
Lemma unpack_field_cases tuples at' :
  0 <= at' <= Z.of_nat (length tuples) →
  (∃ tuples', unpack_field raw off tuples at' = Ok tuples' ∧ length tuples' = length tuples ∧
              at' + n < Z.of_nat (length tuples)) ∨
  unpack_field raw off tuples at' = Err OutOfBounds ∧
    (1000 <= n ∨ 2 + Z.of_nat (length l2) < n ∨ Z.of_nat (length tuples) <= at' + n).
Proof.
  intros Hat. unfold unpack_field. rewrite unpack_count, res_bind_Ok_l.
  assert (s32 n = n) as -> by (unfold s32; zdiv_lia). rewrite sprintf_d_nonneg by lia.
  unfold sprintf_buf. rewrite strlen_app. change (strlen (str "s")) with 1.
  destruct (Z.leb_spec (strlen (print_dec n) + 1 + 1) 5) as [Hl|Hl].
  - rewrite res_bind_Ok_l.
    destruct (unpack_string_cases raw (drop (Z.to_nat at') tuples) off n)
      as [(d & -> & Hd & Hlt)|[-> Hf]]; [lia..| |]; rewrite ?length_drop in *.
    + left. eexists. split; [done|]. rewrite length_app, length_take. lia.
    + right. split; [done|]. rewrite !length_app, be_bytes_length in Hf. lia.
  - right. split; [done|]. left. destruct (Z.lt_ge_cases n 1000); [|done].
    pose proof (print_dec_length n 2 ltac:(lia)). lia.
Qed.

(** The last string that the loop stores begins eight bytes before the end of the array. *)
Lemma join_res_loop_overflow k i tuples :
  0 <= i → Z.of_nat (length tuples) = SIZEOF_TUPLE * (i + Z.of_nat (S k)) → 8 <= n →
  join_res_loop (S k) raw off i tuples = Err OutOfBounds.
Proof.
  unfold SIZEOF_TUPLE. revert i tuples. induction k as [|k IH]; intros i tuples Hi Hlen H8;
    cbn [join_res_loop]; unfold SIZEOF_TUPLE, KEY_OFFSET, VAL_OFFSET.
  all: destruct (unpack_field_cases tuples (i * 24 + 8)) as [(t1 & -> & Hl1 & _)|[-> _]]; [lia| |done].
  all: rewrite res_bind_Ok_l;
    destruct (unpack_field_cases t1 (i * 24 + 16)) as [(t2 & -> & Hl2 & Hlt)|[-> _]]; [lia| |done].
  - lia.
  - rewrite res_bind_Ok_l. apply IH; lia.
Qed.

Lemma join_res_loop_small k i tuples :
  0 <= i → Z.of_nat (length tuples) = SIZEOF_TUPLE * (i + Z.of_nat k) →
  n <= 7 → n <= 2 + Z.of_nat (length l2) →
  ∃ tuples', join_res_loop k raw off i tuples = Ok tuples'.
Proof.
  revert i tuples. induction k as [|k IH]; intros i tuples Hi Hlen H7 Hl2;
    cbn [join_res_loop]; unfold SIZEOF_TUPLE, KEY_OFFSET, VAL_OFFSET in *; [by eexists|].
  destruct (unpack_field_cases tuples (i * 24 + 8)) as [(t1 & -> & Hl1 & _)|[_ ?]]; [lia| |lia].
  rewrite res_bind_Ok_l.
  destruct (unpack_field_cases t1 (i * 24 + 16)) as [(t2 & -> & Ht2 & _)|[_ ?]]; [lia| |lia].
  rewrite res_bind_Ok_l. apply IH; lia.
Qed.
End join_response.

(** The two halves of a time to live. *)
Lemma be_bytes_halves t : be_bytes 4 t = be_bytes 2 (u16 (t / 2 ^ 16)) ++ be_bytes 2 t.
Proof.
  rewrite (be_bytes_congr 2 (u16 (t / 2 ^ 16)) (t / 256 / 256)).
  - cbn [be_bytes app]. by rewrite !Z.div_div by lia.
  - change (256 ^ Z.of_nat 2) with 65536. unfold u16. rewrite Z.mod_mod, Z.div_div by lia. done.
Qed.

(** The header and the length of a packet. *)
Lemma packet_head byte body l2 junk :
  Z.of_nat (length body) < 2 ^ 28 →
  let l1 := byte :: len_bytes 4 (Z.of_nat (length body)) in
  read_packet junk (packet byte body ++ l2) =
    if Z.land (Z.shiftr byte 7) 1 =? 1 then
      '(req, _) ← unpack_triedb_request junk (l1 ++ body ++ l2) (Z.of_nat (length l1)) byte
                    (Z.of_nat (length body));
      mret (PktRequest req, 0)
    else
      '(res, _) ← unpack_triedb_response junk (l1 ++ body ++ l2) (Z.of_nat (length l1)) byte
                    (Z.of_nat (length body));
      mret (PktResponse res, 0).
Proof.
  intros Hl l1. unfold read_packet, packet.
  change (aget ((byte :: len_bytes 4 (Z.of_nat (length body)) ++ body) ++ l2) 0) with (Ok byte).
  rewrite res_bind_Ok_l.
  replace ((byte :: len_bytes 4 (Z.of_nat (length body)) ++ body) ++ l2)
    with ([byte] ++ len_bytes 4 (Z.of_nat (length body)) ++ body ++ l2)
    by (cbn; by rewrite <-!(assoc_L (++))).
  rewrite decode_length_app, res_bind_Ok_l by (done || lia).
  replace (1 + Z.of_nat (length (len_bytes 4 (Z.of_nat (length body)))))
    with (Z.of_nat (length l1)) by (unfold l1; rewrite length_cons; lia). done.
Qed.

Lemma unpack_ack_number junk l1 n l2 h len :
  unpack_triedb_ack junk (l1 ++ be_bytes 2 n ++ l2) (Z.of_nat (length l1)) h len =
    Ok (RAck (mkAck h (n mod 256))).
Proof.
  unfold unpack_triedb_ack.
  pose proof (unpack_items [U8 (n / 256 mod 256); U8 (n mod 256)] l1 l2 (Z.of_nat (length l1))
    [PNum; PNum] eq_refl) as H.
  unfold items_bytes in H. cbn [mbind list_bind item_bytes be_bytes app] in H.
  rewrite !Z.mod_mod in H by lia. cbn [be_bytes app].
  change (items_ufmt _) with (str "BB") in H. rewrite H; [done| |by repeat constructor].
  repeat constructor; cbn [item_ok]; zdiv_lia.
Qed.

Lemma high_bit byte :
  is_byte byte →
  (bits_opcode byte = opcode_val JOIN → Z.land (Z.shiftr byte 7) 1 = 1) ∧
  (bits_opcode byte = opcode_val PUT → Z.land (Z.shiftr byte 7) 1 = 0).
Proof.
  apply (byte_cases (λ b, (bits_opcode b = opcode_val JOIN → Z.land (Z.shiftr b 7) 1 = 1) ∧
                          (bits_opcode b = opcode_val PUT → Z.land (Z.shiftr b 7) 1 = 0))).
  by vm_compute.
Qed.

(** ** Properties *)

(** The outcome of unpacking a response that begins with the number [n] of its tuples:
    an assertion fails without tuples, an array is overrun from eight tuples on, and
    with less the function returns and the caller's response has no value. *)
Theorem unpack_response_cases junk l1 l2 n opcode len :
  0 <= n < 2 ^ 16 → (n < 8 → n <= 2 + Z.of_nat (length l2)) →
  unpack_triedb_response junk (l1 ++ be_bytes 2 n ++ l2) (Z.of_nat (length l1)) opcode len =
    if n =? 0 then Err AssertFailed
    else if n <? 8 then Ok (None, s32 len) else Err OutOfBounds.
Proof.
  intros Hn Hl2. unfold unpack_triedb_response, unpack_triedb_join_res.
  rewrite unpack_count, res_bind_Ok_l, u16_small by lia. unfold SIZEOF_TUPLE.
  rewrite u64_small by lia. destruct (Z.eqb_spec n 0) as [->|Hn0]; [done|].
  rewrite new_block_ok, res_bind_Ok_l by (unfold PTRDIFF_MAX; lia).
  set (tuples := replicate (Z.to_nat (24 * n)) junk).
  assert (Z.of_nat (length tuples) = SIZEOF_TUPLE * (0 + Z.of_nat (Z.to_nat n))) as Hlen
    by (unfold tuples, SIZEOF_TUPLE; rewrite length_replicate; lia).
  destruct (Z.ltb_spec n 8).
  - destruct (join_res_loop_small l1 l2 n Hn (Z.to_nat n) 0 tuples) as [t ->]; [lia..|]. done.
  - destruct (Z.to_nat n) as [|k] eqn:Hk; [lia|].
    rewrite join_res_loop_overflow by lia. done.
Qed.

Lemma unpack_response_cases_witness :
  unpack_triedb_response 0 ([242; 10] ++ be_bytes 2 8 ++ str "12345678") 2 242 10 = Err OutOfBounds.
Proof. apply (unpack_response_cases 0 [242; 10] (str "12345678") 8 242 10); [lia|cbn; lia]. Defined.

(** Read_packet takes the highest bit of the operation code for the flag of requests,
    so that both kinds of packet between nodes are taken for the other one.  A JOIN
    response is unpacked as a request, with the low byte of the number of its tuples as
    return code and the tuples lost; and a PUT whose time to live is below 2^16, in
    particular none, is unpacked as a response, which faults. *)
Theorem read_packet_confused junk bj ts bp t key val l2 :
  is_byte bj → bits_opcode bj = opcode_val JOIN → is_byte bp → bits_opcode bp = opcode_val PUT →
  Z.of_nat (length (prefix_body ts)) < 2 ^ 28 →
  -2 ^ 31 <= t < 2 ^ 16 → Z.of_nat (length (put_body t key val)) < 2 ^ 28 →
  read_packet junk (packet bj (prefix_body ts) ++ l2) =
    Ok (PktRequest (RAck (mkAck bj (Z.of_nat (length ts) mod 256))), 0) ∧
  read_packet junk (packet bp (put_body t key val) ++ l2) =
    Err (if 0 <=? t then AssertFailed else OutOfBounds).
Proof.
  intros Hbj Hj Hbp Hp Hl1 Ht Hl2. split; rewrite packet_head by done.
  - rewrite (proj1 (high_bit bj Hbj) Hj). cbn [Z.eqb Pos.eqb]. unfold unpack_triedb_request.
    rewrite Hj.
    change (aget unpack_handlers (opcode_val JOIN)) with (Ok (Some unpack_triedb_join)).
    rewrite res_bind_Ok_l. cbn [deref]. rewrite res_bind_Ok_l. unfold unpack_triedb_join.
    assert (prefix_body ts ++ l2 = be_bytes 2 (Z.of_nat (length ts)) ++ tuples_bytes ts ++ l2) as ->
      by (unfold prefix_body; by rewrite <-(assoc_L (++))).
    by rewrite unpack_ack_number.
  - rewrite (proj2 (high_bit bp Hbp) Hp). cbn [Z.eqb]. unfold put_body. rewrite be_bytes_halves.
    rewrite <-!(assoc_L (++)).
    destruct (Z.leb_spec 0 t) as [Ht0|Ht0].
    + assert (u16 (t / 2 ^ 16) = 0) as -> by (unfold u16; rewrite Z.div_small; done || lia).
      by rewrite unpack_response_cases by lia.
    + assert (8 <= u16 (t / 2 ^ 16) < 2 ^ 16) as Hu by (unfold u16; zdiv_lia).
      rewrite unpack_response_cases by lia.
      destruct (Z.eqb_spec (u16 (t / 2 ^ 16)) 0); [lia|].
      by destruct (Z.ltb_spec (u16 (t / 2 ^ 16)) 8); [lia|].
Qed.

Lemma read_packet_confused_witness :
  read_packet 0 (packet 0xf0 (prefix_body [mkTuple 7 1 (str "k") (str "v")]) ++ []) =
    Ok (PktRequest (RAck (mkAck 0xf0 1)), 0) ∧
  read_packet 0 (packet 0x10 (put_body (-1) (str "k") (str "v")) ++ []) = Err OutOfBounds.
Proof.
  apply (read_packet_confused 0 0xf0 [mkTuple 7 1 (str "k") (str "v")] 0x10 (-1) (str "k")
    (str "v") []);
    [unfold is_byte; lia|done|unfold is_byte; lia|done|vm_compute; done|lia|vm_compute; done].
Defined.
