(* ===== verification/Lists.v ===== *)
(** * Linked lists: src/list.c, src/list.h

    The nodes live in a heap, a finite map from addresses to nodes; a pointer is
    [None] (NULL) or an address, a released node is no longer in the heap.  The
    address that [tmalloc] returns is a parameter of the operations that
    allocate.  Loops and recursions over a chain take [fuel]; the theorems give
    the amount that is enough. *)

From S2P Require Import Prelude.

(** ** Data *)

Record list_node (A : Type) : Type := mkLNode { ndata : A; nnext : option Z }.
Arguments mkLNode {A} ndata nnext.
Arguments ndata {A} n : rename.
Arguments nnext {A} n : rename.

(** [List], without the destructor, which is an argument of [list_destroy]. *)
Record List : Type := mkList { lhead : option Z; ltail : option Z; llen : Z }.

Section Lists.
  Context {A : Type}.

Abbreviation heap := (gmap Z (list_node A)).
Implicit Types (h : heap) (L : List) (p q : option Z).

(** ** Operations *)

(** [*p]: a null pointer, a released node, or the node. *)
Definition load (h : heap) (p : option Z) : res (list_node A) :=
  match p with
  | None => Err NullDeref
  | Some a => match h !! a with Some n => Ok n | None => Err UseAfterFree end
  end.

(** [p->next = q]. *)
Definition store_next (h : heap) (p q : option Z) : res heap :=
  match p with
  | None => Err NullDeref
  | Some a =>
      match h !! a with
      | Some n => Ok (<[a := mkLNode (ndata n) q]> h)
      | None => Err UseAfterFree
      end
  end.

(** [tfree(p)] of a node. *)
Definition free_node (h : heap) (p : option Z) : res heap :=
  match p with
  | None => Ok h
  | Some a => match h !! a with Some _ => Ok (delete a h) | None => Err UseAfterFree end
  end.

Definition list_new : List := {| lhead := None; ltail := None; llen := 0 |}.

(** The loop of [list_destroy] and [list_clear]: [n] rounds from [p] on. *)
Fixpoint free_loop (destroy : heap → option Z → res heap) (n : nat) (h : heap)
    (p : option Z) : res heap :=
  match n with
  | O => Ok h
  | S n =>
      node ← load h p;
      h ← destroy h p;
      free_loop destroy n h (nnext node)
  end.

(** The heap after the call; a destructor, when there is one, releases a node. *)
Definition list_destroy (destructor : option (heap → option Z → res heap)) (h : heap)
    (L : List) : res heap :=
  free_loop (default free_node destructor) (Z.to_nat (llen L)) h (lhead L).

Definition list_size (L : List) : Z := llen L.

Definition list_clear (h : heap) (L : List) : res (heap * List) :=
  match lhead L with
  | None => Ok (h, L)
  | Some _ =>
      h ← free_loop free_node (Z.to_nat (llen L)) h (lhead L);
      mret (h, {| lhead := None; ltail := None; llen := 0 |})
  end.

Definition list_attach (L : List) (head : option Z) (len : Z) : List :=
  {| lhead := head; ltail := ltail L; llen := len |}.

Definition list_push (h : heap) (L : List) (new_node : Z) (val : A) : heap * List :=
  if llen L =? 0 then
    (<[new_node := mkLNode val None]> h,
     {| lhead := Some new_node; ltail := Some new_node; llen := u64 (llen L + 1) |})
  else
    (<[new_node := mkLNode val (lhead L)]> h,
     {| lhead := Some new_node; ltail := ltail L; llen := u64 (llen L + 1) |}).

Definition list_push_back (h : heap) (L : List) (new_node : Z) (val : A)
  : res (heap * List) :=
  let h := <[new_node := mkLNode val None]> h in
  if llen L =? 0 then
    mret (h, {| lhead := Some new_node; ltail := Some new_node; llen := u64 (llen L + 1) |})
  else
    h ← store_next h (ltail L) (Some new_node);
    mret (h, {| lhead := lhead L; ltail := Some new_node; llen := u64 (llen L + 1) |}).

(** [matches d] is [cmp(head, node) == 0] for a node with data [d]. *)
Fixpoint list_node_remove (fuel : nat) (matches : A → bool) (h : heap)
    (head : option Z) (counter : Z) : res (heap * option Z * Z) :=
  match head, fuel with
  | None, _ => Ok (h, None, counter)
  | Some _, O => Err OutOfFuel
  | Some _, S fuel =>
      node ← load h head;
      if matches (ndata node) then
        let tmp_next := nnext node in
        h ← free_node h head;
        mret (h, tmp_next, counter + 1)
      else
        '(h, next, counter) ← list_node_remove fuel matches h (nnext node) counter;
        h ← store_next h head next;
        mret (h, head, counter)
  end.

Definition list_remove (fuel : nat) (matches : A → bool) (h : heap) (L : List)
  : res (heap * List) :=
  '(h, head, counter) ← list_node_remove fuel matches h (lhead L) 0;
  mret (h, {| lhead := head; ltail := ltail L; llen := u64 (llen L - counter) |}).

Fixpoint list_remove_single_node (fuel : nat) (matches : A → bool) (h : heap)
    (head ret : option Z) : res (heap * option Z * option Z) :=
  match head, fuel with
  | None, _ => Ok (h, None, ret)
  | Some _, O => Err OutOfFuel
  | Some _, S fuel =>
      node ← load h head;
      if matches (ndata node) && bool_decide (ret = None) then
        mret (h, nnext node, head)
      else
        '(h, next, ret) ← list_remove_single_node fuel matches h (nnext node) ret;
        h ← store_next h head next;
        mret (h, head, ret)
  end.

(** The new head that [list_remove_single_node] returns is not stored. *)
Definition list_remove_node (fuel : nat) (matches : A → bool) (h : heap) (L : List)
  : res (heap * List * option Z) :=
  if llen L =? 0 then Ok (h, L, None)
  else
    '(h, _, node) ← list_remove_single_node fuel matches h (lhead L) None;
    match node with
    | Some _ =>
        h ← store_next h node None;
        mret (h, {| lhead := lhead L; ltail := ltail L; llen := u64 (llen L - 1) |}, node)
    | None => mret (h, L, None)
    end.

(** The loop of [bisect_list]. *)
Fixpoint bisect_loop (fuel : nat) (h : heap) (fast slow prev : option Z)
  : res (option Z * option Z) :=
  match fast with
  | None => Ok (slow, prev)
  | Some _ =>
      f ← load h fast;
      match nnext f, fuel with
      | None, _ => Ok (slow, prev)
      | Some _, O => Err OutOfFuel
      | Some _, S fuel =>
          f2 ← load h (nnext f);
          s ← load h slow;
          bisect_loop fuel h (nnext f2) (nnext s) slow
      end
  end.

Definition bisect_list (fuel : nat) (h : heap) (head : option Z)
  : res (heap * option Z) :=
  '(slow, prev) ← bisect_loop fuel h head head None;
  match prev with
  | None => mret (h, slow)
  | Some _ => h ← store_next h prev None; mret (h, slow)
  end.

(** [tail] is [None] while it points to [dummy_head]; [first] is
    [dummy_head.next]. *)
Definition link (h : heap) (first tail q : option Z) : res (heap * option Z) :=
  match tail with
  | None => Ok (h, q)
  | Some _ => h ← store_next h tail q; mret (h, first)
  end.

Section sort.
Context (cmp_func : A → A → Z).

Fixpoint merge_loop (fuel : nat) (h : heap) (first tail list1 list2 : option Z)
  : res (heap * option Z) :=
  match list1, list2 with
  | Some _, Some _ =>
      match fuel with
      | O => Err OutOfFuel
      | S fuel =>
          n1 ← load h list1;
          n2 ← load h list2;
          if cmp_func (ndata n1) (ndata n2) <=? 0 then
            '(h, first) ← link h first tail list1;
            merge_loop fuel h first list1 (nnext n1) list2
          else
            '(h, first) ← link h first tail list2;
            merge_loop fuel h first list2 list1 (nnext n2)
      end
  | Some _, None => link h first tail list1
  | None, _ => link h first tail list2
  end.

Definition merge_list (fuel : nat) (h : heap) (list1 list2 : option Z)
  : res (heap * option Z) := merge_loop fuel h None None list1 list2.

(** The calls of the two halves are evaluated left to right here; they change
    disjoint parts of the heap. *)
Fixpoint list_merge_sort (fuel : nat) (h : heap) (head : option Z)
  : res (heap * option Z) :=
  match head with
  | None => Ok (h, None)
  | Some _ =>
      n ← load h head;
      match nnext n, fuel with
      | None, _ => Ok (h, head)
      | Some _, O => Err OutOfFuel
      | Some _, S fuel =>
          '(h, list2) ← bisect_list (S fuel) h head;
          '(h, s1) ← list_merge_sort fuel h head;
          '(h, s2) ← list_merge_sort fuel h list2;
          merge_list (S fuel) h s1 s2
      end
  end.
End sort.

(** ** Specification *)

(** The nodes of [l], each an address and its data, linked from [p] to [q]. *)
Fixpoint lseg (h : heap) (p : option Z) (l : list (Z * A)) (q : option Z) : Prop :=
  match l with
  | [] => p = q
  | (a, d) :: l => p = Some a ∧ ∃ m, h !! a = Some (mkLNode d m) ∧ lseg h m l q
  end.

(** The heaps agree outside of the addresses of [l]. *)
Definition frame (h h' : heap) (l : list (Z * A)) : Prop :=
  ∀ a, a ∉ l.*1 → h' !! a = h !! a.

(** The list object [L] represents the sequence of nodes [l]. *)
Record list_repr (h : heap) (L : List) (l : list (Z * A)) : Prop := {
  lr_chain : lseg h (lhead L) l None;
  lr_nodup : NoDup l.*1;
  lr_len : llen L = Z.of_nat (length l);
  lr_bound : Z.of_nat (length l) < 2 ^ 64;
  lr_tail : ∀ a, last l.*1 = Some a → ltail L = Some a
}.

(** ** Segments *)

Lemma lseg_app h p l1 l2 q :
  lseg h p (l1 ++ l2) q ↔ ∃ m, lseg h p l1 m ∧ lseg h m l2 q.
Proof.
  revert p. induction l1 as [|[a d] l1 IH]; intros p; cbn; [naive_solver|].
  setoid_rewrite IH. naive_solver.
Qed.

Lemma lseg_frame h h' p l q :
  lseg h p l q → (∀ a, a ∈ l.*1 → h' !! a = h !! a) → lseg h' p l q.
Proof.
  revert p. induction l as [|[a d] l IH]; intros p; cbn; [done|].
  intros (-> & m & Ha & Hl) Hf. split; [done|]. exists m. split.
  - rewrite Hf; [done|]. by left.
  - apply IH; [done|]. intros b Hb. apply Hf. by right.
Qed.

Lemma lseg_disjoint h h' p l q l' :
  lseg h p l q → frame h h' l' → l.*1 ## l'.*1 → lseg h' p l q.
Proof. intros Hl Hf Hd. eapply lseg_frame; [done|]. intros a Ha. apply Hf. set_solver. Qed.

Lemma frame_refl h l : frame h h l.
Proof. by intros a. Qed.

Lemma frame_trans h1 h2 h3 l1 l2 :
  frame h1 h2 l1 → frame h2 h3 l2 → frame h1 h3 (l1 ++ l2).
Proof.
  intros H1 H2 a. rewrite fmap_app, not_elem_of_app. intros [??].
  by rewrite H2, H1.
Qed.

Lemma frame_mono h h' (l l' : list (Z * A)) :
  l ⊆ l' → frame h h' l → frame h h' l'.
Proof.
  intros Hs Hf a Ha. apply Hf. intros (x & -> & Hx)%list_elem_of_fmap. apply Ha.
  apply list_elem_of_fmap. eauto.
Qed.

Lemma load_lseg h a d l q p : lseg h p ((a, d) :: l) q → ∃ m, p = Some a ∧
  load h p = Ok (mkLNode d m) ∧ h !! a = Some (mkLNode d m) ∧ lseg h m l q.
Proof. intros (-> & m & Ha & Hl). exists m. cbn. by rewrite Ha. Qed.

(** A segment whose last node's link is still to be set. *)
Definition open_seg (h : heap) (first tail : option Z) (l : list (Z * A)) : Prop :=
  match tail with
  | None => l = []
  | Some a => ∃ init d q, l = init ++ [(a, d)] ∧ lseg h first init (Some a) ∧
                h !! a = Some (mkLNode d q)
  end.

Lemma link_spec h first tail l q :
  open_seg h first tail l → NoDup l.*1 →
  ∃ h' first', link h first tail q = Ok (h', first') ∧ lseg h' first' l q ∧ frame h h' l.
Proof.
  destruct tail as [a|]; cbn [open_seg link].
  - intros (init & d & q' & -> & Hi & Ha) Hnd. unfold store_next. rewrite Ha.
    eexists _, _. split; [done|]. rewrite fmap_app in Hnd. cbn in Hnd.
    apply NoDup_app in Hnd as (_ & Hnd & _). split.
    + apply lseg_app. exists (Some a). split.
      * eapply lseg_frame; [done|]. intros b Hb. rewrite lookup_insert_ne; [done|].
        intros <-. apply (Hnd a Hb). by left.
      * cbn. split; [done|]. eexists. by rewrite lookup_insert_eq.
    + intros b Hb. rewrite lookup_insert_ne; [done|]. intros <-. apply Hb.
      rewrite fmap_app. set_solver.
  - intros -> _. eexists _, _. split; [done|]. split; [done|apply frame_refl].
Qed.

(** Linking one more node, and linking all that is left. *)
Lemma link_node h first tail l a d m :
  open_seg h first tail l → NoDup l.*1 → h !! a = Some (mkLNode d m) → a ∉ l.*1 →
  ∃ h' first', link h first tail (Some a) = Ok (h', first') ∧
    open_seg h' first' (Some a) (l ++ [(a, d)]) ∧ frame h h' l.
Proof.
  intros Ho Hnd Ha Hl. destruct (link_spec h first tail l (Some a) Ho Hnd)
    as (h' & f' & E & Hs & Hf). exists h', f'. split_and!; [done| |done].
  exists l, d, m. split_and!; [done..|]. by rewrite Hf.
Qed.

Lemma link_rest h first tail l p rest :
  open_seg h first tail l → lseg h p rest None → NoDup (l ++ rest).*1 →
  ∃ h' r, link h first tail p = Ok (h', r) ∧ lseg h' r (l ++ rest) None ∧ frame h h' l.
Proof.
  rewrite fmap_app, NoDup_app. intros Ho Hp (Hnd & Hd & _).
  destruct (link_spec h first tail l p Ho Hnd) as (h' & r & E & Hs & Hf).
  exists h', r. split_and!; [done| |done]. apply lseg_app. exists p. split; [done|].
  eapply lseg_disjoint; [done..|]. set_solver.
Qed.

(** ** Merging *)

Lemma nodup_move (dn l1 l2 : list (Z * A)) x :
  NoDup (dn ++ l1 ++ x :: l2).*1 → NoDup ((dn ++ [x]) ++ l1 ++ l2).*1.
Proof.
  intros H. rewrite <-(assoc_L (++)). cbn [app]. by rewrite (Permutation_middle l1 l2 x).
Qed.

Section sort_lemmas.
Context (cmp_func : A → A → Z).

Definition node_le (x y : Z * A) : Prop := cmp_func x.2 y.2 <= 0.
#[local] Instance node_le_dec x y : Decision (node_le x y).
Proof. unfold node_le. apply _. Defined.

Lemma merge_loop_nil fuel h first tail p1 p2 :
  p1 = None ∨ p2 = None →
  merge_loop cmp_func fuel h first tail p1 p2 =
    link h first tail (match p1 with Some _ => p1 | None => p2 end).
Proof. by destruct fuel, p1, p2; intros [?|?]. Qed.

Lemma merge_loop_spec fuel h first tail list1 list2 dn l1 l2 :
  open_seg h first tail dn → lseg h list1 l1 None → lseg h list2 l2 None →
  NoDup (dn ++ l1 ++ l2).*1 → (length l1 + length l2 <= fuel)%nat →
  ∃ h' r, merge_loop cmp_func fuel h first tail list1 list2 = Ok (h', r) ∧
    lseg h' r (dn ++ list_merge node_le l1 l2) None ∧ frame h h' (dn ++ l1 ++ l2).
Proof.
  revert h first tail list1 list2 dn l1 l2.
  induction fuel as [|fuel IH]; intros h first tail list1 list2 dn l1 l2 Ho H1 H2 Hnd Hf.
  all: destruct l1 as [|[a1 d1] l1].
  1,3: cbn in H1; subst list1; rewrite list_merge_nil_l, merge_loop_nil by by left.
  1,2: destruct (link_rest h first tail dn list2 l2) as (h' & r & -> & Hr & Hfr); [done..|].
  1,2: exists h', r; split_and!; [done..|]; eapply frame_mono; [|done]; clear; set_solver.
  1: cbn in Hf; lia.
  destruct (load_lseg _ _ _ _ _ _ H1) as (m1 & -> & Hl1 & Ha1 & H1').
  destruct l2 as [|[a2 d2] l2].
  { cbn in H2. subst list2. rewrite list_merge_nil_r, merge_loop_nil by by right.
    rewrite app_nil_r in *.
    destruct (link_rest h first tail dn (Some a1) ((a1, d1) :: l1)) as (h' & r & -> & Hr & Hfr);
      [done..|]. exists h', r. split_and!; [done..|]. eapply frame_mono; [|done]. clear. set_solver. }
  destruct (load_lseg _ _ _ _ _ _ H2) as (m2 & -> & Hl2 & Ha2 & H2').
  cbn [merge_loop]. rewrite Hl1, Hl2. cbn [mbind res_bind ndata nnext].
  rewrite list_merge_cons. cbn in Hf. pose proof Hnd as Hnd'.
  rewrite !fmap_app in Hnd'. apply NoDup_app in Hnd' as (Hndd & Hdd & Hnd12).
  apply NoDup_app in Hnd12 as (Hnd1 & Hd12 & _). apply NoDup_cons in Hnd1 as [Hn1 _].
  rewrite !fmap_cons in Hdd. rewrite fmap_cons in Hd12. cbn [fst] in *.
  destruct (Z.leb_spec (cmp_func d1 d2) 0) as [Hle|Hgt].
  - rewrite decide_True by done.
    destruct (link_node h first tail dn a1 d1 m1) as (h1 & f1 & -> & Ho1 & Hfr1);
      [done..|clear -Hdd; set_solver|]. cbn [mbind res_bind].
    destruct (IH h1 f1 (Some a1) m1 (Some a2) (dn ++ [(a1, d1)]) l1 ((a2, d2) :: l2))
      as (h' & r & -> & Hr & Hfr2);
      [done|eapply lseg_disjoint; [done..|clear -Hdd; set_solver]
      |eapply lseg_disjoint; [done..|clear -Hdd; set_solver]|by rewrite <-(assoc_L (++))|cbn; lia|].
    exists h', r. rewrite <-(assoc_L (++)) in Hr. split_and!; [done..|].
    eapply frame_mono; [|exact (frame_trans _ _ _ _ _ Hfr1 Hfr2)]. clear. set_solver.
  - rewrite decide_False by (unfold node_le; cbn; lia).
    destruct (link_node h first tail dn a2 d2 m2) as (h1 & f1 & -> & Ho1 & Hfr1);
      [done..|clear -Hdd; set_solver|]. cbn [mbind res_bind].
    destruct (IH h1 f1 (Some a2) (Some a1) m2 (dn ++ [(a2, d2)]) ((a1, d1) :: l1) l2)
      as (h' & r & -> & Hr & Hfr2);
      [done|eapply lseg_disjoint; [done..|clear -Hdd; set_solver]
      |eapply lseg_disjoint; [done..|clear -Hdd; set_solver]|by apply nodup_move|cbn; lia|].
    exists h', r. rewrite <-(assoc_L (++)) in Hr. split_and!; [done..|].
    eapply frame_mono; [|exact (frame_trans _ _ _ _ _ Hfr1 Hfr2)]. clear. set_solver.
Qed.

(** ** Bisection *)

(** [fast] advances by two and [slow] by one: [slow] ends half the length of
    [fl] further, with [prev] right before it. *)
Lemma bisect_loop_spec fuel h fast slow prev fl sl :
  lseg h fast fl None → lseg h slow sl None →
  (length fl <= length sl)%nat → (length fl <= 2 * fuel + 1)%nat →
  ∃ slow' prev', bisect_loop fuel h fast slow prev = Ok (slow', prev') ∧
    lseg h slow' (drop (Nat.div2 (length fl)) sl) None ∧
    prev' = match Nat.div2 (length fl) with
            | O => prev
            | S m => sl.*1 !! m
            end.
Proof.
  revert fast slow prev fl sl.
  induction fuel as [|fuel IH]; intros fast slow prev fl sl Hf Hs Hle Hfu.
  all: destruct fl as [|[a1 d1] fl]; [cbn in Hf; subst fast; cbn; eauto|].
  all: destruct (load_lseg _ _ _ _ _ _ Hf) as (m1 & -> & Hl1 & _ & Hf1).
  all: destruct fl as [|[a2 d2] fl];
    [cbn in Hf1; subst m1; cbn [bisect_loop]; rewrite Hl1; cbn; eauto|].
  { cbn in Hfu. lia. }
  destruct (load_lseg _ _ _ _ _ _ Hf1) as (m2 & -> & Hl2 & _ & Hf2).
  destruct sl as [|[b e] sl]; [cbn in Hle; lia|].
  destruct (load_lseg _ _ _ _ _ _ Hs) as (m3 & -> & Hl3 & _ & Hs1).
  cbn [bisect_loop]. rewrite Hl1. cbn [mbind res_bind nnext].
  rewrite Hl2, Hl3. cbn [mbind res_bind nnext]. cbn in Hle, Hfu.
  destruct (IH m2 m3 (Some b) fl sl) as (slow' & prev' & -> & Hd & ->); [done..|lia|lia|].
  eexists _, _. split; [done|]. cbn [length Nat.div2 drop]. split; [done|].
  by destruct (Nat.div2 (length fl)).
Qed.

Lemma bisect_list_spec fuel h head l :
  lseg h head l None → NoDup l.*1 → (2 <= length l <= fuel)%nat →
  ∃ h' p, bisect_list fuel h head = Ok (h', p) ∧
    lseg h' head (take (Nat.div2 (length l)) l) None ∧
    lseg h' p (drop (Nat.div2 (length l)) l) None ∧ frame h h' l.
Proof.
  intros Hl Hnd Hn. unfold bisect_list.
  destruct (bisect_loop_spec fuel h head head None l l) as (p & prev & -> & Hd & ->);
    [done..|lia|]. cbn [mbind res_bind].
  set (m := Nat.div2 (length l)) in *.
  assert (1 <= m < length l)%nat as Hm.
  { subst m. rewrite Nat.div2_div. split; [apply (Nat.div_le_lower_bound _ 2); lia|].
    apply Nat.div_lt; lia. }
  destruct m as [|m]; [lia|].
  destruct (l !! m) as [[a d]|] eqn:Ha; [|apply lookup_ge_None in Ha; lia].
  rewrite list_lookup_fmap, Ha. cbn [fmap option_fmap option_map fst].
  pose proof (take_S_r l m (a, d) Ha) as Ht.
  rewrite <-(take_drop (S m) l) in Hl at 1. apply lseg_app in Hl as (q & Hh & Hq).
  rewrite Ht in Hh |- *. apply lseg_app in Hh as (p' & Hi & -> & q' & Hqa & _).
  rewrite <-(take_drop (S m) l), Ht in Hnd.
  destruct (link_spec h head (Some a) (take m l ++ [(a, d)]) None) as (h' & f' & E & Hs & Hf).
  { by exists (take m l), d, q'. }
  { rewrite fmap_app in Hnd. by apply NoDup_app in Hnd as [? _]. }
  cbn [link] in E. destruct (store_next h (Some a) None) as [h1|]; [|done].
  res_simpl. simplify_eq. cbn [mbind res_bind]. eexists _, _. split_and!; [done|done| |].
  - eapply lseg_disjoint; [exact Hd|exact Hf|]. rewrite fmap_app in Hnd.
    apply NoDup_app in Hnd as (_ & Hnd & _). clear -Hnd. set_solver.
  - eapply frame_mono; [|exact Hf]. rewrite <-Ht. intros x Hx. by apply elem_of_take in Hx as (?&?%list_elem_of_lookup_2&_).
Qed.

(** ** Sorting *)

Context `{!TotalPreorder (λ a b, cmp_func a b <=? 0)}.

Lemma node_le_trans x y z : node_le x y → node_le y z → node_le x z.
Proof.
  unfold node_le. rewrite <-!Z.leb_le. apply (tp_trans (le := λ a b, cmp_func a b <=? 0)).
Qed.

#[local] Instance node_le_total : Total node_le.
Proof.
  intros x y. unfold node_le. rewrite <-!Z.leb_le.
  apply (tp_total (le := λ a b, cmp_func a b <=? 0)).
Qed.

#[local] Instance node_le_transitive : Transitive node_le.
Proof. intros x y z. apply node_le_trans. Qed.

(** The order of elements that compare equal is kept: the elements of a class
    of mutually equal ones come out in the order they had. *)
Definition stable (l l' : list (Z * A)) : Prop :=
  ∀ (P : Z * A → Prop) (HP : ∀ x, Decision (P x)),
    (∀ x y, P x → P y → node_le x y) → filter P l' = filter P l.

Lemma merge_stable P `{∀ x, Decision (P x)} l1 l2 :
  (∀ x y, P x → P y → node_le x y) → StronglySorted node_le l1 →
  filter P (list_merge node_le l1 l2) = filter P (l1 ++ l2).
Proof.
  intros HP. revert l2. induction l1 as [|x1 l1 IH1]; intros l2 Hs.
  { by rewrite list_merge_nil_l. }
  induction l2 as [|x2 l2 IH2].
  { by rewrite list_merge_nil_r, app_nil_r. }
  rewrite list_merge_cons. apply StronglySorted_inv in Hs as [Hs Hx1]. case_decide as Hle.
  - cbn [app]. rewrite !filter_cons, IH1 by done. by case_decide.
  - rewrite filter_cons, IH2. rewrite (filter_app P (x1 :: l1)), (filter_app P (x1 :: l1)).
    rewrite (filter_cons _ x2). case_decide as Hx2; [|done].
    destruct (filter P (x1 :: l1)) as [|y ys] eqn:Ef; [done|]. exfalso.
    assert (y ∈ filter P (x1 :: l1)) as [HPy Hy]%list_elem_of_filter by (rewrite Ef; by left).
    apply Hle.
    apply (node_le_trans _ y); [|by apply HP].
    apply elem_of_cons in Hy as [->|Hy].
    + unfold node_le. apply Z.leb_le, (tp_refl (le := λ a b, cmp_func a b <=? 0)).
    + by eapply Forall_forall in Hx1.
Qed.

Lemma list_merge_sort_spec fuel h head l :
  lseg h head l None → NoDup l.*1 → (length l <= fuel)%nat →
  ∃ h' r l', list_merge_sort cmp_func fuel h head = Ok (h', r) ∧ lseg h' r l' None ∧
    l' ≡ₚ l ∧ StronglySorted node_le l' ∧ stable l l' ∧ frame h h' l.
Proof.
  revert h head l. induction fuel as [|fuel IH]; intros h head l Hl Hnd Hf.
  all: destruct l as [|[a d] l];
    [cbn in Hl; subst head; exists h, None, []; split_and!; by try constructor|].
  { cbn in Hf. lia. }
  destruct (load_lseg _ _ _ _ _ _ Hl) as (m & -> & Hload & _ & Hm).
  cbn [list_merge_sort]. rewrite Hload. cbn [mbind res_bind nnext].
  destruct l as [|[a2 d2] l].
  { cbn in Hm. subst m. exists h, (Some a), [(a, d)].
    split_and!; try done; repeat constructor. }
  destruct (load_lseg _ _ _ _ _ _ Hm) as (m2 & -> & _ & _ & _).
  set (L := (a, d) :: (a2, d2) :: l) in *. set (k := Nat.div2 (length L)).
  destruct (bisect_list_spec (S fuel) h (Some a) L) as (h1 & p & -> & H1 & H2 & Hf1);
    [done..|subst L; cbn; cbn in Hf; lia|]. cbn [mbind res_bind]. fold k in H1, H2.
  assert (1 <= k <= fuel)%nat as Hk.
  { subst k L. cbn [length Nat.div2]. cbn in Hf.
    rewrite Nat.div2_div.
    pose proof (Nat.Div0.div_le_upper_bound (length l) 2 (length l)). lia. }
  assert (length (drop k L) <= fuel)%nat by (rewrite length_drop; lia).
  assert (length (take k L) <= fuel)%nat by (rewrite length_take; lia).
  pose proof Hnd as Hnd2. rewrite <-(take_drop k L), fmap_app in Hnd2.
  apply NoDup_app in Hnd2 as (Hn1 & Hd12 & Hn2).
  destruct (IH h1 (Some a) (take k L)) as (h2 & s1 & l1 & -> & Hs1 & Hp1 & Hso1 & Hst1 & Hf2);
    [done..|]. cbn [mbind res_bind].
  destruct (IH h2 p (drop k L)) as (h3 & s2 & l2 & -> & Hs2 & Hp2 & Hso2 & Hst2 & Hf3);
    [eapply lseg_disjoint; [done..|]; clear -Hd12; set_solver|done..|].
  cbn [mbind res_bind]. unfold merge_list.
  destruct (merge_loop_spec (S fuel) h3 None None s1 s2 [] l1 l2)
    as (h4 & r & -> & Hr & Hf4); [done| |done|..].
  { eapply lseg_disjoint; [done..|]. intros x Hx. rewrite Hp1 in Hx. by apply Hd12. }
  { cbn [app]. rewrite Hp1, Hp2. by rewrite take_drop. }
  { rewrite Hp1, Hp2, length_take, length_drop. clearbody L; lia. }
  cbn [app] in Hr, Hf4. exists h4, r, (list_merge node_le l1 l2).
  assert (l1 ++ l2 ≡ₚ L) as Hp by (by rewrite Hp1, Hp2, take_drop).
  split_and!; [done..| | | |].
  - by rewrite merge_Permutation.
  - apply Sorted_StronglySorted; [apply _|].
    apply Sorted_list_merge; [apply _|by apply StronglySorted_Sorted..].
  - intros P HP Hle. rewrite merge_stable, filter_app, Hst1, Hst2 by done.
    by rewrite <-filter_app, take_drop.
  - pose proof (frame_trans _ _ _ _ _ Hf1 (frame_trans _ _ _ _ _ Hf2
      (frame_trans _ _ _ _ _ Hf3 Hf4))) as Hfr.
    eapply frame_mono; [|exact Hfr]. rewrite Hp. clear.
    intros x. rewrite !elem_of_app.
    intros [?|[?|[?|?]]]; [done| | |done]; rewrite <-(take_drop k L), elem_of_app; auto.
Qed.
End sort_lemmas.

(** ** Pushing *)

Lemma list_new_repr h : list_repr h list_new [].
Proof. split; by try constructor. Qed.

Lemma lseg_insert_fresh h a n p l q :
  lseg h p l q → a ∉ l.*1 → lseg (<[a := n]> h) p l q.
Proof.
  intros Hl Ha. eapply lseg_frame; [done|]. intros b Hb. apply lookup_insert_ne. naive_solver.
Qed.

Lemma list_push_repr h L l a v :
  list_repr h L l → a ∉ l.*1 → Z.of_nat (length l) + 1 < 2 ^ 64 →
  list_repr (list_push h L a v).1 (list_push h L a v).2 ((a, v) :: l).
Proof.
  intros [Hc Hnd Hlen Hb Ht] Ha Hlt. unfold list_push. rewrite Hlen.
  assert (u64 (Z.of_nat (length l) + 1) = Z.of_nat (S (length l))) as Hu
    by (rewrite u64_small; lia).
  case_if; zbool; (split; cbn [fst snd lhead ltail llen length fmap list_fmap]);
    [..|by rewrite Hu|lia|]; try (by constructor); try (by rewrite Hu); try lia.
  - destruct l; [|cbn in E; lia]. cbn. split; [done|]. exists None. by rewrite lookup_insert_eq.
  - destruct l; [|cbn in E; lia]. cbn. congruence.
  - split; [done|]. exists (lhead L). rewrite lookup_insert_eq. split; [done|].
    by apply lseg_insert_fresh.
  - intros b. destruct l as [|x l]; [cbn in E; lia|]. intros Hl. by apply Ht.
Qed.

Lemma lseg_dom h p l q a : lseg h p l q → a ∈ l.*1 → is_Some (h !! a).
Proof.
  revert p. induction l as [|[b d] l IH]; intros p; [by intros _ ?%elem_of_nil|].
  intros (_ & m & Hb & Hl) [->|Ha]%elem_of_cons; eauto.
Qed.

(** The same without the tail pointer, which sorting leaves behind. *)
Lemma list_push_chain h L l a v :
  lseg h (lhead L) l None → NoDup l.*1 → llen L = Z.of_nat (length l) →
  a ∉ l.*1 → Z.of_nat (length l) + 1 < 2 ^ 64 →
  let '(h', L') := list_push h L a v in
  lseg h' (lhead L') ((a, v) :: l) None ∧ NoDup ((a, v) :: l).*1 ∧
  llen L' = Z.of_nat (S (length l)).
Proof.
  intros Hc Hnd Hlen Ha Hlt. unfold list_push. rewrite Hlen.
  assert (u64 (Z.of_nat (length l) + 1) = Z.of_nat (S (length l))) as Hu
    by (rewrite u64_small; lia).
  assert (NoDup ((a, v) :: l).*1) by by constructor.
  case_if; zbool; cbn [lhead llen].
  - destruct l; [|cbn in E; lia]. split_and!; try done.
    cbn. split; [done|]. exists None. by rewrite lookup_insert_eq.
  - split_and!; try done. cbn. split; [done|]. exists (lhead L).
    rewrite lookup_insert_eq. split; [done|]. by apply lseg_insert_fresh.
Qed.

Lemma list_push_back_repr h L l a v :
  list_repr h L l → a ∉ l.*1 → Z.of_nat (length l) + 1 < 2 ^ 64 →
  ∃ h' L', list_push_back h L a v = Ok (h', L') ∧ list_repr h' L' (l ++ [(a, v)]).
Proof.
  intros [Hc Hnd Hlen Hb Ht] Ha Hlt. unfold list_push_back. rewrite Hlen.
  assert (u64 (Z.of_nat (length l) + 1) = Z.of_nat (length (l ++ [(a, v)]))) as Hu
    by (rewrite u64_small, length_app; cbn; lia).
  assert (NoDup (l ++ [(a, v)]).*1) as Hnd'.
  { rewrite fmap_app. apply NoDup_app. split_and!; [done| |apply NoDup_singleton].
    intros x Hx ->%list_elem_of_singleton. done. }
  assert (∀ b, last (l ++ [(a, v)]).*1 = Some b → Some a = Some b) as Ht'
    by (intros b; rewrite fmap_app; cbn [fmap list_fmap fst]; rewrite last_snoc; done).
  assert (Z.of_nat (length (l ++ [(a, v)])) < 2 ^ 64) by (rewrite length_app; cbn; lia).
  case_if; zbool.
  - destruct l as [|x l]; [|cbn in E; lia]. eexists _, _. split; [done|].
    split; [|done..|exact Ht'].
    cbn. split; [done|]. exists None. by rewrite lookup_insert_eq.
  - destruct (last l) as [[z w]|] eqn:El; [|by destruct l; [cbn in E; lia|apply last_None in El]].
    apply last_Some in El as [l0 ->]. rewrite fmap_app in Ht.
    cbn [fmap list_fmap fst] in Ht. rewrite (Ht z) by by rewrite last_snoc.
    destruct (proj1 (lseg_app _ _ _ _ _) Hc) as (m & H0 & -> & q & Hz & _).
    assert (z ≠ a) by (intros ->; apply Ha; rewrite fmap_app; set_solver).
    destruct (link_spec (<[a:=mkLNode v None]> h) (lhead L) (Some z) (l0 ++ [(z, w)]) (Some a))
      as (h' & f' & El & Hs & Hf).
    { exists l0, w, q. split_and!; [done| |by rewrite lookup_insert_ne].
      apply lseg_insert_fresh; [done|]. intros Hin. apply Ha. rewrite fmap_app. set_solver. }
    { done. }
    cbn [link] in El. destruct (store_next _ (Some z) (Some a)) as [h1|]; [|done].
    res_simpl. simplify_eq. cbn [mbind res_bind]. eexists _, _. split; [done|].
    split; [|done..|exact Ht'].
    apply lseg_app. exists (Some a). split; [done|]. cbn. split; [done|].
    exists None. by rewrite (Hf a), lookup_insert_eq.
Qed.

(** ** Removing *)

Lemma store_next_lseg h a d m p :
  h !! a = Some (mkLNode d m) → store_next h (Some a) p = Ok (<[a := mkLNode d p]> h).
Proof. intros Ha. cbn. by rewrite Ha. Qed.

(** Without a match nothing changes; else the first match is released and
    unlinked, and counted. *)
Lemma list_node_remove_spec fuel matches h p l c :
  lseg h p l None → NoDup l.*1 → (length l <= fuel)%nat →
  (Forall (λ x, matches x.2 = false) l ∧
     list_node_remove fuel matches h p c = Ok (h, p, c)) ∨
  ∃ l1 a d l2 h' p', l = l1 ++ (a, d) :: l2 ∧ Forall (λ x, matches x.2 = false) l1 ∧
    matches d = true ∧ list_node_remove fuel matches h p c = Ok (h', p', c + 1) ∧
    lseg h' p' (l1 ++ l2) None ∧ h' !! a = None ∧ frame h h' l.
Proof.
  revert h p c fuel. induction l as [|[a d] l IH]; intros h p c fuel Hl Hnd Hf.
  { cbn in Hl. subst p. left. split; [constructor|by destruct fuel]. }
  destruct fuel as [|fuel]; [cbn in Hf; lia|].
  rewrite fmap_cons in Hnd. apply NoDup_cons in Hnd as [Ha Hnd]. cbn [fst] in Ha.
  destruct (load_lseg _ _ _ _ _ _ Hl) as (m & -> & Hload & Hm & Hr).
  cbn [list_node_remove]. rewrite Hload. cbn [mbind res_bind ndata nnext].
  destruct (matches d) eqn:Em.
  - right. exists [], a, d, l, (delete a h), m. unfold free_node. rewrite Hm.
    split_and!; [done|constructor|done|done| |apply lookup_delete_eq|].
    + eapply lseg_frame; [done|]. intros b Hb. apply lookup_delete_ne. naive_solver.
    + intros b Hb. apply lookup_delete_ne. set_solver.
  - destruct (IH h m c fuel Hr Hnd ltac:(cbn in Hf; lia)) as
      [[Hn ->]|(l1 & b & e & l2 & h' & p' & -> & Hn & Hb & -> & Hl' & Hdel & Hfr)];
      cbn [mbind res_bind].
    + left. split; [by constructor|]. rewrite (store_next_lseg _ _ d m) by done.
      by rewrite insert_id.
    + right. exists ((a, d) :: l1), b, e, l2.
      rewrite (store_next_lseg h' a d m) by by rewrite Hfr.
      eexists _, _. split_and!; [done|by constructor|done|done|..].
      * cbn. split; [done|]. exists p'. rewrite lookup_insert_eq. split; [done|].
        apply lseg_insert_fresh; [done|]. clear -Ha. rewrite !fmap_app in *. cbn in *. set_solver.
      * rewrite lookup_insert_ne; [done|]. intros ->. apply Ha. rewrite fmap_app.
        apply elem_of_app. right. by left.
      * intros x Hx. cbn in Hx. rewrite lookup_insert_ne by (intros ->; apply Hx; by left).
        apply Hfr. intros Hin. apply Hx. by right.
Qed.

(** [list_clear] and [list_destroy] release every node. *)
Lemma free_loop_spec h p l :
  lseg h p l None → NoDup l.*1 →
  ∃ h', free_loop free_node (length l) h p = Ok h' ∧ frame h h' l ∧
    ∀ a, a ∈ l.*1 → h' !! a = None.
Proof.
  revert h p. induction l as [|[a d] l IH]; intros h p Hl Hnd.
  { exists h. split_and!; [done|apply frame_refl|]. intros a Ha. by apply elem_of_nil in Ha. }
  rewrite fmap_cons in Hnd. apply NoDup_cons in Hnd as [Ha Hnd]. cbn [fst] in Ha.
  destruct (load_lseg _ _ _ _ _ _ Hl) as (m & -> & Hload & Hm & Hr).
  cbn [length free_loop]. rewrite Hload. cbn [mbind res_bind nnext free_node]. rewrite Hm.
  cbn [mbind res_bind].
  destruct (IH (delete a h) m) as (h' & -> & Hf & Hdel); [|done|].
  { eapply lseg_frame; [done|]. intros b Hb. apply lookup_delete_ne. naive_solver. }
  exists h'. split_and!; [done| |].
  - intros b Hb. cbn in Hb. rewrite Hf by (intros ?; apply Hb; by right).
    apply lookup_delete_ne. intros ->. apply Hb. by left.
  - intros b [->|Hb]%elem_of_cons; [|by apply Hdel].
    rewrite Hf by done. apply lookup_delete_eq.
Qed.
End Lists.
Arguments list_repr {A} h L l.

(** ** Properties *)

(** Pushing a node with a new address to the front or to the back of a list
    object gives the list object of the longer sequence: links, length and tail
    pointer are right. *)
Theorem list_push_correct {A} (h : gmap Z (list_node A)) (L : List) (l : list (Z * A))
    (a : Z) (v : A) :
  list_repr h L l → a ∉ l.*1 → Z.of_nat (length l) + 1 < 2 ^ 64 →
  list_repr (list_push h L a v).1 (list_push h L a v).2 ((a, v) :: l) ∧
  ∃ h' L', list_push_back h L a v = Ok (h', L') ∧ list_repr h' L' (l ++ [(a, v)]).
Proof. intros. split; [by apply list_push_repr|by apply list_push_back_repr]. Qed.

Lemma list_push_correct_witness :
  list_repr (list_push (∅ : gmap Z (list_node Z)) list_new 8 42).1
    (list_push (∅ : gmap Z (list_node Z)) list_new 8 42).2 [(8, 42)] ∧
  ∃ h' L', list_push_back (∅ : gmap Z (list_node Z)) list_new 8 42 = Ok (h', L') ∧
    list_repr h' L' ([] ++ [(8, 42)]).
Proof.
  apply (list_push_correct ∅ list_new [] 8 42);
    [apply list_new_repr|apply not_elem_of_nil|cbn; lia].
Defined.

(** C22 list_merge_sort, with a comparison function that is a total preorder,
    terminates, relinks exactly the nodes it is given, returns the head of a
    chain sorted by the comparison function that is a permutation of the
    original one, keeps the order of nodes that compare equal, and leaves the
    rest of the heap alone. *)
Theorem list_merge_sort_correct {A} (cmp_func : A → A → Z)
    (Hcmp : TotalPreorder (λ a b, cmp_func a b <=? 0))
    (h : gmap Z (list_node A)) (head : option Z) (l : list (Z * A)) (fuel : nat) :
  lseg h head l None → NoDup l.*1 → (length l <= fuel)%nat →
  ∃ h' r l', list_merge_sort cmp_func fuel h head = Ok (h', r) ∧ lseg h' r l' None ∧
    l' ≡ₚ l ∧ StronglySorted (node_le cmp_func) l' ∧ stable cmp_func l l' ∧ frame h h' l.
Proof. by apply list_merge_sort_spec. Qed.

#[export] Instance sub_preorder : TotalPreorder (λ a b : Z, a - b <=? 0).
Proof.
  split; intros; rewrite ?Z.leb_le in *; try lia.
Qed.

Lemma list_merge_sort_correct_witness :
  ∃ h' r l', list_merge_sort Z.sub 3
      ({[1 := mkLNode 30 (Some 2); 2 := mkLNode 10 (Some 3); 3 := mkLNode 20 None]}
        : gmap Z (list_node Z)) (Some 1) = Ok (h', r) ∧ lseg h' r l' None ∧
    l' ≡ₚ [(1, 30); (2, 10); (3, 20)] ∧ StronglySorted (node_le Z.sub) l' ∧
    stable Z.sub [(1, 30); (2, 10); (3, 20)] l' ∧
    frame {[1 := mkLNode 30 (Some 2); 2 := mkLNode 10 (Some 3); 3 := mkLNode 20 None]} h'
      [(1, 30); (2, 10); (3, 20)].
Proof.
  apply (list_merge_sort_correct Z.sub sub_preorder
    {[1 := mkLNode 30 (Some 2); 2 := mkLNode 10 (Some 3); 3 := mkLNode 20 None]}
    (Some 1) [(1, 30); (2, 10); (3, 20)] 3); [|apply (bool_decide_unpack _); exact I|cbn; lia].
  cbn. eauto 20.
Defined.

(** List_remove unlinks and releases the first node that matches and takes one
    off the length; the tail pointer is not updated, so after the removal of
    the last of several nodes list_push_back writes to released memory. *)
Theorem list_remove_first {A} (matches : A → bool) (h : gmap Z (list_node A)) (L : List)
    (l1 l2 : list (Z * A)) (a : Z) (d : A) (fuel : nat) :
  list_repr h L (l1 ++ (a, d) :: l2) → Forall (λ x, matches x.2 = false) l1 →
  matches d = true → (length (l1 ++ (a, d) :: l2) <= fuel)%nat →
  ∃ h' L', list_remove fuel matches h L = Ok (h', L') ∧
    lseg h' (lhead L') (l1 ++ l2) None ∧ h' !! a = None ∧
    llen L' = Z.of_nat (length (l1 ++ l2)) ∧ ltail L' = ltail L ∧
    (l1 ≠ [] → l2 = [] → ∀ b v, b ≠ a → list_push_back h' L' b v = Err UseAfterFree).
Proof.
  intros [Hc Hnd Hlen Hb Ht] H1 Hd Hf. unfold list_remove.
  destruct (list_node_remove_spec fuel matches h (lhead L) _ 0 Hc Hnd Hf) as
    [[Hn _]|(k1 & b & e & k2 & h' & p' & E & Hn & He & -> & Hl' & Hdel & Hfr)].
  { rewrite Forall_app, Forall_cons in Hn. destruct Hn as (_ & Hx & _). cbn in Hx. congruence. }
  assert (k1 = l1 ∧ (b, e) = (a, d) ∧ k2 = l2) as (-> & [= -> ->] & ->).
  { clear -E Hn He H1 Hd. revert k1 E Hn. induction H1 as [|x l1 Hx H1 IH]; intros [|y k1] E Hn;
      cbn in E; simplify_eq; [done|..].
    - apply Forall_cons in Hn as [Hy _]. cbn in Hy. congruence.
    - cbn in Hx. congruence.
    - apply Forall_cons in Hn as [_ Hn]. destruct (IH k1) as (-> & ? & ->); done. }
  eexists _, _. split_and!; [done|done|done| |done|].
  - cbn. rewrite Hlen in *. rewrite !length_app in *. cbn [length] in *.
    rewrite u64_small by lia. lia.
  - intros Hne -> b v Hba. unfold list_push_back. cbn [llen ltail].
    rewrite Hlen, length_app in *. cbn [length] in *.
    rewrite u64_small by lia. destruct l1 as [|x l1]; [done|]. cbn [length] in *.
    case_if; zbool; [lia|]. rewrite (Ht a) by (rewrite fmap_app; apply last_snoc).
    cbn [store_next]. by rewrite lookup_insert_ne, Hdel by done.
Qed.

Lemma list_remove_first_witness :
  ∃ h' L', list_remove 2 (λ d, d =? 20)
      ({[1 := mkLNode 10 (Some 2); 2 := mkLNode 20 None]} : gmap Z (list_node Z))
      (mkList (Some 1) (Some 2) 2) = Ok (h', L') ∧
    lseg h' (lhead L') ([(1, 10)] ++ []) None ∧ h' !! 2 = None ∧
    llen L' = Z.of_nat (length ([(1, 10)] ++ [])) ∧ ltail L' = Some 2 ∧
    ([(1, 10)] ≠ [] → ([] : list (Z * Z)) = [] →
     ∀ b v, b ≠ 2 → list_push_back h' L' b v = Err UseAfterFree).
Proof.
  apply (list_remove_first (λ d, d =? 20)
    {[1 := mkLNode 10 (Some 2); 2 := mkLNode 20 None]} (mkList (Some 1) (Some 2) 2)
    [(1, 10)] [] 2 20 2); [|by repeat constructor|done|cbn; lia].
  split; [cbn; eauto 20|apply (bool_decide_unpack _); exact I|done|done|].
  intros a [= <-]. done.
Defined.

(** When the first node matches, list_remove_node returns it but the list keeps
    it as its head, cut off from the rest: the other nodes are no longer
    reachable from the list. *)
Theorem list_remove_node_head {A} (matches : A → bool) (h : gmap Z (list_node A)) (L : List)
    (l : list (Z * A)) (a : Z) (d : A) (fuel : nat) :
  list_repr h L ((a, d) :: l) → matches d = true →
  ∃ h' L', list_remove_node (S fuel) matches h L = Ok (h', L', Some a) ∧
    lhead L' = Some a ∧ lseg h' (lhead L') [(a, d)] None ∧
    llen L' = Z.of_nat (length l).
Proof.
  intros [Hc Hnd Hlen Hb Ht] Hd. unfold list_remove_node. rewrite Hlen.
  destruct (load_lseg _ _ _ _ _ _ Hc) as (m & Hh & Hload & Hm & Hr).
  case_if; zbool; [cbn in E; lia|]. rewrite Hh in *. cbn [list_remove_single_node].
  rewrite Hload. cbn [mbind res_bind ndata nnext]. rewrite Hd. cbn [andb].
  rewrite bool_decide_true by done. cbn [mret res_ret mbind res_bind].
  rewrite (store_next_lseg _ _ d m) by done. cbn [mbind res_bind].
  eexists _, _. split_and!; [done|done| |].
  - cbn. split; [done|]. exists None. by rewrite lookup_insert_eq.
  - cbn [llen length] in *. rewrite u64_small by lia. lia.
Qed.

Lemma list_remove_node_head_witness :
  ∃ h' L', list_remove_node 2 (λ d, d =? 10)
      ({[1 := mkLNode 10 (Some 2); 2 := mkLNode 20 None]} : gmap Z (list_node Z))
      (mkList (Some 1) (Some 2) 2) = Ok (h', L', Some 1) ∧
    lhead L' = Some 1 ∧ lseg h' (lhead L') [(1, 10)] None ∧ llen L' = 1.
Proof.
  apply (list_remove_node_head (λ d, d =? 10)
    {[1 := mkLNode 10 (Some 2); 2 := mkLNode 20 None]} (mkList (Some 1) (Some 2) 2)
    [(2, 20)] 1 10 1); [|done].
  split; [cbn; eauto 20|apply (bool_decide_unpack _); exact I|done|done|].
  intros a [= <-]. done.
Defined.
