(* ===== verification/Hashtable.v ===== *)
(** * The hash table: src/hashtable.c, src/hashtable.h

    Open addressing with linear probing over at most eight slots.  An entry that
    is not taken keeps whatever its fields held; a new block of entries is zeroed
    (null key, not taken).  Allocation is taken to succeed.  [hashtable_put] and
    [hashtable_rehash] call each other, and the loop of [hashtable_put] has no
    bound of its own; [fuel] bounds the number of hash computations. *)

From S2P Require Import Prelude Util.

(** ** CRC-32 *)

Definition crc32_tab : list Z :=
  [0x00000000; 0x77073096; 0xee0e612c; 0x990951ba; 0x076dc419; 0x706af48f;
   0xe963a535; 0x9e6495a3; 0x0edb8832; 0x79dcb8a4; 0xe0d5e91e; 0x97d2d988;
   0x09b64c2b; 0x7eb17cbd; 0xe7b82d07; 0x90bf1d91; 0x1db71064; 0x6ab020f2;
   0xf3b97148; 0x84be41de; 0x1adad47d; 0x6ddde4eb; 0xf4d4b551; 0x83d385c7;
   0x136c9856; 0x646ba8c0; 0xfd62f97a; 0x8a65c9ec; 0x14015c4f; 0x63066cd9;
   0xfa0f3d63; 0x8d080df5; 0x3b6e20c8; 0x4c69105e; 0xd56041e4; 0xa2677172;
   0x3c03e4d1; 0x4b04d447; 0xd20d85fd; 0xa50ab56b; 0x35b5a8fa; 0x42b2986c;
   0xdbbbc9d6; 0xacbcf940; 0x32d86ce3; 0x45df5c75; 0xdcd60dcf; 0xabd13d59;
   0x26d930ac; 0x51de003a; 0xc8d75180; 0xbfd06116; 0x21b4f4b5; 0x56b3c423;
   0xcfba9599; 0xb8bda50f; 0x2802b89e; 0x5f058808; 0xc60cd9b2; 0xb10be924;
   0x2f6f7c87; 0x58684c11; 0xc1611dab; 0xb6662d3d; 0x76dc4190; 0x01db7106;
   0x98d220bc; 0xefd5102a; 0x71b18589; 0x06b6b51f; 0x9fbfe4a5; 0xe8b8d433;
   0x7807c9a2; 0x0f00f934; 0x9609a88e; 0xe10e9818; 0x7f6a0dbb; 0x086d3d2d;
   0x91646c97; 0xe6635c01; 0x6b6b51f4; 0x1c6c6162; 0x856530d8; 0xf262004e;
   0x6c0695ed; 0x1b01a57b; 0x8208f4c1; 0xf50fc457; 0x65b0d9c6; 0x12b7e950;
   0x8bbeb8ea; 0xfcb9887c; 0x62dd1ddf; 0x15da2d49; 0x8cd37cf3; 0xfbd44c65;
   0x4db26158; 0x3ab551ce; 0xa3bc0074; 0xd4bb30e2; 0x4adfa541; 0x3dd895d7;
   0xa4d1c46d; 0xd3d6f4fb; 0x4369e96a; 0x346ed9fc; 0xad678846; 0xda60b8d0;
   0x44042d73; 0x33031de5; 0xaa0a4c5f; 0xdd0d7cc9; 0x5005713c; 0x270241aa;
   0xbe0b1010; 0xc90c2086; 0x5768b525; 0x206f85b3; 0xb966d409; 0xce61e49f;
   0x5edef90e; 0x29d9c998; 0xb0d09822; 0xc7d7a8b4; 0x59b33d17; 0x2eb40d81;
   0xb7bd5c3b; 0xc0ba6cad; 0xedb88320; 0x9abfb3b6; 0x03b6e20c; 0x74b1d29a;
   0xead54739; 0x9dd277af; 0x04db2615; 0x73dc1683; 0xe3630b12; 0x94643b84;
   0x0d6d6a3e; 0x7a6a5aa8; 0xe40ecf0b; 0x9309ff9d; 0x0a00ae27; 0x7d079eb1;
   0xf00f9344; 0x8708a3d2; 0x1e01f268; 0x6906c2fe; 0xf762575d; 0x806567cb;
   0x196c3671; 0x6e6b06e7; 0xfed41b76; 0x89d32be0; 0x10da7a5a; 0x67dd4acc;
   0xf9b9df6f; 0x8ebeeff9; 0x17b7be43; 0x60b08ed5; 0xd6d6a3e8; 0xa1d1937e;
   0x38d8c2c4; 0x4fdff252; 0xd1bb67f1; 0xa6bc5767; 0x3fb506dd; 0x48b2364b;
   0xd80d2bda; 0xaf0a1b4c; 0x36034af6; 0x41047a60; 0xdf60efc3; 0xa867df55;
   0x316e8eef; 0x4669be79; 0xcb61b38c; 0xbc66831a; 0x256fd2a0; 0x5268e236;
   0xcc0c7795; 0xbb0b4703; 0x220216b9; 0x5505262f; 0xc5ba3bbe; 0xb2bd0b28;
   0x2bb45a92; 0x5cb36a04; 0xc2d7ffa7; 0xb5d0cf31; 0x2cd99e8b; 0x5bdeae1d;
   0x9b64c2b0; 0xec63f226; 0x756aa39c; 0x026d930a; 0x9c0906a9; 0xeb0e363f;
   0x72076785; 0x05005713; 0x95bf4a82; 0xe2b87a14; 0x7bb12bae; 0x0cb61b38;
   0x92d28e9b; 0xe5d5be0d; 0x7cdcefb7; 0x0bdbdf21; 0x86d3d2d4; 0xf1d4e242;
   0x68ddb3f8; 0x1fda836e; 0x81be16cd; 0xf6b9265b; 0x6fb077e1; 0x18b74777;
   0x88085ae6; 0xff0f6a70; 0x66063bca; 0x11010b5c; 0x8f659eff; 0xf862ae69;
   0x616bffd3; 0x166ccf45; 0xa00ae278; 0xd70dd2ee; 0x4e048354; 0x3903b3c2;
   0xa7672661; 0xd06016f7; 0x4969474d; 0x3e6e77db; 0xaed16a4a; 0xd9d65adc;
   0x40df0b66; 0x37d83bf0; 0xa9bcae53; 0xdebb9ec5; 0x47b2cf7f; 0x30b5ffe9;
   0xbdbdf21c; 0xcabac28a; 0x53b39330; 0x24b4a3a6; 0xbad03605; 0xcdd70693;
   0x54de5729; 0x23d967bf; 0xb3667a2e; 0xc4614ab8; 0x5d681b02; 0x2a6f2b94;
   0xb40bbe37; 0xc30c8ea1; 0x5a05df1b; 0x2d02ef8d].

(** The loop over the bytes; [crc32val] is a [uint64_t]. *)
Fixpoint crc32_loop (crc32val : Z) (s : list Z) : res Z :=
  match s with
  | [] => Ok crc32val
  | b :: s =>
      t ← aget crc32_tab (Z.land (Z.lxor crc32val b) 0xff);
      crc32_loop (Z.lxor t (Z.shiftr crc32val 8)) s
  end.

Definition crc32 (s : list Z) : res Z := crc32_loop 0 s.

(** Robert Jenkins' mix function on a [uint64_t]. *)
Definition jenkins_mix (key : Z) : Z :=
  let key := u64 (key + u64 (Z.shiftl key 12)) in
  let key := Z.lxor key (Z.shiftr key 22) in
  let key := u64 (key + u64 (Z.shiftl key 4)) in
  let key := Z.lxor key (Z.shiftr key 9) in
  let key := u64 (key + u64 (Z.shiftl key 10)) in
  let key := Z.lxor key (Z.shiftr key 2) in
  let key := u64 (key + u64 (Z.shiftl key 7)) in
  Z.lxor key (Z.shiftr key 12).

Definition KNUTH_PRIME : Z := 2654435761.

(** ** Data *)

Definition INITIAL_SIZE : Z := 4.
Definition MAX_CHAIN_LENGTH : nat := 8.

Definition HASHTABLE_OK : Z := 0.
Definition HASHTABLE_ERR : Z := 1.
Definition HASHTABLE_FULL : Z := 3.

Section Hashtable.
  Context {V : Type}.

Record hashtable_entry : Type := mkEntry {
  ekey : option (list Z);
  eval : option V;
  taken : bool
}.

Definition empty_entry : hashtable_entry := mkEntry None None false.

Record HashTable : Type := mkTable {
  table_size : Z;
  hsize : Z;
  entries : list hashtable_entry
}.

Implicit Types (t : HashTable) (key : list Z) (val : V).

(** ** Operations *)

Definition hashtable_hash_int (t : HashTable) (keystr : list Z) : res Z :=
  c ← crc32 keystr;
  let key := jenkins_mix c in
  let key := u64 (Z.shiftr key 3 * KNUTH_PRIME) in
  mret (key mod table_size t).

(** The [for] loop of [hashtable_hash], [n] rounds to go. *)
Fixpoint hash_loop (n : nat) (t : HashTable) (curr : Z) (key : list Z) : res Z :=
  match n with
  | O => Ok (- HASHTABLE_FULL)
  | S n =>
      e ← aget (entries t) curr;
      if negb (taken e) then Ok (s32 curr)
      else
        k ← deref (ekey e);
        if STREQ k key (strlen k) then Ok (s32 curr)
        else hash_loop n t ((curr + 1) mod table_size t) key
  end.

Definition hashtable_hash (t : HashTable) (key : list Z) : res Z :=
  if hsize t >=? table_size t / 2 then Ok (- HASHTABLE_FULL)
  else
    curr ← hashtable_hash_int t key;
    hash_loop MAX_CHAIN_LENGTH t curr key.

Definition hashtable_new : HashTable :=
  {| table_size := INITIAL_SIZE; hsize := 0;
     entries := replicate (Z.to_nat INITIAL_SIZE) empty_entry |}.

Definition hashtable_size (t : HashTable) : Z := hsize t.

(** The loop of [hashtable_rehash] over the old entries; [put] is
    [hashtable_put]. *)
Fixpoint rehash_loop (put : HashTable → list Z → option V → res HashTable)
    (t : HashTable) (curr : list hashtable_entry) : res HashTable :=
  match curr with
  | [] => Ok t
  | e :: curr =>
      if negb (taken e) then rehash_loop put t curr
      else
        k ← deref (ekey e);
        t ← put t k (eval e);
        rehash_loop put t curr
  end.

Definition hashtable_rehash (put : HashTable → list Z → option V → res HashTable)
    (t : HashTable) : res HashTable :=
  let n := u64 (2 * table_size t) in
  rehash_loop put
    {| table_size := n; hsize := 0; entries := replicate (Z.to_nat n) empty_entry |}
    (take (Z.to_nat (table_size t)) (entries t)).

(** The assignments at the end of [hashtable_put]. *)
Definition set_entry (t : HashTable) (index : Z) (key : list Z) (val : option V)
  : res HashTable :=
  e ← aget (entries t) index;
  es ← aset (entries t) index (mkEntry (Some key) val true);
  mret {| table_size := table_size t;
          hsize := if taken e then hsize t else u64 (hsize t + 1);
          entries := es |}.

Fixpoint hashtable_put (fuel : nat) (t : HashTable) (key : list Z) (val : option V)
  : res HashTable :=
  match fuel with
  | O => Err OutOfFuel
  | S fuel =>
      index ← hashtable_hash t key;
      if index =? - HASHTABLE_FULL then
        t ← hashtable_rehash (hashtable_put fuel) t;
        hashtable_put fuel t key val
      else set_entry t index key val
  end.

(** The probing loop that [hashtable_get], [hashtable_get_entry] and
    [hashtable_del] share: the index of the entry found. *)
Fixpoint find_loop (n : nat) (t : HashTable) (curr : Z) (key : list Z)
  : res (option Z) :=
  match n with
  | O => Ok None
  | S n =>
      e ← aget (entries t) curr;
      if taken e then
        k ← deref (ekey e);
        if STREQ k key (strlen key) then Ok (Some curr)
        else find_loop n t ((curr + 1) mod table_size t) key
      else find_loop n t ((curr + 1) mod table_size t) key
  end.

Definition find_index (t : HashTable) (key : list Z) : res (option Z) :=
  curr ← hashtable_hash_int t key;
  find_loop MAX_CHAIN_LENGTH t curr key.

Definition hashtable_get_entry (t : HashTable) (key : list Z)
  : res (option hashtable_entry) :=
  i ← find_index t key;
  match i with
  | None => mret None
  | Some i => e ← aget (entries t) i; mret (Some e)
  end.

Definition hashtable_get (t : HashTable) (key : list Z) : res (option V) :=
  i ← find_index t key;
  match i with
  | None => mret None
  | Some i => e ← aget (entries t) i; mret (eval e)
  end.

(** The entry is handed to the destructor, which releases what it points to. *)
Definition hashtable_del (t : HashTable) (key : list Z) : res (HashTable * Z) :=
  i ← find_index t key;
  match i with
  | None => mret (t, - HASHTABLE_ERR)
  | Some i =>
      e ← aget (entries t) i;
      es ← aset (entries t) i (mkEntry (ekey e) (eval e) false);
      mret ({| table_size := table_size t; hsize := u64 (hsize t - 1); entries := es |},
            HASHTABLE_OK)
  end.

(** The loop of [hashtable_map] and [hashtable_map2]: [func] gets a copy of each
    taken entry until it returns a status other than [HASHTABLE_OK]; [S] is the
    state that the calls change. *)
Fixpoint map_loop {S} (func : S → hashtable_entry → S * Z) (s : S)
    (es : list hashtable_entry) : S * Z :=
  match es with
  | [] => (s, HASHTABLE_OK)
  | e :: es =>
      if taken e then
        let '(s, status) := func s e in
        if negb (status =? HASHTABLE_OK) then (s, status) else map_loop func s es
      else map_loop func s es
  end.

Definition hashtable_map {S} (func : S → hashtable_entry → S * Z) (s : S)
    (t : option HashTable) : S * Z :=
  match t with
  | None => (s, - HASHTABLE_ERR)
  | Some t =>
      if hsize t <=? 0 then (s, - HASHTABLE_ERR)
      else map_loop func s (take (Z.to_nat (table_size t)) (entries t))
  end.

Definition hashtable_map2 {S P} (func : S → hashtable_entry → P → S * Z) (param : P)
    (s : S) (t : option HashTable) : S * Z :=
  hashtable_map (λ s e, func s e param) s t.
End Hashtable.
Arguments hashtable_entry V : clear implicits.
Arguments HashTable V : clear implicits.

(** ** CRC-32, bit by bit

    The reference definition: the reflected polynomial 0xedb88320, one bit of the
    message at a time, initial value 0 and no final complement. *)

Definition crc_shift (x : Z) : Z :=
  if Z.odd x then Z.lxor (Z.shiftr x 1) 0xedb88320 else Z.shiftr x 1.

Fixpoint crc_shifts (n : nat) (x : Z) : Z :=
  match n with O => x | S n => crc_shifts n (crc_shift x) end.

Definition crc_ref (s : list Z) : Z := foldl (λ c b, crc_shifts 8 (Z.lxor c b)) 0 s.

Lemma crc_shift_lxor x y : crc_shift (Z.lxor x y) = Z.lxor (crc_shift x) (crc_shift y).
Proof.
  unfold crc_shift. rewrite <-!Z.bit0_odd, Z.lxor_spec, Z.shiftr_lxor.
  set (a := Z.shiftr x 1). set (b := Z.shiftr y 1).
  destruct (Z.testbit x 0), (Z.testbit y 0); cbn [xorb];
    apply Z.bits_inj'; intros i _; rewrite ?Z.lxor_spec;
    by destruct (Z.testbit a i), (Z.testbit b i), (Z.testbit 0xedb88320 i).
Qed.

Lemma crc_shifts_lxor n x y :
  crc_shifts n (Z.lxor x y) = Z.lxor (crc_shifts n x) (crc_shifts n y).
Proof.
  revert x y. induction n as [|n IH]; intros x y; cbn; [done|].
  by rewrite crc_shift_lxor, IH.
Qed.

Lemma crc_shifts_shiftl (n : nat) y : crc_shifts n (Z.shiftl y (Z.of_nat n)) = y.
Proof.
  revert y. induction n as [|n IH]; intros y; cbn [crc_shifts]; [apply Z.shiftl_0_r|].
  unfold crc_shift. rewrite <-Z.bit0_odd, Z.shiftl_spec_low by lia.
  rewrite Z.shiftr_shiftl_l by lia. replace (Z.of_nat (S n) - 1) with (Z.of_nat n) by lia.
  apply IH.
Qed.

Lemma low_high_byte x : x = Z.lxor (Z.land x 255) (Z.shiftl (Z.shiftr x 8) 8).
Proof.
  apply Z.bits_inj'. intros i Hi. change 255 with (Z.ones 8).
  rewrite Z.lxor_spec, Z.land_spec, Z.testbit_ones, Z.shiftl_spec by lia.
  rewrite (proj2 (Z.leb_le 0 i)) by lia. cbn [andb].
  destruct (Z.ltb_spec i 8).
  - rewrite (Z.testbit_neg_r _ (i - 8)) by lia. by rewrite andb_true_r, xorb_false_r.
  - rewrite andb_false_r, Z.shiftr_spec by lia. cbn [xorb]. f_equal. lia.
Qed.

Lemma crc32_tab_entry i : 0 <= i < 256 → aget crc32_tab i = Ok (crc_shifts 8 i).
Proof.
  intros Hi. assert (Forall (λ i, aget crc32_tab i = Ok (crc_shifts 8 i)) (seqZ 0 256)) as H.
  { apply (bool_decide_unpack _). vm_compute. exact I. }
  rewrite Forall_seqZ in H. apply H. lia.
Qed.

Lemma land_byte x : 0 <= Z.land x 255 < 256.
Proof. change 255 with (Z.ones 8). rewrite Z.land_ones by lia. apply Z.mod_pos_bound. lia. Qed.

Lemma crc32_loop_spec c s :
  bytes s → crc32_loop c s = Ok (foldl (λ c b, crc_shifts 8 (Z.lxor c b)) c s).
Proof.
  intros Hs. revert c. induction Hs as [|b s Hb Hs IH]; intros c; [done|].
  cbn [crc32_loop foldl]. rewrite crc32_tab_entry by apply land_byte. cbn [mbind res_bind].
  assert (Z.lxor (crc_shifts 8 (Z.land (Z.lxor c b) 0xff)) (Z.shiftr c 8)
          = crc_shifts 8 (Z.lxor c b)) as ->; [|apply IH].
  assert (Z.shiftr c 8 = Z.shiftr (Z.lxor c b) 8) as ->.
  { rewrite Z.shiftr_lxor, (Z.shiftr_div_pow2 b) by lia. unfold is_byte in Hb.
    rewrite (Z.div_small b) by lia. by rewrite Z.lxor_0_r. }
  rewrite (low_high_byte (Z.lxor c b)) at 3. rewrite crc_shifts_lxor. f_equal.
  by rewrite (crc_shifts_shiftl 8).
Qed.

Lemma crc32_spec s : bytes s → crc32 s = Ok (crc_ref s).
Proof. apply crc32_loop_spec. Qed.

(** ** The table as a finite map

    The probing loops compare a key only up to the length of one of the two
    strings and without regard to case.  The table is therefore a map only for
    sets of keys none of which is, up to case, a prefix of another. *)

Definition ci_prefix (k k' : list Z) : bool := STREQ k k' (strlen k).

Definition confusable (k k' : list Z) : Prop := ci_prefix k k' = true ∨ ci_prefix k' k = true.

(** The hash before the reduction to the table size. *)
Definition raw_hash (key : list Z) : Z :=
  u64 (Z.shiftr (jenkins_mix (crc_ref key)) 3 * KNUTH_PRIME).

Section Spec.
Context {V : Type}.
Implicit Types (t : HashTable V) (m : gmap (list Z) (option V)).

(** The slot probed in round [j] for a key. *)
Definition slot (t : HashTable V) (key : list Z) (j : nat) : Z :=
  (raw_hash key + Z.of_nat j) mod table_size t.

(** What a search relies on: the bindings of [m] are the taken entries, each in
    one of the slots probed for its key. *)
Record hsearch (t : HashTable V) (m : gmap (list Z) (option V)) : Prop := {
  hr_size : table_size t = Z.of_nat (length (entries t));
  hr_bound : 0 < table_size t < 2 ^ 31;
  hr_count : hsize t = u64 (Z.of_nat (size m));
  hr_keys : ∀ k, is_Some (m !! k) → bytes k;
  hr_taken : ∀ i e, aget (entries t) i = Ok e → taken e = true →
    ∃ k, ekey e = Some k ∧ m !! k = Some (eval e) ∧
      ∃ j, (j < MAX_CHAIN_LENGTH)%nat ∧ i = slot t k j;
  hr_bound_in : ∀ k v, m !! k = Some v →
    ∃ i, aget (entries t) i = Ok (mkEntry (Some k) v true);
  hr_unique : ∀ i i' e e', aget (entries t) i = Ok e → aget (entries t) i' = Ok e' →
    taken e = true → taken e' = true → ekey e = ekey e' → i = i';
  hr_distinct : ∀ k k', is_Some (m !! k) → is_Some (m !! k') → confusable k k' → k = k'
}.

(** What an insertion relies on besides: the slots probed before the one of a key
    are taken.  Deletions do not keep this. *)
Definition chained (t : HashTable V) : Prop :=
  ∀ i e k, aget (entries t) i = Ok e → taken e = true → ekey e = Some k →
    ∃ j, (j < MAX_CHAIN_LENGTH)%nat ∧ i = slot t k j ∧
      ∀ j', (j' < j)%nat → ∃ e', aget (entries t) (slot t k j') = Ok e' ∧ taken e' = true.

Lemma slot_bound t k j : 0 < table_size t → 0 <= slot t k j < table_size t.
Proof. intros. by apply Z.mod_pos_bound. Qed.

Lemma hash_int_spec t k :
  bytes k → hashtable_hash_int t k = Ok (slot t k 0).
Proof.
  intros Hk. unfold hashtable_hash_int. rewrite crc32_spec by done.
  cbn [mbind res_bind]. unfold slot, raw_hash. by rewrite Z.add_0_r.
Qed.

Lemma slot_next t k j :
  0 < table_size t → (slot t k j + 1) mod table_size t = slot t k (S j).
Proof.
  intros. unfold slot. rewrite Zplus_mod_idemp_l. f_equal. lia.
Qed.

Lemma slot_eq t t' k j : table_size t = table_size t' → slot t k j = slot t' k j.
Proof. unfold slot. by intros ->. Qed.

Lemma aget_slot t k j :
  table_size t = Z.of_nat (length (entries t)) → 0 < table_size t →
  ∃ e, aget (entries t) (slot t k j) = Ok e.
Proof.
  intros Hs Ht. pose proof (slot_bound t k j Ht) as Hb. unfold aget.
  case_if; zbool; [lia|].
  destruct (entries t !! Z.to_nat (slot t k j)) eqn:El; [eauto|].
  apply lookup_ge_None in El. lia.
Qed.

#[local] Opaque slot find_loop hash_loop.

(** The outcome of the loop of a search: the first probed entry that is taken
    and whose key extends the one searched for. *)
Definition hit t key j : Prop :=
  ∃ e k, aget (entries t) (slot t key j) = Ok e ∧ taken e = true ∧ ekey e = Some k ∧
    ci_prefix key k = true.

Lemma STREQ_sym k k' n : STREQ k k' n = STREQ k' k n.
Proof.
  unfold STREQ. generalize (Z.to_nat n). intros i. revert k k'.
  induction i as [|i IH]; intros [|c k] [|c' k']; cbn; try done.
  by rewrite IH, Z.eqb_sym.
Qed.

Lemma find_loop_S n t curr key :
  find_loop (S n) t curr key =
    (e ← aget (entries t) curr;
     if taken e then
       k ← deref (ekey e);
       if STREQ k key (strlen key) then Ok (Some curr)
       else find_loop n t ((curr + 1) mod table_size t) key
     else find_loop n t ((curr + 1) mod table_size t) key).
Proof. reflexivity. Qed.

Lemma find_loop_spec t m key n j :
  hsearch t m →
  (∃ j', (j <= j' < j + n)%nat ∧ hit t key j' ∧ (∀ i, (j <= i < j')%nat → ¬ hit t key i) ∧
     find_loop n t (slot t key j) key = Ok (Some (slot t key j'))) ∨
  ((∀ i, (j <= i < j + n)%nat → ¬ hit t key i) ∧
   find_loop n t (slot t key j) key = Ok None).
Proof.
  intros Hr. revert j. induction n as [|n IH]; intros j.
  { right. split; [lia|done]. }
  rewrite find_loop_S.
  destruct (aget_slot t key j (hr_size _ _ Hr) (proj1 (hr_bound _ _ Hr))) as [e He].
  rewrite He. cbn [mbind res_bind]. rewrite slot_next by apply (hr_bound _ _ Hr).
  assert (¬ hit t key j →
    (∃ j', (j <= j' < j + S n)%nat ∧ hit t key j' ∧ (∀ i, (j <= i < j')%nat → ¬ hit t key i) ∧
       find_loop n t (slot t key (S j)) key = Ok (Some (slot t key j'))) ∨
    ((∀ i, (j <= i < j + S n)%nat → ¬ hit t key i) ∧
     find_loop n t (slot t key (S j)) key = Ok None)) as Hskip.
  { intros Hn. destruct (IH (S j)) as [(j' & Hj & Hh & Hb & E)|[Hb E]].
    - left. exists j'. split; [lia|]. split; [exact Hh|]. split; [|exact E].
      intros i Hi. destruct (decide (i = j)) as [->|]; [exact Hn|apply Hb; lia].
    - right. split; [|exact E].
      intros i Hi. destruct (decide (i = j)) as [->|]; [exact Hn|apply Hb; lia]. }
  destruct (taken e) eqn:Et.
  - destruct (hr_taken _ _ Hr _ _ He Et) as (k & Hk & _). rewrite Hk. cbn [deref mbind res_bind].
    rewrite STREQ_sym. fold (ci_prefix key k). destruct (ci_prefix key k) eqn:Ec.
    + left. exists j. split; [lia|]. split; [by exists e, k|]. split; [lia|reflexivity].
    + apply Hskip. intros (e' & k' & He' & _ & Hk' & Hc'). simplify_eq. congruence.
  - apply Hskip. intros (e' & k' & He' & Ht' & _). simplify_eq. congruence.
Qed.

(** Where the loop of an insertion stops: an entry that is free, or whose key is
    a prefix of the one inserted. *)
Definition stop t key j : Prop :=
  ∃ e, aget (entries t) (slot t key j) = Ok e ∧
    (taken e = false ∨ ∃ k, ekey e = Some k ∧ ci_prefix k key = true).

Lemma hash_loop_S n t curr key :
  hash_loop (S n) t curr key =
    (e ← aget (entries t) curr;
     if negb (taken e) then Ok (s32 curr)
     else
       k ← deref (ekey e);
       if STREQ k key (strlen k) then Ok (s32 curr)
       else hash_loop n t ((curr + 1) mod table_size t) key).
Proof. reflexivity. Qed.

Lemma hash_loop_spec t m key n j :
  hsearch t m →
  (∃ j', (j <= j' < j + n)%nat ∧ stop t key j' ∧ (∀ i, (j <= i < j')%nat → ¬ stop t key i) ∧
     hash_loop n t (slot t key j) key = Ok (slot t key j')) ∨
  ((∀ i, (j <= i < j + n)%nat → ¬ stop t key i) ∧
   hash_loop n t (slot t key j) key = Ok (- HASHTABLE_FULL)).
Proof.
  intros Hr. revert j. induction n as [|n IH]; intros j.
  { right. split; [lia|reflexivity]. }
  rewrite hash_loop_S. pose proof (hr_bound _ _ Hr) as Hts.
  destruct (aget_slot t key j (hr_size _ _ Hr) (proj1 Hts)) as [e He].
  rewrite He. cbn [mbind res_bind]. rewrite slot_next by apply Hts.
  pose proof (slot_bound t key j (proj1 Hts)) as Hsb.
  rewrite !s32_small by (unfold INT_MIN, INT_MAX; lia).
  assert (stop t key j →
    ∃ j', (j <= j' < j + S n)%nat ∧ stop t key j' ∧ (∀ i, (j <= i < j')%nat → ¬ stop t key i) ∧
      Ok (slot t key j) = Ok (slot t key j')) as Hhere.
  { intros Hs. exists j. split; [lia|]. split; [exact Hs|]. split; [lia|reflexivity]. }
  destruct (taken e) eqn:Et; cbn [negb].
  - destruct (hr_taken _ _ Hr _ _ He Et) as (k & Hk & _). rewrite Hk. cbn [deref mbind res_bind].
    fold (ci_prefix k key). destruct (ci_prefix k key) eqn:Ec.
    + left. apply Hhere. exists e. eauto.
    + assert (¬ stop t key j) as Hn.
      { intros (e' & He' & [Ht'|(k' & Hk' & Hc')]); simplify_eq; congruence. }
      destruct (IH (S j)) as [(j' & Hj & Hh & Hb & E)|[Hb E]]; rewrite E.
      * left. exists j'. split; [lia|]. split; [exact Hh|]. split; [|reflexivity].
        intros i Hi. destruct (decide (i = j)) as [->|]; [exact Hn|apply Hb; lia].
      * right. split; [|reflexivity].
        intros i Hi. destruct (decide (i = j)) as [->|]; [exact Hn|apply Hb; lia].
  - left. apply Hhere. exists e. eauto.
Qed.

Lemma ci_prefix_refl k : ci_prefix k k = true.
Proof.
  unfold ci_prefix, STREQ, strlen. rewrite Nat2Z.id.
  induction k as [|c k IH]; cbn; [done|]. by rewrite Z.eqb_refl.
Qed.

(** A key that is bound, or that no bound key can be confused with. *)
Definition proper_key m key : Prop :=
  bytes key ∧ ∀ k, is_Some (m !! k) → confusable k key → k = key.

Lemma find_index_spec t m key :
  hsearch t m → proper_key m key →
  match m !! key with
  | Some v => ∃ i, find_index t key = Ok (Some i) ∧
                aget (entries t) i = Ok (mkEntry (Some key) v true)
  | None => find_index t key = Ok None
  end.
Proof.
  intros Hr [Hb Hp]. unfold find_index. rewrite hash_int_spec, res_bind_Ok_l by done.
  assert (∀ j, hit t key j → ∃ v, aget (entries t) (slot t key j) =
    Ok (mkEntry (Some key) v true) ∧ m !! key = Some v) as Hhit.
  { intros j (e & k & He & Ht & Hk & Hc).
    destruct (hr_taken _ _ Hr _ _ He Ht) as (k' & Hk' & Hm & _).
    assert (k' = k) as -> by congruence.
    assert (k = key) as -> by (apply Hp; [by eexists|by right]).
    exists (eval e). split; [|exact Hm]. rewrite He. f_equal.
    destruct e as [ek ev et]. cbn in *. congruence. }
  destruct (find_loop_spec t m key MAX_CHAIN_LENGTH 0 Hr)
    as [(j & Hj & Hh & _ & E)|[Hn E]]; rewrite E.
  - destruct (Hhit j Hh) as (v & He & Hm). rewrite Hm. eexists. split; [reflexivity|exact He].
  - destruct (m !! key) as [v|] eqn:Hm; [exfalso|reflexivity].
    destruct (hr_bound_in _ _ Hr _ _ Hm) as [i Hi].
    destruct (hr_taken _ _ Hr _ _ Hi eq_refl) as (k & Hk & _ & j & Hj & Hij).
    cbn in Hk. simplify_eq. apply (Hn j); [lia|].
    exists (mkEntry (Some k) v true), k. split_and!; [done..|apply ci_prefix_refl].
Qed.

Lemma hsearch_get t m key :
  hsearch t m → proper_key m key → hashtable_get t key = Ok (m !! key ≫= id).
Proof.
  intros Hr Hp. pose proof (find_index_spec t m key Hr Hp) as Hf. unfold hashtable_get.
  destruct (m !! key) as [v|].
  - destruct Hf as (i & -> & He). rewrite res_bind_Ok_l, He. reflexivity.
  - rewrite Hf. reflexivity.
Qed.

Lemma not_stop_taken t m key j :
  hsearch t m → ¬ stop t key j →
  ∃ e, aget (entries t) (slot t key j) = Ok e ∧ taken e = true.
Proof.
  intros Hr Hn. destruct (aget_slot t key j (hr_size _ _ Hr) (proj1 (hr_bound _ _ Hr)))
    as [e He]. exists e. split; [exact He|]. destruct (taken e) eqn:Et; [done|].
  exfalso. apply Hn. exists e. auto.
Qed.

Lemma hash_found t m key i :
  hsearch t m → bytes key → hashtable_hash t key = Ok i → i ≠ - HASHTABLE_FULL →
  ∃ j, (j < MAX_CHAIN_LENGTH)%nat ∧ i = slot t key j ∧ stop t key j ∧
    ∀ j', (j' < j)%nat → ¬ stop t key j'.
Proof.
  intros Hr Hb Hh Hi. unfold hashtable_hash in Hh. destruct (_ >=? _); [congruence|].
  rewrite hash_int_spec, res_bind_Ok_l in Hh by done.
  destruct (hash_loop_spec t m key MAX_CHAIN_LENGTH 0 Hr)
    as [(j & Hj & Hs & Hn & E)|[_ E]]; rewrite E in Hh; [|congruence].
  exists j. split; [lia|]. split; [congruence|]. split; [exact Hs|].
  intros j' Hj'. apply Hn. lia.
Qed.

(** The entry found is free exactly when the key is new; else it is the key's. *)
Lemma found_entry t m key j e :
  hsearch t m → chained t → proper_key m key → stop t key j →
  aget (entries t) (slot t key j) = Ok e → (∀ j', (j' < j)%nat → ¬ stop t key j') →
  if taken e then ekey e = Some key ∧ is_Some (m !! key) else m !! key = None.
Proof.
  intros Hr Hcd [Hb Hp] (e' & He' & Hs) He Hns. rewrite He in He'. injection He' as <-.
  destruct (taken e) eqn:Et.
  - destruct Hs as [?|(k & Hk & Hc)]; [congruence|].
    destruct (hr_taken _ _ Hr _ _ He Et) as (k' & Hk' & Hm & _).
    assert (k' = k) as -> by congruence.
    assert (k = key) as -> by (apply Hp; [by eexists|by left]). eauto.
  - destruct (m !! key) as [v|] eqn:Hm; [exfalso|done].
    destruct (hr_bound_in _ _ Hr _ _ Hm) as [i0 Hi0].
    destruct (Hcd _ _ _ Hi0 eq_refl eq_refl) as (j0 & Hj0 & -> & Hchain).
    destruct (lt_eq_lt_dec j j0) as [[Hlt| ->]|Hgt].
    + destruct (Hchain j Hlt) as (e2 & He2 & Ht2). congruence.
    + rewrite He in Hi0. injection Hi0 as ->. done.
    + apply (Hns j0 Hgt). eexists. split; [exact Hi0|]. right. exists key.
      split; [done|apply ci_prefix_refl].
Qed.

(** No other entry holds the key. *)
Lemma other_entry t m key j e i' e' :
  hsearch t m → aget (entries t) (slot t key j) = Ok e →
  (if taken e then ekey e = Some key ∧ is_Some (m !! key) else m !! key = None) →
  aget (entries t) i' = Ok e' → taken e' = true → i' ≠ slot t key j → ekey e' ≠ Some key.
Proof.
  intros Hr He Hf He' Ht' Hne Hk. destruct (taken e) eqn:Et.
  - destruct Hf as [Hf _]. apply Hne.
    apply (hr_unique _ _ Hr _ _ _ _ He' He Ht' Et). congruence.
  - destruct (hr_taken _ _ Hr _ _ He' Ht') as (k & Hk' & Hm & _). congruence.
Qed.

Section insert.
Context (t : HashTable V) (m : gmap (list Z) (option V)) (key : list Z) (val : option V).
Context (j : nat) (e : hashtable_entry V) (es : list (hashtable_entry V)).
Context (Hr : hsearch t m) (Hp : proper_key m key).
Context (He : aget (entries t) (slot t key j) = Ok e).
Context (Hf : if taken e then ekey e = Some key ∧ is_Some (m !! key) else m !! key = None).
Context (Hj : (j < MAX_CHAIN_LENGTH)%nat).
Context (Hset : aset (entries t) (slot t key j) (mkEntry (Some key) val true) = Ok es).

Let t' := mkTable (table_size t) (if taken e then hsize t else u64 (hsize t + 1)) es.

Lemma insert_slot k i : slot t' k i = slot t k i.
Proof. by apply slot_eq. Qed.

Lemma insert_get i :
  aget (entries t') i = if decide (i = slot t key j) then Ok (mkEntry (Some key) val true)
                        else aget (entries t) i.
Proof. apply (aget_aset _ _ _ _ i Hset). Qed.

Lemma insert_mono i e0 :
  aget (entries t) i = Ok e0 → taken e0 = true →
  ∃ e', aget (entries t') i = Ok e' ∧ taken e' = true.
Proof. intros He0 Ht0. rewrite insert_get. case_decide; eauto. Qed.

Lemma insert_hsearch : hsearch t' (<[key := val]> m).
Proof using All.
  destruct Hp as [Hb Hp']. pose proof Hset as [Hlt Hes]%aset_inv. split.
  - cbn. rewrite Hes, length_insert. apply (hr_size _ _ Hr).
  - apply (hr_bound _ _ Hr).
  - cbn [hsize t']. destruct (taken e).
    + rewrite map_size_insert_Some by apply Hf. apply (hr_count _ _ Hr).
    + rewrite map_size_insert_None by done. rewrite (hr_count _ _ Hr), u64_add_idemp_l.
      f_equal. lia.
  - intros k. rewrite lookup_insert_is_Some'. intros [<-|Hk]; [done|by apply (hr_keys _ _ Hr)].
  - intros i e0. rewrite insert_get. case_decide as Ei; intros He0 Ht0.
    + injection He0 as <-. exists key. split; [done|]. rewrite lookup_insert_eq.
      split; [done|]. exists j. split; [exact Hj|]. by rewrite insert_slot.
    + destruct (hr_taken _ _ Hr _ _ He0 Ht0) as (k & Hk & Hm & j0 & Hj0 & ->).
      exists k. split; [done|]. split.
      * rewrite lookup_insert_ne; [done|]. intros <-.
        exact (other_entry t m key j e _ _ Hr He Hf He0 Ht0 Ei Hk).
      * exists j0. split; [exact Hj0|]. by rewrite insert_slot.
  - intros k v. destruct (decide (k = key)) as [->|Hne].
    + rewrite lookup_insert_eq. intros [= <-]. exists (slot t key j).
      rewrite insert_get, decide_True by reflexivity. reflexivity.
    + rewrite lookup_insert_ne by done. intros Hk.
      destruct (hr_bound_in _ _ Hr _ _ Hk) as [i Hi]. exists i.
      rewrite insert_get, decide_False; [exact Hi|]. intros ->.
      rewrite He in Hi. injection Hi as ->. cbn in Hf. destruct Hf. congruence.
  - intros i i' e1 e2. rewrite !insert_get.
    case_decide as E1; case_decide as E2; intros H1 H2 Ht1 Ht2 Hk.
    + congruence.
    + injection H1 as <-. exfalso. symmetry in Hk.
      exact (other_entry t m key j e _ _ Hr He Hf H2 Ht2 E2 Hk).
    + injection H2 as <-. exfalso. exact (other_entry t m key j e _ _ Hr He Hf H1 Ht1 E1 Hk).
    + exact (hr_unique _ _ Hr _ _ _ _ H1 H2 Ht1 Ht2 Hk).
  - intros k k'. rewrite !lookup_insert_is_Some'. intros [<-|Hk] [<-|Hk'] Hc; [done|..].
    + symmetry. apply Hp'; [done|]. unfold confusable in *. tauto.
    + by apply Hp'.
    + by apply (hr_distinct _ _ Hr).
Qed.

Lemma insert_chained :
  chained t →
  (∀ j', (j' < j)%nat → ∃ e, aget (entries t) (slot t key j') = Ok e ∧ taken e = true) →
  chained t'.
Proof using All.
  intros Hcd Hch i e0 k. rewrite insert_get. case_decide as Ei; intros He0 Ht0 Hk.
  - injection He0 as <-. injection Hk as <-. exists j. split; [exact Hj|].
    split; [by rewrite insert_slot|]. intros j' Hj'. rewrite insert_slot.
    destruct (Hch j' Hj') as (e' & H1 & H2). exact (insert_mono _ _ H1 H2).
  - destruct (Hcd _ _ _ He0 Ht0 Hk) as (j0 & Hj0 & -> & Hc0).
    exists j0. split; [exact Hj0|]. split; [by rewrite insert_slot|].
    intros j' Hj'. rewrite insert_slot.
    destruct (Hc0 j' Hj') as (e' & H1 & H2). exact (insert_mono _ _ H1 H2).
Qed.
End insert.

(** An insertion that finds a slot. *)
Lemma hashtable_put_found t m key val i fuel :
  hsearch t m → chained t → proper_key m key →
  hashtable_hash t key = Ok i → i ≠ - HASHTABLE_FULL →
  ∃ t', hashtable_put (S fuel) t key val = Ok t' ∧ hsearch t' (<[key := val]> m) ∧ chained t'.
Proof.
  intros Hr Hcd Hp Hh Hi. cbn [hashtable_put]. rewrite Hh, res_bind_Ok_l.
  destruct (Z.eqb_spec i (- HASHTABLE_FULL)) as [|_]; [done|].
  destruct (hash_found t m key i Hr (proj1 Hp) Hh Hi) as (j & Hj & -> & Hs & Hn).
  destruct (aget_slot t key j (hr_size _ _ Hr) (proj1 (hr_bound _ _ Hr))) as [e He].
  pose proof (found_entry t m key j e Hr Hcd Hp Hs He Hn) as Hf.
  unfold set_entry. rewrite He, res_bind_Ok_l.
  pose proof (aget_lt _ _ _ He) as Hlt.
  pose proof (aset_lt (entries t) (slot t key j) (mkEntry (Some key) val true) Hlt) as Hset.
  rewrite Hset, res_bind_Ok_l. eexists. split; [reflexivity|]. split.
  - exact (insert_hsearch t m key val j e _ Hr Hp He Hf Hj Hset).
  - apply (insert_chained t m key val j e _ Hr Hp He Hf Hj Hset Hcd).
    intros j' Hj'. apply (not_stop_taken t m key j' Hr), Hn, Hj'.
Qed.

Lemma hashtable_new_repr : hsearch hashtable_new ∅ ∧ chained hashtable_new.
Proof.
  assert (∀ i e, aget (entries (hashtable_new : HashTable V)) i = Ok e → taken e = true → False) as Hn.
  { intros i e He Ht. unfold aget in He. destruct (i <? 0); [done|].
    cbn [entries hashtable_new] in He.
    destruct (replicate _ _ !! _) as [e'|] eqn:El; [|done]. injection He as ->.
    apply lookup_replicate in El as [-> _]. done. }
  split.
  - split; try done; try (by intros ? []); try (by intros ? ? []).
    + intros i e He Ht. destruct (Hn _ _ He Ht).
    + intros i i' e e' He _ Ht. destruct (Hn _ _ He Ht).
  - intros i e k He Ht. destruct (Hn _ _ He Ht).
Qed.

Lemma hashtable_del_spec t m key v :
  hsearch t m → proper_key m key → m !! key = Some v →
  ∃ t', hashtable_del t key = Ok (t', HASHTABLE_OK) ∧ hsearch t' (delete key m).
Proof.
  intros Hr Hp Hm. pose proof (find_index_spec t m key Hr Hp) as Hf. rewrite Hm in Hf.
  destruct Hf as (i & Hfi & He). unfold hashtable_del. rewrite Hfi, res_bind_Ok_l, He, res_bind_Ok_l.
  pose proof (aget_lt _ _ _ He) as Hlt. set (ne := mkEntry _ _ false).
  pose proof (aset_lt (entries t) i ne Hlt) as Hset. rewrite Hset, res_bind_Ok_l.
  eexists. split; [reflexivity|].
  assert (∀ i', aget (<[Z.to_nat i:=ne]> (entries t)) i' =
    if decide (i' = i) then Ok ne else aget (entries t) i') as Hget
    by (intros; by apply aget_aset).
  assert (∀ i' e', i' ≠ i → aget (entries t) i' = Ok e' → taken e' = true →
    ekey e' ≠ Some key) as Hother.
  { intros i' e' Hi' He' Ht' Hk. apply Hi'. by apply (hr_unique _ _ Hr _ _ _ _ He' He Ht' eq_refl). }
  split.
  - cbn [table_size entries]. rewrite length_insert. apply (hr_size _ _ Hr).
  - apply (hr_bound _ _ Hr).
  - cbn [hsize]. rewrite (hr_count _ _ Hr), u64_sub_idemp_l. f_equal.
    rewrite <-(insert_delete_id m key v Hm) at 1.
    rewrite map_size_insert_None by apply lookup_delete_eq. lia.
  - intros k. rewrite lookup_delete_is_Some. intros [_ Hk]. by apply (hr_keys _ _ Hr).
  - intros i' e'. cbn [entries]. rewrite Hget. case_decide as E; intros He' Ht'.
    { by injection He' as <-. }
    destruct (hr_taken _ _ Hr _ _ He' Ht') as (k & Hk & Hmk & j & Hj & ->).
    exists k. split; [done|]. split; [|exists j; split; [exact Hj|by apply slot_eq]].
    rewrite lookup_delete_ne; [done|]. intros <-. exact (Hother _ _ E He' Ht' Hk).
  - intros k w Hk. apply lookup_delete_Some in Hk as [Hne Hk].
    destruct (hr_bound_in _ _ Hr _ _ Hk) as [i' Hi']. exists i'. cbn [entries].
    rewrite Hget, decide_False; [exact Hi'|]. intros ->. congruence.
  - intros i1 i2 e1 e2. cbn [entries]. rewrite !Hget.
    case_decide; case_decide; intros H1 H2 Ht1 Ht2 Hk;
      [congruence|by injection H1 as <-|by injection H2 as <-|].
    exact (hr_unique _ _ Hr _ _ _ _ H1 H2 Ht1 Ht2 Hk).
  - intros k k'. rewrite !lookup_delete_is_Some. intros [_ ?] [_ ?].
    by apply (hr_distinct _ _ Hr).
Qed.
End Spec.

(** ** Properties *)

(** C25 the table driven CRC-32 is the bit by bit one: on every byte string it
    returns the remainder for the polynomial 0xedb88320, and its table look-ups
    are within bounds. *)
Theorem crc32_correct (s : list Z) : bytes s → crc32 s = Ok (crc_ref s).
Proof. apply crc32_spec. Qed.

Lemma crc32_correct_witness : crc32 (str "123456789") = Ok (crc_ref (str "123456789")).
Proof. apply (crc32_correct (str "123456789")). by repeat constructor. Defined.

(** C26 when the probing finds a slot, hashtable_put binds the key without growing
    the table, and afterwards hashtable_get returns for every key what the
    updated map binds it to, provided that no key is, up to case, a prefix of
    another, that the table has one entry for each key (hsearch), and that every entry is
    reached from its place without a gap (chained), as in tables from which nothing was
    deleted. *)
Theorem hashtable_put_get {V} (t : HashTable V) (m : gmap (list Z) (option V))
    (key : list Z) (val : option V) (i : Z) :
  hsearch t m → chained t → proper_key m key →
  hashtable_hash t key = Ok i → i ≠ - HASHTABLE_FULL →
  ∃ t', hashtable_put 1 t key val = Ok t' ∧ hsearch t' (<[key := val]> m) ∧ chained t' ∧
    ∀ k, proper_key (<[key := val]> m) k → hashtable_get t' k = Ok (<[key := val]> m !! k ≫= id).
Proof.
  intros Hr Hc Hp Hh Hi.
  destruct (hashtable_put_found t m key val i 0 Hr Hc Hp Hh Hi) as (t' & E & Hr' & Hc').
  exists t'. split_and!; [done..|]. intros k Hk. by apply hsearch_get.
Qed.

Lemma proper_key_empty {V} (k : list Z) : bytes k → proper_key (V:=V) ∅ k.
Proof. intros Hk. split; [done|]. intros k' []. done. Qed.

Lemma hashtable_put_get_witness :
  ∃ t', hashtable_put 1 (hashtable_new (V:=Z)) (str "db0") (Some 7) = Ok t' ∧
    hsearch t' (<[str "db0" := Some 7]> ∅) ∧ chained t' ∧
    ∀ k, proper_key (<[str "db0" := Some 7]> ∅) k →
      hashtable_get t' k = Ok (<[str "db0" := Some 7]> (∅ : gmap (list Z) (option Z)) !! k ≫= id).
Proof.
  destruct (hashtable_new_repr (V:=Z)) as [Hr Hc].
  apply (hashtable_put_get hashtable_new ∅ (str "db0") (Some 7) 0 Hr Hc);
    [apply proper_key_empty; by repeat constructor|vm_compute; reflexivity|done].
Defined.

Lemma hashtable_new_hash {V} (u : list Z) :
  bytes u → hashtable_hash (hashtable_new (V:=V)) u = Ok (slot (V:=V) hashtable_new u 0).
Proof.
  intros Hu. unfold hashtable_hash.
  replace (hsize (hashtable_new (V:=V)) >=? _) with false by reflexivity.
  rewrite hash_int_spec, res_bind_Ok_l by done.
  assert (0 <= slot (V:=V) hashtable_new u 0 < 4) as Hb by by apply Z.mod_pos_bound.
  generalize dependent (slot (V:=V) hashtable_new u 0). intros i Hb.
  assert (aget (entries (hashtable_new (V:=V))) i = Ok empty_entry) as He.
  { assert (i = 0 ∨ i = 1 ∨ i = 2 ∨ i = 3) as [->|[->|[->| ->]]] by lia; reflexivity. }
  unfold MAX_CHAIN_LENGTH. rewrite hash_loop_S, He, res_bind_Ok_l. cbn [taken empty_entry negb].
  f_equal. apply s32_small. unfold INT_MIN, INT_MAX. lia.
Qed.

(** The first insertion into a new table. *)
Lemma hashtable_new_put {V} (u : list Z) (v : option V) :
  bytes u → ∃ t, hashtable_put 1 hashtable_new u v = Ok t ∧ hsearch t (<[u := v]> ∅) ∧ chained t.
Proof.
  intros Hu. destruct (hashtable_new_repr (V:=V)) as [Hr Hc].
  apply (hashtable_put_found hashtable_new ∅ u v _ 0 Hr Hc (proper_key_empty u Hu)
           (hashtable_new_hash u Hu)).
  assert (0 <= slot (V:=V) hashtable_new u 0 < 4) by by apply Z.mod_pos_bound.
  unfold HASHTABLE_FULL. lia.
Qed.

(** C27 in a table that has one entry for each key (hsearch; a put after a deletion may leave
    a second one, see hashtable_stale_value) hashtable_del removes the binding of a key
    that is in the table and is not, up to case, a prefix of another key nor has one as
    its prefix (proper_key): it is not found any more, every other such key is found as
    before, and the table still has one entry for each key. *)
Theorem hashtable_del_get {V} (t : HashTable V) (m : gmap (list Z) (option V))
    (key : list Z) (v : option V) :
  hsearch t m → proper_key m key → m !! key = Some v →
  ∃ t', hashtable_del t key = Ok (t', HASHTABLE_OK) ∧ hsearch t' (delete key m) ∧
    hashtable_get t' key = Ok None ∧
    ∀ k, k ≠ key → proper_key m k → hashtable_get t' k = hashtable_get t k.
Proof.
  intros Hr Hp Hm. destruct (hashtable_del_spec t m key v Hr Hp Hm) as (t' & E & Hr').
  assert (∀ k, proper_key m k → proper_key (delete key m) k) as Hpk.
  { intros k [Hb Hk]. split; [done|]. intros k' [_ ?]%lookup_delete_is_Some. by apply Hk. }
  exists t'. split_and!; [done..| |].
  - rewrite (hsearch_get t' (delete key m)) by auto. by rewrite lookup_delete_eq.
  - intros k Hne Hk. rewrite (hsearch_get t' (delete key m)), (hsearch_get t m) by auto.
    by rewrite lookup_delete_ne.
Qed.

Lemma hashtable_del_get_witness :
  ∃ t, hashtable_put 1 (hashtable_new (V:=Z)) (str "db0") (Some 7) = Ok t ∧
  ∃ t', hashtable_del t (str "db0") = Ok (t', HASHTABLE_OK) ∧
    hsearch t' (delete (str "db0") (<[str "db0" := Some 7]> ∅)) ∧
    hashtable_get t' (str "db0") = Ok None ∧
    ∀ k, k ≠ str "db0" → proper_key (<[str "db0" := Some 7]> ∅) k →
      hashtable_get t' k = hashtable_get t k.
Proof.
  destruct (hashtable_new_repr (V:=Z)) as [Hr Hc].
  destruct (hashtable_put_found hashtable_new ∅ (str "db0") (Some 7) 0 0 Hr Hc)
    as (t & E & Hr' & _);
    [apply proper_key_empty; by repeat constructor|vm_compute; reflexivity|done|].
  exists t. split; [done|]. apply (hashtable_del_get t _ (str "db0") (Some 7) Hr');
    [|by rewrite lookup_insert_eq].
  split; [by repeat constructor|]. intros k.
  rewrite lookup_insert_is_Some'. intros [<-|[? ?]] _; done.
Defined.

(** After a deletion an insertion can bind a key a second time, in front of the
    old entry; once the new entry is deleted the old value is found again. *)
Theorem hashtable_stale_value :
  (t ← hashtable_put 1 (hashtable_new (V:=Z)) (str "c") (Some 1);
   t ← hashtable_put 1 t (str "d") (Some 2);
   '(t, _) ← hashtable_del t (str "c");
   t ← hashtable_put 1 t (str "d") (Some 3);
   new ← hashtable_get t (str "d");
   '(t, _) ← hashtable_del t (str "d");
   old ← hashtable_get t (str "d");
   mret (new, old)) = Ok (Some 3, Some 2).
Proof. vm_compute. reflexivity. Qed.

(** Hashtable_get returns the value of a longer key for a prefix of it that was
    never inserted, and ignores case. *)
Theorem hashtable_prefix_confusion :
  (t ← hashtable_put 1 (hashtable_new (V:=Z)) (str "db01") (Some 1);
   a ← hashtable_get t (str "db0");
   b ← hashtable_get t (str "DB01");
   mret (a, b)) = Ok (Some 1, Some 1).
Proof. vm_compute. reflexivity. Qed.
