(* ===== verification/Cluster.v ===== *)
(** * The cluster: src/cluster.c, src/cluster.h

    A consistent hash ring: the nodes, real and virtual, in a linked list sorted
    by the point of the ring up to which they are responsible.  The list lives in
    a heap as in Lists.v; [malloc] is the allocator of its nodes, which returns
    an address that is not in use.  The contents of a [struct cluster_node] are
    not changed once it is in the list, so a list node carries them directly. *)

From S2P Require Import Prelude Util Lists Hashtable.

(** ** Data *)

Definition RING_SIZE : Z := 4096.
Definition KPRIME : Z := 2654435761.
Definition INET_ADDRSTRLEN : Z := 16.

Record cluster_node := mkCNode {
  self : bool;
  vnode : bool;
  fd : Z;
  upper_bound : Z;           (* uint16_t *)
  host : list Z;             (* char [INET_ADDRSTRLEN + 1] *)
  port : list Z              (* char [6] *)
}.

Record cluster := mkCluster {
  csize : Z;                 (* int *)
  replicas : Z;              (* int *)
  nodes : List
}.

(** ** Operations *)

(** A null string gives -1 as a [uint16_t]. *)
Definition hash (keystr : option (list Z)) : res Z :=
  match keystr with
  | None => Ok (u16 (-1))
  | Some s =>
      c ← crc32 s;
      let key := jenkins_mix c in
      let key := u64 (Z.shiftr key 3 * KPRIME) in
      mret (u16 (key mod RING_SIZE))
  end.

Definition compare_upper_bound (n1 n2 : cluster_node) : Z :=
  if upper_bound n1 =? upper_bound n2 then 0
  else if upper_bound n1 <? upper_bound n2 then -1 else 1.

(** [strcpy] or [strcat] into an array of [n] characters: the string and its NUL
    must fit. *)
Definition fits (n : Z) (s : list Z) : res (list Z) :=
  if strlen s + 1 <=? n then Ok s else Err OutOfBounds.

Section Cluster.
  Context (malloc : gmap Z (list_node cluster_node) → Z).

Definition insert_node (h : gmap Z (list_node cluster_node)) (c : cluster)
    (cnode : cluster_node) (is_vnode : bool)
  : res (gmap Z (list_node cluster_node) * cluster) :=
  let cnode := mkCNode (self cnode) is_vnode (fd cnode) (upper_bound cnode)
                 (host cnode) (port cnode) in
  let '(h, L) := list_push h (nodes c) (malloc h) cnode in
  '(h, head) ← list_merge_sort compare_upper_bound (Z.to_nat (llen L)) h (lhead L);
  size ← (if is_vnode then Ok (csize c) else int_chk (csize c + 1));
  mret (h, {| csize := size; replicas := replicas c;
              nodes := {| lhead := head; ltail := ltail L; llen := llen L |} |}).

(** A ring node for [name ++ port], the part that the real and the virtual nodes
    share; [fulladdr] has 30 characters. *)
Definition make_node (c_fd : Z) (name addr pt : list Z) (is_self : bool)
  : res cluster_node :=
  _ ← fits 30 name;
  fulladdr ← fits 30 (name ++ pt);
  hv ← hash (Some fulladdr);
  h ← fits (INET_ADDRSTRLEN + 1) addr;
  p ← fits 6 pt;
  mret {| self := is_self; vnode := false; fd := c_fd;
          upper_bound := u16 (hv mod RING_SIZE); host := h; port := p |}.

(** The loop over the virtual nodes, [n] to go: [replicas] is [n - 1] in the body,
    [prefix] has 20 characters. *)
Fixpoint add_vnodes (n : nat) (h : gmap Z (list_node cluster_node)) (c : cluster)
    (c_fd : Z) (addr pt : list Z) (is_self : bool)
  : res (gmap Z (list_node cluster_node) * cluster) :=
  match n with
  | O => Ok (h, c)
  | S n =>
      prefix ← fits 20 (sprintf_d (Z.of_nat n));
      prefix ← fits 20 (prefix ++ addr);
      cnode ← make_node c_fd prefix addr pt is_self;
      '(h, c) ← insert_node h c cnode true;
      add_vnodes n h c c_fd addr pt is_self
  end.

(** A negative number of replicas would be counted down past [INT_MIN]. *)
Definition cluster_add_new_node (h : gmap Z (list_node cluster_node)) (c : cluster)
    (c_fd : Z) (addr pt : list Z) (is_self : bool)
  : res (gmap Z (list_node cluster_node) * cluster) :=
  cnode ← make_node c_fd addr addr pt is_self;
  '(h, c) ← insert_node h c cnode false;
  if replicas c <? 0 then Err SignedOverflow
  else add_vnodes (Z.to_nat (replicas c)) h c c_fd addr pt is_self.
End Cluster.

(** The loop of [cluster_get_node]. *)
Fixpoint get_node_loop (fuel : nat) (h : gmap Z (list_node cluster_node))
    (cur : option Z) (hash_value : Z) : res (option Z) :=
  n ← load h cur;
  match nnext n with
  | None => Ok cur
  | Some _ =>
      nx ← load h (nnext n);
      if upper_bound (ndata nx) <? hash_value then
        match fuel with
        | O => Err OutOfFuel
        | S fuel => get_node_loop fuel h (nnext n) hash_value
        end
      else Ok cur
  end.

Definition cluster_get_node (fuel : nat) (h : gmap Z (list_node cluster_node))
    (c : cluster) (hash_value : Z) : res cluster_node :=
  if llen (nodes c) =? 1 then n ← load h (lhead (nodes c)); mret (ndata n)
  else
    cur ← get_node_loop fuel h (lhead (nodes c)) hash_value;
    n ← load h cur;
    if negb (bool_decide (is_Some (nnext n))) && (upper_bound (ndata n) <? hash_value) then
      hd ← load h (lhead (nodes c)); mret (ndata hd)
    else if hash_value >? upper_bound (ndata n) then
      nx ← load h (nnext n); mret (ndata nx)
    else mret (ndata n).

Definition cluster_size (c : cluster) : Z := llen (nodes c).

(** ** Specification *)

Abbreviation ring_le := (node_le compare_upper_bound).

(** The list of the cluster holds the nodes [l], sorted by upper bound. *)
Record ring (h : gmap Z (list_node cluster_node)) (c : cluster)
    (l : list (Z * cluster_node)) : Prop := {
  ri_chain : lseg h (lhead (nodes c)) l None;
  ri_nodup : NoDup l.*1;
  ri_len : llen (nodes c) = Z.of_nat (length l);
  ri_sorted : StronglySorted ring_le l
}.

(** The node responsible for a point of the ring: the first one whose upper bound
    is not below it, or the first one of the ring when there is none. *)
Definition owner (hash_value : Z) (ns : list cluster_node) : option cluster_node :=
  match filter (λ n, hash_value <= upper_bound n) ns with
  | n :: _ => Some n
  | [] => head ns
  end.

(** The ring nodes for an address: the real one and one for each replica. *)
Definition ring_point (name : list Z) : Z := raw_hash name mod RING_SIZE.

Definition ring_node (c_fd : Z) (name addr pt : list Z) (is_self is_vnode : bool)
  : cluster_node :=
  mkCNode is_self is_vnode c_fd (ring_point (name ++ pt)) addr pt.

Fixpoint vnodes (n : nat) (c_fd : Z) (addr pt : list Z) (is_self : bool) : list cluster_node :=
  match n with
  | O => []
  | S n => ring_node c_fd (sprintf_d (Z.of_nat n) ++ addr) addr pt is_self true
           :: vnodes n c_fd addr pt is_self
  end.

(** ** Proofs *)

#[export] Instance compare_upper_bound_preorder :
  TotalPreorder (λ a b, compare_upper_bound a b <=? 0).
Proof.
  assert (∀ a b, (compare_upper_bound a b <=? 0) = (upper_bound a <=? upper_bound b)) as E.
  { intros a b. unfold compare_upper_bound.
    destruct (Z.eqb_spec (upper_bound a) (upper_bound b)),
      (Z.ltb_spec (upper_bound a) (upper_bound b)); symmetry;
      first [apply Z.leb_le; lia|apply Z.leb_gt; lia]. }
  split; intros; rewrite ?E, ?Z.leb_le in *; lia.
Qed.

Lemma ring_le_spec x y : ring_le x y ↔ upper_bound x.2 <= upper_bound y.2.
Proof.
  unfold node_le, compare_upper_bound.
  destruct (Z.eqb_spec (upper_bound x.2) (upper_bound y.2)),
    (Z.ltb_spec (upper_bound x.2) (upper_bound y.2)); lia.
Qed.

(** Where the loop stops: after the nodes whose successor is below the point. *)
Lemma get_node_loop_spec fuel h p a n l hv :
  lseg h p ((a, n) :: l) None → (length l <= fuel)%nat →
  ∃ l1 b m l2, (a, n) :: l = l1 ++ (b, m) :: l2 ∧
    get_node_loop fuel h p hv = Ok (Some b) ∧ lseg h (Some b) ((b, m) :: l2) None ∧
    (l1 ≠ [] → upper_bound m < hv) ∧
    match l2 with [] => True | (_, x) :: _ => hv <= upper_bound x end.
Proof.
  revert p a n l. induction fuel as [|fuel IH]; intros p a n l Hl Hf.
  all: destruct (load_lseg _ _ _ _ _ _ Hl) as (m & -> & Hload & _ & Hr).
  all: destruct l as [|[b x] l]; [cbn in Hr; subst m;
    exists [], a, n, []; split_and!;
      [done|by cbn [get_node_loop]; rewrite Hload|exact Hl|done|exact I]|].
  { cbn in Hf. lia. }
  destruct (load_lseg _ _ _ _ _ _ Hr) as (m' & -> & Hload2 & _ & Hr2).
  cbn [get_node_loop]. rewrite Hload. cbn [mbind res_bind nnext].
  rewrite Hload2. cbn [mbind res_bind ndata].
  destruct (Z.ltb_spec (upper_bound x) hv) as [Hlt|Hge].
  - destruct (IH (Some b) b x l Hr ltac:(cbn in Hf; lia))
      as (l1 & b' & m & l2 & E & Hg & Hs & Hub & Hl2).
    exists ((a, n) :: l1), b', m, l2. rewrite E. split_and!; [done..| |done].
    intros _. destruct l1; [|by apply Hub]. cbn in E. by simplify_eq.
  - exists [], a, n, ((b, x) :: l). split_and!; done.
Qed.

Lemma owner_app hv ns1 n ns2 :
  Forall (λ n, upper_bound n < hv) ns1 → hv <= upper_bound n →
  owner hv (ns1 ++ n :: ns2) = Some n.
Proof.
  intros Hs Hn. unfold owner. rewrite filter_app.
  assert (filter (λ n, hv <= upper_bound n) ns1 = []) as ->.
  { induction Hs as [|x ns1 Hx Hs IH]; [done|]. rewrite filter_cons, decide_False by lia. done. }
  by rewrite app_nil_l, filter_cons, decide_True.
Qed.

Lemma owner_none hv ns : Forall (λ n, upper_bound n < hv) ns → owner hv ns = head ns.
Proof.
  intros Hs. unfold owner. replace (filter _ ns) with (@nil cluster_node); [done|].
  induction Hs as [|x ns Hx Hs IH]; [done|]. rewrite filter_cons, decide_False by lia. done.
Qed.

Lemma cluster_get_node_spec fuel h c l hv :
  ring h c l → l ≠ [] → (length l <= fuel)%nat →
  ∃ n, owner hv l.*2 = Some n ∧ cluster_get_node fuel h c hv = Ok n.
Proof.
  intros [Hc Hnd Hlen Hs] Hne Hf. destruct l as [|[a n] l]; [done|]. clear Hne.
  unfold cluster_get_node. rewrite Hlen.
  destruct (load_lseg _ _ _ _ _ _ Hc) as (m & Hh & Hload & _ & Hr).
  destruct (Z.eqb_spec (Z.of_nat (length ((a, n) :: l))) 1) as [E1|E1].
  { destruct l; [|cbn in E1; lia]. rewrite Hload. exists n. split; [|done].
    unfold owner. cbn. by case_decide. }
  destruct (get_node_loop_spec fuel h _ a n l hv Hc) as (l1 & b & x & l2 & E & -> & Hb & Hub & Hl2);
    [cbn in Hf; lia|]. cbn [mbind res_bind].
  destruct (load_lseg _ _ _ _ _ _ Hb) as (q & _ & -> & _ & Hq). cbn [mbind res_bind ndata nnext].
  assert (upper_bound x < hv → Forall (λ n, upper_bound n < hv) (l1.*2 ++ [x])) as Hall.
  { intros Hx. apply Forall_app. split; [|by constructor]. rewrite E in Hs.
    apply Forall_forall. intros y (z & -> & Hz)%list_elem_of_fmap.
    assert (ring_le z (b, x)) as ?%ring_le_spec; [|cbn in *; lia].
    apply (StronglySorted_app_1_elem_of _ _ _ _ _ Hs Hz). by left. }
  rewrite E, fmap_app, fmap_cons. cbn [snd]. destruct l2 as [|[d y] l2].
  - cbn in Hq. subst q. rewrite bool_decide_false by by intros []. cbn [negb andb].
    destruct (Z.ltb_spec (upper_bound x) hv) as [Hx|Hx].
    + rewrite Hload. exists n. split; [|done]. rewrite owner_none by auto.
      destruct l1; cbn in *; by simplify_eq.
    + rewrite Z.gtb_ltb. destruct (Z.ltb_spec (upper_bound x) hv); [lia|]. exists x.
      split; [|done]. destruct l1; [|lia || exfalso; specialize (Hub ltac:(done)); lia].
      by apply (owner_app hv [] x []).
  - destruct (load_lseg _ _ _ _ _ _ Hq) as (q' & -> & Hy & _). rewrite Hy.
    rewrite bool_decide_true by by eexists. cbn [negb andb]. rewrite Z.gtb_ltb.
    destruct (Z.ltb_spec (upper_bound x) hv) as [Hx|Hx].
    + exists y. split; [|done]. rewrite fmap_cons. cbn [snd].
      change (l1.*2 ++ x :: y :: l2.*2) with (l1.*2 ++ [x] ++ y :: l2.*2).
      rewrite (assoc_L (++)). by apply owner_app; auto.
    + exists x. split; [|done]. destruct l1; [|exfalso; specialize (Hub ltac:(done)); lia].
      by apply (owner_app hv [] x).
Qed.

Lemma fits_ok n s : strlen s + 1 <= n → fits n s = Ok s.
Proof. intros H. unfold fits. by rewrite (proj2 (Z.leb_le _ _) H). Qed.

Lemma hash_spec s : bytes s → hash (Some s) = Ok (ring_point s).
Proof.
  intros Hs. unfold hash. rewrite crc32_spec, res_bind_Ok_l by done.
  unfold ring_point, raw_hash, KPRIME, KNUTH_PRIME, RING_SIZE.
  rewrite u16_small; [reflexivity|]. pose proof (Z.mod_pos_bound
    (u64 (Z.shiftr (jenkins_mix (crc_ref s)) 3 * 2654435761)) 4096 ltac:(lia)). lia.
Qed.

Lemma ring_point_bound s : 0 <= ring_point s < RING_SIZE.
Proof. apply Z.mod_pos_bound. done. Qed.

(** The address fits the fields of a node, the names fit the buffers. *)
Record addr_ok (addr pt : list Z) : Prop := {
  ao_addr : strlen addr <= 16;
  ao_port : strlen pt <= 5;
  ao_bytes : bytes addr;
  ao_pbytes : bytes pt
}.

Lemma make_node_spec c_fd name addr pt is_self :
  addr_ok addr pt → bytes name → strlen name + strlen pt < 30 →
  make_node c_fd name addr pt is_self = Ok (ring_node c_fd name addr pt is_self false).
Proof.
  intros [Ha Hp Hba Hbp] Hn Hl. unfold make_node. pose proof (strlen_nonneg pt).
  rewrite (fits_ok 30 name), res_bind_Ok_l by lia.
  rewrite (fits_ok 30 (name ++ pt)), res_bind_Ok_l by (rewrite strlen_app; lia).
  rewrite hash_spec, res_bind_Ok_l by by apply bytes_app.
  unfold INET_ADDRSTRLEN. rewrite (fits_ok _ addr), res_bind_Ok_l by lia.
  rewrite (fits_ok 6 pt), res_bind_Ok_l by lia. unfold ring_node.
  pose proof (ring_point_bound (name ++ pt)) as Hb.
  rewrite (Z.mod_small (ring_point _)) by done. unfold RING_SIZE in Hb.
  by rewrite u16_small by lia.
Qed.

Section ring.
Context (malloc : gmap Z (list_node cluster_node) → Z).
Context (malloc_fresh : ∀ h, h !! malloc h = None).

Lemma insert_node_spec h c l cnode is_vnode :
  ring h c l → Z.of_nat (length l) + 1 < 2 ^ 64 → INT_MIN <= csize c < INT_MAX →
  ∃ h' c' l', insert_node malloc h c cnode is_vnode = Ok (h', c') ∧ ring h' c' l' ∧
    l'.*2 ≡ₚ mkCNode (self cnode) is_vnode (fd cnode) (upper_bound cnode)
               (host cnode) (port cnode) :: l.*2 ∧
    replicas c' = replicas c ∧ csize c' = if is_vnode then csize c else csize c + 1.
Proof.
  intros [Hc Hnd Hlen Hs] Hlt Hsz. unfold insert_node. set (cn := mkCNode _ _ _ _ _ _).
  assert (malloc h ∉ l.*1) as Hfresh.
  { intros Hin. destruct (lseg_dom _ _ _ _ _ Hc Hin) as [x Hx].
    by rewrite malloc_fresh in Hx. }
  pose proof (list_push_chain h (nodes c) l (malloc h) cn Hc Hnd Hlen Hfresh Hlt) as Hp.
  destruct (list_push h (nodes c) (malloc h) cn) as [h1 L]. destruct Hp as (Hc1 & Hnd1 & Hl1).
  rewrite Hl1, Nat2Z.id.
  destruct (list_merge_sort_spec compare_upper_bound (S (length l)) h1 (lhead L) _ Hc1 Hnd1)
    as (h2 & r & l' & -> & Hr & Hperm & Hsort & _); [done|]. cbn [mbind res_bind].
  assert ((if is_vnode then Ok (csize c) else int_chk (csize c + 1))
          = Ok (if is_vnode then csize c else csize c + 1)) as ->.
  { destruct is_vnode; [done|]. apply int_chk_Ok. lia. }
  cbn [mbind res_bind]. eexists _, _, l'. split; [reflexivity|]. split_and!; [|by rewrite Hperm|done..].
  split; [done|by rewrite Hperm| |done]. cbn. by rewrite Hperm.
Qed.

Lemma add_vnodes_spec n h c l c_fd addr pt is_self :
  ring h c l → Z.of_nat (length l) + Z.of_nat n < 2 ^ 64 → INT_MIN <= csize c < INT_MAX →
  addr_ok addr pt → Z.of_nat n <= 1000 →
  ∃ h' c' l', add_vnodes malloc n h c c_fd addr pt is_self = Ok (h', c') ∧ ring h' c' l' ∧
    l'.*2 ≡ₚ vnodes n c_fd addr pt is_self ++ l.*2 ∧ csize c' = csize c ∧ replicas c' = replicas c.
Proof.
  intros Hr Hlt Hsz Ha. revert h c l Hr Hlt Hsz.
  induction n as [|n IH]; intros h c l Hr Hlt Hsz Hn; cbn [add_vnodes vnodes].
  { exists h, c, l. done. }
  destruct (Ha) as [Ha1 Ha2 Ha3 Ha4]. pose proof (strlen_nonneg pt).
  assert (sprintf_d (Z.of_nat n) = print_dec (Z.of_nat n)) as Hd.
  { unfold sprintf_d. destruct (Z.ltb_spec (Z.of_nat n) 0); [lia|done]. }
  assert (strlen (sprintf_d (Z.of_nat n)) <= 3) as Hp.
  { rewrite Hd. unfold strlen, print_dec.
    pose proof (digits_length_upper 20 (Z.of_nat n) [] 2 ltac:(lia)). cbn in *. lia. }
  rewrite (fits_ok 20 (sprintf_d _)), res_bind_Ok_l by lia.
  rewrite (fits_ok 20 (sprintf_d _ ++ addr)), res_bind_Ok_l by (rewrite strlen_app; lia).
  rewrite make_node_spec, res_bind_Ok_l;
    [|done| |rewrite strlen_app; lia].
  2:{ apply bytes_app. split; [|done]. rewrite Hd. apply cstr_bytes, print_dec_cstr. lia. }
  destruct (insert_node_spec h c l (ring_node c_fd (sprintf_d (Z.of_nat n) ++ addr) addr pt
    is_self false) true) as (h1 & c1 & l1 & -> & Hr1 & Hp1 & Hrep & Hsz1); [done|lia|done|].
  rewrite res_bind_Ok_l.
  assert (length l1 = S (length l)) as Hl1.
  { apply Permutation_length in Hp1. by rewrite length_cons, !length_fmap in Hp1. }
  destruct (IH h1 c1 l1) as (h2 & c2 & l2 & -> & Hr2 & Hp2 & Hsz2 & Hrep2);
    [done|lia|congruence|lia|].
  exists h2, c2, l2. split_and!; [done..| |congruence|congruence].
  rewrite Hp2, Hp1. cbn [app]. by rewrite <-Permutation_middle.
Qed.
End ring.

(** ** Properties *)

(** C29 in a non-empty ring sorted by upper bound cluster_get_node returns the node
    responsible for the point: the first one whose upper bound is not below it,
    or the first of the ring past the last one. *)
Theorem cluster_get_node_correct (h : gmap Z (list_node cluster_node)) (c : cluster)
    (l : list (Z * cluster_node)) (hash_value : Z) :
  ring h c l → l ≠ [] →
  ∃ n, owner hash_value l.*2 = Some n ∧ cluster_get_node (length l) h c hash_value = Ok n.
Proof. intros. by apply cluster_get_node_spec. Qed.

Definition demo_node (ub : Z) : cluster_node :=
  mkCNode false false (-1) ub (str "127.0.0.1") (str "8080").

Lemma cluster_get_node_correct_witness :
  ∃ n, owner 1400 [demo_node 1000; demo_node 1500] = Some n ∧
    cluster_get_node 2
      {[1 := mkLNode (demo_node 1000) (Some 2); 2 := mkLNode (demo_node 1500) None]}
      (mkCluster 2 0 (mkList (Some 1) (Some 2) 2)) 1400 = Ok n.
Proof.
  apply (cluster_get_node_correct
    {[1 := mkLNode (demo_node 1000) (Some 2); 2 := mkLNode (demo_node 1500) None]}
    (mkCluster 2 0 (mkList (Some 1) (Some 2) 2))
    [(1, demo_node 1000); (2, demo_node 1500)] 1400); [|done].
  split; [cbn; eauto 20|apply (bool_decide_unpack _); exact I|done|].
  repeat constructor; apply ring_le_spec; cbn; lia.
Defined.

Lemma cluster_add_spec (malloc : gmap Z (list_node cluster_node) → Z)
    (h : gmap Z (list_node cluster_node)) (c : cluster) (l : list (Z * cluster_node))
    (c_fd : Z) (addr pt : list Z) (is_self : bool) :
  (∀ h, h !! malloc h = None) → ring h c l → addr_ok addr pt →
  0 <= replicas c <= 1000 → INT_MIN <= csize c < INT_MAX - 1 →
  Z.of_nat (length l) < 2 ^ 63 →
  ∃ h' c' l', cluster_add_new_node malloc h c c_fd addr pt is_self = Ok (h', c') ∧
    ring h' c' l' ∧ csize c' = csize c + 1 ∧
    l'.*2 ≡ₚ ring_node c_fd addr addr pt is_self false
               :: vnodes (Z.to_nat (replicas c)) c_fd addr pt is_self ++ l.*2 ∧
    replicas c' = replicas c.
Proof.
  intros Hm Hr Ha Hrep Hsz Hl. unfold cluster_add_new_node. destruct (Ha) as [Ha1 Ha2 Ha3 Ha4].
  rewrite make_node_spec, res_bind_Ok_l by (done || lia).
  destruct (insert_node_spec malloc Hm h c l (ring_node c_fd addr addr pt is_self false) false)
    as (h1 & c1 & l1 & -> & Hr1 & Hp1 & Hrep1 & Hsz1); [done|lia|lia|].
  rewrite res_bind_Ok_l, Hrep1. destruct (Z.ltb_spec (replicas c) 0); [lia|].
  assert (length l1 = S (length l)) as Hl1.
  { apply Permutation_length in Hp1. by rewrite length_cons, !length_fmap in Hp1. }
  destruct (add_vnodes_spec malloc Hm (Z.to_nat (replicas c)) h1 c1 l1 c_fd addr pt is_self)
    as (h2 & c2 & l2 & -> & Hr2 & Hp2 & Hsz2 & Hrep2); [done|lia|lia|done|lia|].
  exists h2, c2, l2. split_and!; [done..|congruence| |congruence].
  rewrite Hp2, Hp1. by rewrite <-Permutation_middle.
Qed.

(** C28 cluster_add_new_node adds to a ring one node and as many virtual nodes as
    there are replicas, each at the point of the hash of its name, and nothing
    else; the ring is sorted again, and the size counts the real node only.  The address
    and the port fit their arrays (16 and 5 characters), there are at most 1000 replicas, and the
    size does not overflow. *)
Theorem cluster_add_new_node_correct (malloc : gmap Z (list_node cluster_node) → Z)
    (h : gmap Z (list_node cluster_node)) (c : cluster) (l : list (Z * cluster_node))
    (c_fd : Z) (addr pt : list Z) (is_self : bool) :
  (∀ h, h !! malloc h = None) → ring h c l → addr_ok addr pt →
  0 <= replicas c <= 1000 → INT_MIN <= csize c < INT_MAX - 1 →
  Z.of_nat (length l) < 2 ^ 63 →
  ∃ h' c' l', cluster_add_new_node malloc h c c_fd addr pt is_self = Ok (h', c') ∧
    ring h' c' l' ∧ csize c' = csize c + 1 ∧
    l'.*2 ≡ₚ ring_node c_fd addr addr pt is_self false
               :: vnodes (Z.to_nat (replicas c)) c_fd addr pt is_self ++ l.*2.
Proof.
  intros Hm Hr Ha Hrep Hsz Hl.
  destruct (cluster_add_spec malloc h c l c_fd addr pt is_self Hm Hr Ha Hrep Hsz Hl)
    as (h' & c' & l' & H1 & H2 & H3 & H4 & _). by exists h', c', l'.
Qed.

Lemma cluster_add_new_node_correct_witness :
  ∃ h' c' l', cluster_add_new_node (λ h, fresh (dom h)) ∅ (mkCluster 0 4 list_new) 5
      (str "127.0.0.1") (str "8080") false = Ok (h', c') ∧
    ring h' c' l' ∧ csize c' = 1 ∧
    l'.*2 ≡ₚ ring_node 5 (str "127.0.0.1") (str "127.0.0.1") (str "8080") false false
               :: vnodes 4 5 (str "127.0.0.1") (str "8080") false ++ [].
Proof.
  apply (cluster_add_new_node_correct (λ h, fresh (dom h)) ∅ (mkCluster 0 4 list_new) [] 5
           (str "127.0.0.1") (str "8080") false).
  - intros h. apply not_elem_of_dom, is_fresh.
  - split; [done|constructor|done|constructor].
  - split; [vm_compute; discriminate|vm_compute; discriminate|by repeat constructor..].
  - cbn. lia.
  - cbn. unfold INT_MIN, INT_MAX. lia.
  - cbn. lia.
Defined.
