(* ===== verification/Server.v ===== *)
(** * The commands: the handlers of src/server.c

    The databases are objects in a heap, addressed by the clients and by the
    table of names.  The vector of expiring keys refers to items by their
    address: an item is found as long as a trie holds it, or in [leaked] once an
    insertion has replaced it (the code does not release it then); reading an
    item that is neither is a use of released memory.

    [now] is what [time] returns, [ptr] the address of a new object, [junk] the
    contents of new memory.  A handler runs to its end before the next one
    starts: the spin lock and its granularity are not part of the model.  A
    [Trie] belongs to one database, whose address stands for the pointer to it.
    Replies are the bytes sent. *)

From S2P Require Import Prelude Util Config Store Bst Vec Trie Pack Db Protocol Hashtable.

(** ** Data *)

Definition OK : Z := 0.
Definition NOK : Z := 1.

Record expiring_key := mkEk {
  data_ptr : Z;
  ek_item : Z;
  ek_key : list Z
}.

Record client := mkClient {
  client_fd : Z;
  last_action_time : Z;
  uuid : list Z;
  client_db : Z
}.

(** [struct triedb] with the objects it refers to; [cluster] and [epollfd] are
    not used by the handlers. *)
Record triedb := mkTriedb {
  databases : gmap Z database;
  leaked : gmap Z db_item;
  clients : HashTable Z;
  expiring_keys : Vector expiring_key;
  dbs : HashTable Z;
  keyspace_size : Z
}.

Definition set_database (s : triedb) (a : Z) (db : database) : triedb :=
  mkTriedb (<[a := db]> (databases s)) (leaked s) (clients s) (expiring_keys s) (dbs s)
    (keyspace_size s).
Definition set_expiring (s : triedb) (v : Vector expiring_key) : triedb :=
  mkTriedb (databases s) (leaked s) (clients s) v (dbs s) (keyspace_size s).
Definition add_keyspace (s : triedb) (n : Z) : triedb :=
  mkTriedb (databases s) (leaked s) (clients s) (expiring_keys s) (dbs s)
    (u64 (keyspace_size s + n)).
Definition leak (s : triedb) (old : option db_item) : triedb :=
  match old with
  | Some item => mkTriedb (databases s) (<[iaddr item := item]> (leaked s)) (clients s)
                   (expiring_keys s) (dbs s) (keyspace_size s)
  | None => s
  end.

(** ** Pointers *)

Definition the_db (s : triedb) (a : Z) : res database :=
  match databases s !! a with Some db => Ok db | None => Err UseAfterFree end.

Definition trie_item (t : Trie db_item) (p : Z) : option db_item :=
  match root t with
  | Some r => (λ x, x.2.2) <$> list_find (λ kv, iaddr kv.2 = p) (trie_entries r)
  | None => None
  end.

Definition load_item (s : triedb) (p : Z) : res db_item :=
  match omap (λ d, trie_item (db_data d.2) p) (map_to_list (databases s)) with
  | item :: _ => Ok item
  | [] => match leaked s !! p with Some item => Ok item | None => Err UseAfterFree end
  end.

(** An assignment through the pointer to the item of a key. *)
Definition store_item (db : database) (key : list Z) (item : db_item) : res database :=
  r ← the_root (db_data db);
  mret (with_data db {| destructor := destructor (db_data db);
                        root := Some (trie_node_update r key (λ n, set_data n (Some item)));
                        tsize := tsize (db_data db) |}).

(** ** Replies *)

(** [ack_replies[i]], filled in by [start_server]. *)
Definition ack_replies (i : Z) : res (list Z) :=
  '(_, (_, raw)) ← pack_ack 0 (mkMem 0 ∅) 8 (opcode_val ACK) i;
  mret raw.

(** What a handler leaves: the server, the client, the reply it has set, the
    return code. *)
Definition outcome : Type := triedb * client * option (list Z) * Z.

Definition reply_ack (s : triedb) (c : client) (rc : Z) : res outcome :=
  raw ← ack_replies rc; mret (s, c, Some raw, 0).

(** ** Handlers *)

Definition db_handler (ptr : Z) (s : triedb) (c : client) : res outcome :=
  db ← the_db s (client_db c);
  '(_, reply) ← bstring_new (mkMem 0 ∅) ptr (Some (db_name db));
  let raw := match reply with Some (_, raw) => Some raw | None => None end in
  mret (s, c, raw, 0).

Definition put_handler (now ptr : Z) (s : triedb) (c : client) (packet : put) : res outcome :=
  db ← the_db s (client_db c);
  key ← cstring_at (put_key packet);
  val ← cstring_at (put_val packet);
  if bits_prefix (put_header packet) =? 1 then
    db ← database_prefix_set db key val (put_ttl packet) now;
    reply_ack (set_database s (client_db c) db) c OK
  else
    old ← trie_find (db_data db) key;
    db ← database_insert db key (Some val) (put_ttl packet) now ptr;
    reply_ack (add_keyspace (leak (set_database s (client_db c) db) old) 1) c OK.

(** The loop over [expiring_keys]: the first entry with the address of the item
    is removed. *)
Fixpoint drop_expiring (n : nat) (v : Vector expiring_key) (i p : Z)
  : res (Vector expiring_key) :=
  match n with
  | O => Ok v
  | S n =>
      x ← vector_get v i;
      ek ← deref x;
      if ek_item ek =? p then vector_delete v (s32 i) else drop_expiring n v (i + 1) p
  end.

(** What both branches of [get_handler] do with an item past its time. *)
Definition get_expired (s : triedb) (c : client) (key : list Z) (p : Z) : res triedb :=
  db ← the_db s (client_db c);
  '(db, _) ← database_remove db key;
  let s := set_database s (client_db c) db in
  v ← drop_expiring (Z.to_nat (vector_size (expiring_keys s))) (expiring_keys s) 0 p;
  mret (add_keyspace (set_expiring s v) (-1)).

Definition delta (item : db_item) (now : Z) : Z := ctime item + ttl item - now.

(** The loop over the result of the search; [key] is the prefix, which is what
    the code removes. *)
Fixpoint get_prefix_loop (fuel : nat) (now : Z) (s : triedb) (c : client) (key : list Z)
    (v : Vector (kv_obj db_item)) (i : Z) : res (triedb * Vector (kv_obj db_item)) :=
  if i <? vector_size v then
    match fuel with
    | O => Err OutOfFuel
    | S fuel =>
        x ← vector_get v i;
        cur ← deref x;
        item ← load_item s (iaddr (kv_data cur));
        if negb (ttl item =? -1) && (delta item now <=? 0) then
          s ← get_expired s c key (iaddr item);
          v ← vector_delete v i;
          get_prefix_loop fuel now s c key v (i + 1)
        else get_prefix_loop fuel now s c key v (i + 1)
    end
  else Ok (s, v).

(** The items that the elements of the vector point to. *)
Fixpoint reload (s : triedb) (l : list (option (kv_obj db_item)))
  : res (list (option (kv_obj db_item))) :=
  match l with
  | [] => Ok []
  | None :: l => l ← reload s l; mret (None :: l)
  | Some kv :: l =>
      item ← load_item s (iaddr (kv_data kv));
      l ← reload s l;
      mret (Some (mkKv (kv_key kv) item) :: l)
  end.

(** [now1] is the time at which [database_search] looks, [now] that of the
    handler; [buf] is the contents of the key buffer of the search. *)
Definition get_handler (junk : Z) (buf : list Z) (now1 now : Z) (s : triedb) (c : client)
    (packet : get) : res outcome :=
  db ← the_db s (client_db c);
  key ← cstring_at (get_key packet);
  if bits_prefix (get_header packet) =? 0 then
    found ← database_search db key now1;
    match found with
    | None => reply_ack s c NOK
    | Some item =>
        if negb (ttl item =? -1) && (delta item now <=? 0) then
          s ← get_expired s c key (iaddr item);
          reply_ack s c NOK
        else
          val ← deref (idata item);
          let t := {| tu_ttl := ttl item; tu_keylen := u16 (strlen key);
                      tu_key := key; tu_val := val |} in
          response ← get_response (get_header packet) (inr t);
          raw ← pack_response junk response (bits_opcode (get_header packet));
          mret (s, c, Some raw, 0)
    end
  else
    v ← database_prefix_search buf db key;
    v ← deref v;
    '(s, v) ← get_prefix_loop (Z.to_nat (vector_size v)) now s c key v 0;
    its ← reload s (items v);
    response ← get_response (get_header packet) (inl (mkVector its (maxsize v) (vsize v)));
    raw ← pack_response junk response (bits_opcode (get_header packet));
    mret (s, c, Some raw, 0).

Definition del_handler (s : triedb) (c : client) (packet : get) : res outcome :=
  db ← the_db s (client_db c);
  key ← cstring_at (get_key packet);
  if bits_prefix (get_header packet) =? 1 then
    let currsize := database_size db in
    db ← database_prefix_remove db key;
    reply_ack (add_keyspace (set_database s (client_db c) db)
                 (- u64 (currsize - database_size db))) c OK
  else
    '(db, found) ← database_remove db key;
    let s := set_database s (client_db c) db in
    if (found : bool) then reply_ack (add_keyspace s (-1)) c OK else reply_ack s c NOK.

Definition compare_ttl (now : Z) (n1 n2 : expiring_key * db_item) : bool :=
  delta n1.2 now <=? delta n2.2 now.

(** The items that the expiring keys point to.  For two elements and more the
    sort compares each of them with the pivot, so it reads them all. *)
Fixpoint load_expiring (s : triedb) (l : list (option expiring_key))
  : res (list (option (expiring_key * db_item))) :=
  match l with
  | [] => Ok []
  | None :: l => l ← load_expiring s l; mret (None :: l)
  | Some ek :: l =>
      item ← load_item s (ek_item ek);
      l ← load_expiring s l;
      mret (Some (ek, item) :: l)
  end.

Definition sort_expiring (now : Z) (s : triedb) (v : Vector expiring_key)
  : res (Vector expiring_key) :=
  if vsize v <? 2 then Ok v
  else
    its ← load_expiring s (items v);
    w ← vector_qsort (compare_ttl now) (mkVector its (maxsize v) (vsize v));
    mret (mkVector (map (option_map fst) (items w)) (maxsize w) (vsize w)).

Definition ttl_handler (now : Z) (s : triedb) (c : client) (packet : ttl_request)
  : res outcome :=
  db ← the_db s (client_db c);
  key ← cstring_at (ttl_key packet);
  val ← trie_find (db_data db) key;
  match val with
  | None => reply_ack s c NOK
  | Some item =>
      let has_ttl := negb (ttl item <? 0) in
      let item := mkItem (s16 (ttl_ttl packet)) (idata item) now now (iaddr item) in
      db ← store_item db key item;
      let s := set_database s (client_db c) db in
      let ek := mkEk (client_db c) (iaddr item) key in
      v ← (if has_ttl then Ok (expiring_keys s) else vector_append (expiring_keys s) ek);
      v ← sort_expiring now s v;
      reply_ack (set_expiring s v) c OK
  end.

(** [inc_handler] and [dec_handler] differ in the number that is added; the reply
    that the branches set is overwritten at the end. *)
Definition change_integer (num now : Z) (s : triedb) (c : client) (packet : get)
    (prefix_change : database → list Z → Z → res database) : res outcome :=
  db ← the_db s (client_db c);
  key ← cstring_at (get_key packet);
  s ← (if bits_prefix (get_header packet) =? 1 then
         db ← prefix_change db key now;
         mret (set_database s (client_db c) db)
       else
         found ← database_search db key now;
         match found with
         | None => mret s
         | Some item =>
             d ← deref (idata item);
             if is_integer d then
               d ← update_integer_string d num;
               db ← store_item db key (mkItem (ttl item) (Some d) (ctime item) (lstime item)
                                         (iaddr item));
               mret (set_database s (client_db c) db)
             else mret s
         end);
  reply_ack s c OK.

Definition inc_handler (now : Z) (s : triedb) (c : client) (packet : get) : res outcome :=
  change_integer 1 now s c packet database_prefix_inc.
Definition dec_handler (now : Z) (s : triedb) (c : client) (packet : get) : res outcome :=
  change_integer (-1) now s c packet database_prefix_dec.

(** The key is never null. *)
Definition cnt_handler (junk ptr : Z) (s : triedb) (c : client) (packet : get) : res outcome :=
  db ← the_db s (client_db c);
  key ← cstring_at (get_key packet);
  count ← database_prefix_count db key;
  '(_, (_, raw)) ← pack_cnt junk (mkMem 0 ∅) ptr (opcode_val CNT) (u64 count);
  mret (s, c, Some raw, 0).

(** [fuel] is that of [hashtable_put]. *)
Definition use_handler (fuel : nat) (ptr : Z) (s : triedb) (c : client) (packet : get)
  : res outcome :=
  key ← cstring_at (get_key packet);
  database ← hashtable_get (dbs s) key;
  match database with
  | None =>
      let db := database_init key (Some trie_node_destructor) in
      t ← hashtable_put fuel (dbs s) key (Some ptr);
      let s := mkTriedb (<[ptr := db]> (databases s)) (leaked s) (clients s)
                 (expiring_keys s) t (keyspace_size s) in
      reply_ack s (mkClient (client_fd c) (last_action_time c) (uuid c) ptr) OK
  | Some a => reply_ack s (mkClient (client_fd c) (last_action_time c) (uuid c) a) OK
  end.

Definition keys_handler (junk : Z) (buf : list Z) (s : triedb) (c : client) (packet : get)
  : res outcome :=
  db ← the_db s (client_db c);
  key ← cstring_at (get_key packet);
  v ← database_prefix_search buf db key;
  match v with
  | None => reply_ack s c NOK
  | Some v =>
      response ← get_response (get_header packet) (inl v);
      raw ← pack_response junk response (bits_opcode (get_header packet));
      mret (s, c, Some raw, 0)
  end.

Definition ping_handler (s : triedb) (c : client) : res outcome := reply_ack s c OK.

(** The connection is closed; the statistics have one client less. *)
Definition quit_handler (s : triedb) (info : informations) (c : client)
  : res (outcome * informations) :=
  let info := mkInformations (u32 (nclients info - 1)) (nconnections info) (nnodes info)
                (start_time info) (uptime info) (nrequests info) (bytes_recv info)
                (bytes_sent info) (nkeys info) in
  '(t, _) ← hashtable_del (clients s) (uuid c);
  mret ((mkTriedb (databases s) (leaked s) t (expiring_keys s) (dbs s) (keyspace_size s),
         c, None, -1), info).

Definition info_handler (ptr : Z) (conf : config) (info : informations) (s : triedb)
    (c : client) : res outcome :=
  '(_, (_, raw)) ← pack_info (mkMem 0 ∅) ptr conf info;
  mret (s, c, Some raw, 0).

(** No reply is set. *)
Definition flush_handler (s : triedb) (c : client) : res outcome :=
  db ← the_db s (client_db c);
  db ← database_flush db;
  mret (set_database s (client_db c) db, c, None, 0).

(** ** Expiration *)

Fixpoint expire_loop (fuel : nat) (now : Z) (s : triedb) (i : Z) : res triedb :=
  if i <? vector_size (expiring_keys s) then
    match fuel with
    | O => Err OutOfFuel
    | S fuel =>
        x ← vector_get (expiring_keys s) i;
        ek ← deref x;
        item ← load_item s (ek_item ek);
        if delta item now >? 0 then Ok s
        else
          db ← the_db s (data_ptr ek);
          '(t, _) ← trie_delete (db_data db) (ek_key ek);
          let s := set_database s (data_ptr ek) (with_data db t) in
          v ← vector_delete (expiring_keys s) i;
          expire_loop fuel now (add_keyspace (set_expiring s v) (-1)) (i + 1)
    end
  else Ok s.

Definition expire_keys (now : Z) (s : triedb) : res triedb :=
  if vector_size (expiring_keys s) =? 0 then Ok s
  else expire_loop (Z.to_nat (vector_size (expiring_keys s))) now s 0.

(** ** Start and connections *)

Definition db0 : list Z := str "db0".

(** The fields that [init_info] does not set are those of the static object. *)
Definition init_info (info : informations) : informations :=
  mkInformations 0 0 (nnodes info) (start_time info) 0 0 0 0 0.

(** What [start_server] makes of the static object, all zero, before it listens;
    [ptr] is the address of the default database. *)
Definition init_triedb (ptr : Z) : res triedb :=
  let default_db := database_init db0 (Some trie_node_destructor) in
  t ← hashtable_put 1 hashtable_new db0 (Some ptr);
  mret (mkTriedb {[ptr := default_db]} ∅ hashtable_new vector_new t 0).

(** A connection that [accept_loop] has accepted: [u] is the new identifier, [ptr]
    the address of the client; a null database is the address 0. *)
Definition accept_client (fuel : nat) (fd : Z) (u : list Z) (now ptr : Z) (s : triedb)
    (info : informations) : res (triedb * client * informations) :=
  db ← hashtable_get (dbs s) db0;
  t ← hashtable_put fuel (clients s) u (Some ptr);
  mret (mkTriedb (databases s) (leaked s) t (expiring_keys s) (dbs s) (keyspace_size s),
        mkClient fd (u64 now) u (default 0 db),
        mkInformations (u32 (nclients info + 1)) (u32 (nconnections info + 1)) (nnodes info)
          (start_time info) (uptime info) (nrequests info) (bytes_recv info)
          (bytes_sent info) (nkeys info)).

(** ** Specification: the heap of items *)

(** The databases represent maps from keys to items. *)
Definition srv_repr (s : triedb) (M : gmap Z (gmap (list Z) db_item)) : Prop :=
  map_Forall2 (λ _, db_repr) (databases s) M.

(** The item [it] is the one of key [k] in the database at [a]. *)
Definition holds_item (M : gmap Z (gmap (list Z) db_item)) (a : Z) (k : list Z)
    (it : db_item) : Prop := ∃ m, M !! a = Some m ∧ m !! k = Some it.

(** No two live items have the same address. *)
Definition addr_unique (M : gmap Z (gmap (list Z) db_item)) : Prop :=
  ∀ a k it a' k' it', holds_item M a k it → holds_item M a' k' it' →
    iaddr it = iaddr it' → a = a' ∧ k = k'.

(** No live item has the address [p]. *)
Definition addr_free (M : gmap Z (gmap (list Z) db_item)) (p : Z) : Prop :=
  ∀ a k it, holds_item M a k it → iaddr it ≠ p.

Lemma srv_repr_db s M a m :
  srv_repr s M → M !! a = Some m → ∃ db, the_db s a = Ok db ∧ db_repr db m.
Proof.
  intros Hs Ha. specialize (Hs a). rewrite Ha in Hs. unfold the_db.
  destruct (databases s !! a) as [db|]; inversion Hs; by eexists.
Qed.

Lemma srv_repr_insert s M a db m :
  srv_repr s M → db_repr db m → srv_repr (set_database s a db) (<[a := m]> M).
Proof. intros. by apply map_Forall2_insert_2. Qed.

Lemma trie_item_spec db m p it :
  db_repr db m → trie_item (db_data db) p = Some it → ∃ k, m !! k = Some it ∧ iaddr it = p.
Proof.
  intros [(r & Hr & Hwf & _ & <-) _]. unfold trie_item. rewrite Hr.
  intros ([i [k it']] & (Hi & Hp & _)%list_find_Some & ->)%fmap_Some. cbn in *.
  apply list_elem_of_lookup_2, trie_entries_get in Hi; [|done].
  exists k. by rewrite node_map_lookup.
Qed.

Lemma trie_item_holds db m k it :
  db_repr db m → m !! k = Some it → is_Some (trie_item (db_data db) (iaddr it)).
Proof.
  intros [(r & Hr & Hwf & _ & <-) _] Hk. unfold trie_item. rewrite Hr.
  rewrite node_map_lookup in Hk by done. apply trie_entries_get in Hk; [|done].
  apply fmap_is_Some. by apply list_find_elem_of with (k, it).
Qed.

(** The items that the traversal of the databases finds. *)
Lemma load_cases s M p :
  srv_repr s M →
  (∃ a k it, holds_item M a k it ∧ iaddr it = p ∧ load_item s p = Ok it) ∨
  (addr_free M p ∧
   load_item s p = match leaked s !! p with Some it => Ok it | None => Err UseAfterFree end).
Proof.
  intros Hs. unfold load_item.
  destruct (omap _ (map_to_list (databases s))) as [|it l] eqn:E.
  - right. split; [|done]. intros a k it (m & Ha & Hk) <-.
    destruct (srv_repr_db s M a m Hs Ha) as (db & Hdb & Hr). unfold the_db in Hdb.
    destruct (databases s !! a) as [db'|] eqn:Ea; [|done]. res_simpl.
    destruct (trie_item_holds db m k it Hr Hk) as [it' Hit].
    assert (it' ∈ omap (λ d, trie_item (db_data d.2) (iaddr it)) (map_to_list (databases s)))
      as Hin; [|rewrite E in Hin; by apply not_elem_of_nil in Hin].
    apply list_elem_of_omap. exists (a, db). split; [by apply elem_of_map_to_list|done].
  - left. assert (it ∈ omap (λ d, trie_item (db_data d.2) p) (map_to_list (databases s)))
      as Hin by (rewrite E; left).
    apply list_elem_of_omap in Hin as ([a db] & Hdb%elem_of_map_to_list & Hit). cbn in Hit.
    pose proof (Hs a) as Hr. rewrite Hdb in Hr.
    destruct (M !! a) as [m|] eqn:Ha; [|by inversion Hr]. assert (db_repr db m) as Hdm by by inversion Hr.
    clear Hr. rename Hdm into Hr.
    destruct (trie_item_spec db m p it Hr Hit) as (k & Hk & <-).
    exists a, k, it. split_and!; [by exists m|done|done].
Qed.

Lemma load_live s M a k it :
  srv_repr s M → addr_unique M → holds_item M a k it → load_item s (iaddr it) = Ok it.
Proof.
  intros Hs Hu Hh. destruct (load_cases s M (iaddr it) Hs) as [(a' & k' & it' & Hh' & Hp & ->)|[Hf _]].
  - destruct (Hu _ _ _ _ _ _ Hh' Hh Hp) as [-> ->].
    destruct Hh as (m & Hm & Hk), Hh' as (m' & Hm' & Hk'). by simplify_eq.
  - by destruct (Hf _ _ _ Hh).
Qed.

Lemma load_dead s M p :
  srv_repr s M → addr_free M p →
  load_item s p = match leaked s !! p with Some it => Ok it | None => Err UseAfterFree end.
Proof.
  intros Hs Hf. destruct (load_cases s M p Hs) as [(a & k & it & Hh & Hp & _)|[_ ->]]; [|done].
  by destruct (Hf _ _ _ Hh).
Qed.

Lemma store_item_spec db m k it :
  db_repr db m → is_Some (m !! k) →
  ∃ db', store_item db k it = Ok db' ∧ db_repr db' (<[k := it]> m).
Proof.
  intros [Ht Hd] Hk. destruct (write_data_tree _ m k it Ht Hk) as (r & Hr & Ht').
  unfold store_item, the_root. rewrite Hr, res_bind_Ok_l. eexists. split; [done|]. by split.
Qed.

Lemma ack_replies_spec rc : rc = OK ∨ rc = NOK → ack_replies rc = Ok [0; 1; rc].
Proof. intros [->| ->]; reflexivity. Qed.

Lemma reply_ack_spec s c rc : rc = OK ∨ rc = NOK → reply_ack s c rc = Ok (s, c, Some [0; 1; rc], 0).
Proof. intros H. unfold reply_ack. by rewrite ack_replies_spec. Qed.

Lemma cstring_at_nul s : cstr s → cstring_at (s ++ [0]) = Ok s.
Proof.
  induction 1 as [|x s Hx _ IH]; cbn; [done|].
  destruct (Z.eqb_spec x 0); [unfold is_char in Hx; lia|]. by rewrite IH.
Qed.

(** The two acknowledgements that the handlers reply with. *)
Definition ack_ok : list Z := [0; 1; OK].
Definition ack_nok : list Z := [0; 1; NOK].

(** The start of the server and of a connection. *)
Lemma init_triedb_spec ptr :
  ∃ s, init_triedb ptr = Ok s ∧ databases s = {[ptr := database_init db0 (Some trie_node_destructor)]} ∧
    leaked s = ∅ ∧ clients s = hashtable_new ∧ expiring_keys s = vector_new ∧
    hashtable_get (dbs s) db0 = Ok (Some ptr) ∧ keyspace_size s = 0.
Proof. eexists. split; [reflexivity|]. split_and!; reflexivity. Qed.

Lemma accept_first fd u now ptr a s info :
  clients s = hashtable_new → hashtable_get (dbs s) db0 = Ok (Some a) → bytes u →
  ∃ s' info', accept_client 1 fd u now ptr s info = Ok (s', mkClient fd (u64 now) u a, info') ∧
    databases s' = databases s ∧ leaked s' = leaked s ∧ expiring_keys s' = expiring_keys s ∧
    dbs s' = dbs s ∧ keyspace_size s' = keyspace_size s.
Proof.
  intros Hc Hd Hu. unfold accept_client. rewrite Hd, res_bind_Ok_l, Hc.
  destruct (hashtable_new_put u (Some ptr) Hu) as (t & -> & _).
  rewrite res_bind_Ok_l. eexists _, _. by split_and!.
Qed.
