(* ===== verification/Commands.v ===== *)
(** * The commands of a client: the handlers of src/server.c on one database

    What PUT, INC and DEC on single keys and on prefixes, GET and DEL on single
    keys, and CNT do, as operations on a
    finite map from keys to items with the bytes of their replies, and the proof
    that the handlers of Server.v do that for every sequence of commands. *)

From S2P Require Import Prelude Util Config Store Bst Vec Trie Pack Db Protocol Hashtable Server.

(** ** Specification *)

Inductive command :=
| CmdPut (k v : list Z) (t ptr : Z)
| CmdGet (k : list Z)
| CmdDel (k : list Z)
| CmdInc (k : list Z)
| CmdDec (k : list Z)
| CmdCnt (p : list Z)
| CmdPutAll (p v : list Z) (t : Z)
| CmdIncAll (p : list Z)
| CmdDecAll (p : list Z).

(** The handler of a command on its request; a header byte is the operation code
    in the high bits, with 8 added for a prefix.  [junk] and [buf] are the contents of new memory and of the
    buffer of a prefix search; [now1] and [now] are the two readings of the clock in GET, in
    [database_search] and in the handler, the other handlers read it once. *)
Definition serve (junk : Z) (buf : list Z) (now1 now : Z) (s : triedb) (c : client) (cmd : command) : res outcome :=
  match cmd with
  | CmdPut k v t ptr => put_handler now ptr s c (mkPut 16 t (strlen k) (k ++ [0]) (v ++ [0]))
  | CmdGet k => get_handler junk buf now1 now s c (mkGet 32 (k ++ [0]))
  | CmdDel k => del_handler s c (mkGet 48 (k ++ [0]))
  | CmdInc k => inc_handler now s c (mkGet 80 (k ++ [0]))
  | CmdDec k => dec_handler now s c (mkGet 96 (k ++ [0]))
  | CmdCnt p => cnt_handler junk 8 s c (mkGet 112 (p ++ [0]))
  | CmdPutAll p v t => put_handler now 0 s c (mkPut 24 t (strlen p) (p ++ [0]) (v ++ [0]))
  | CmdIncAll p => inc_handler now s c (mkGet 88 (p ++ [0]))
  | CmdDecAll p => dec_handler now s c (mkGet 104 (p ++ [0]))
  end.

(** What a command does to the map: the new map, the change of the counter of
    keys, the reply. *)
Definition spec_integer (num now : Z) (m : gmap (list Z) db_item) (k : list Z)
  : res (gmap (list Z) db_item * Z * list Z) :=
  match m !! k with
  | Some it =>
      match idata it with
      | Some v =>
          if negb (expired now it) && is_integer v then
            if mod_fits num it then
              Ok (<[k := mkItem (ttl it) (Some (sprintf_d (dec_val v + num))) (ctime it)
                           (lstime it) (iaddr it)]> m, 0, ack_ok)
            else Err SignedOverflow
          else Ok (m, 0, ack_ok)
      | None => Ok (m, 0, ack_ok)
      end
  | None => Ok (m, 0, ack_ok)
  end.

(** The test of [get_handler], which unlike that of [database_search] also holds for a time
    to live below -1. *)
Definition late (now : Z) (it : db_item) : bool :=
  negb (ttl it =? -1) && (delta it now <=? 0).

(** GET hides an item whose time is up at the first reading of the clock, and removes one
    whose time is up at the second.  PUT keeps the low 16 bits of the time to live. *)
Definition spec_command (now1 now : Z) (m : gmap (list Z) db_item) (cmd : command)
  : res (gmap (list Z) db_item * Z * list Z) :=
  match cmd with
  | CmdPut k v t ptr => Ok (<[k := mkItem (s16 t) (Some v) now now ptr]> m, 1, ack_ok)
  | CmdGet k =>
      match m !! k with
      | Some (mkItem t (Some v) _ _ _ as it) =>
          if expired now1 it then Ok (m, 0, ack_nok)
          else if late now it then Ok (if decide (k = []) then m else delete k m, -1, ack_nok)
          else if decide (strlen k + strlen v + 6 < 128)
          then Ok (m, 0, packet 32 (items_bytes (single_items (mkTuple t (strlen k) k v))))
          else Err OutOfBounds
      | _ => Ok (m, 0, ack_nok)
      end
  | CmdDel k =>
      if decide (k ≠ [] ∧ is_Some (m !! k)) then Ok (delete k m, -1, ack_ok)
      else Ok (m, 0, ack_nok)
  | CmdInc k => spec_integer 1 now m k
  | CmdDec k => spec_integer (-1) now m k
  | CmdCnt p =>
      n ← int_chk (Z.of_nat (size (with_prefix p m)));
      Ok (m, 0, packet 7 (be_bytes 8 n))
  | CmdPutAll p v t => Ok (map_prefix (set_item v (s16 t) now) p m, 0, ack_ok)
  | CmdIncAll p => '(m, _) ← spec_mod 1 now p m; Ok (m, 0, ack_ok)
  | CmdDecAll p => '(m, _) ← spec_mod (-1) now p m; Ok (m, 0, ack_ok)
  end.

Definition short_key (k : list Z) : Prop := cstr k ∧ strlen k < 2 ^ 16.
#[export] Instance short_key_dec k : Decision (short_key k).
Proof. unfold short_key. apply _. Defined.

Definition command_ok (cmd : command) : Prop :=
  match cmd with
  | CmdPut k v _ _ | CmdPutAll k v _ => short_key k ∧ short_key v
  | CmdGet k | CmdDel k | CmdInc k | CmdDec k | CmdCnt k | CmdIncAll k | CmdDecAll k => short_key k
  end.
#[export] Instance command_ok_dec cmd : Decision (command_ok cmd).
Proof. destruct cmd; cbn; apply _. Defined.

(** Items as these commands make them. *)
Definition item_fine (it : db_item) : Prop :=
  -2 ^ 15 <= ttl it < 2 ^ 15 ∧ ∃ v, idata it = Some v ∧ strlen v < 2 ^ 16.

(** The database at [a] represents [m], and the counter of keys is [n]. *)
Definition at_db (s : triedb) (a : Z) (m : gmap (list Z) db_item) (n : Z) : Prop :=
  (∃ db, databases s !! a = Some db ∧ db_repr db m) ∧ map_Forall (λ _, item_fine) m ∧
  keyspace_size s = u64 n.

(** ** The commands implement the specification *)

Lemma database_search_spec db m k now :
  db_repr db m →
  database_search db k now = Ok (it ← m !! k; if expired now it then None else Some it).
Proof.
  intros [Ht _]. unfold database_search. rewrite (trie_find_tree _ m) by done.
  rewrite res_bind_Ok_l. destruct (m !! k) as [it|]; [|done]. cbn [mbind option_bind].
  unfold expired. by destruct (_ && _).
Qed.

Lemma update_integer_string_fits s num :
  is_integer s = true → -1 <= num →
  update_integer_string s num =
    if (dec_val s <=? INT_MAX) && (dec_val s + num <=? INT_MAX)
    then Ok (sprintf_d (dec_val s + num)) else Err SignedOverflow.
Proof.
  intros Hs Hn. pose proof (dec_val_nonneg s Hs).
  destruct (Z.leb_spec (dec_val s) INT_MAX), (Z.leb_spec (dec_val s + num) INT_MAX); cbn [andb].
  - apply update_integer_string_spec; [done|done|unfold INT_MIN; lia].
  - unfold update_integer_string. rewrite parse_int_spec by done.
    rewrite int_chk_Ok, res_bind_Ok_l by (unfold INT_MIN; lia). by rewrite int_chk_over.
  - unfold update_integer_string. rewrite parse_int_spec by done. by rewrite int_chk_over.
  - unfold update_integer_string. rewrite parse_int_spec by done. by rewrite int_chk_over.
Qed.

(** A step: the new state represents the new map and has the same expiring keys, or
    the fault is the same. *)
Definition step_refines (v : Vector expiring_key) (a : Z) (n : Z) (c : client) (o : res outcome)
    (r : res (gmap (list Z) db_item * Z * list Z)) : Prop :=
  match r with
  | Ok (m, d, raw) =>
      ∃ s, o = Ok (s, c, Some raw, 0) ∧ at_db s a m (n + d) ∧ expiring_keys s = v
  | Err f => o = Err f
  end.

Section commands.
Context (junk : Z) (buf : list Z) (s : triedb) (c : client) (a n : Z) (m : gmap (list Z) db_item).
Context (Hc : client_db c = a) (Hat : at_db s a m n) (Hexp : vsize (expiring_keys s) = 0).

Lemma the_db_at : ∃ db, the_db s (client_db c) = Ok db ∧ db_repr db m.
Proof.
  destruct Hat as [(db & Hdb & Hr) _]. exists db. unfold the_db. by rewrite Hc, Hdb.
Qed.

Lemma at_db_same : at_db s a m (n + 0).
Proof. by rewrite Z.add_0_r. Qed.

Lemma at_db_set db' m' :
  db_repr db' m' → map_Forall (λ _, item_fine) m' → at_db (set_database s a db') a m' (n + 0).
Proof.
  intros Hr Hf. destruct Hat as (_ & _ & Hn). rewrite Z.add_0_r. split_and!; [|done|done].
  exists db'. split; [apply lookup_insert_eq|done].
Qed.

Lemma at_db_count s' m' d : at_db s' a m' (n + 0) → at_db (add_keyspace s' d) a m' (n + d).
Proof.
  intros (Hdb & Hf & Hn). split_and!; [done|done|]. cbn. rewrite Hn, Z.add_0_r.
  apply u64_add_idemp_l.
Qed.

Lemma at_db_leak s' m' old n' : at_db s' a m' n' → at_db (leak s' old) a m' n'.
Proof. by destruct old. Qed.

Lemma put_refines now1 now k v t ptr :
  command_ok (CmdPut k v t ptr) →
  step_refines (expiring_keys s) a n c (serve junk buf now1 now s c (CmdPut k v t ptr)) (spec_command now1 now m (CmdPut k v t ptr)).
Proof.
  intros ([Hk _] & [Hv Hvl]). cbn [serve spec_command step_refines].
  destruct the_db_at as (db & Hdb & [Htr Hd]). unfold put_handler. rewrite Hdb, res_bind_Ok_l.
  cbn [put_key put_val put_header put_ttl]. rewrite !cstring_at_nul, !res_bind_Ok_l by done.
  change (bits_prefix 16 =? 1) with false. cbv iota.
  rewrite (trie_find_tree _ m), res_bind_Ok_l by done. unfold database_insert.
  destruct (trie_insert_tree _ m k (mkItem (s16 t) (Some v) now now ptr) Htr Hk)
    as (t' & -> & Htr' & Hd' & _). rewrite res_bind_Ok_l, res_bind_mret_l.
  rewrite reply_ack_spec by by left. eexists. split_and!; [done| |by destruct (m !! k)].
  rewrite Hc. apply at_db_count, at_db_leak, at_db_set; [by split; [done|cbn; congruence]|].
  destruct Hat as (_ & Hf & _). apply map_Forall_insert_2; [|done].
  split; [apply s16_bound|]. by exists v.
Qed.

(** The removal of an item past its time, when there are no expiring keys. *)
Lemma get_expired_refines k p :
  cstr k →
  ∃ s', get_expired s c k p = Ok s' ∧ at_db s' a (if decide (k = []) then m else delete k m) (n + -1) ∧
    expiring_keys s' = expiring_keys s.
Proof.
  intros Hk. destruct the_db_at as (db & Hdb & Hr). unfold get_expired. rewrite Hdb, res_bind_Ok_l.
  destruct (db_step_refines 0 db m (DRemove k) Hr I) as (db' & Hdel & Hr'). cbn [db_step] in Hdel.
  destruct (database_remove db k) as [[db2 b]|]; [|done]. rewrite res_bind_Ok_l in *. injection Hdel as -> _.
  unfold vector_size. cbn [expiring_keys set_database]. rewrite Hexp. cbn [Z.to_nat drop_expiring].
  eexists. split_and!; [done| |done]. rewrite Hc.
  change (set_expiring (set_database s a db') (expiring_keys s)) with (set_database s a db').
  apply at_db_count, at_db_set; [done|]. destruct Hat as (_ & Hf & _).
  case_decide; [done|by apply map_Forall_delete].
Qed.

Lemma get_refines now1 now k :
  command_ok (CmdGet k) →
  step_refines (expiring_keys s) a n c (serve junk buf now1 now s c (CmdGet k)) (spec_command now1 now m (CmdGet k)).
Proof.
  intros [Hk Hkl]. cbn [serve spec_command].
  destruct the_db_at as (db & Hdb & Hr). unfold get_handler. rewrite Hdb, res_bind_Ok_l.
  cbn [get_key get_header]. rewrite cstring_at_nul, res_bind_Ok_l by done.
  change (bits_prefix 32 =? 0) with true. cbv iota.
  rewrite (database_search_spec db m), res_bind_Ok_l by done.
  destruct (m !! k) as [it|] eqn:Ek; cbn [mbind option_bind].
  2:{ rewrite reply_ack_spec by by right. exists s. split_and!; [done|apply at_db_same|done]. }
  destruct Hat as (_ & Hf & _). destruct (Hf _ _ Ek) as [Ht (v & Hv & Hvl)].
  destruct it as [t [v'|] ct lt ia]; cbn in Hv; [injection Hv as ->|done].
  cbn [ttl] in Ht. destruct (expired now1 _).
  { rewrite reply_ack_spec by by right. exists s. split_and!; [done|apply at_db_same|done]. }
  change (negb (ttl ?it =? -1) && (delta ?it now <=? 0)) with (late now it).
  destruct (late now _).
  { destruct (get_expired_refines k ia Hk) as (s' & E & Hs' & He). cbn [iaddr]. rewrite E, res_bind_Ok_l.
    rewrite reply_ack_spec by by right. by exists s'. }
  cbn [idata deref ttl]. rewrite res_bind_Ok_l.
  rewrite u16_small by (pose proof (strlen_nonneg k); lia).
  set (tu := mkTuple t (strlen k) k v).
  change (get_response 32 (inr tu)) with (Ok (GetRes 32 tu)). rewrite res_bind_Ok_l.
  change (pack_response junk (GetRes 32 tu) (bits_opcode 32))
    with (pack_response_get junk (GetRes 32 tu)).
  assert (tuple_ok tu) as Htu by (split; cbn; (done || lia)).
  rewrite pack_single_spec, packet_block by done.
  pose proof (single_items_length tu Htu) as Hl. cbn [tu_keylen tu_val tu] in Hl.
  case_decide; case_decide; try lia; cbn [mbind res_bind]; [|done].
  exists s. split_and!; [done|apply at_db_same|done].
Qed.

Lemma del_refines now1 now k :
  command_ok (CmdDel k) →
  step_refines (expiring_keys s) a n c (serve junk buf now1 now s c (CmdDel k)) (spec_command now1 now m (CmdDel k)).
Proof.
  intros [Hk _]. cbn [serve spec_command].
  destruct the_db_at as (db & Hdb & Hr). unfold del_handler. rewrite Hdb, res_bind_Ok_l.
  cbn [get_key get_header]. rewrite cstring_at_nul, res_bind_Ok_l by done.
  change (bits_prefix 48 =? 1) with false. cbv iota.
  destruct (db_step_refines now db m (DRemove k) Hr I) as (db' & Hdel & Hr').
  cbn [db_step] in Hdel. destruct (database_remove db k) as [[db2 b]|]; [|done].
  rewrite res_bind_Ok_l. injection Hdel as -> ->.
  pose proof Hat as (_ & Hf & _). destruct (decide (k ≠ [] ∧ is_Some (m !! k))) as [Hd|Hd].
  - rewrite bool_decide_true, reply_ack_spec by (done || by left).
    rewrite decide_False in Hr' by tauto.
    eexists. split_and!; [done| |done]. rewrite Hc. apply at_db_count, at_db_set; [done|].
    by apply map_Forall_delete.
  - rewrite bool_decide_false, reply_ack_spec by (done || by right).
    eexists. split_and!; [done| |done]. rewrite Hc. apply at_db_set; [|done].
    case_decide; [done|]. rewrite delete_id in Hr'; [done|].
    apply eq_None_not_Some. tauto.
Qed.

Lemma integer_refines num now k h f :
  short_key k → num = 1 ∨ num = -1 → bits_prefix h = 0 →
  step_refines (expiring_keys s) a n c (change_integer num now s c (mkGet h (k ++ [0])) f)
    (spec_integer num now m k).
Proof.
  intros [Hk _] Hnum Hh. unfold change_integer, spec_integer.
  destruct the_db_at as (db & Hdb & Hr). rewrite Hdb, res_bind_Ok_l.
  cbn [get_key get_header]. rewrite cstring_at_nul, res_bind_Ok_l, Hh by done.
  change (0 =? 1) with false. cbv iota.
  rewrite (database_search_spec db m) by done. rewrite res_bind_Ok_l.
  pose proof Hat as (_ & Hf & _).
  assert (step_refines (expiring_keys s) a n c (reply_ack s c OK) (Ok (m, 0, ack_ok))) as Hsame.
  { rewrite reply_ack_spec by by left. exists s. split_and!; [done|apply at_db_same|done]. }
  destruct (m !! k) as [it|] eqn:Ek; cbn [mbind option_bind];
    [|by rewrite res_bind_mret_l].
  destruct (Hf _ _ Ek) as [Ht (v & Hv & Hvl)]. rewrite Hv.
  destruct (expired now it); cbn [negb andb]; [by rewrite res_bind_mret_l|].
  cbn [deref]. rewrite Hv. cbn [deref]. rewrite res_bind_Ok_l.
  destruct (is_integer v) eqn:Ei; [|by rewrite res_bind_mret_l].
  rewrite update_integer_string_fits by (done || lia). unfold mod_fits. rewrite Hv, Ei.
  cbn [negb orb]. destruct ((dec_val v <=? INT_MAX) && _) eqn:Efit; [|done].
  rewrite res_bind_Ok_l. set (it' := mkItem _ _ _ _ _).
  destruct (store_item_spec db m k it' Hr) as (db' & -> & Hr'); [by eexists|].
  rewrite res_bind_Ok_l, res_bind_mret_l, reply_ack_spec by by left.
  eexists. split_and!; [done| |done]. rewrite Hc. apply at_db_set; [done|].
  apply map_Forall_insert_2; [|done]. split; [done|]. eexists. split; [done|].
  pose proof (dec_val_nonneg v Ei). zbool.
  pose proof (sprintf_d_length (dec_val v + num)). unfold INT_MIN in *. lia.
Qed.

Lemma cnt_refines now1 now p :
  command_ok (CmdCnt p) →
  step_refines (expiring_keys s) a n c (serve junk buf now1 now s c (CmdCnt p)) (spec_command now1 now m (CmdCnt p)).
Proof.
  intros [Hk _]. cbn [serve spec_command].
  destruct the_db_at as (db & Hdb & [Htr Hd]). unfold cnt_handler. rewrite Hdb, res_bind_Ok_l.
  cbn [get_key]. rewrite cstring_at_nul, res_bind_Ok_l by done.
  unfold database_prefix_count. rewrite (trie_prefix_count_tree _ m) by done.
  set (x := Z.of_nat (size (with_prefix p m))).
  destruct (int_chk_cases x) as [[-> Hx]| ->]; [|done]. rewrite !res_bind_Ok_l.
  unfold INT_MAX in Hx. rewrite u64_small by lia.
  destruct (pack_ack_cnt_exact junk 8 7 0 x (mkMem 0 ∅)) as [_ (m' & Hp & _)];
    [by split|by split|lia|].
  change (opcode_val CNT) with 7. rewrite Hp, res_bind_Ok_l.
  exists s. split_and!; [done|apply at_db_same|done].
Qed.

Lemma map_prefix_fine f p :
  (∀ k it, with_prefix p m !! k = Some it → item_fine it → item_fine (f it)) →
  map_Forall (λ _, item_fine) (map_prefix f p m).
Proof.
  intros Hf k it Hk. unfold map_prefix in Hk. rewrite map_lookup_imap in Hk.
  destruct Hat as (_ & Hm & _). destruct (m !! k) as [it0|] eqn:E; [|done]. cbn in Hk.
  injection Hk as <-. case_decide; [apply (Hf k)|]; try by apply (Hm k).
  by apply map_lookup_filter_Some.
Qed.

Lemma mod_item_fine num now it :
  -1 <= num → mod_fits num it = true → item_fine it → item_fine (mod_item num now it).
Proof.
  intros Hnum Hfit [Ht (v & Hv & Hl)]. unfold mod_item. unfold mod_fits in Hfit. rewrite Hv in *.
  destruct (is_integer v) eqn:Ei; [|by split; [|exists v]]. cbn in Hfit. zbool.
  split; [done|]. eexists. split; [done|]. pose proof (dec_val_nonneg v Ei).
  pose proof (sprintf_d_length (dec_val v + num)). unfold INT_MIN in *. lia.
Qed.

Lemma put_all_refines now1 now p v t :
  command_ok (CmdPutAll p v t) →
  step_refines (expiring_keys s) a n c (serve junk buf now1 now s c (CmdPutAll p v t))
    (spec_command now1 now m (CmdPutAll p v t)).
Proof.
  intros ([Hk _] & [Hv Hvl]). cbn [serve spec_command step_refines].
  destruct the_db_at as (db & Hdb & Hr). unfold put_handler. rewrite Hdb, res_bind_Ok_l.
  cbn [put_key put_val put_header put_ttl]. rewrite !cstring_at_nul, !res_bind_Ok_l by done.
  change (bits_prefix 24 =? 1) with true. cbv iota.
  destruct (db_step_refines now db m (DPrefixSet p v t) Hr I) as (db' & Hst & Hr').
  cbn [db_step] in Hst. destruct (database_prefix_set db p v t now) as [db2|]; [|done].
  injection Hst as ->. rewrite res_bind_Ok_l, reply_ack_spec by by left.
  eexists. split_and!; [done| |done]. rewrite Hc. apply at_db_set; [done|].
  apply map_prefix_fine. intros k it _ _. split; [apply s16_bound|]. by exists v.
Qed.

Lemma integer_all_refines num now p h f op :
  short_key p → num = 1 ∨ num = -1 → bits_prefix h = 1 →
  (∀ db, db_step now db op = (db ← f db p now; mret (db, RUnit))) →
  spec_step now m op = spec_mod num now p m → op_key_ok op →
  step_refines (expiring_keys s) a n c (change_integer num now s c (mkGet h (p ++ [0])) f)
    ('(m, _) ← spec_mod num now p m; Ok (m, 0, ack_ok)).
Proof.
  intros [Hk _] Hnum Hh Hop Hspec Hok. unfold change_integer.
  destruct the_db_at as (db & Hdb & Hr). rewrite Hdb, res_bind_Ok_l.
  cbn [get_key get_header]. rewrite cstring_at_nul, res_bind_Ok_l, Hh by done.
  change (1 =? 1) with true. cbv iota.
  pose proof (db_step_refines now db m op Hr Hok) as Hst. rewrite Hop, Hspec in Hst.
  unfold refines, spec_mod in Hst. unfold spec_mod. case_decide as Hfit.
  - destruct Hst as (db' & Hst & Hr'). destruct (f db p now) as [db2|]; [|done].
    injection Hst as ->. rewrite !res_bind_Ok_l, reply_ack_spec by by left.
    eexists. split_and!; [done| |done]. rewrite Hc. apply at_db_set; [done|].
    apply map_prefix_fine. intros k it Hit. apply mod_item_fine; [lia|by eapply Hfit].
  - cbn. destruct (f db p now) as [db2|f']; [done|]. cbn in Hst |- *. by injection Hst as ->.
Qed.

Lemma serve_refines now1 now cmd :
  command_ok cmd → step_refines (expiring_keys s) a n c (serve junk buf now1 now s c cmd) (spec_command now1 now m cmd).
Proof.
  destruct cmd as [k v t ptr|k|k|k|k|p|p v t|p|p]; intros Hok.
  - by apply put_refines.
  - by apply get_refines.
  - by apply del_refines.
  - apply integer_refines; [done|by left|done].
  - apply integer_refines; [done|by right|done].
  - by apply cnt_refines.
  - by apply put_all_refines.
  - by apply (integer_all_refines 1 now p 88 database_prefix_inc (DPrefixInc p)); [|left|..].
  - by apply (integer_all_refines (-1) now p 104 database_prefix_dec (DPrefixDec p)); [|right|..].
Qed.
End commands.

(** A sequence of commands of one client, each with its two readings of the clock. *)
Fixpoint serve_all (s : triedb) (c : client) (cmds : list (Z * Z * command))
  : res (triedb * list (list Z)) :=
  match cmds with
  | [] => Ok (s, [])
  | (now1, now, cmd) :: cmds =>
      '(s, c, raw, _) ← serve 0 [] now1 now s c cmd;
      '(s, raws) ← serve_all s c cmds;
      mret (s, default [] raw :: raws)
  end.

Fixpoint spec_all (m : gmap (list Z) db_item) (n : Z) (cmds : list (Z * Z * command))
  : res (gmap (list Z) db_item * Z * list (list Z)) :=
  match cmds with
  | [] => Ok (m, n, [])
  | (now1, now, cmd) :: cmds =>
      '(m, d, raw) ← spec_command now1 now m cmd;
      '(m, n, raws) ← spec_all m (n + d) cmds;
      mret (m, n, raw :: raws)
  end.

Lemma serve_all_refines s c m n cmds :
  at_db s (client_db c) m n → vsize (expiring_keys s) = 0 → Forall (λ x, command_ok x.2) cmds →
  match spec_all m n cmds with
  | Ok (m', n', raws) =>
      ∃ s', serve_all s c cmds = Ok (s', raws) ∧ at_db s' (client_db c) m' n'
  | Err f => serve_all s c cmds = Err f
  end.
Proof.
  intros Hat He Hok. revert s m n Hat He. induction Hok as [|[[now1 now] cmd] cmds Hcmd _ IH]; intros s m n Hat He;
    cbn [serve_all spec_all].
  { by exists s. }
  pose proof (serve_refines 0 [] s c _ n m eq_refl Hat He now1 now cmd Hcmd) as Hstep.
  destruct (spec_command now1 now m cmd) as [[[m1 d] raw]|f]; cbn in Hstep.
  - destruct Hstep as (s1 & -> & Hat1 & He1). rewrite !res_bind_Ok_l. specialize (IH s1 m1 (n + d) Hat1 ltac:(by rewrite He1)).
    destruct (spec_all m1 (n + d) cmds) as [[[m2 n2] raws]|f].
    + destruct IH as (s2 & -> & Hat2). rewrite !res_bind_Ok_l. by exists s2.
    + by rewrite IH.
  - by rewrite Hstep.
Qed.

(** A first client of a server that has just started. *)
Lemma first_client ptr cptr fd u now info :
  bytes u →
  ∃ s0 s info', init_triedb ptr = Ok s0 ∧
    accept_client 1 fd u now cptr s0 info = Ok (s, mkClient fd (u64 now) u ptr, info') ∧
    databases s = {[ptr := database_init db0 (Some trie_node_destructor)]} ∧ leaked s = ∅ ∧
    expiring_keys s = vector_new ∧ keyspace_size s = 0.
Proof.
  intros Hu. destruct (init_triedb_spec ptr) as (s0 & Hs0 & Hd & Hl & Hc & He & Hg & Hk).
  destruct (accept_first fd u now cptr ptr s0 info Hc Hg Hu)
    as (s & info' & Ha & Hd' & Hl' & He' & _ & Hk').
  exists s0, s, info'. split_and!; [done|done|congruence..].
Qed.

(** C5 The commands of a client of a freshly started server refine a finite map:
    for every sequence of PUT, INC and DEC requests on keys and on prefixes, of GET
    and DEL requests on keys, and of CNT requests, at any times, with keys and values
    below 2^16 characters and any time to live,
    the replies are byte for byte those that the map with its expiry rules
    determines, the database represents the map afterwards, and a request faults
    exactly where the specification does.  As the code has it, a time to live is cut to 16
    bits; GET reads the clock twice, hides an item that is past its time at the first
    reading and removes one that is past it at the second; INC and DEC reply OK
    also for a key that is absent, expired or not an integer, where the comments of the
    handlers promise NOK; and the counter of keys is the number of PUTs less that of
    successful DELs and of removals by GET, overwriting included. *)
Theorem commands_refine_map ptr cptr fd u now info cmds :
  bytes u → Forall (λ x, command_ok x.2) cmds →
  ∃ s0 s c info', init_triedb ptr = Ok s0 ∧
    accept_client 1 fd u now cptr s0 info = Ok (s, c, info') ∧
    match spec_all ∅ 0 cmds with
    | Ok (m, n, raws) =>
        ∃ s', serve_all s c cmds = Ok (s', raws) ∧ at_db s' (client_db c) m n
    | Err f => serve_all s c cmds = Err f
    end.
Proof.
  intros Hu Hcmds. destruct (first_client ptr cptr fd u now info Hu)
    as (s0 & s & info' & Hs0 & Ha & Hd & _ & He & Hk).
  exists s0, s. eexists _, info'. split_and!; [done|done|].
  apply serve_all_refines; [|by rewrite He|done]. split_and!; [|done|by rewrite Hk].
  exists (database_init db0 (Some trie_node_destructor)). rewrite Hd. cbn [client_db].
  split; [apply lookup_singleton_eq|apply database_init_repr].
Qed.

(** The last GET finds the item, which is past its time at the second look. *)
Definition demo_commands : list (Z * Z * command) :=
  [(100, 100, CmdPut (str "n") (str "41") (-1) 64); (100, 100, CmdInc (str "n"));
   (101, 102, CmdGet (str "n")); (101, 101, CmdPut (str "n") (str "x") (2 ^ 16 + 5) 128);
   (106, 106, CmdGet (str "n")); (105, 106, CmdGet (str "n")); (107, 107, CmdDel (str "n"))].

Lemma commands_refine_map_witness :
  ∃ s0 s c info', init_triedb 16 = Ok s0 ∧
    accept_client 1 5 (str "u") 99 32 s0 (mkInformations 0 0 0 0 0 0 0 0 0) = Ok (s, c, info') ∧
    ∃ s', serve_all s c demo_commands
          = Ok (s', [ack_ok; ack_ok;
                     packet 32 (items_bytes (single_items (mkTuple (-1) 1 (str "n") (str "42"))));
                     ack_ok; ack_nok; ack_nok; ack_nok]) ∧
      at_db s' (client_db c) ∅ 1.
Proof.
  destruct (commands_refine_map 16 32 5 (str "u") 99 (mkInformations 0 0 0 0 0 0 0 0 0) demo_commands)
    as (s0 & s & c & info' & H1 & H2 & H3).
  - repeat constructor; vm_compute; done.
  - apply (bool_decide_unpack _). vm_compute. exact I.
  - exists s0, s, c, info'. split_and!; [exact H1|exact H2|].
    assert (spec_all ∅ 0 demo_commands
            = Ok (∅, 1, [ack_ok; ack_ok;
                     packet 32 (items_bytes (single_items (mkTuple (-1) 1 (str "n") (str "42"))));
                     ack_ok; ack_nok; ack_nok; ack_nok])) as E by (vm_compute; reflexivity).
    rewrite E in H3. exact H3.
Defined.
