(* ===== verification/Expire.v ===== *)
(** * Keys with a time to live: ttl_handler and expire_keys of src/server.c

    The vector of expiring keys and the items it points to: what setting a time
    to live and the periodic expiration do to a server whose entries are all
    live, and what happens to entries whose item another command removed or
    replaced. *)

From S2P Require Import Prelude Util Config Store Bst Vec Trie Pack Db Protocol Hashtable Server.

(** ** Expiring keys *)

(** An entry of the vector and the item it points to, which is the one of its
    key. *)
Definition ek_live (M : gmap Z (gmap (list Z) db_item)) (p : expiring_key * db_item) : Prop :=
  holds_item M (data_ptr p.1) (ek_key p.1) p.2 ∧ iaddr p.2 = ek_item p.1.

(** The vector of expiring keys holds the entries of [lp], all live. *)
Definition expiring_ok (s : triedb) (M : gmap Z (gmap (list Z) db_item))
    (lp : list (expiring_key * db_item)) : Prop :=
  vec_repr (expiring_keys s) lp.*1 ∧ Forall (ek_live M) lp.

#[export] Instance compare_ttl_preorder now : TotalPreorder (compare_ttl now).
Proof.
  unfold compare_ttl. split; intros.
  - apply Z.leb_refl.
  - zbool. apply Z.leb_le. lia.
  - destruct (Z.leb_spec (delta a.2 now) (delta b.2 now)); [by left|right; apply Z.leb_le; lia].
Qed.

Lemma load_ek s M p :
  srv_repr s M → addr_unique M → ek_live M p → load_item s (ek_item p.1) = Ok p.2.
Proof. intros Hs Hu [Hh <-]. by eapply load_live. Qed.

Lemma load_expiring_spec s M lp n :
  srv_repr s M → addr_unique M → Forall (ek_live M) lp →
  load_expiring s ((Some <$> lp.*1) ++ replicate n None) = Ok ((Some <$> lp) ++ replicate n None).
Proof.
  intros Hs Hu Hl. induction Hl as [|[ek it] lp Hp _ IH]; cbn [fmap list_fmap app].
  - induction n as [|n IHn]; [done|]. cbn [replicate load_expiring].
    cbn [fmap list_fmap app] in IHn. by rewrite IHn.
  - cbn [load_expiring fst]. pose proof (load_ek s M (ek, it) Hs Hu Hp) as He. cbn [fst snd] in He.
    rewrite He, res_bind_Ok_l, IH. done.
Qed.

Lemma sort_expiring_spec now s M v lp :
  srv_repr s M → addr_unique M → Forall (ek_live M) lp → vec_repr v lp.*1 →
  ∃ v' lp', sort_expiring now s v = Ok v' ∧ vec_repr v' lp'.*1 ∧ lp' ≡ₚ lp ∧
    sorted_by (compare_ttl now) lp'.
Proof.
  intros Hs Hu Hl Hr. pose proof Hr as [Hi Hsz Hc Hm]. rewrite length_fmap in *.
  unfold sort_expiring. destruct (Z.ltb_spec (vsize v) 2).
  { exists v, lp. split_and!; try done. destruct lp as [|p [|q lp]];
      [constructor|by repeat constructor|rewrite !length_cons in Hsz; lia]. }
  rewrite Hi, (load_expiring_spec s M) by done. rewrite res_bind_Ok_l.
  destruct (vector_qsort_repr (compare_ttl now)
    (mkVector ((Some <$> lp) ++ replicate (Z.to_nat (maxsize v) - length lp) None)
       (maxsize v) (vsize v)) lp) as (w & lp' & -> & [Hwi Hws Hwc Hwm] & HP & HS);
    [apply _|by split|].
  rewrite res_bind_Ok_l. eexists _, lp'. split_and!; [done| |done|done].
  split; cbn [items maxsize vsize]; rewrite ?length_fmap; [|done..].
  rewrite Hwi, map_app. f_equal.
  - clear. induction lp' as [|p lp' IH]; cbn; [done|]. f_equal. exact IH.
  - clear. induction (_ - _)%nat as [|k IH]; cbn; [done|]. by rewrite IH.
Qed.

(** ** Updates of one database *)

Definition upd (M : gmap Z (gmap (list Z) db_item)) (a : Z)
    (f : gmap (list Z) db_item → gmap (list Z) db_item) : gmap Z (gmap (list Z) db_item) :=
  alter f a M.

Lemma holds_upd M a f a' k it :
  holds_item (upd M a f) a' k it ↔
    if decide (a' = a) then ∃ m, M !! a = Some m ∧ f m !! k = Some it
    else holds_item M a' k it.
Proof.
  unfold holds_item, upd. case_decide as E; [subst|].
  - rewrite lookup_alter_eq. split.
    + intros (m & Hm & Hk). apply fmap_Some in Hm as (m' & Hm' & ->). by exists m'.
    + intros (m & Hm & Hk). exists (f m). by rewrite Hm.
  - rewrite lookup_alter_ne by done. done.
Qed.

Lemma holds_delete M a k a' k' it :
  holds_item (upd M a (delete k)) a' k' it ↔ (a' ≠ a ∨ k' ≠ k) ∧ holds_item M a' k' it.
Proof.
  rewrite holds_upd. unfold holds_item. case_decide as E; [subst|naive_solver].
  split.
  - intros (m & Hm & Hk). apply lookup_delete_Some in Hk as [? ?]. split; [by right|by exists m].
  - intros ([?|Hk] & m & Hm & Hit); [done|]. exists m. split; [done|].
    by rewrite lookup_delete_ne.
Qed.

Lemma holds_insert M a k it a' k' it' :
  holds_item (upd M a (<[k := it]>)) a' k' it' ↔
    (a' = a ∧ k' = k ∧ it' = it ∧ is_Some (M !! a)) ∨ ((a' ≠ a ∨ k' ≠ k) ∧ holds_item M a' k' it').
Proof.
  rewrite holds_upd. unfold holds_item. case_decide as E; [subst|naive_solver].
  split.
  - intros (m & Hm & Hk). apply lookup_insert_Some in Hk as [[-> ->]|[? ?]]; [left|right].
    + by rewrite Hm.
    + split; [by right|by exists m].
  - intros [(_ & -> & -> & m & Hm)|([?|Hk] & m & Hm & Hit)]; [|done|].
    + exists m. by rewrite lookup_insert_eq.
    + exists m. by rewrite lookup_insert_ne.
Qed.

Lemma srv_repr_upd s M a db m f :
  srv_repr s M → M !! a = Some m → db_repr db (f m) → srv_repr (set_database s a db) (upd M a f).
Proof.
  intros Hs Ha Hr. replace (upd M a f) with (<[a := f m]> M); [by apply srv_repr_insert|].
  apply map_eq. intros a'. unfold upd. destruct (decide (a' = a)) as [->|].
  - by rewrite lookup_insert_eq, lookup_alter_eq, Ha.
  - by rewrite lookup_insert_ne, lookup_alter_ne.
Qed.

Lemma unique_delete M a k : addr_unique M → addr_unique (upd M a (delete k)).
Proof. intros Hu a1 k1 i1 a2 k2 i2 [_ H1]%holds_delete [_ H2]%holds_delete. by apply Hu. Qed.

(** An item replaced by one at the same address. *)
Lemma unique_replace M a k it it' :
  addr_unique M → holds_item M a k it → iaddr it' = iaddr it →
  addr_unique (upd M a (<[k := it']>)).
Proof.
  intros Hu Hh Hp a1 k1 i1 a2 k2 i2 H1%holds_insert H2%holds_insert He.
  destruct H1 as [(-> & -> & -> & _)|(Hne1 & H1)], H2 as [(-> & -> & -> & _)|(Hne2 & H2)].
  - done.
  - rewrite Hp in He. by destruct (Hu _ _ _ _ _ _ Hh H2 He) as [-> ->].
  - rewrite Hp in He. by destruct (Hu _ _ _ _ _ _ H1 Hh He) as [-> ->].
  - by apply (Hu _ _ _ _ _ _ H1 H2).
Qed.

(** A new item at an address that is not in use. *)
Lemma unique_fresh M a k it :
  addr_unique M → addr_free M (iaddr it) → addr_unique (upd M a (<[k := it]>)).
Proof.
  intros Hu Hf a1 k1 i1 a2 k2 i2 H1%holds_insert H2%holds_insert He.
  destruct H1 as [(-> & -> & -> & _)|(Hne1 & H1)], H2 as [(-> & -> & -> & _)|(Hne2 & H2)].
  - done.
  - by destruct (Hf _ _ _ H2).
  - by destruct (Hf _ _ _ H1).
  - by apply (Hu _ _ _ _ _ _ H1 H2).
Qed.

(** ** Setting a time to live *)

(** The entries after the item of key [k] in the database at [a] has changed. *)
Definition retarget (a : Z) (k : list Z) (it : db_item) (p : expiring_key * db_item)
  : expiring_key * db_item :=
  if decide (data_ptr p.1 = a ∧ ek_key p.1 = k) then (p.1, it) else p.

Lemma retarget_fst a k it lp : (retarget a k it <$> lp).*1 = lp.*1.
Proof.
  induction lp as [|p lp IH]; cbn; [done|]. rewrite IH. unfold retarget. by case_decide.
Qed.

Lemma retarget_live M a k it it' lp :
  holds_item M a k it → iaddr it' = iaddr it → Forall (ek_live M) lp →
  Forall (ek_live (upd M a (<[k := it']>))) (retarget a k it' <$> lp).
Proof.
  intros Hh Hp Hl. apply Forall_fmap. eapply Forall_impl; [exact Hl|].
  intros p [Hh' Hpp]. unfold compose, retarget, ek_live. case_decide as E; cbn.
  - destruct E as [<- <-]. split.
    + apply holds_insert. left. split_and!; try done. destruct Hh as (m & -> & _). by eexists.
    + rewrite Hp, <-Hpp. destruct Hh as (m & Hm & Hk), Hh' as (m' & Hm' & Hk'). by simplify_eq.
  - split; [|done]. apply holds_insert. right. split; [|done].
    destruct (decide (data_ptr p.1 = a)); [right; naive_solver|by left].
Qed.

Definition ek_id (p : expiring_key * db_item) : Z * list Z := (data_ptr p.1, ek_key p.1).

(** A server whose expiring keys are the entries of [lp]: each is live, with a
    time to live, no key has two, and the counter of keys is in its range. *)
Record expire_inv (s : triedb) (M : gmap Z (gmap (list Z) db_item))
    (lp : list (expiring_key * db_item)) : Prop := {
  ei_repr : srv_repr s M;
  ei_unique : addr_unique M;
  ei_vec : expiring_ok s M lp;
  ei_nodup : NoDup (ek_id <$> lp);
  ei_ttl : Forall (λ p, ek_key p.1 ≠ [] ∧ 0 <= ttl p.2) lp;
  ei_count : u64 (keyspace_size s) = keyspace_size s
}.

Lemma ek_live_inj M p q : ek_live M p → ek_live M q → ek_id p = ek_id q → p.2 = q.2.
Proof.
  intros [(m & Hm & Hk) _] [(m' & Hm' & Hk') _] E. unfold ek_id in E.
  injection E as E1 E2. rewrite E1, E2 in *. by simplify_eq.
Qed.

Lemma retarget_id a k it p : ek_id (retarget a k it p) = ek_id p.
Proof. unfold retarget, ek_id. by case_decide. Qed.

Lemma retarget_ids a k it (lp : list (expiring_key * db_item)) : ek_id <$> (retarget a k it <$> lp) = ek_id <$> lp.
Proof. rewrite <-list_fmap_compose. apply list_fmap_ext. intros. apply retarget_id. Qed.

(** Whether the key at hand gets an entry: it had no time to live. *)
Definition new_entry (a : Z) (k : list Z) (old new : db_item) : list (expiring_key * db_item) :=
  if ttl old <? 0 then [(mkEk a (iaddr old) k, new)] else [].

(** The entries with the new time to live, before they are sorted. *)
Lemma ttl_entries s M lp a m k it it' :
  expire_inv s M lp → M !! a = Some m → m !! k = Some it →
  iaddr it' = iaddr it → 0 <= ttl it' → k ≠ [] →
  let lp' := (retarget a k it' <$> lp) ++ new_entry a k it it' in
  Forall (ek_live (upd M a (<[k := it']>))) lp' ∧ NoDup (ek_id <$> lp') ∧
  Forall (λ p, ek_key p.1 ≠ [] ∧ 0 <= ttl p.2) lp'.
Proof.
  intros [Hs Hu [Hv Hl] Hnd Ht _] Ha Hk Hp Ht' Hk0 lp'.
  assert (holds_item M a k it) as Hh by by exists m. split_and!.
  - apply Forall_app. split; [by eapply retarget_live|]. unfold new_entry.
    destruct (ttl it <? 0); [|done]. apply Forall_singleton. split; [|done].
    apply holds_insert. left. by rewrite Ha.
  - unfold lp'. rewrite fmap_app, retarget_ids. apply NoDup_app. split_and!; [done| |].
    + intros x Hx Hn. unfold new_entry in Hn. destruct (Z.ltb_spec (ttl it) 0); [|by apply not_elem_of_nil in Hn].
      apply list_elem_of_singleton in Hn as ->. apply list_elem_of_fmap in Hx as (p & He & Hin).
      pose proof (proj1 (Forall_forall _ _) Hl p Hin) as [(m' & Hm' & Hk') _].
      pose proof (proj1 (Forall_forall _ _) Ht p Hin) as [_ Hp0].
      unfold ek_id in He. cbn in He. injection He as E1 E2. rewrite <-E1, <-E2 in *.
      simplify_eq. lia.
    + unfold new_entry. destruct (ttl it <? 0); cbn; [apply NoDup_singleton|constructor].
  - apply Forall_app. split.
    + apply Forall_fmap. eapply Forall_impl; [exact Ht|]. intros p [H1 H2].
      unfold compose, retarget. by case_decide.
    + unfold new_entry. destruct (ttl it <? 0); [|done]. by apply Forall_singleton.
Qed.

(** TTL on a key that the database holds. *)
Lemma ttl_inv now s c M lp m k h t it :
  expire_inv s M lp → Z.of_nat (length lp) < 2 ^ 29 → M !! client_db c = Some m →
  cstr k → k ≠ [] → 0 <= s16 t → m !! k = Some it →
  let it' := mkItem (s16 t) (idata it) now now (iaddr it) in
  ∃ s' lp',
    ttl_handler now s c (mkTtl h t (k ++ [0])) = Ok (s', c, Some ack_ok, 0) ∧
    expire_inv s' (upd M (client_db c) (<[k := it']>)) lp' ∧
    lp' ≡ₚ (retarget (client_db c) k it' <$> lp) ++ new_entry (client_db c) k it it' ∧
    sorted_by (compare_ttl now) lp' ∧ keyspace_size s' = keyspace_size s ∧ leaked s' = leaked s.
Proof.
  intros Hinv Hlen Ha Hk Hk0 Ht Ek. pose proof Hinv as [Hs Hu [Hv Hl] Hnd Hn Hc].
  destruct (srv_repr_db s M _ m Hs Ha) as (db & Hdb & Hr). unfold ttl_handler.
  rewrite Hdb, res_bind_Ok_l. cbn [ttl_key ttl_ttl]. rewrite cstring_at_nul, res_bind_Ok_l by done.
  rewrite (trie_find_tree _ m), res_bind_Ok_l by apply Hr.
  rewrite Ek.
  set (it' := mkItem (s16 t) (idata it) now now (iaddr it)).
  destruct (store_item_spec db m k it' Hr) as (db' & -> & Hr'); [by eexists|].
  rewrite res_bind_Ok_l.
  destruct (ttl_entries s M lp _ m k it it' Hinv Ha Ek eq_refl Ht Hk0) as (Hl' & Hnd' & Hn').
  set (lp1 := (retarget _ k it' <$> lp) ++ _) in *. set (s1 := set_database s _ db').
  set (M' := upd M _ (<[k := it']>)) in *. change (expiring_keys s1) with (expiring_keys s).
  assert (∃ v, (if negb (ttl it <? 0) then Ok (expiring_keys s)
                else vector_append (expiring_keys s) (mkEk (client_db c) (iaddr it') k)) = Ok v ∧
               vec_repr v lp1.*1) as (v & -> & Hv1).
  { unfold lp1, new_entry. rewrite fmap_app, retarget_fst. destruct (ttl it <? 0); cbn [negb].
    - by apply vector_append_repr; rewrite ?length_fmap.
    - cbn. rewrite app_nil_r. by eexists. }
  rewrite res_bind_Ok_l.
  assert (srv_repr s1 M') as Hs' by by eapply srv_repr_upd.
  assert (addr_unique M') as Hu' by (eapply unique_replace; [done|by exists m|done]).
  destruct (sort_expiring_spec now s1 M' v lp1 Hs' Hu' Hl' Hv1) as (v' & lp' & -> & Hv' & HP & HS).
  rewrite res_bind_Ok_l, reply_ack_spec by by left. eexists _, lp'.
  split_and!; [done| |done|done|done|done]. split; cbn; [done|done|split; [done|]| | |done].
  - by rewrite HP.
  - by rewrite HP.
  - by rewrite HP.
Qed.

Lemma ttl_absent now s c M m k h t :
  srv_repr s M → M !! client_db c = Some m → cstr k → m !! k = None →
  ttl_handler now s c (mkTtl h t (k ++ [0])) = Ok (s, c, Some ack_nok, 0).
Proof.
  intros Hs Ha Hk Ek. destruct (srv_repr_db s M _ m Hs Ha) as (db & Hdb & Hr).
  unfold ttl_handler. rewrite Hdb, res_bind_Ok_l. cbn [ttl_key].
  rewrite cstring_at_nul, res_bind_Ok_l by done.
  rewrite (trie_find_tree _ m), res_bind_Ok_l, Ek by apply Hr. by apply reply_ack_spec; right.
Qed.

(** C14 TTL on a key that the database holds, with a request whose time to live is not
    negative as a short: the item gets that short, counted from now (all of the request up to
    32767, of 86400 only 20864), and the reply is OK; the key gets an entry
    among the expiring keys when it had no time to live, the entries are left sorted by the
    time that remains, and the invariant of the expiring keys holds again.  It is assumed
    before, with less than 2^29 entries and a key that is not empty.  TTL on another key is
    refused and changes nothing. *)
Theorem ttl_handler_correct now s c M lp m k h t :
  expire_inv s M lp → Z.of_nat (length lp) < 2 ^ 29 → M !! client_db c = Some m →
  cstr k → k ≠ [] → 0 <= s16 t →
  match m !! k with
  | Some it =>
      let it' := mkItem (s16 t) (idata it) now now (iaddr it) in
      ∃ s' lp',
        ttl_handler now s c (mkTtl h t (k ++ [0])) = Ok (s', c, Some ack_ok, 0) ∧
        expire_inv s' (upd M (client_db c) (<[k := it']>)) lp' ∧
        lp' ≡ₚ (retarget (client_db c) k it' <$> lp) ++ new_entry (client_db c) k it it' ∧
        sorted_by (compare_ttl now) lp' ∧ keyspace_size s' = keyspace_size s
  | None => ttl_handler now s c (mkTtl h t (k ++ [0])) = Ok (s, c, Some ack_nok, 0)
  end.
Proof.
  intros Hinv Hlen Ha Hk Hk0 Ht. destruct (m !! k) as [it|] eqn:Ek.
  - destruct (ttl_inv now s c M lp m k h t it Hinv Hlen Ha Hk Hk0 Ht Ek)
      as (s' & lp' & H1 & H2 & H3 & H4 & H5 & _). by exists s', lp'.
  - by apply ttl_absent with M m; [apply Hinv|..].
Qed.

(** ** The periodic expiration *)

Definition due (now : Z) (p : expiring_key * db_item) : bool := delta p.2 now <=? 0.

(** The entries that one run leaves and those it removes: the entry that takes
    the place of a removed one is passed over. *)
Fixpoint survivors (now : Z) (lp : list (expiring_key * db_item))
  : list (expiring_key * db_item) :=
  match lp with
  | [] => []
  | x :: r =>
      if due now x then match r with [] => [] | y :: r => y :: survivors now r end else x :: r
  end.

Fixpoint removed (now : Z) (lp : list (expiring_key * db_item))
  : list (expiring_key * db_item) :=
  match lp with
  | [] => []
  | x :: r =>
      if due now x then x :: match r with [] => [] | y :: r => removed now r end else []
  end.

Definition remove_entry (M : gmap Z (gmap (list Z) db_item)) (p : expiring_key * db_item) :=
  upd M (data_ptr p.1) (delete (ek_key p.1)).
Definition remove_entries : gmap Z (gmap (list Z) db_item) → list (expiring_key * db_item) → _ :=
  foldl remove_entry.

Lemma pairs_ind {A} (P : list A → Prop) :
  P [] → (∀ x, P [x]) → (∀ x y l, P l → P (x :: y :: l)) → ∀ l, P l.
Proof.
  intros H0 H1 H2. refine (fix go l := match l with [] => H0 | [x] => H1 x | x :: y :: l => H2 x y l (go l) end).
Qed.

Lemma removed_survivors now lp : lp ≡ₚ removed now lp ++ survivors now lp.
Proof.
  induction lp as [|x|x y lp IH] using pairs_ind; cbn; [done|by destruct (due now x)|].
  destruct (due now x); cbn; [|done]. rewrite IH at 1. by rewrite Permutation_middle.
Qed.

Lemma removed_due now lp : Forall (λ p, due now p) (removed now lp).
Proof.
  induction lp as [|x|x y lp IH] using pairs_ind; cbn; [done| |];
    destruct (due now x) eqn:E; repeat constructor; rewrite ?E; done.
Qed.

Lemma removed_length now lp : (length (removed now lp) <= length lp)%nat.
Proof. rewrite (removed_survivors now lp) at 2. rewrite length_app. lia. Qed.

(** Of a due prefix, half of the entries are left. *)
Lemma sublist_Forall {A} (P : A → Prop) l k : l `sublist_of` k → Forall P k → Forall P l.
Proof. induction 1; inversion 1; subst; auto. Qed.

Lemma survivors_sublist now lp : survivors now lp `sublist_of` lp.
Proof.
  induction lp as [|x|x y lp IH] using pairs_ind; cbn; [done| |]; destruct (due now x);
    [by constructor|done|by apply sublist_cons, sublist_skip|done].
Qed.

Lemma survivors_due now d r :
  Forall (λ p, due now p) d →
  ∃ d' r', survivors now (d ++ r) = d' ++ r' ∧ length d' = (length d / 2)%nat ∧
    d' `sublist_of` d ∧ r' `sublist_of` r.
Proof.
  revert r. induction d as [|x|x y d IH] using pairs_ind; intros r Hd; cbn [app survivors].
  - exists [], (survivors now r). split_and!; [done|done|done|apply survivors_sublist].
  - inversion Hd as [|? ? Hx _]; subst. destruct (due now x); [|done].
    exists []. destruct r as [|y r]; [exists []|exists (y :: survivors now r)];
      (split_and!; [done|done|by repeat constructor|]); [done|apply sublist_skip, survivors_sublist].
  - inversion Hd as [|? ? Hx Hd']; subst. inversion Hd'; subst. destruct (due now x); [|done].
    destruct (IH r) as (d' & r' & -> & Hl & Hs & Hr); [done|]. exists (y :: d'), r'.
    split_and!; [done| |by apply sublist_cons, sublist_skip|done].
    cbn [length]. rewrite Hl. change (S (S (length d))) with (1 * 2 + length d)%nat.
    by rewrite Nat.div_add_l.
Qed.

(** *** One entry *)

Lemma remove_live M p q :
  ek_live M q → ek_id q ≠ ek_id p → ek_live (remove_entry M p) q.
Proof.
  intros [Hh Hp] Hne. split; [|done]. apply holds_delete. split; [|done].
  unfold ek_id in Hne. destruct (decide (data_ptr q.1 = data_ptr p.1)); [|by left].
  right. intros E. by rewrite e, E in Hne.
Qed.

(** The steps that remove the entry at [length pre] and its key, whatever item the
    key has. *)
Lemma remove_steps s M pre ek rest m :
  srv_repr s M → M !! data_ptr ek = Some m → ek_key ek ≠ [] →
  vec_repr (expiring_keys s) (pre ++ ek :: rest) →
  ∃ db t b v,
    the_db s (data_ptr ek) = Ok db ∧ trie_delete (db_data db) (ek_key ek) = Ok (t, b) ∧
    vector_delete (expiring_keys s) (Z.of_nat (length pre)) = Ok v ∧
    srv_repr (set_database s (data_ptr ek) (with_data db t))
      (upd M (data_ptr ek) (delete (ek_key ek))) ∧
    vec_repr v (pre ++ rest).
Proof.
  intros Hs Hm Hk0 Hv. destruct (srv_repr_db s M _ m Hs Hm) as (db & Hdb & [Htr Hd]).
  destruct (trie_delete_tree (db_data db) m (ek_key ek) _ Htr Hd _ Hk0) as (t & Hdel & Htr' & Hd' & _).
  destruct (vector_delete_repr (expiring_keys s) _ (Z.of_nat (length pre)) Hv) as (v & Hvd & Hv').
  { rewrite length_app, length_cons. lia. }
  exists db, t, (bool_decide (is_Some (m !! ek_key ek))), v. split_and!; [done|done|done| |].
  - apply srv_repr_upd with m; [done|done|]. split; [done|cbn; congruence].
  - by rewrite Nat2Z.id, delete_middle in Hv'.
Qed.

(** The other entries after [p] is gone. *)
Lemma remove_rest M pre p rest :
  Forall (ek_live M) (pre ++ p :: rest) → NoDup (ek_id <$> (pre ++ p :: rest)) →
  Forall (ek_live (remove_entry M p)) (pre ++ rest) ∧ NoDup (ek_id <$> (pre ++ rest)).
Proof.
  rewrite <-Permutation_middle. intros [_ Hl]%Forall_cons Hnd.
  rewrite fmap_cons, NoDup_cons in Hnd. destruct Hnd as [Hp Hnd]. split; [|done].
  apply Forall_forall. intros q Hq. apply remove_live.
  - by apply (proj1 (Forall_forall _ _) Hl).
  - intros E. apply Hp. rewrite <-E. by apply list_elem_of_fmap_2.
Qed.

(** The entry [p] of [pre ++ p :: rest] goes, and with it its key. *)
Lemma remove_inv s M pre p rest :
  expire_inv s M (pre ++ p :: rest) →
  ∃ db t b v,
    the_db s (data_ptr p.1) = Ok db ∧ trie_delete (db_data db) (ek_key p.1) = Ok (t, b) ∧
    vector_delete (expiring_keys s) (Z.of_nat (length pre)) = Ok v ∧
    expire_inv
      (add_keyspace (set_expiring (set_database s (data_ptr p.1) (with_data db t)) v) (-1))
      (remove_entry M p) (pre ++ rest).
Proof.
  intros [Hs Hu [Hv Hl] Hnd Hn Hc].
  destruct (remove_rest M pre p rest Hl Hnd) as [Hl' Hnd'].
  rewrite Forall_app, Forall_cons in Hl, Hn. destruct Hl as (_ & [(m & Hm & _) _] & _).
  rewrite fmap_app, fmap_cons in Hv.
  destruct (remove_steps s M pre.*1 p.1 rest.*1 m Hs Hm) as (db & t & b & v & Hdb & Hdel & Hvd & Hs' & Hv');
    [tauto|done|]. rewrite length_fmap in Hvd. rewrite <-fmap_app in Hv'.
  exists db, t, b, v. split_and!; [done|done|done|]. split; cbn.
  - exact Hs'.
  - by apply unique_delete.
  - by split.
  - done.
  - apply Forall_app. tauto.
  - apply u64_small, u64_bound.
Qed.

(** One iteration on an entry whose item is due. *)
Lemma expire_loop_due fuel now s i ek it db t b v :
  (i <? vector_size (expiring_keys s)) = true →
  vector_get (expiring_keys s) i = Ok (Some ek) → load_item s (ek_item ek) = Ok it →
  delta it now <= 0 → the_db s (data_ptr ek) = Ok db →
  trie_delete (db_data db) (ek_key ek) = Ok (t, b) →
  vector_delete (expiring_keys s) i = Ok v →
  expire_loop (S fuel) now s i =
    expire_loop fuel now
      (add_keyspace (set_expiring (set_database s (data_ptr ek) (with_data db t)) v) (-1)) (i + 1).
Proof.
  intros Hi Hg Hld Hd Hdb Hdel Hv. cbn [expire_loop]. rewrite Hi, Hg, res_bind_Ok_l.
  cbn [deref]. rewrite res_bind_Ok_l, Hld, res_bind_Ok_l.
  destruct (Z.gtb_spec (delta it now) 0); [lia|]. rewrite Hdb, res_bind_Ok_l, Hdel, res_bind_Ok_l.
  cbn [expiring_keys set_database]. by rewrite Hv, res_bind_Ok_l.
Qed.

Lemma expire_vec s M lp : expire_inv s M lp → vec_repr (expiring_keys s) lp.*1.
Proof. by intros [_ _ [? _] _ _]. Qed.

Lemma expire_size s M lp :
  expire_inv s M lp → vector_size (expiring_keys s) = Z.of_nat (length lp).
Proof. intros [_ Hs _ _]%expire_vec. by rewrite length_fmap in Hs. Qed.

Lemma expire_get s M pre p rest :
  expire_inv s M (pre ++ p :: rest) →
  vector_get (expiring_keys s) (Z.of_nat (length pre)) = Ok (Some p.1).
Proof.
  intros H%expire_vec. eapply vector_get_repr; [done|lia|].
  rewrite Nat2Z.id, fmap_app, fmap_cons. by apply list_lookup_middle; rewrite length_fmap.
Qed.

Lemma expire_load s M pre p rest :
  expire_inv s M (pre ++ p :: rest) → load_item s (ek_item p.1) = Ok p.2.
Proof.
  intros [Hs Hu [_ Hl] _ _]. apply load_ek with M; [done..|].
  rewrite Forall_app, Forall_cons in Hl. tauto.
Qed.

(** Past the end of the vector the loop stops. *)
Lemma expire_loop_end fuel now s i :
  vector_size (expiring_keys s) <= i → expire_loop fuel now s i = Ok s.
Proof. intros H. destruct fuel; cbn; by destruct (Z.ltb_spec i (vector_size (expiring_keys s))); [lia|]. Qed.

Lemma expire_loop_spec now fuel : ∀ s M pre rest,
  (length rest <= fuel)%nat → expire_inv s M (pre ++ rest) →
  ∃ s', expire_loop fuel now s (Z.of_nat (length pre)) = Ok s' ∧
    expire_inv s' (remove_entries M (removed now rest)) (pre ++ survivors now rest) ∧
    keyspace_size s' = u64 (keyspace_size s - Z.of_nat (length (removed now rest))).
Proof.
  induction fuel as [|fuel IH]; intros s M pre rest Hf Hinv;
    pose proof (expire_size _ _ _ Hinv) as Hsz; rewrite length_app in Hsz;
    pose proof (ei_count _ _ _ Hinv) as Hc;
    (destruct rest as [|p rest];
      [cbn in Hsz; exists s; cbn [removed survivors length]; rewrite Z.sub_0_r; (split; [apply expire_loop_end; lia|done])|]).
  { cbn in Hf; lia. }
  cbn [survivors removed]. rewrite length_cons in Hsz, Hf.
  assert ((Z.of_nat (length pre) <? vector_size (expiring_keys s)) = true) as Hi by (apply Z.ltb_lt; lia).
  destruct (due now p) eqn:Ed; unfold due in Ed.
  2:{ exists s. cbn [remove_entries foldl length]. rewrite Z.sub_0_r. split; [|done].
      cbn [expire_loop]. rewrite Hi, (expire_get s M pre p rest), res_bind_Ok_l by done.
      cbn [deref]. rewrite res_bind_Ok_l, (expire_load s M pre p rest), res_bind_Ok_l by done.
      apply Z.leb_gt in Ed. destruct (Z.gtb_spec (delta p.2 now) 0); [done|lia]. }
  apply Z.leb_le in Ed.
  destruct (remove_inv s M pre p rest Hinv) as (db & t & b & v & Hdb & Hdel & Hv & Hinv').
  rewrite (expire_loop_due fuel now s _ p.1 p.2 db t b v) by
    (done || by (eapply expire_get + eapply expire_load)).
  set (s1 := add_keyspace _ (-1)) in *. pose proof (expire_size _ _ _ Hinv') as Hsz'.
  rewrite length_app in Hsz'. destruct rest as [|q rest].
  { exists s1. split; [apply expire_loop_end; cbn in *; lia|done]. }
  destruct (IH s1 (remove_entry M p) (pre ++ [q]) rest) as (s' & He & Hi' & Hk);
    [cbn in Hf; lia|by rewrite <-app_assoc|].
  rewrite length_app, <-app_assoc in *. cbn [length app] in *.
  exists s'. split_and!; [by rewrite <-He; f_equal; lia|done|].
  rewrite Hk. cbn [keyspace_size s1 add_keyspace set_expiring set_database length].
  rewrite u64_sub_idemp_l. f_equal. lia.
Qed.

Lemma expire_keys_spec now s M lp :
  expire_inv s M lp →
  ∃ s', expire_keys now s = Ok s' ∧
    expire_inv s' (remove_entries M (removed now lp)) (survivors now lp) ∧
    keyspace_size s' = u64 (keyspace_size s - Z.of_nat (length (removed now lp))).
Proof.
  intros Hinv. pose proof (expire_size _ _ _ Hinv) as Hsz.
  destruct (expire_loop_spec now (length lp) s M [] lp) as (s' & He & Hi & Hk); [done|done|].
  exists s'. split_and!; [|done|done]. unfold expire_keys. rewrite Hsz, Nat2Z.id.
  destruct (Z.eqb_spec (Z.of_nat (length lp)) 0); [|done].
  assert (length lp = 0)%nat as E by lia. rewrite E in He. rewrite <-He. symmetry.
  apply expire_loop_end. lia.
Qed.

(** C20 One run of the expiration on a server in its invariant removes entries from
    the front of the vector as long as they are due, with their keys, but passes
    over the entry after each one it removes; every other key, entry and item
    stays, and the counter of keys goes down by the number removed. *)
Theorem expire_keys_every_other now s M lp :
  expire_inv s M lp →
  ∃ s', expire_keys now s = Ok s' ∧
    expire_inv s' (remove_entries M (removed now lp)) (survivors now lp) ∧
    keyspace_size s' = u64 (keyspace_size s - Z.of_nat (length (removed now lp))) ∧
    lp ≡ₚ removed now lp ++ survivors now lp ∧ Forall (λ p, due now p) (removed now lp).
Proof.
  intros (s' & He & Hi & Hk)%(expire_keys_spec now). exists s'.
  split_and!; [done..|apply removed_survivors|apply removed_due].
Qed.

(** *** Runs of the timer *)

Fixpoint ticks (s : triedb) (times : list Z) : res triedb :=
  match times with
  | [] => Ok s
  | now :: times => s ← expire_keys now s; ticks s times
  end.

Lemma due_later now now' p : now <= now' → due now p → due now' p.
Proof. unfold due, delta. intros. apply Is_true_true, Z.leb_le. apply Is_true_true, Z.leb_le in H0. lia. Qed.

(** C12 The keys that have an entry among the expiring keys are removed in the end, under the
    invariant of the expiring keys (every entry is for the live item of its key): when
    the first [length d] entries are due at [t0], [n] runs of the timer after that end without a
    fault and remove them all as soon as their number is below [2 ^ n], and whatever the runs
    remove was due by the last of them; these keys, and only these, are gone.  A key whose
    time to live comes from PUT has no entry, and a DEL of a key with an entry breaks the
    invariant (del_leaves_dangling): nothing is said of them. *)
Theorem expire_keys_eventually s M d r times t0 t1 :
  expire_inv s M (d ++ r) → Forall (λ p, due t0 p) d →
  Forall (λ t, t0 <= t <= t1) times → (length d < 2 ^ length times)%nat →
  ∃ s' gone left,
    ticks s times = Ok s' ∧ expire_inv s' (remove_entries M gone) left ∧
    d ++ r ≡ₚ gone ++ left ∧ left `sublist_of` r ∧ Forall (λ p, due t1 p) gone.
Proof.
  revert s M d r. induction times as [|now times IH]; intros s M d r Hinv Hd Ht Hl.
  - destruct d; cbn in Hl; [|lia]. exists s, [], r. split_and!; done.
  - inversion Ht as [|? ? Hnow Ht']; subst.
    assert (Forall (λ p, due now p) d) as Hdn
      by (eapply Forall_impl; [exact Hd|]; intros p; apply due_later; lia).
    destruct (expire_keys_spec now s M (d ++ r) Hinv) as (s1 & He & Hi1 & _).
    destruct (survivors_due now d r Hdn) as (d' & r' & Hsv & Hlen & Hd' & Hr').
    rewrite Hsv in Hi1.
    destruct (IH s1 _ d' r' Hi1) as (s' & gone & left & Htk & Hi & HP & Hsub & Hg);
      [by eapply sublist_Forall|done| |].
    { rewrite Hlen. cbn [length Nat.pow] in Hl. apply Nat.Div0.div_lt_upper_bound. lia. }
    exists s', (removed now (d ++ r) ++ gone), left. split_and!.
    + cbn [ticks]. by rewrite He, res_bind_Ok_l.
    + unfold remove_entries in *. by rewrite foldl_app.
    + rewrite (removed_survivors now (d ++ r)) at 1. by rewrite Hsv, HP, app_assoc.
    + by transitivity r'.
    + apply Forall_app. split; [|done]. eapply Forall_impl; [apply removed_due|].
      intros p. apply due_later. lia.
Qed.

(** ** Commands on keys with and without an entry *)

Lemma other_live M a k f lp :
  (a, k) ∉ ek_id <$> lp → (∀ m k', k' ≠ k → f m !! k' = m !! k') →
  Forall (ek_live M) lp → Forall (ek_live (upd M a f)) lp.
Proof.
  intros Hn Hf Hl. apply Forall_forall. intros p Hp.
  pose proof (proj1 (Forall_forall _ _) Hl p Hp) as [Hh Ha]. split; [|done].
  apply holds_upd. case_decide as E; [|done]. destruct Hh as (m & Hm & Hk).
  rewrite E in Hm. exists m. split; [done|]. rewrite Hf; [done|]. intros Ek.
  apply Hn, list_elem_of_fmap. exists p. split; [|done]. unfold ek_id. by rewrite E, Ek.
Qed.

(** What PUT of one key does, whether or not it is there. *)
Lemma put_spec now ptr s c M m k v t h kl :
  srv_repr s M → M !! client_db c = Some m → cstr k → cstr v → bits_prefix h = 0 →
  ∃ db, put_handler now ptr s c (mkPut h t kl (k ++ [0]) (v ++ [0]))
      = Ok (add_keyspace (leak (set_database s (client_db c) db) (m !! k)) 1, c, Some ack_ok, 0) ∧
    db_repr db (<[k := mkItem (s16 t) (Some v) now now ptr]> m).
Proof.
  intros Hs Ha Hk Hv Hh. destruct (srv_repr_db s M _ m Hs Ha) as (db & Hdb & [Htr Hd]).
  unfold put_handler. rewrite Hdb, res_bind_Ok_l. cbn [put_key put_val put_header put_ttl].
  rewrite !cstring_at_nul, !res_bind_Ok_l, Hh by done. change (0 =? 1) with false. cbv iota.
  rewrite (trie_find_tree _ m), res_bind_Ok_l by done. unfold database_insert.
  destruct (trie_insert_tree _ m k (mkItem (s16 t) (Some v) now now ptr) Htr Hk)
    as (t' & -> & Htr' & Hd' & _). rewrite res_bind_Ok_l, res_bind_mret_l.
  eexists. split; [by apply reply_ack_spec; left|]. split; [done|cbn; congruence].
Qed.

Lemma srv_repr_leak s M old : srv_repr (leak s old) M ↔ srv_repr s M.
Proof. by destruct old. Qed.

Lemma put_inv now ptr s c M lp m k v t h kl :
  expire_inv s M lp → M !! client_db c = Some m → cstr k → cstr v → bits_prefix h = 0 →
  (client_db c, k) ∉ ek_id <$> lp → addr_free M ptr →
  ∃ s', put_handler now ptr s c (mkPut h t kl (k ++ [0]) (v ++ [0])) = Ok (s', c, Some ack_ok, 0) ∧
    expire_inv s' (upd M (client_db c) (<[k := mkItem (s16 t) (Some v) now now ptr]>)) lp.
Proof.
  intros [Hs Hu [Hv Hl] Hnd Hn Hc] Ha Hk Hval Hh Hid Hfr.
  destruct (put_spec now ptr s c M m k v t h kl Hs Ha Hk Hval Hh) as (db & -> & Hr).
  eexists. split; [done|]. split; [|by apply unique_fresh| |done|done|apply u64_small, u64_bound].
  - change (srv_repr (leak (set_database s (client_db c) db) (m !! k))
      (upd M (client_db c) (<[k := mkItem (s16 t) (Some v) now now ptr]>))).
    apply srv_repr_leak. by apply srv_repr_upd with m.
  - split; [by destruct (m !! k)|]. apply other_live with k; [done| |done].
    intros m' k' ?. by rewrite lookup_insert_ne.
Qed.

(** What DEL of one key does. *)
Lemma del_spec s c M m k h :
  srv_repr s M → M !! client_db c = Some m → cstr k → k ≠ [] → bits_prefix h = 0 →
  ∃ db, del_handler s c (mkGet h (k ++ [0]))
      = Ok (if decide (is_Some (m !! k))
            then (add_keyspace (set_database s (client_db c) db) (-1), c, Some ack_ok, 0)
            else (set_database s (client_db c) db, c, Some ack_nok, 0)) ∧
    db_repr db (delete k m).
Proof.
  intros Hs Ha Hk Hk0 Hh. destruct (srv_repr_db s M _ m Hs Ha) as (db & Hdb & [Htr Hd]).
  unfold del_handler. rewrite Hdb, res_bind_Ok_l. cbn [get_key get_header].
  rewrite cstring_at_nul, res_bind_Ok_l, Hh by done. change (0 =? 1) with false. cbv iota.
  unfold database_remove.
  destruct (trie_delete_tree (db_data db) m k _ Htr Hd _ Hk0) as (t & -> & Htr' & Hd' & _).
  rewrite res_bind_Ok_l, res_bind_mret_l. exists (with_data db t).
  split; [|split; [done|cbn; congruence]].
  case_decide; [rewrite bool_decide_true by done; by apply reply_ack_spec; left|].
  rewrite bool_decide_false by done. by apply reply_ack_spec; right.
Qed.

Lemma del_inv s c M lp m k h :
  expire_inv s M lp → M !! client_db c = Some m → cstr k → k ≠ [] → bits_prefix h = 0 →
  (client_db c, k) ∉ ek_id <$> lp →
  ∃ s' raw, del_handler s c (mkGet h (k ++ [0])) = Ok (s', c, Some raw, 0) ∧
    expire_inv s' (upd M (client_db c) (delete k)) lp.
Proof.
  intros [Hs Hu [Hv Hl] Hnd Hn Hc] Ha Hk Hk0 Hh Hid.
  destruct (del_spec s c M m k h Hs Ha Hk Hk0 Hh) as (db & -> & Hr).
  assert (srv_repr (set_database s (client_db c) db) (upd M (client_db c) (delete k)))
    as Hs' by by eapply srv_repr_upd.
  assert (Forall (ek_live (upd M (client_db c) (delete k))) lp) as Hl'.
  { apply other_live with k; [done| |done]. intros m' k' ?. by rewrite lookup_delete_ne. }
  pose proof (unique_delete M (client_db c) k Hu).
  case_decide; (eexists _, _; split; [done|]); split; try done. apply u64_small, u64_bound.
Qed.

(** The address of an entry's item is free once its key is bound to another item
    or to none. *)
Lemma entry_addr_free M p f :
  addr_unique M → ek_live M p →
  (∀ a k it, holds_item (upd M (data_ptr p.1) f) a k it →
     iaddr it ≠ ek_item p.1 ∨ holds_item M a k it ∧ (a, k) ≠ ek_id p) →
  addr_free (upd M (data_ptr p.1) f) (ek_item p.1).
Proof.
  intros Hu [Hh Hp] Hf a k it Hit He. destruct (Hf _ _ _ Hit) as [|[Hit' Hne]]; [done|].
  apply Hne. unfold ek_id. destruct (Hu _ _ _ _ _ _ Hit' Hh) as [-> ->]; [congruence|done].
Qed.

(** C30 DEL on a key with a time to live leaves its entry among the expiring keys
    although the item is released: when that entry is the first, the next run of
    the expiration, at any time, reads released memory. *)
Theorem del_leaves_dangling s c M p lp h :
  expire_inv s M (p :: lp) → leaked s !! ek_item p.1 = None → client_db c = data_ptr p.1 →
  cstr (ek_key p.1) → bits_prefix h = 0 →
  ∃ s', del_handler s c (mkGet h (ek_key p.1 ++ [0])) = Ok (s', c, Some ack_ok, 0) ∧
    ∀ now, expire_keys now s' = Err UseAfterFree.
Proof.
  intros Hinv Hlk Hc Hk Hh. pose proof Hinv as [Hs Hu [Hv Hl] _ Hn _].
  apply Forall_cons in Hl as [Hp _], Hn as [[Hk0 _] _]. pose proof Hp as [(m & Hm & Hkm) _].
  rewrite <-Hc in Hm. destruct (del_spec s c M m _ h Hs Hm Hk Hk0 Hh) as (db & -> & Hr).
  rewrite decide_True by by eexists. eexists. split; [done|]. intros now. unfold expire_keys.
  rewrite Hc in *. set (s' := add_keyspace _ _).
  change (expiring_keys s') with (expiring_keys s). rewrite (expire_size _ _ _ Hinv), Nat2Z.id.
  rewrite (proj2 (Z.eqb_neq _ _)) by (rewrite length_cons; lia). cbn [length expire_loop].
  change (expiring_keys s') with (expiring_keys s). rewrite (expire_size _ _ _ Hinv).
  rewrite (proj2 (Z.ltb_lt _ _)) by (rewrite length_cons; lia).
  pose proof (expire_get s M [] p lp Hinv) as Hg. cbn [length] in Hg.
  change (Z.of_nat 0) with 0 in Hg. rewrite Hg, res_bind_Ok_l. cbn [deref]. rewrite res_bind_Ok_l.
  rewrite (load_dead s' (upd M (data_ptr p.1) (delete (ek_key p.1)))).
  - cbn [leaked s' add_keyspace set_database]. by rewrite Hlk.
  - by apply srv_repr_upd with m.
  - apply entry_addr_free; [done|done|]. intros a k it [Hne Hit]%holds_delete. right.
    split; [done|]. unfold ek_id. intros [= -> ->]. tauto.
Qed.

Lemma remove_entries_holds M l a k it :
  holds_item (remove_entries M l) a k it → holds_item M a k it.
Proof.
  revert M. induction l as [|p l IH]; intros M; cbn; [done|]. intros H%IH.
  by apply holds_delete in H as [_ H].
Qed.

(** Removing a key that was written over is removing it. *)
Lemma remove_overwritten M a k it : upd (upd M a (<[k := it]>)) a (delete k) = upd M a (delete k).
Proof.
  apply map_eq. intros a'. unfold upd. destruct (decide (a' = a)) as [->|].
  - rewrite !lookup_alter_eq. destruct (M !! a); [|done]. cbn. f_equal. by rewrite delete_insert_eq.
  - by rewrite !lookup_alter_ne.
Qed.

(** C31 PUT on a key with a time to live does not end the old deadline, here for the key
    whose entry is first: the entry
    still points to the item that was written over, and when its time has come the
    expiration removes the key with the value put since. *)
Theorem put_keeps_deadline now now' ptr s c M p lp v t h kl :
  expire_inv s M (p :: lp) → client_db c = data_ptr p.1 → cstr (ek_key p.1) → cstr v →
  bits_prefix h = 0 → addr_free M ptr → delta p.2 now' <= 0 →
  ∃ s' s'' M'' lp'',
    put_handler now ptr s c (mkPut h t kl (ek_key p.1 ++ [0]) (v ++ [0]))
      = Ok (s', c, Some ack_ok, 0) ∧
    expire_keys now' s' = Ok s'' ∧ expire_inv s'' M'' lp'' ∧
    ∀ it, ¬ holds_item M'' (data_ptr p.1) (ek_key p.1) it.
Proof.
  intros Hinv Hc Hk Hv Hh Hfr Hd. pose proof Hinv as [Hs Hu [Hvec Hl] Hnd Hn _].
  pose proof (remove_rest M [] p lp Hl Hnd) as [Hl' Hnd'].
  apply Forall_cons in Hl as [Hp _], Hn as [[Hk0 _] Hn']. pose proof Hp as [(m & Hm & Hkm) Hpa].
  rewrite <-Hc in Hm. destruct (put_spec now ptr s c M m _ v t h kl Hs Hm Hk Hv Hh) as (db & Hput & Hr).
  rewrite Hkm in Hput. rewrite Hc in *. set (new := mkItem _ _ _ _ _) in *.
  set (s' := add_keyspace _ _) in Hput. set (M' := upd M (data_ptr p.1) (<[ek_key p.1 := new]>)).
  assert (srv_repr s' M') as Hs' by (apply (srv_repr_upd s M _ db m); done).
  destruct (remove_steps s' M' [] p.1 lp.*1 (<[ek_key p.1 := new]> m) Hs')
    as (db1 & t1 & b1 & w & Hdb & Hdel & Hw & Hs1 & Hw1); [|done|exact Hvec|].
  { unfold M', upd. by rewrite lookup_alter_eq, Hm. }
  set (s1 := add_keyspace (set_expiring (set_database s' (data_ptr p.1) (with_data db1 t1)) w) (-1)).
  assert (expire_inv s1 (remove_entry M p) lp) as Hinv1.
  { split; [|by apply unique_delete|by split|done|done|apply u64_small, u64_bound].
    unfold M' in Hs1. rewrite remove_overwritten in Hs1. exact Hs1. }
  assert (expire_keys now' s' = expire_loop (length lp) now' s1 1) as He.
  { unfold expire_keys. pose proof (expire_size s M _ Hinv) as Hsz. rewrite length_cons in Hsz.
    change (expiring_keys s') with (expiring_keys s).
    rewrite Hsz, Nat2Z.id. rewrite (proj2 (Z.eqb_neq _ _)) by lia.
    apply (expire_loop_due _ _ s' 0 p.1 p.2 db1 t1 b1 w); try done.
    - change (expiring_keys s') with (expiring_keys s). apply Z.ltb_lt. lia.
    - exact (expire_get s M [] p lp Hinv).
    - rewrite (load_dead s' M'); [|done|].
      + cbn. by rewrite Hpa, lookup_insert_eq.
      + apply entry_addr_free; [done|done|].
        intros a k it [(-> & -> & -> & _)|[Hne Hit]]%holds_insert.
        * left. cbn. rewrite <-Hpa. intros E. by apply (Hfr _ _ _ (proj1 Hp)).
        * right. split; [done|]. unfold ek_id. intros [= -> ->]. tauto. }
  destruct lp as [|q lp].
  { exists s', s1, (remove_entry M p), []. split_and!; [done| |done|].
    - rewrite He. apply expire_loop_end. rewrite (expire_size _ _ _ Hinv1). cbn. lia.
    - intros it H%holds_delete. tauto. }
  destruct (expire_loop_spec now' (length (q :: lp)) s1 (remove_entry M p) [q] lp)
    as (s2 & He2 & Hinv2 & _); [cbn; lia|done|].
  eexists s', s2, _, _. split_and!; [done|by rewrite He|exact Hinv2|].
  intros it H%remove_entries_holds%holds_delete. tauto.
Qed.

(** ** Reachable servers *)

Definition has_entry (s : triedb) (a : Z) (k : list Z) : bool :=
  existsb (λ x, match x with
                | Some ek => bool_decide (data_ptr ek = a ∧ ek_key ek = k)
                | None => false
                end) (items (expiring_keys s)).

(** PUT and DEL of keys that have no entry, TTL with a time to live, and the runs
    of the timer.  A new item has an address that is not in use. *)
Inductive srv_step : triedb → triedb → Prop :=
| step_put now ptr c k v t h kl s s' raw rc :
    cstr k → cstr v → bits_prefix h = 0 → has_entry s (client_db c) k = false →
    load_item s ptr = Err UseAfterFree →
    put_handler now ptr s c (mkPut h t kl (k ++ [0]) (v ++ [0])) = Ok (s', c, raw, rc) →
    srv_step s s'
| step_del c k h s s' raw rc :
    cstr k → k ≠ [] → bits_prefix h = 0 → has_entry s (client_db c) k = false →
    del_handler s c (mkGet h (k ++ [0])) = Ok (s', c, raw, rc) →
    srv_step s s'
| step_ttl now c k h t s s' raw rc :
    cstr k → k ≠ [] → 0 <= s16 t → vsize (expiring_keys s) < 2 ^ 29 →
    ttl_handler now s c (mkTtl h t (k ++ [0])) = Ok (s', c, raw, rc) →
    srv_step s s'
| step_tick now s s' : expire_keys now s = Ok s' → srv_step s s'.

Lemma start_inv ptr s : init_triedb ptr = Ok s → expire_inv s {[ptr := ∅]} [].
Proof.
  destruct (init_triedb_spec ptr) as (s0 & -> & Hd & _ & _ & He & _ & Hk). intros [= <-].
  split; [| |split; [|done]|apply NoDup_nil_2|done|by rewrite Hk].
  - unfold srv_repr. rewrite Hd. apply map_Forall2_singleton, database_init_repr.
  - intros a k it a' k' it' (m & [-> <-]%lookup_singleton_Some & Hx). by rewrite lookup_empty in Hx.
  - rewrite He. apply vector_new_repr.
Qed.

Lemma has_entry_id s M lp a k :
  expire_inv s M lp → has_entry s a k = false → (a, k) ∉ ek_id <$> lp.
Proof.
  intros Hinv Hn Hin. apply list_elem_of_fmap in Hin as (p & He & Hp). unfold ek_id in He.
  injection He as -> ->. apply not_true_iff_false in Hn. apply Hn. apply existsb_exists.
  exists (Some p.1). split; [|by rewrite bool_decide_true].
  destruct (expire_vec _ _ _ Hinv) as [-> _ _ _]. apply list_elem_of_In, elem_of_app. left.
  by do 2 apply list_elem_of_fmap_2.
Qed.

Lemma the_db_map s M a db :
  srv_repr s M → the_db s a = Ok db → ∃ m, M !! a = Some m.
Proof.
  intros Hs. specialize (Hs a). unfold the_db. destruct (databases s !! a); [|done].
  intros _. destruct (M !! a); [by eexists|by inversion Hs].
Qed.

(** A handler that has run found the client's database. *)
Lemma ran_db {B} s M a (f : database → res B) o :
  srv_repr s M → (the_db s a ≫= f) = Ok o → ∃ m, M !! a = Some m.
Proof. intros Hs. destruct (the_db s a) eqn:E; [|done]. intros _. by eapply the_db_map. Qed.

Lemma step_inv s s' M lp :
  expire_inv s M lp → srv_step s s' → ∃ M' lp', expire_inv s' M' lp'.
Proof.
  intros Hinv Hst. pose proof (ei_repr _ _ _ Hinv) as Hs. destruct Hst.
  - assert (∃ m, M !! client_db c = Some m) as [m Hm].
    { match goal with H : put_handler _ _ _ _ _ = Ok _ |- _ => exact (ran_db _ _ _ _ _ Hs H) end. }
    destruct (put_inv now ptr s c M lp m k v t h kl) as (s1 & E & Hi); try done.
    + by eapply has_entry_id.
    + destruct (load_cases s M ptr Hs) as [(? & ? & ? & _ & _ & E)|[? _]]; [congruence|done].
    + rewrite E in *. simplify_eq. by eexists _, _.
  - assert (∃ m, M !! client_db c = Some m) as [m Hm].
    { match goal with H : del_handler _ _ _ = Ok _ |- _ => exact (ran_db _ _ _ _ _ Hs H) end. }
    destruct (del_inv s c M lp m k h) as (s1 & raw1 & E & Hi); try done.
    + by eapply has_entry_id.
    + rewrite E in *. simplify_eq. by eexists _, _.
  - assert (∃ m, M !! client_db c = Some m) as [m Hm].
    { match goal with H : ttl_handler _ _ _ _ = Ok _ |- _ => exact (ran_db _ _ _ _ _ Hs H) end. }
    destruct (m !! k) as [it|] eqn:Ek.
    + destruct (ttl_inv now s c M lp m k h t it) as (s1 & lp1 & E & Hi & _); try done.
      { pose proof (expire_size _ _ _ Hinv) as E. unfold vector_size in E. lia. }
      rewrite E in *. simplify_eq. by eexists _, _.
    + rewrite (ttl_absent now s c M m k h t) in * by done. simplify_eq. by eexists _, _.
  - destruct (expire_keys_spec now s M lp Hinv) as (s1 & E & Hi & _). rewrite E in *. simplify_eq. by eexists _, _.
Qed.

(** C13 From a server that has just started, any number of these steps in any order and at any
    times keep the invariant of the expiring keys: PUT of a single key and DEL of a single
    key that have no entry among the expiring keys, TTL with a time to live that is not negative as a
    short, with less than 2^29 entries, and the runs of the timer.  So each entry points to the live
    item of its key, and a run of the expiration at any time ends without a
    fault.  GET, INC, DEC and the commands on prefixes are not among the steps; PUT and
    DEL of a key that has an entry are excluded because they break the invariant or the
    deadline (del_leaves_dangling, put_keeps_deadline). *)
Theorem reachable_expiration_safe ptr s0 s :
  init_triedb ptr = Ok s0 → rtc srv_step s0 s →
  (∃ M lp, expire_inv s M lp) ∧ ∀ now, ∃ s', expire_keys now s = Ok s'.
Proof.
  intros H0 Hst. assert (∃ M lp, expire_inv s M lp) as (M & lp & Hi).
  { assert (∃ M lp, expire_inv s0 M lp) as Hi0 by (eexists _, _; by eapply start_inv).
    clear H0. induction Hst as [|s0 s1 s Hst _ IH]; [done|]. destruct Hi0 as (M & lp & Hi0).
    apply IH. by eapply step_inv. }
  split; [by exists M, lp|]. intros now.
  destruct (expire_keys_spec now s M lp Hi) as (s' & -> & _). by exists s'.
Qed.

(** ** A server with one expiring key *)

Definition demo_client : client := mkClient 5 0 (str "u") 16.
Definition demo_item (t : Z) : db_item := mkItem t (Some (str "v")) 100 100 64.
Definition demo_map (t : Z) : gmap Z (gmap (list Z) db_item) :=
  {[16 := {[str "k" := demo_item t]}]}.
Definition demo_entry : expiring_key * db_item := (mkEk 16 64 (str "k"), demo_item 5).

Definition demo_put : res triedb :=
  s ← init_triedb 16;
  '(s, _, _, _) ← put_handler 100 64 s demo_client (mkPut 16 (-1) 1 (str "k" ++ [0]) (str "v" ++ [0]));
  mret s.
Definition demo_server : res triedb :=
  s ← demo_put;
  '(s, _, _, _) ← ttl_handler 100 s demo_client (mkTtl 64 5 (str "k" ++ [0]));
  mret s.

Lemma demo_cstr k : k = str "k" ∨ k = str "v" → cstr k.
Proof. intros [->| ->]; apply (bool_decide_unpack _); vm_compute; exact I. Qed.

Lemma demo_put_inv :
  ∃ s, demo_put = Ok s ∧ expire_inv s (demo_map (-1)) [] ∧
    ∀ s0, init_triedb 16 = Ok s0 → rtc srv_step s0 s.
Proof.
  unfold demo_put. destruct (init_triedb_spec 16) as (s0 & Hs0 & Hd & Hl & _ & He & _).
  pose proof (start_inv 16 s0 Hs0) as Hi. rewrite Hs0, res_bind_Ok_l.
  destruct (put_inv 100 64 s0 demo_client _ [] ∅ (str "k") (str "v") (-1) 16 1 Hi)
    as (s & E & Hi').
  - apply lookup_singleton_eq.
  - apply demo_cstr. by left.
  - apply demo_cstr. by right.
  - reflexivity.
  - apply not_elem_of_nil.
  - intros a k it (m & [_ <-]%lookup_singleton_Some & Hx). by rewrite lookup_empty in Hx.
  - exists s. rewrite E. split_and!; [reflexivity| |].
    + replace (demo_map (-1)) with (upd {[16 := ∅]} (client_db demo_client)
        (<[str "k" := mkItem (s16 (-1)) (Some (str "v")) 100 100 64]>)); [exact Hi'|].
      unfold demo_map, upd. cbn [client_db demo_client]. by rewrite alter_singleton_eq.
    + intros s1 [= <-]. apply rtc_once. eapply step_put; [| | | | |exact E].
      * apply demo_cstr. by left.
      * apply demo_cstr. by right.
      * reflexivity.
      * unfold has_entry. rewrite He. reflexivity.
      * unfold load_item. rewrite Hd, Hl. vm_compute. reflexivity.
Qed.

Lemma demo_inv :
  ∃ s, demo_server = Ok s ∧ expire_inv s (demo_map 5) [demo_entry] ∧
    ∀ s0, init_triedb 16 = Ok s0 → rtc srv_step s0 s.
Proof.
  unfold demo_server. destruct demo_put_inv as (s0 & -> & Hi & Hst). rewrite res_bind_Ok_l.
  destruct (ttl_inv 100 s0 demo_client (demo_map (-1)) [] {[str "k" := demo_item (-1)]} (str "k")
    64 5 (demo_item (-1)) Hi) as (s & lp & E & Hi' & HP & _).
  - done.
  - apply lookup_singleton_eq.
  - apply demo_cstr. by left.
  - done.
  - vm_compute. discriminate.
  - apply lookup_singleton_eq.
  - exists s. rewrite E. cbn [fmap list_fmap app new_entry] in HP.
    apply Permutation_singleton_r in HP as ->. split_and!; [reflexivity| |].
    + replace (demo_map 5) with (upd (demo_map (-1)) (client_db demo_client)
        (<[str "k" := demo_item 5]>)); [exact Hi'|].
      unfold demo_map, upd. cbn [client_db demo_client].
      by rewrite alter_singleton_eq, insert_singleton_eq.
    + intros s1 Hs1. eapply rtc_r; [by apply Hst|]. eapply step_ttl; [| | | |exact E].
      * apply demo_cstr. by left.
      * done.
      * vm_compute. discriminate.
      * pose proof (expire_size _ _ _ Hi) as Hz. unfold vector_size in Hz. rewrite Hz. done.
Qed.

Lemma demo_free : addr_free (demo_map 5) 128.
Proof.
  intros a k it (m & Hm & Hk). unfold demo_map in Hm. apply lookup_singleton_Some in Hm as [_ <-].
  apply lookup_singleton_Some in Hk as [_ <-]. done.
Qed.

Lemma demo_due now : 105 <= now → Forall (λ p, due now p) [demo_entry].
Proof. intros. repeat constructor. unfold due, delta. apply Is_true_true, Z.leb_le. cbn. lia. Qed.

Lemma ttl_handler_correct_witness :
  ∃ s s' lp', demo_put = Ok s ∧
    ttl_handler 200 s demo_client (mkTtl 64 7 (str "k" ++ [0])) = Ok (s', demo_client, Some ack_ok, 0) ∧
    expire_inv s' (upd (demo_map (-1)) 16 (<[str "k" := mkItem 7 (Some (str "v")) 200 200 64]>)) lp' ∧
    lp' ≡ₚ [(mkEk 16 64 (str "k"), mkItem 7 (Some (str "v")) 200 200 64)].
Proof.
  destruct demo_put_inv as (s & Hs & Hi & _).
  pose proof (ttl_handler_correct 200 s demo_client (demo_map (-1)) []
    {[str "k" := demo_item (-1)]} (str "k") 64 7 Hi ltac:(cbn; lia) (lookup_singleton_eq _ _)
    (demo_cstr _ (or_introl eq_refl)) ltac:(discriminate) ltac:(vm_compute; discriminate)) as H.
  rewrite lookup_singleton_eq in H. destruct H as (s' & lp' & H1 & H2 & H3 & _).
  exists s, s', lp'. split_and!; [exact Hs|exact H1|exact H2|exact H3].
Defined.

Lemma expire_keys_every_other_witness :
  ∃ s s', demo_server = Ok s ∧ expire_keys 105 s = Ok s' ∧
    expire_inv s' (remove_entry (demo_map 5) demo_entry) [] ∧ keyspace_size s' = 0.
Proof.
  destruct demo_inv as (s & Hs & Hi & _).
  destruct (expire_keys_every_other 105 s _ _ Hi) as (s' & H1 & H2 & H3 & _).
  exists s, s'. split_and!; [exact Hs|exact H1|exact H2|].
  assert ((keyspace_size <$> (match demo_server with Ok s => Some s | Err _ => None end)) = Some 1) as Hk
    by (vm_compute; reflexivity).
  rewrite Hs in Hk. injection Hk as Hk. rewrite H3, Hk. reflexivity.
Defined.

Lemma expire_keys_eventually_witness :
  ∃ s s' gone left, demo_server = Ok s ∧ ticks s [105] = Ok s' ∧
    expire_inv s' (remove_entries (demo_map 5) gone) left ∧ [demo_entry] ≡ₚ gone ++ left ∧
    left `sublist_of` [].
Proof.
  destruct demo_inv as (s & Hs & Hi & _).
  destruct (expire_keys_eventually s (demo_map 5) [demo_entry] [] [105] 105 105 Hi)
    as (s' & gone & left & H1 & H2 & H3 & H4 & _).
  - apply demo_due. lia.
  - repeat constructor; lia.
  - cbn. lia.
  - exists s, s', gone, left. split_and!; [exact Hs|exact H1|exact H2|exact H3|exact H4].
Defined.

Lemma demo_leaked s : demo_server = Ok s → leaked s = ∅.
Proof.
  intros Hs. assert ((leaked <$> (match demo_server with Ok s => Some s | Err _ => None end)) = Some ∅) as Hk
    by (vm_compute; reflexivity).
  rewrite Hs in Hk. by injection Hk.
Qed.

Lemma del_leaves_dangling_witness :
  ∃ s s', demo_server = Ok s ∧
    del_handler s demo_client (mkGet 48 (str "k" ++ [0])) = Ok (s', demo_client, Some ack_ok, 0) ∧
    ∀ now, expire_keys now s' = Err UseAfterFree.
Proof.
  destruct demo_inv as (s & Hs & Hi & _).
  destruct (del_leaves_dangling s demo_client (demo_map 5) demo_entry [] 48 Hi)
    as (s' & H1 & H2).
  - rewrite (demo_leaked s Hs). apply lookup_empty.
  - reflexivity.
  - apply (demo_cstr _ (or_introl eq_refl)).
  - reflexivity.
  - exists s, s'. split_and!; [exact Hs|exact H1|exact H2].
Defined.

Lemma put_keeps_deadline_witness :
  ∃ s s' s'' M'' lp'', demo_server = Ok s ∧
    put_handler 103 128 s demo_client (mkPut 16 (-1) 1 (str "k" ++ [0]) (str "v" ++ [0]))
      = Ok (s', demo_client, Some ack_ok, 0) ∧
    expire_keys 105 s' = Ok s'' ∧ expire_inv s'' M'' lp'' ∧
    ∀ it, ¬ holds_item M'' 16 (str "k") it.
Proof.
  destruct demo_inv as (s & Hs & Hi & _).
  destruct (put_keeps_deadline 103 105 128 s demo_client (demo_map 5) demo_entry [] (str "v") (-1) 16 1 Hi)
    as (s' & s'' & M'' & lp'' & H1 & H2 & H3 & H4).
  - reflexivity.
  - apply (demo_cstr _ (or_introl eq_refl)).
  - apply (demo_cstr _ (or_intror eq_refl)).
  - reflexivity.
  - apply demo_free.
  - vm_compute. discriminate.
  - exists s, s', s'', M'', lp''. split_and!; [exact Hs|exact H1|exact H2|exact H3|exact H4].
Defined.

Lemma reachable_expiration_safe_witness :
  ∃ s0 s, init_triedb 16 = Ok s0 ∧ rtc srv_step s0 s ∧ demo_server = Ok s ∧
    ∀ now, ∃ s', expire_keys now s = Ok s'.
Proof.
  destruct (init_triedb_spec 16) as (s0 & Hs0 & _). destruct demo_inv as (s & Hs & _ & Hst).
  exists s0, s. split_and!; [exact Hs0|exact (Hst s0 Hs0)|exact Hs|].
  exact (proj2 (reachable_expiration_safe 16 s0 s Hs0 (Hst s0 Hs0))).
Defined.
