(* ===== verification/Prefix.v ===== *)
(** * Requests on a prefix: the second branch of get_handler of src/server.c

    The reply to a GET on a prefix: the tuples of the keys that start with it,
    and what happens when no path of the trie leads to the prefix. *)

From S2P Require Import Prelude Util Config Store Bst Vec Trie Pack Db Protocol Hashtable Server.
From S2P Require Import Commands Expire.

(** ** Specification *)

Definition tuple_of (kv : list Z * db_item) : tuple :=
  mkTuple (ttl kv.2) (strlen kv.1) kv.1 (default [] (idata kv.2)).

(** An item without a time to live, as PUT makes it. *)
Definition lasting (it : db_item) : Prop := item_fine it ∧ ttl it = -1.

Definition kv_pair (kv : kv_obj db_item) : list Z * db_item := (kv_key kv, kv_data kv).

(** ** The steps of the handler *)

Section steps.
Context (s : triedb) (l : list (kv_obj db_item)).
Context (Hload : Forall (λ kv, load_item s (iaddr (kv_data kv)) = Ok (kv_data kv)) l).

Lemma get_prefix_loop_lasting fuel now c key v (i : nat) :
  vec_repr v l → Forall (λ kv, ttl (kv_data kv) = -1) l → (length l - i <= fuel)%nat →
  get_prefix_loop fuel now s c key v (Z.of_nat i) = Ok (s, v).
Proof.
  intros Hv Ht. pose proof (vr_size _ _ Hv) as Hsz. revert i.
  induction fuel as [|fuel IH]; intros i Hf; cbn [get_prefix_loop]; unfold vector_size; rewrite Hsz;
    destruct (Z.ltb_spec (Z.of_nat i) (Z.of_nat (length l))) as [Hlt|]; try done; [lia|].
  destruct (lookup_lt_is_Some_2 l i) as [kv Hkv]; [lia|].
  rewrite (vector_get_repr v l (Z.of_nat i) kv), res_bind_Ok_l by (done || lia || by rewrite Nat2Z.id).
  cbn [deref]. rewrite res_bind_Ok_l.
  rewrite (proj1 (Forall_lookup _ _) Hload i kv Hkv), res_bind_Ok_l.
  rewrite (proj1 (Forall_lookup _ _) Ht i kv Hkv). change (-1 =? -1) with true. cbn [negb andb].
  replace (Z.of_nat i + 1) with (Z.of_nat (S i)) by lia. apply IH. lia.
Qed.

End steps.

Lemma reload_same s (l : list (kv_obj db_item)) k :
  Forall (λ kv, load_item s (iaddr (kv_data kv)) = Ok (kv_data kv)) l →
  reload s ((Some <$> l) ++ replicate k None) = Ok ((Some <$> l) ++ replicate k None).
Proof.
  induction 1 as [|kv l' Hkv _ IH]; cbn [fmap list_fmap app].
  - induction k as [|k IHk]; [done|]. cbn [replicate reload]. by rewrite IHk.
  - cbn [reload]. rewrite Hkv, res_bind_Ok_l. cbn [fmap list_fmap app] in IH.
    rewrite IH, res_bind_Ok_l. by destruct kv.
Qed.

Lemma fill_tuples_spec v (l : list (kv_obj db_item)) n (i : nat) :
  vec_repr v l → (n = length l - i)%nat →
  Forall (λ kv, is_Some (idata (kv_data kv)) ∧ strlen (kv_key kv) < 2 ^ 16) l →
  fill_tuples n v (Z.of_nat i) = Ok ((λ kv, tuple_of (kv_pair kv)) <$> drop i l).
Proof.
  intros Hv Hn Hl. revert i Hn. induction n as [|n IH]; intros i Hn; cbn [fill_tuples].
  { by rewrite drop_ge by lia. }
  destruct (lookup_lt_is_Some_2 l i) as [kv Hkv]; [lia|].
  rewrite (vector_get_repr v l (Z.of_nat i) kv), res_bind_Ok_l by (done || lia || by rewrite Nat2Z.id).
  cbn [deref]. rewrite res_bind_Ok_l.
  destruct (proj1 (Forall_lookup _ _) Hl i kv Hkv) as [[val Hval] Hk]. rewrite Hval. cbn [deref].
  rewrite res_bind_Ok_l, u16_small by (pose proof (strlen_nonneg (kv_key kv)); lia).
  replace (Z.of_nat i + 1) with (Z.of_nat (S i)) by lia. rewrite IH, res_bind_Ok_l by lia.
  rewrite (drop_S l kv i Hkv). cbn [fmap list_fmap]. unfold tuple_of, kv_pair. cbn. by rewrite Hval.
Qed.

Lemma tuple_of_ok k it : lasting it → strlen k < 2 ^ 16 → tuple_ok (tuple_of (k, it)).
Proof.
  intros [[Ht (v & Hv & Hl)] _] Hk. unfold tuple_of. cbn. rewrite Hv. split; cbn; (done || lia).
Qed.

(** The keys under a prefix are those of the node that it leads to. *)
Lemma kvs_with_prefix r p n :
  trie_wf r → trie_walk r p = Some n →
  kv_pair <$> kvs p (trie_entries n) ≡ₚ map_to_list (with_prefix p (node_map r)).
Proof.
  intros Hwf Hn. rewrite (with_prefix_node _ _ n) by done. rewrite map_to_list_kmap by apply _.
  assert (trie_wf n) by by eapply trie_wf_walk.
  unfold node_map. rewrite map_to_list_to_map by by apply trie_entries_nodup.
  unfold kvs. rewrite <-list_fmap_compose. by f_equiv.
Qed.

Lemma depth_key r k (it : db_item) L :
  trie_wf r → depth_le r L → node_map r !! k = Some it → (length k <= L)%nat.
Proof.
  intros Hwf Hd Hk. rewrite node_map_lookup in Hk by done.
  unfold node_get, trie_node_search, trie_node_find in Hk.
  destruct (trie_walk r k) as [n|] eqn:E; [|done]. by eapply Hd.
Qed.

(** What holds of every pair under the prefix holds of the elements of the vector. *)
Lemma kvs_forall (P : list Z → db_item → Prop) r p n :
  trie_wf r → trie_walk r p = Some n →
  (∀ k it, with_prefix p (node_map r) !! k = Some it → P k it) →
  Forall (λ kv, P (kv_key kv) (kv_data kv)) (kvs p (trie_entries n)).
Proof.
  intros Hwf Hn HP. apply Forall_forall. intros kv Hkv. apply HP.
  apply elem_of_map_to_list. rewrite <-(kvs_with_prefix r p n) by done.
  change (kv_key kv, kv_data kv) with (kv_pair kv). by apply list_elem_of_fmap_2.
Qed.

(** The reply made of the vector. *)
Lemma prefix_reply junk h v (l : list (kv_obj db_item)) :
  vec_repr v l → is_byte h → bits_opcode h = opcode_val GET → bits_prefix h = 1 →
  (1 <= length l)%nat → Z.of_nat (length l) < 2 ^ 13 →
  Forall (λ kv, lasting (kv_data kv) ∧ strlen (kv_key kv) < 2 ^ 16) l →
  let ts := (λ kv, tuple_of (kv_pair kv)) <$> l in
  (response ← get_response h (inl v); pack_response junk response (bits_opcode h)) =
    if decide (Z.of_nat (length (prefix_body ts)) < 128)
    then Ok (packet h (prefix_body ts)) else Err OutOfBounds.
Proof.
  intros Hv Hh Hop Hpre Hpos Hlt Hl ts. unfold get_response.
  rewrite u8_small, Hpre by done. change (1 =? 1) with true. cbv iota.
  unfold response_tuples, vector_size. rewrite (vr_size _ _ Hv).
  rewrite u16_small, (u64_small (_ * _)) by (unfold SIZEOF_TUPLE; lia).
  destruct (Z.gtb_spec (Z.of_nat (length l) * SIZEOF_TUPLE) 0) as [_|]; [|unfold SIZEOF_TUPLE in *; lia].
  cbn [cassert]. rewrite res_bind_Ok_l, Nat2Z.id.
  change 0 with (Z.of_nat 0) at 1. rewrite (fill_tuples_spec v l (length l) 0); [|done|lia|].
  2:{ eapply Forall_impl; [exact Hl|]. intros kv [[[_ (x & Hx & _)] _] Hk]. by rewrite Hx. }
  rewrite drop_0, !res_bind_Ok_l. fold ts. rewrite Hop.
  change (pack_response junk (GetPrefixRes h (Z.of_nat (length l)) ts) (opcode_val GET))
    with (pack_response_tuples junk h (Z.of_nat (length l)) ts).
  assert (Forall tuple_ok ts) as Hts.
  { apply Forall_fmap. eapply Forall_impl; [exact Hl|]. intros kv [? ?]. by apply tuple_of_ok. }
  pose proof (tuples_bytes_length ts Hts) as Hb. assert (length ts = length l) as Htl by apply length_fmap.
  rewrite <-Htl, pack_prefix_spec, packet_block by (done || unfold INT_MAX; lia). done.
Qed.

(** No tuples: the array has no bytes. *)
Lemma response_tuples_empty (v : Vector (kv_obj db_item)) : vsize v = 0 → response_tuples v = Err AssertFailed.
Proof. intros E. unfold response_tuples. by rewrite E. Qed.

(** C19 GET on a prefix, when no path of the trie is longer than 31 characters (the nodes of
    deleted keys count, they stay) and no item under the prefix has a time to live, with less than
    2^13 of them: the reply is the packet with one tuple for each key that
    starts with the prefix, and the server is unchanged; a reply whose body has 128
    bytes or more runs out of its block.  When the path of the prefix is still there and
    all its keys have been deleted, the assertion against an allocation of
    no bytes fails; when no path leads to the prefix the handler
    reads through the null vector before it comes to the test for it. *)
Theorem get_prefix_correct junk buf now1 now s c M m db r p h :
  srv_repr s M → addr_unique M → M !! client_db c = Some m →
  databases s !! client_db c = Some db → root (db_data db) = Some r → depth_le r 31 →
  cstr p → (32 <= length buf)%nat →
  is_byte h → bits_opcode h = opcode_val GET → bits_prefix h = 1 →
  map_Forall (λ _, lasting) (with_prefix p m) → Z.of_nat (size (with_prefix p m)) < 2 ^ 13 →
  match trie_walk r p with
  | None => get_handler junk buf now1 now s c (mkGet h (p ++ [0])) = Err NullDeref
  | Some _ =>
      ∃ ts, ts ≡ₚ tuple_of <$> map_to_list (with_prefix p m) ∧
        get_handler junk buf now1 now s c (mkGet h (p ++ [0])) =
          if decide (ts = []) then Err AssertFailed
          else if decide (Z.of_nat (length (prefix_body ts)) < 128)
          then Ok (s, c, Some (packet h (prefix_body ts)), 0) else Err OutOfBounds
  end.
Proof.
  intros Hs Hu Ha Hdb Hroot Hd Hp Hbuf Hh Hop Hpre Hlast Hsize.
  assert (db_repr db m) as [(r' & Hr' & Hwf & Hr0 & Hm) _].
  { specialize (Hs (client_db c)). rewrite Hdb, Ha in Hs. by inversion Hs. }
  rewrite Hroot in Hr'. injection Hr' as <-. unfold get_handler, the_db. rewrite Hdb, res_bind_Ok_l.
  cbn [get_key get_header]. rewrite cstring_at_nul, res_bind_Ok_l, Hpre by done.
  change (1 =? 0) with false. cbv iota. unfold database_prefix_search.
  destruct (trie_walk r p) as [n|] eqn:Hn.
  2:{ unfold trie_prefix_find, the_root, trie_node_find. rewrite Hroot, res_bind_Ok_l, Hn. done. }
  subst m.
  pose proof (kvs_with_prefix r p n Hwf Hn) as HP. set (l := kvs p (trie_entries n)) in *.
  assert (length l = size (with_prefix p (node_map r))) as Hlen.
  { rewrite <-length_map_to_list, <-HP. by rewrite length_fmap. }
  assert (length (trie_entries n) = length l) as Hlen' by by (unfold l, kvs; rewrite length_fmap).
  destruct (trie_prefix_find_spec buf (db_data db) r p n) as (v & -> & Hv); try done; [lia|].
  fold l in Hv. rewrite res_bind_Ok_l. cbn [deref]. rewrite res_bind_Ok_l.
  assert (Forall (λ kv, load_item s (iaddr (kv_data kv)) = Ok (kv_data kv)) l) as Hload.
  { apply (kvs_forall (λ _ it, load_item s (iaddr it) = Ok it) r p n Hwf Hn).
    intros k it [Hk _]%map_lookup_filter_Some. eapply load_live; [done|done|by eexists]. }
  assert (Forall (λ kv, ttl (kv_data kv) = -1) l) as Httl.
  { apply (kvs_forall (λ _ it, ttl it = -1) r p n Hwf Hn). intros k it Hk. by apply (Hlast k). }
  pose proof (vr_size _ _ Hv) as Hsz. unfold vector_size. rewrite Hsz, Nat2Z.id.
  pose proof (get_prefix_loop_lasting s l Hload (length l) now c p v 0 Hv Httl ltac:(lia)) as Hloop.
  change (Z.of_nat 0) with 0 in Hloop. rewrite Hloop.
  rewrite res_bind_Ok_l, (vr_items _ _ Hv), (reload_same s l), res_bind_Ok_l by done.
  rewrite <-(vr_items _ _ Hv).
  replace (mkVector (items v) (maxsize v) (vsize v)) with v by by destruct v.
  exists ((λ kv, tuple_of (kv_pair kv)) <$> l). split.
  { rewrite <-HP, <-list_fmap_compose. done. }
  assert (Forall (λ kv, lasting (kv_data kv) ∧ strlen (kv_key kv) < 2 ^ 16) l) as Hl.
  { apply (kvs_forall (λ k it, lasting it ∧ strlen k < 2 ^ 16) r p n Hwf Hn).
    intros k it Hk. split; [by apply (Hlast k)|]. apply map_lookup_filter_Some in Hk as [Hk _].
    pose proof (depth_key r k it 31 Hwf Hd Hk). unfold strlen. lia. }
  destruct (decide (l = [])) as [El|El].
  { rewrite El. cbn [fmap list_fmap]. rewrite decide_True by done. unfold get_response.
    rewrite u8_small, Hpre by done. change (1 =? 1) with true. cbv iota.
    rewrite response_tuples_empty by (by rewrite Hsz, El). done. }
  rewrite decide_False by (intros ?%fmap_nil_inv; done).
  assert (0 < length l)%nat by (by destruct l; cbn; [|lia]).
  pose proof (prefix_reply junk h v l Hv Hh Hop Hpre ltac:(lia) ltac:(lia) Hl) as E.
  cbv zeta in E. destruct (get_response h (inl v)) as [resp|f].
  - rewrite res_bind_Ok_l in E. rewrite res_bind_Ok_l. rewrite E. by case_decide.
  - cbn in E |- *. case_decide; [done|]. by injection E as ->.
Qed.

Lemma demo_put_trie :
  ∃ s db r n, demo_put = Ok s ∧ databases s !! 16 = Some db ∧ root (db_data db) = Some r ∧
    depth_le r 31 ∧ trie_walk r (str "k") = Some n.
Proof.
  destruct (trie_insert (trie_new (Some trie_node_destructor)) (str "k") (demo_item (-1)))
    as [[t d]|] eqn:E; [|vm_compute in E; discriminate E].
  destruct (trie_insert_depth (trie_new (Some trie_node_destructor)) t (trie_create_node 0)
    (str "k") (demo_item (-1)) d) as (r & Hr & Hd);
    [done|by split|by apply demo_cstr; left|cbn; lia| |done|].
  { intros [|c k] x; [cbn; lia|]. by rewrite trie_walk_cons. }
  vm_compute in E. injection E as <- <-. injection Hr as <-.
  eexists _, _, _, _. split; [vm_compute; reflexivity|].
  split; [vm_compute; reflexivity|]. split; [reflexivity|]. split; [exact Hd|].
  vm_compute. reflexivity.
Qed.

Lemma get_prefix_correct_witness :
  ∃ s ts, demo_put = Ok s ∧ ts ≡ₚ [mkTuple (-1) 1 (str "k") (str "v")] ∧
    get_handler 0 (replicate 32 0) 100 100 s demo_client (mkGet 40 (str "k" ++ [0])) =
      if decide (ts = []) then Err AssertFailed
      else if decide (Z.of_nat (length (prefix_body ts)) < 128)
      then Ok (s, demo_client, Some (packet 40 (prefix_body ts)), 0) else Err OutOfBounds.
Proof.
  destruct demo_put_trie as (s & db & r & n & Hs & Hdb & Hr & Hd & Hn).
  destruct demo_put_inv as (s' & Hs' & [Hrep Hu _ _ _ _] & _).
  rewrite Hs in Hs'. injection Hs' as <-.
  assert (with_prefix (str "k") {[str "k" := demo_item (-1)]} = {[str "k" := demo_item (-1)]}) as Ew
    by (vm_compute; reflexivity).
  pose proof (get_prefix_correct 0 (replicate 32 0) 100 100 s demo_client (demo_map (-1))
    {[str "k" := demo_item (-1)]} db r (str "k") 40 Hrep Hu (lookup_singleton_eq _ _) Hdb Hr Hd
    (demo_cstr _ (or_introl eq_refl)) ltac:(cbn; lia) ltac:(by split) eq_refl eq_refl) as H.
  rewrite Hn, Ew in H. destruct H as (ts & H1 & H2).
  - apply map_Forall_singleton. split; [|reflexivity]. split; [cbn; lia|]. exists (str "v"). split; [reflexivity|vm_compute; reflexivity].
  - rewrite map_size_singleton. lia.
  - exists s, ts. split_and!; [exact Hs| |exact H2]. rewrite map_to_list_singleton in H1. exact H1.
Defined.
