(* ===== verification/Worker.v ===== *)
(** * The event loops: io_worker, worker and the handlers table of src/server.c

    A connection goes through the I/O loop, which reads a request, the worker
    loop, which runs the handler of its operation code, and the I/O loop again,
    which writes the reply.  Descriptors are registered with EPOLLONESHOT, so
    each connection has at most one event pending: [phase] is the event that the
    two epoll instances will report next for it.  A branch of a loop body is one
    step, and the steps of several connections and of the timer interleave in any
    order; within a step nothing else runs.  The I/O pool has one thread, and so
    one buffer.  Loop has the loops as they are written, over epoll, and Events shows that
    they do these steps.

    A [struct client] is an object in [conns]; an address that is not there has
    been released. *)

From S2P Require Import Prelude Util Config Store Bst Vec Trie Pack Db Protocol Network Hashtable.
From S2P Require Import Server Commands.

(** ** Data *)

Record io_event := mkEvent {
  ev_client : Z;
  ev_reply : option (list Z);        (* [None] until a handler sets it *)
  ev_payload : triedb_request
}.

Inductive phase :=
| Reading                            (* EPOLLIN armed on the connection *)
| Working (ev : io_event)            (* the eventfd of the event is readable *)
| Writing (ev : io_event)            (* EPOLLOUT armed on the connection *)
| Disarmed.                          (* nothing will be reported *)

Record server := mkServer {
  sv_triedb : triedb;
  sv_info : informations;
  sv_conf : config;
  conns : gmap Z client;
  phases : gmap Z phase;
  sv_buffer : list Z
}.

Definition set_triedb (sv : server) (s : triedb) : server :=
  mkServer s (sv_info sv) (sv_conf sv) (conns sv) (phases sv) (sv_buffer sv).
Definition set_info (sv : server) (i : informations) : server :=
  mkServer (sv_triedb sv) i (sv_conf sv) (conns sv) (phases sv) (sv_buffer sv).
Definition set_conns (sv : server) (cs : gmap Z client) : server :=
  mkServer (sv_triedb sv) (sv_info sv) (sv_conf sv) cs (phases sv) (sv_buffer sv).
Definition set_phase (sv : server) (p : Z) (ph : phase) : server :=
  mkServer (sv_triedb sv) (sv_info sv) (sv_conf sv) (conns sv) (<[p := ph]> (phases sv))
    (sv_buffer sv).
Definition set_buffer (sv : server) (b : list Z) : server :=
  mkServer (sv_triedb sv) (sv_info sv) (sv_conf sv) (conns sv) (phases sv) b.

Definition client_at (sv : server) (p : Z) : res client :=
  match conns sv !! p with Some c => Ok c | None => Err UseAfterFree end.

(** What a handler takes from its surroundings: the time, read twice by GET, the
    address of a new object, the contents of new memory and of the buffer of a
    prefix search, the fuel of [hashtable_put]. *)
Record env := mkEnv {
  e_now1 : Z;
  e_now : Z;
  e_ptr : Z;
  e_junk : Z;
  e_buf : list Z;
  e_fuel : nat
}.

(** ** The table of handlers *)

Definition houtcome : Type := server * client * option (list Z) * Z.

(** A handler, by the member of the union that it reads. *)
Inductive handler :=
| HPut (f : env → triedb → client → put → res outcome)
| HGet (f : env → triedb → client → get → res outcome)
| HTtl (f : env → triedb → client → ttl_request → res outcome)
| HNone (f : env → server → client → res houtcome).

Definition on_triedb (sv : server) (o : res outcome) : res houtcome :=
  '(s, c, raw, rc) ← o; mret (set_triedb sv s, c, raw, rc).

(** [client_destructor], which [hashtable_del] calls on the entry of the client. *)
Definition client_destructor (sv : server) (val : option Z) : server :=
  match val with Some p => set_conns sv (delete p (conns sv)) | None => sv end.

Definition quit (sv : server) (c : client) : res houtcome :=
  p ← hashtable_get (clients (sv_triedb sv)) (uuid c);
  '((s, c, raw, rc), info) ← quit_handler (sv_triedb sv) (sv_info sv) c;
  mret (client_destructor (set_info (set_triedb sv s) info) p, c, raw, rc).

Definition handlers : list (option handler) :=
  [None;
   Some (HPut (λ e, put_handler (e_now e) (e_ptr e)));
   Some (HGet (λ e, get_handler (e_junk e) (e_buf e) (e_now1 e) (e_now e)));
   Some (HGet (λ _, del_handler));
   Some (HTtl (λ e, ttl_handler (e_now e)));
   Some (HGet (λ e, inc_handler (e_now e)));
   Some (HGet (λ e, dec_handler (e_now e)));
   Some (HGet (λ e, cnt_handler (e_junk e) (e_ptr e)));
   Some (HGet (λ e, use_handler (e_fuel e) (e_ptr e)));
   Some (HGet (λ e, keys_handler (e_junk e) (e_buf e)));
   Some (HNone (λ _ sv c, on_triedb sv (ping_handler (sv_triedb sv) c)));
   Some (HNone (λ _ sv c, quit sv c));
   Some (HNone (λ e sv c, on_triedb sv (db_handler (e_ptr e) (sv_triedb sv) c)));
   Some (HNone (λ e sv c, on_triedb sv (info_handler (e_ptr e) (sv_conf sv) (sv_info sv)
                                          (sv_triedb sv) c)));
   Some (HNone (λ _ sv c, on_triedb sv (flush_handler (sv_triedb sv) c)))].

Definition request_head (pkt : triedb_request) : header :=
  match pkt with
  | RPut p => put_header p
  | RGet g => get_header g
  | RTtl t => ttl_header t
  | RAck a => ack_header a
  end.

(** Whether the member that the handler reads is the one that was written. *)
Definition reads_member (h : handler) (pkt : triedb_request) : bool :=
  match h, pkt with
  | HPut _, RPut _ | HGet _, RGet _ | HTtl _, RTtl _ | HNone _, _ => true
  | _, _ => false
  end.

Definition call_handler (h : handler) (e : env) (sv : server) (c : client)
    (pkt : triedb_request) : res houtcome :=
  match h, pkt with
  | HPut f, RPut p => on_triedb sv (f e (sv_triedb sv) c p)
  | HGet f, RGet g => on_triedb sv (f e (sv_triedb sv) c g)
  | HTtl f, RTtl t => on_triedb sv (f e (sv_triedb sv) c t)
  | HNone f, _ => f e sv c
  | _, _ => Err BadArgument
  end.

(** ** Steps *)

Definition touch_client (sv : server) (p now : Z) (c : client) : server :=
  set_conns sv (<[p := mkClient (client_fd c) (u64 now) (uuid c) (client_db c)]> (conns sv)).

Definition set_clients (sv : server) (t : HashTable Z) : server :=
  let s := sv_triedb sv in
  set_triedb sv (mkTriedb (databases s) (leaked s) t (expiring_keys s) (dbs s) (keyspace_size s)).

(** The EPOLLIN branch of [io_worker].  [event] is the client of the new event,
    [None] once the event has been released. *)
Definition io_read (junk now : Z) (sv : server) (p : Z) (sock : list arrival)
  : res (server * list arrival) :=
  c ← client_at sv p;
  r ← read_data junk (max_request_size (sv_conf sv)) sock (sv_buffer sv) (sv_info sv);
  let sv := set_buffer (set_info sv (rr_info r)) (rr_buf r) in
  '(sv, event) ←
    (if rr_rc r =? 0 then
       pkt ← deref (rr_pkt r);
       mret (set_phase sv p (Working (mkEvent p None pkt)), Some p)
     else if rr_rc r =? - ERRCLIENTDC then
       val ← hashtable_get (clients (sv_triedb sv)) (uuid c);
       '(t, _) ← hashtable_del (clients (sv_triedb sv)) (uuid c);
       mret (client_destructor (set_clients sv t) val, None)
     else mret (set_phase sv p Disarmed, Some p));
  match event with
  | Some p =>
      c ← client_at sv p;
      mret (touch_client sv p now c, rr_sock r)
  | None => Err UseAfterFree
  end.

(** The EPOLLIN branch of [worker]. *)
Definition worker_event (e : env) (sv : server) (ev : io_event) : res server :=
  c ← client_at sv (ev_client ev);
  h ← aget handlers (bits_opcode (request_head (ev_payload ev)));
  h ← deref h;
  '(sv, c, reply, _) ← call_handler h e sv c (ev_payload ev);
  _ ← client_at sv (ev_client ev);
  let sv := set_conns sv (<[ev_client ev := c]> (conns sv)) in
  mret (set_phase sv (ev_client ev)
          (Writing (mkEvent (ev_client ev) reply (ev_payload ev)))).

Definition add_bytes_sent (i : informations) (n : Z) : informations :=
  mkInformations (nclients i) (nconnections i) (nnodes i) (start_time i)
    (uptime i) (nrequests i) (bytes_recv i) (u64 (bytes_sent i + n)) (nkeys i).

(** The EPOLLOUT branch of [io_worker]: the bytes that go out.  A descriptor that
    was closed cannot be armed again. *)
Definition io_write (sv : server) (ev : io_event) (out : list acceptance)
  : res (server * list acceptance * list Z) :=
  _ ← client_at sv (ev_client ev);
  match ev_reply ev with
  | None => Err Uninit
  | Some raw =>
      let '(out, bs, sent) := send_bytes out raw in
      let sv := set_info sv (add_bytes_sent (sv_info sv) (if sent <? 0 then 0 else sent)) in
      _ ← aget raw 0;
      mret (set_phase sv (ev_client ev) (if sent <? 0 then Disarmed else Reading), out, bs)
  end.

Definition BUFSIZE : nat := 2048.

Definition add_node (i : informations) : informations :=
  mkInformations (nclients i) (nconnections i) (u32 (nnodes i + 1)) (start_time i)
    (uptime i) (nrequests i) (bytes_recv i) (bytes_sent i) (nkeys i).

(** The branch of [io_worker] for a datagram on the bus; the request that it is
    unpacked to is not used. *)
Definition bus_event (junk : Z) (sv : server) (dgram : list Z) : res (server * triedb_request) :=
  let d := take BUFSIZE dgram in
  buf ← stores (sv_buffer sv) 0 d;
  buf ← aset buf (strlen d) 0;
  header ← aget buf 0;
  '(bytes, pos) ← decode_length buf 1;
  '(pkt, _) ← unpack_triedb_request junk buf (1 + pos) header bytes;
  mret (set_info (set_buffer sv buf) (add_node (sv_info sv)), pkt).

(** What the epoll instances report: a request on a connection, the event of the
    worker loop, room for the reply, the timer, a datagram, a new connection at an address
    that is not in use.  A report that does not match the
    phase does not occur, and is a step that does nothing. *)
Inductive label :=
| LRead (p now junk : Z) (sock : list arrival)
| LWork (p : Z) (e : env)
| LWrite (p : Z) (out : list acceptance)
| LTick (now : Z)
| LBus (junk : Z) (dgram : list Z)
| LAccept (fuel : nat) (fd : Z) (u : list Z) (now p : Z).

(** A step and the bytes it puts on a wire. *)
Definition step (sv : server) (l : label) : res (server * option (Z * list Z)) :=
  match l with
  | LRead p now junk sock =>
      match phases sv !! p with
      | Some Reading => '(sv, _) ← io_read junk now sv p sock; mret (sv, None)
      | _ => mret (sv, None)
      end
  | LWork p e =>
      match phases sv !! p with
      | Some (Working ev) => sv ← worker_event e sv ev; mret (sv, None)
      | _ => mret (sv, None)
      end
  | LWrite p out =>
      match phases sv !! p with
      | Some (Writing ev) => '(sv, _, bs) ← io_write sv ev out; mret (sv, Some (p, bs))
      | _ => mret (sv, None)
      end
  | LTick now => s ← expire_keys now (sv_triedb sv); mret (set_triedb sv s, None)
  | LBus junk dgram => '(sv, _) ← bus_event junk sv dgram; mret (sv, None)
  | LAccept fuel fd u now p =>
      match conns sv !! p with
      | Some _ => mret (sv, None)
      | None =>
          '(s, c, info) ← accept_client fuel fd u now p (sv_triedb sv) (sv_info sv);
          let sv := set_conns (set_info (set_triedb sv s) info) (<[p := c]> (conns sv)) in
          mret (set_phase sv p Reading, None)
      end
  end.

Fixpoint run_server (sv : server) (ls : list label) : res (server * list (Z * list Z)) :=
  match ls with
  | [] => Ok (sv, [])
  | l :: ls =>
      '(sv, o) ← step sv l;
      '(sv, os) ← run_server sv ls;
      mret (sv, match o with Some o => o :: os | None => os end)
  end.

(** ** Requests and handlers fit *)

(** Peels the steps of a computation that has ended. *)
Ltac peel H :=
  repeat match type of H with
  | (_ ≫= _) = Ok _ => apply res_bind_Ok in H as (? & _ & H)
  | (match ?x with _ => _ end) = Ok _ => destruct x; try discriminate H
  end.

Lemma unpack_put_member junk raw off h len pkt :
  unpack_triedb_put junk raw off h len = Ok pkt → ∃ p, pkt = RPut p ∧ put_header p = h.
Proof. unfold unpack_triedb_put. intros H. peel H. injection H as <-. by eexists. Qed.

Lemma unpack_get_member junk raw off h len pkt :
  unpack_triedb_get junk raw off h len = Ok pkt → ∃ g, pkt = RGet g ∧ get_header g = h.
Proof. unfold unpack_triedb_get. intros H. peel H. injection H as <-. by eexists. Qed.

Lemma unpack_ack_member junk raw off h len pkt :
  unpack_triedb_ack junk raw off h len = Ok pkt → ∃ a, pkt = RAck a ∧ ack_header a = h.
Proof. unfold unpack_triedb_ack. intros H. peel H. injection H as <-. by eexists. Qed.

Lemma unpack_handlers_null b : 4 <= b <= 12 → aget unpack_handlers b = Ok None.
Proof.
  intros H.
  assert (b = 4 ∨ b = 5 ∨ b = 6 ∨ b = 7 ∨ b = 8 ∨ b = 9 ∨ b = 10 ∨ b = 11 ∨ b = 12) as Hd by lia.
  by repeat destruct Hd as [->|Hd]; subst.
Qed.

(** The member that was written fits the operation code. *)
Definition request_typed (pkt : triedb_request) : Prop :=
  match pkt with
  | RPut p => bits_opcode (put_header p) = 1
  | RGet g => bits_opcode (get_header g) = 2 ∨ bits_opcode (get_header g) = 3
  | RTtl _ => False
  | RAck a => bits_opcode (ack_header a) = 13
  end.

Lemma typed_dispatch pkt :
  request_typed pkt →
  ∃ f, aget handlers (bits_opcode (request_head pkt)) = Ok (Some f) ∧ reads_member f pkt = true.
Proof.
  destruct pkt; cbn; [intros ->|intros [->| ->]|done|intros ->]; by eexists.
Qed.

Lemma unpack_typed junk raw off h len pkt rc :
  unpack_triedb_request junk raw off h len = Ok (pkt, rc) → 1 <= bits_opcode h <= 13 →
  request_typed pkt.
Proof.
  intros Hu Ho. unfold unpack_triedb_request in Hu. apply res_bind_Ok in Hu as (o & Ha & Hu).
  apply res_bind_Ok in Hu as (u & Hd & Hu). apply res_bind_Ok in Hu as (pkt' & Hu & E).
  injection E as -> _. remember (bits_opcode h) as b eqn:Eb.
  assert (b = 1 ∨ b = 2 ∨ b = 3 ∨ b = 13 ∨ 4 <= b <= 12) as Hc by lia.
  destruct Hc as [->|[->|[->|[->|Hc]]]].
  - injection Ha as <-. injection Hd as <-. by apply unpack_put_member in Hu as (p & -> & <-).
  - injection Ha as <-. injection Hd as <-. apply unpack_get_member in Hu as (p & -> & <-). by left.
  - injection Ha as <-. injection Hd as <-. apply unpack_get_member in Hu as (p & -> & <-). by right.
  - injection Ha as <-. injection Hd as <-. by apply unpack_ack_member in Hu as (p & -> & <-).
  - rewrite unpack_handlers_null in Ha by done. by injection Ha as <-.
Qed.

(** The operation code of a packet that was received. *)
Lemma recv_packet_opcode max sock buf hdr0 r :
  recv_packet max sock buf hdr0 = Ok r →
  rv_bytes r = - ERRCLIENTDC ∨ rv_bytes r = - ERRPACKETERR ∨ 1 <= bits_opcode (rv_header r) <= 13.
Proof.
  unfold recv_packet. intros H. apply res_bind_Ok in H as ([[sock1 buf1] n] & _ & H).
  destruct (n <=? 0); [injection H as <-; by left|].
  apply res_bind_Ok in H as (hd & _ & H). destruct (_ || _) eqn:E; [injection H as <-; by right; left|].
  do 2 right. zbool. change (opcode_val INFO) with 13 in *. change (opcode_val PUT) with 1 in *.
  assert (1 <= bits_opcode hd <= 13) as Hb.
  { unfold bits_opcode. change 15 with (Z.ones 4). rewrite Z.land_ones, Z.mod_small by lia. lia. }
  apply res_bind_Ok in H as ([tlen pos] & _ & H).
  destruct (tlen >? max); [by injection H as <-|]. destruct (tlen <=? 4); [by injection H as <-|].
  apply res_bind_Ok in H as ([[sock2 buf2] n2] & _ & H).
  destruct (s32 n2 <? 0); by injection H as <-.
Qed.

Lemma read_data_typed junk max sock buf info r pkt :
  read_data junk max sock buf info = Ok r → rr_pkt r = Some pkt → request_typed pkt.
Proof.
  unfold read_data. intros H Hp. apply res_bind_Ok in H as (v & Hv & H).
  apply recv_packet_opcode in Hv. destruct (_ || _) eqn:E1; [injection H as <-; discriminate Hp|].
  destruct (rv_bytes v =? - ERRPACKETERR) eqn:E2; [injection H as <-; discriminate Hp|]. zbool.
  destruct Hv as [?|[?|Hv]]; [done|done|]. apply res_bind_Ok in H as ([pkt' rc] & Hu & H).
  injection H as <-. cbn in Hp. injection Hp as ->. by eapply unpack_typed.
Qed.

(** ** The invariant of the connections *)

Definition phase_ok (sv : server) (p : Z) (ph : phase) : Prop :=
  is_Some (conns sv !! p) ∧
  match ph with
  | Working ev | Writing ev => ev_client ev = p ∧ request_typed (ev_payload ev)
  | Reading | Disarmed => True
  end.

Definition server_inv (sv : server) : Prop := map_Forall (phase_ok sv) (phases sv).

Lemma server_inv_change sv sv' p ph :
  server_inv sv → phases sv' = <[p := ph]> (phases sv) → phase_ok sv' p ph →
  (∀ q, is_Some (conns sv !! q) → is_Some (conns sv' !! q)) → server_inv sv'.
Proof.
  unfold server_inv. intros Hi -> Hp Hc. apply map_Forall_insert_2; [done|].
  eapply map_Forall_impl; [exact Hi|]. intros q ph' [Hq Hph]. split; [by apply Hc|done].
Qed.

Lemma insert_keeps {A} (cs : gmap Z A) p c q : is_Some (cs !! q) → is_Some (<[p := c]> cs !! q).
Proof. intros. apply lookup_insert_is_Some'. by right. Qed.

Definition info_entry : env → server → client → res houtcome :=
  λ e sv c, on_triedb sv (info_handler (e_ptr e) (sv_conf sv) (sv_info sv) (sv_triedb sv) c).

Lemma handlers_info : aget handlers 13 = Ok (Some (HNone info_entry)).
Proof. reflexivity. Qed.

(** The handlers of requests that can be read keep the connections. *)
Lemma typed_call pkt f e sv c sv' c' raw rc :
  request_typed pkt → aget handlers (bits_opcode (request_head pkt)) = Ok (Some f) →
  call_handler f e sv c pkt = Ok (sv', c', raw, rc) → conns sv' = conns sv ∧ phases sv' = phases sv.
Proof.
  intros Ht Hf H. assert (∃ o, on_triedb sv o = Ok (sv', c', raw, rc)) as [o Ho].
  { destruct pkt as [p|g|t|a]; cbn [request_typed request_head] in Ht, Hf.
    - rewrite Ht in Hf. injection Hf as <-. by eexists.
    - destruct Ht as [Ht|Ht]; rewrite Ht in Hf; injection Hf as <-; by eexists.
    - done.
    - rewrite Ht, handlers_info in Hf. injection Hf as <-. by eexists. }
  unfold on_triedb in Ho. apply res_bind_Ok in Ho as ([[[s c1] raw1] rc1] & _ & E).
  by injection E as <- _ _ _.
Qed.

(** The outcomes of the branch that end well: a request, or a refused packet. *)
Lemma io_read_cases junk now sv p sock sv' sock' :
  io_read junk now sv p sock = Ok (sv', sock') →
  ∃ c ph, conns sv' = <[p := c]> (conns sv) ∧ phases sv' = <[p := ph]> (phases sv) ∧
    (ph = Disarmed ∨ ∃ pkt, ph = Working (mkEvent p None pkt) ∧ request_typed pkt).
Proof.
  unfold io_read. intros H. apply res_bind_Ok in H as (c & _ & H).
  apply res_bind_Ok in H as (r & Hr & H). apply res_bind_Ok in H as ([sv1 ev] & H1 & H).
  destruct (rr_rc r =? 0).
  - apply res_bind_Ok in H1 as (pkt & Hp & H1). injection H1 as <- <-.
    apply res_bind_Ok in H as (c1 & _ & H). injection H as <- _.
    destruct (rr_pkt r) as [pkt'|] eqn:E; [|done]. injection Hp as ->.
    eexists _, _. split_and!; [done|done|]. right. exists pkt. split; [done|].
    by eapply read_data_typed.
  - destruct (rr_rc r =? - ERRCLIENTDC).
    + apply res_bind_Ok in H1 as (? & _ & H1). apply res_bind_Ok in H1 as ([? ?] & _ & H1).
      injection H1 as <- <-. discriminate H.
    + injection H1 as <- <-. apply res_bind_Ok in H as (c1 & _ & H). injection H as <- _.
      eexists _, _. split_and!; [done|done|by left].
Qed.

Lemma io_read_inv junk now sv p sock sv' sock' :
  server_inv sv → io_read junk now sv p sock = Ok (sv', sock') → server_inv sv'.
Proof.
  intros Hi (c & ph & Hc & Hph & Hcase)%io_read_cases.
  eapply server_inv_change; [exact Hi|exact Hph| |].
  - split; [by rewrite Hc, lookup_insert_eq|]. by destruct Hcase as [->|(pkt & -> & ?)].
  - intros q. rewrite Hc. apply insert_keeps.
Qed.

Lemma worker_event_inv e sv ev sv' :
  server_inv sv → request_typed (ev_payload ev) → worker_event e sv ev = Ok sv' → server_inv sv'.
Proof.
  unfold worker_event. intros Hi Ht H. apply res_bind_Ok in H as (c & _ & H).
  apply res_bind_Ok in H as (o & Ho & H). apply res_bind_Ok in H as (f & Hf & H).
  apply res_bind_Ok in H as ([[[sv1 c1] raw] rc] & Hcall & H).
  apply res_bind_Ok in H as (c2 & _ & H). injection H as <-.
  destruct o as [f'|]; [|done]. injection Hf as ->.
  destruct (typed_call _ _ _ _ _ _ _ _ _ Ht Ho Hcall) as [Hc Hp].
  eapply server_inv_change; [exact Hi|cbn; by rewrite Hp| |].
  - split; [cbn; by rewrite lookup_insert_eq|done].
  - intros q Hq. cbn. apply insert_keeps. by rewrite Hc.
Qed.

Lemma io_write_inv sv ev out sv' out' bs :
  server_inv sv → is_Some (conns sv !! ev_client ev) →
  io_write sv ev out = Ok (sv', out', bs) → server_inv sv'.
Proof.
  unfold io_write. intros Hi Hc H. apply res_bind_Ok in H as (c & _ & H).
  destruct (ev_reply ev) as [raw|]; [|done]. destruct (send_bytes out raw) as [[out1 bs1] sent].
  apply res_bind_Ok in H as (b & _ & H). injection H as <- _ _.
  eapply server_inv_change; [exact Hi|done| |done]. split; [done|]. by destruct (sent <? 0).
Qed.

(** A datagram changes the buffer and the statistics. *)
Lemma bus_event_same junk sv d sv' pkt :
  bus_event junk sv d = Ok (sv', pkt) →
  ∃ buf info, sv' = set_info (set_buffer sv buf) info ∧ length buf = length (sv_buffer sv).
Proof.
  unfold bus_event. intros H. apply res_bind_Ok in H as (b1 & H1 & H). apply res_bind_Ok in H as (b2 & H2 & H).
  peel H. injection H as <- _. eexists b2, _. split; [done|].
  apply aset_inv in H2 as [_ ->]. apply stores_length in H1. by rewrite length_insert.
Qed.

Lemma step_server_inv sv l sv' o : server_inv sv → step sv l = Ok (sv', o) → server_inv sv'.
Proof.
  intros Hi H. destruct l as [p now junk sock|p e|p out|now|junk d|fuel fd u now p]; cbn [step] in H.
  - destruct (phases sv !! p) as [[| | |]|] eqn:E; try by injection H as <- _.
    apply res_bind_Ok in H as ([sv1 sock1] & H1 & H). injection H as <- _. by eapply io_read_inv.
  - destruct (phases sv !! p) as [[|ev| |]|] eqn:E; try by injection H as <- _.
    apply res_bind_Ok in H as (sv1 & H1 & H). injection H as <- _.
    destruct (Hi _ _ E) as (_ & _ & Ht). by eapply worker_event_inv.
  - destruct (phases sv !! p) as [[| |ev|]|] eqn:E; try by injection H as <- _.
    apply res_bind_Ok in H as ([[sv1 out1] bs] & H1 & H). injection H as <- _.
    destruct (Hi _ _ E) as (Hc & <- & _). by eapply io_write_inv.
  - apply res_bind_Ok in H as (s & _ & H). by injection H as <- _.
  - apply res_bind_Ok in H as ([sv1 pkt] & H1 & H). injection H as <- _.
    by apply bus_event_same in H1 as (buf & info & -> & _).
  - destruct (conns sv !! p) as [c|] eqn:E; [by injection H as <- _|].
    apply res_bind_Ok in H as ([[s c] info] & _ & H). injection H as <- _.
    unfold server_inv. apply map_Forall_insert_2.
    + split; [cbn; by rewrite lookup_insert_eq|done].
    + intros q ph Hq. destruct (Hi q ph Hq) as [Hq1 Hq2]. split; [|done]. by apply insert_keeps.
Qed.

(** C6 Whatever bytes the clients send, in whatever order the steps of the event
    loops run: when the worker is to handle an event, its client has not been
    released, the operation code has a handler in the table, and that handler reads
    the member of the union that the unpacking wrote. *)
Theorem worker_events_typed sv ls sv' os p ev :
  server_inv sv → run_server sv ls = Ok (sv', os) → phases sv' !! p = Some (Working ev) →
  server_inv sv' ∧ ev_client ev = p ∧ is_Some (conns sv' !! p) ∧
  ∃ f, aget handlers (bits_opcode (request_head (ev_payload ev))) = Ok (Some f) ∧
    reads_member f (ev_payload ev) = true.
Proof.
  intros Hi Hr Hp. assert (server_inv sv') as Hi'.
  { clear Hp. revert sv os Hi Hr. induction ls as [|l ls IH]; intros sv os Hi Hr; cbn in Hr.
    - by injection Hr as <- _.
    - apply res_bind_Ok in Hr as ([sv1 o] & H1 & Hr). apply res_bind_Ok in Hr as ([sv2 os2] & H2 & Hr).
      injection Hr as <- _. eapply IH; [by eapply step_server_inv|exact H2]. }
  destruct (Hi' _ _ Hp) as (Hc & Hev & Ht). split_and!; try done. by apply typed_dispatch.
Qed.

(** *** A server with one connection *)

Definition demo_one (s : triedb) : server :=
  mkServer s demo_infos demo_conf {[1 := mkClient 5 0 (str "u") 16]} {[1 := Reading]}
    (replicate 200 7).

Lemma demo_one_inv s : server_inv (demo_one s).
Proof.
  unfold server_inv. cbn [demo_one phases]. apply map_Forall_singleton.
  split; [|done]. cbn [demo_one conns]. rewrite lookup_singleton_eq. by eexists.
Qed.

Lemma worker_events_typed_witness :
  ∃ s sv' ev f, init_triedb 16 = Ok s ∧
    run_server (demo_one s) [LRead 1 100 0 [Data (packet 48 (str "hello")); Again]] = Ok (sv', []) ∧
    phases sv' !! 1 = Some (Working ev) ∧
    aget handlers (bits_opcode (request_head (ev_payload ev))) = Ok (Some f) ∧
    reads_member f (ev_payload ev) = true.
Proof.
  destruct (init_triedb_spec 16) as (s & Hs & _).
  destruct (run_server (demo_one s) [LRead 1 100 0 [Data (packet 48 (str "hello")); Again]])
    as [[sv' os]|] eqn:E; [|vm_compute in E; discriminate E].
  assert (os = []) as -> by (vm_compute in E; injection E as _ <-; reflexivity).
  assert (phases sv' !! 1 = Some (Working (mkEvent 1 None (RGet (mkGet 48 (str "hello" ++ [0]))))))
    as Hp by (vm_compute in E; injection E as <-; vm_compute; reflexivity).
  destruct (worker_events_typed _ _ _ _ _ _ (demo_one_inv s) E Hp) as (_ & _ & _ & f & H1 & H2).
  exists s, sv', (mkEvent 1 None (RGet (mkGet 48 (str "hello" ++ [0])))), f.
  split_and!; [exact Hs|exact E|exact Hp|exact H1|exact H2].
Defined.

(** ** Connections that end badly *)

(** C37 When a client closes its connection, the I/O loop releases the client and the
    event and then writes to the client through the event. *)
Theorem client_disconnect_faults sv p c m v now junk s :
  phases sv !! p = Some Reading → conns sv !! p = Some c →
  hsearch (clients (sv_triedb sv)) m → proper_key m (uuid c) → m !! uuid c = Some v →
  step sv (LRead p now junk (Data [] :: s)) = Err UseAfterFree.
Proof.
  intros Hp Hc Hh Hk Hv. cbn [step]. rewrite Hp. unfold io_read, client_at.
  rewrite Hc, res_bind_Ok_l. unfold read_data, recv_packet, recv_bytes.
  change (recv_loop (S (Z.to_nat 4)) (Data [] :: s) (sv_buffer sv) 0 0 4) with (Ok (s, sv_buffer sv, 0)).
  rewrite !res_bind_Ok_l. cbn [rv_bytes rv_sock rv_buf rr_rc].
  change (0 <=? 0) with true. cbv iota. rewrite !res_bind_mret_l. cbn [rv_bytes rr_rc].
  change (- ERRCLIENTDC =? - ERRCLIENTDC) with true. cbn [orb]. rewrite res_bind_mret_l.
  cbn [rr_rc rr_info rr_buf]. change (- ERRCLIENTDC =? 0) with false. cbv iota.
  change (- ERRCLIENTDC =? - ERRCLIENTDC) with true. cbv iota.
  destruct (hashtable_del_spec _ m (uuid c) v Hh Hk Hv) as (t & E & _).
  cbn [sv_triedb set_buffer set_info]. by rewrite (hsearch_get _ m), E.
Qed.

Lemma client_disconnect_faults_witness :
  ∃ t, hashtable_put 1 hashtable_new (str "u") (Some 1) = Ok t ∧
    step (demo_one (mkTriedb ∅ ∅ t vector_new hashtable_new 0)) (LRead 1 100 0 [Data []])
      = Err UseAfterFree.
Proof.
  assert (bytes (str "u")) as Hu by (repeat constructor; vm_compute; done).
  destruct (hashtable_new_put (str "u") (Some 1) Hu) as (t & Ht & Hh & _).
  exists t. split; [exact Ht|].
  apply (client_disconnect_faults _ 1 (mkClient 5 0 (str "u") 16) (<[str "u" := Some 1]> ∅) (Some 1));
    [apply lookup_singleton_eq|apply lookup_singleton_eq|exact Hh| |apply lookup_insert_eq].
  split; [exact Hu|]. intros k Hk _. rewrite lookup_insert_is_Some' in Hk.
  destruct Hk as [<-|[x Hx]]; [reflexivity|]. rewrite lookup_empty in Hx. discriminate Hx.
Defined.

(** A request whose operation code is one of TTL, INC, DEC, CNT, USE, KEYS, PING,
    QUIT and DB stops the server: the table of the unpacking has no handler for it,
    and the null pointer is called. *)
Theorem unsupported_request_faults sv p c h body now junk sock s :
  phases sv !! p = Some Reading → conns sv !! p = Some c → is_byte h →
  4 <= bits_opcode h <= 12 → (5 <= length body <= 127)%nat →
  127 <= max_request_size (sv_conf sv) → 129 <= Z.of_nat (length (sv_buffer sv)) →
  arrives sock (packet h body) s →
  step sv (LRead p now junk sock) = Err NullDeref.
Proof.
  intros Hp Hc Hb Ho Hl Hm Hbuf Ha. cbn [step]. rewrite Hp. unfold io_read, client_at.
  rewrite Hc, res_bind_Ok_l. unfold read_data.
  rewrite (recv_packet_whole _ 0 h body sock s (sv_buffer sv)); [|..|done|]; try lia.
  2:{ rewrite bits_opcode_shiftr in Ho by done. change (1 <= Z.shiftr h 4 <= 13). lia. }
  rewrite res_bind_Ok_l. cbn [rv_bytes rv_buf rv_off rv_header].
  rewrite (proj2 (Z.eqb_neq _ _)) by (unfold ERRCLIENTDC; lia).
  rewrite (proj2 (Z.eqb_neq (Z.of_nat (length body)) (- ERRMAXREQSIZE))) by (unfold ERRMAXREQSIZE; lia).
  rewrite (proj2 (Z.eqb_neq _ _)) by (unfold ERRPACKETERR; lia). cbn [orb].
  unfold unpack_triedb_request. by rewrite unpack_handlers_null.
Qed.

Lemma unsupported_request_faults_witness :
  step (demo_one (mkTriedb ∅ ∅ hashtable_new vector_new hashtable_new 0))
    (LRead 1 100 0 [Data (packet 160 (str "hello")); Again]) = Err NullDeref.
Proof.
  apply (unsupported_request_faults _ 1 (mkClient 5 0 (str "u") 16) 160 (str "hello") _ _ _ []);
    [apply lookup_singleton_eq|apply lookup_singleton_eq|by split|by vm_compute|cbn; lia
    |by vm_compute|by vm_compute|].
  eexists [_]. split_and!; cycle 2; [reflexivity| |reflexivity].
  repeat (constructor; [discriminate|]). constructor.
Defined.

(** A connection that nothing will be reported for stays so, and gets no bytes. *)
Lemma step_disarmed sv l sv' o p :
  phases sv !! p = Some Disarmed → step sv l = Ok (sv', o) → server_inv sv →
  phases sv' !! p = Some Disarmed ∧ ∀ bs, o ≠ Some (p, bs).
Proof.
  intros Hp H Hi. destruct l as [q now junk sock|q e|q out|now|junk d|fuel fd u now q]; cbn [step] in H.
  - destruct (phases sv !! q) as [[| | |]|] eqn:E; try by injection H as <- <-.
    apply res_bind_Ok in H as ([sv1 sock1] & H1 & H). injection H as <- <-. split; [|done].
    assert (q ≠ p) as Hq by congruence. apply io_read_cases in H1 as (c & ph & _ & Hph & _).
    by rewrite Hph, lookup_insert_ne.
  - destruct (phases sv !! q) as [[|ev| |]|] eqn:E; try by injection H as <- <-.
    apply res_bind_Ok in H as (sv1 & H1 & H). injection H as <- <-. split; [|done].
    destruct (Hi _ _ E) as (_ & Hev & Ht). assert (q ≠ p) as Hq by congruence. unfold worker_event in H1.
    apply res_bind_Ok in H1 as (c & _ & H1). apply res_bind_Ok in H1 as (o & Ho & H1).
    apply res_bind_Ok in H1 as (f & Hf & H1). apply res_bind_Ok in H1 as ([[[sv2 c1] raw] rc] & Hcall & H1).
    apply res_bind_Ok in H1 as (c2 & _ & H1). injection H1 as <-.
    destruct o as [f'|]; [|done]. injection Hf as ->.
    destruct (typed_call _ _ _ _ _ _ _ _ _ Ht Ho Hcall) as [_ Hph].
    cbn. rewrite Hev, lookup_insert_ne, Hph by done. done.
  - destruct (phases sv !! q) as [[| |ev|]|] eqn:E; try by injection H as <- <-.
    apply res_bind_Ok in H as ([[sv1 out1] bs] & H1 & H). injection H as <- <-.
    destruct (Hi _ _ E) as (_ & Hev & _). assert (q ≠ p) as Hq by congruence.
    split; [|by intros bs' [=]]. unfold io_write in H1. apply res_bind_Ok in H1 as (c & _ & H1).
    destruct (ev_reply ev) as [raw|]; [|done]. destruct (send_bytes out raw) as [[out2 bs2] sent].
    apply res_bind_Ok in H1 as (b & _ & H1). injection H1 as <- _ _. cbn.
    by rewrite Hev, lookup_insert_ne.
  - apply res_bind_Ok in H as (s & _ & H). by injection H as <- <-.
  - apply res_bind_Ok in H as ([sv1 pkt] & H1 & H). injection H as <- <-.
    by apply bus_event_same in H1 as (buf & info & -> & _).
  - destruct (conns sv !! q) as [c|] eqn:E; [by injection H as <- <-|].
    apply res_bind_Ok in H as ([[s c] info] & _ & H). injection H as <- <-. split; [|done].
    cbn. rewrite lookup_insert_ne; [done|]. intros ->. destruct (Hi _ _ Hp) as [[? Hc] _]. congruence.
Qed.

Lemma run_disarmed sv ls sv' os p :
  phases sv !! p = Some Disarmed → server_inv sv → run_server sv ls = Ok (sv', os) →
  phases sv' !! p = Some Disarmed ∧ p ∉ os.*1.
Proof.
  revert sv os. induction ls as [|l ls IH]; intros sv os Hp Hi H; cbn [run_server] in H.
  { injection H as <- <-. split; [done|apply not_elem_of_nil]. }
  apply res_bind_Ok in H as ([sv1 o] & H1 & H). apply res_bind_Ok in H as ([sv2 os2] & H2 & H).
  injection H as <- <-. destruct (step_disarmed _ _ _ _ _ Hp H1 Hi) as [Hp1 Ho].
  destruct (IH sv1 os2 Hp1) as [Hp2 Hos]; [by eapply step_server_inv|done|]. split; [done|].
  destruct o as [[q bs]|]; [|done]. cbn. rewrite not_elem_of_cons. split; [|done].
  intros ->. by apply (Ho bs).
Qed.

(** A packet whose operation code is not a request (0, 14 or 15) is refused without
    a reply, and the connection is dead: its descriptor is not armed again, so no later
    step, whatever arrives, reads from it or writes to it. *)
Theorem refused_packet_stalls sv p c b rest now junk sock s :
  server_inv sv → phases sv !! p = Some Reading → conns sv !! p = Some c →
  (4 <= length (sv_buffer sv))%nat → ¬ request_header b → arrives sock (b :: rest) s →
  ∃ sv', step sv (LRead p now junk sock) = Ok (sv', None) ∧
    ∀ ls sv'' os, run_server sv' ls = Ok (sv'', os) →
      phases sv'' !! p = Some Disarmed ∧ p ∉ os.*1.
Proof.
  intros Hi Hp Hc Hb Hh Ha.
  assert (∃ sv', step sv (LRead p now junk sock) = Ok (sv', None) ∧ phases sv' !! p = Some Disarmed)
    as (sv' & Hst & Hd).
  { cbn [step]. rewrite Hp. unfold io_read, client_at. rewrite Hc, res_bind_Ok_l.
    unfold read_data, recv_packet.
    destruct (recv_bytes_first sock (b :: rest) s (sv_buffer sv) Ha Hb) as (sock' & -> & _).
    rewrite res_bind_Ok_l. destruct (Z.leb_spec (Z.of_nat (Nat.min 4 (length (b :: rest)))) 0);
      [cbn [length] in *; lia|].
    change (aget (take 4 (b :: rest) ++ _) 0) with (Ok b). rewrite res_bind_Ok_l.
    assert (((opcode_val INFO <? Z.shiftr b 4) || (opcode_val PUT >? Z.shiftr b 4)) = true) as ->.
    { unfold request_header in Hh. apply not_false_iff_true. intros E. zbool. lia. }
    rewrite res_bind_mret_l. cbn [rv_bytes].
    change ((- ERRPACKETERR =? - ERRCLIENTDC) || (- ERRPACKETERR =? - ERRMAXREQSIZE)) with false.
    change (- ERRPACKETERR =? - ERRPACKETERR) with true. cbv iota. rewrite res_bind_mret_l.
    cbn [rr_rc rr_info rr_buf rr_sock]. change (- ERRPACKETERR =? 0) with false.
    change (- ERRPACKETERR =? - ERRCLIENTDC) with false. cbv iota. rewrite res_bind_mret_l.
    unfold client_at. cbn [conns set_phase set_buffer set_info]. rewrite Hc, !res_bind_Ok_l.
    eexists. split; [done|]. cbn. apply lookup_insert_eq. }
  exists sv'. split; [done|]. intros ls sv'' os Hr. eapply run_disarmed; [done| |done].
  by eapply step_server_inv.
Qed.

Lemma refused_packet_stalls_witness :
  ∃ sv', step (demo_one (mkTriedb ∅ ∅ hashtable_new vector_new hashtable_new 0))
      (LRead 1 100 0 [Data [0]; Again]) = Ok (sv', None) ∧
    ∀ ls sv'' os, run_server sv' ls = Ok (sv'', os) →
      phases sv'' !! 1 = Some Disarmed ∧ 1 ∉ os.*1.
Proof.
  apply (refused_packet_stalls _ 1 (mkClient 5 0 (str "u") 16) 0 [] _ _ _ []);
    [apply demo_one_inv|apply lookup_singleton_eq|apply lookup_singleton_eq|cbn; lia| |].
  - intros [H _]. vm_compute in H. by apply H.
  - eexists [_]. split_and!; cycle 2; [reflexivity| |reflexivity].
    repeat (constructor; [discriminate|]). constructor.
Defined.

(** The datagram of a node that joins, [pack_ack] of a code of INFO, FLUSH or JOIN: it
    counts one node more; its return code is lost, because the unpacking drops the first
    of the two bytes it reads and the second is the terminator the loop has added. *)
Theorem bus_join junk sv h rc b0 b1 b2 b3 rest :
  sv_buffer sv = b0 :: b1 :: b2 :: b3 :: rest → is_byte rc → 13 <= bits_opcode h <= 15 →
  bus_event junk sv [h; 1; rc] =
    Ok (set_info (set_buffer sv (h :: 1 :: rc :: 0 :: rest)) (add_node (sv_info sv)),
        RAck (mkAck h 0)).
Proof.
  intros Hbuf Hrc Ho. unfold bus_event. rewrite Hbuf.
  change (take BUFSIZE [h; 1; rc]) with [h; 1; rc].
  rewrite stores_fits, res_bind_Ok_l by (cbn; lia).
  change (splice (b0 :: b1 :: b2 :: b3 :: rest) (Z.to_nat 0) [h; 1; rc]) with (h :: 1 :: rc :: b3 :: rest).
  change (strlen [h; 1; rc]) with 3. rewrite aset_lt, res_bind_Ok_l by (cbn [length]; lia).
  change (<[Z.to_nat 3 := 0]> (h :: 1 :: rc :: b3 :: rest)) with (h :: 1 :: rc :: 0 :: rest).
  change (aget (h :: 1 :: rc :: 0 :: rest) 0) with (Ok h). rewrite res_bind_Ok_l.
  change (decode_length (h :: 1 :: rc :: 0 :: rest) 1) with (Ok (1, 1)). rewrite res_bind_Ok_l.
  unfold unpack_triedb_request.
  assert (∃ f, aget unpack_handlers (bits_opcode h) = Ok (Some f) ∧
    ∀ raw off len, f junk raw off h len = unpack_triedb_ack junk raw off h len) as (f & -> & Hf).
  { assert (bits_opcode h = 13 ∨ bits_opcode h = 14 ∨ bits_opcode h = 15) as [->|[->| ->]] by lia;
      by eexists. }
  rewrite res_bind_Ok_l. cbn [deref]. rewrite res_bind_Ok_l, Hf. reflexivity.
Qed.
