(* ===== verification/Loop.v ===== *)
(** * The event loops over epoll: accept_loop, io_worker and worker of src/server.c

    What Worker takes for granted, the phase of a connection, is here what the code
    makes it from: the entries of the two epoll instances, the eventfd of a request, the
    [struct io_event] that is passed between the loops by address, and the tests that a
    loop makes on an event that [epoll_wait] returns.  An event is one step, as in Worker
    (Batch takes events first and dispatches them later), but for the branch of [worker],
    which is cut where it hands the event over.

    The state has the [server] of Worker, whose phases stay empty, the live [io_event]s,
    and the descriptors.  An [io_event] that no entry refers to any more and that was not
    released (a refused packet) is left out. *)

From S2P Require Import Prelude Util Config Store Bst Vec Trie Pack Db Protocol Network Hashtable.
From S2P Require Import Os Sockets Server Commands Worker.

(** ** Data *)

Record epoll := mkEpoll {
  io_epollfd : Z;
  w_epollfd : Z;
  serverfd : Z;
  expirefd : Z;
  busfd : Z
}.

(** [struct io_event]: [ie_event] are its members for the client, the reply and the
    payload. *)
Record event_obj := mkEventObj {
  ie_epollfd : Z;
  ie_io_event : Z;
  ie_event : io_event
}.

Record loops := mkLoops {
  lp_server : server;
  lp_events : gmap Z event_obj;
  lp_os : os
}.

(** What a pass through the body of a loop takes from its surroundings: the time, new
    memory, what the socket has, the address of a new [io_event], the number of a new
    eventfd, what a handler takes, a datagram. *)
Record loop_env := mkLoopEnv {
  le_now : Z;
  le_junk : Z;
  le_sock : list arrival;
  le_out : list acceptance;
  le_event : Z;
  le_eventfd : Z;
  le_handler : env;
  le_dgram : list Z
}.

Inductive verdict := Continue | Exit.

Definition set_server (lp : loops) (sv : server) : loops := mkLoops sv (lp_events lp) (lp_os lp).
Definition set_events (lp : loops) (es : gmap Z event_obj) : loops :=
  mkLoops (lp_server lp) es (lp_os lp).
Definition set_os (lp : loops) (o : os) : loops := mkLoops (lp_server lp) (lp_events lp) o.

Definition event_at (lp : loops) (a : Z) : res event_obj :=
  match lp_events lp !! a with Some eo => Ok eo | None => Err UseAfterFree end.

(** The test of the macro [EPOLL_ERR]. *)
Definition EPOLL_ERR (e : epoll_event) : bool :=
  negb (Z.land (ev_events e) EPOLLERR =? 0) || negb (Z.land (ev_events e) EPOLLHUP =? 0) ||
  ((Z.land (ev_events e) EPOLLIN =? 0) && (Z.land (ev_events e) EPOLLOUT =? 0)).

(** ** io_worker *)

(** The EPOLLIN branch, for the client at [p]. *)
Definition io_in (ep : epoll) (le : loop_env) (lp : loops) (p : Z) : res loops :=
  let sv := lp_server lp in
  let o := lp_os lp in
  c ← client_at sv p;
  r ← read_data (le_junk le) (max_request_size (sv_conf sv)) (le_sock le) (sv_buffer sv) (sv_info sv);
  let sv := set_buffer (set_info sv (rr_info r)) (rr_buf r) in
  let o := if rr_closed r then (os_close o (client_fd c)).1 else o in
  if rr_rc r =? 0 then
    pkt ← deref (rr_pkt r);
    let ev := le_eventfd le in
    let o := eventfd o ev 0 in
    let event := mkEventObj (io_epollfd ep) ev (mkEvent p None pkt) in
    let '(o, _) := epoll_add (le_junk le) o (w_epollfd ep) ev (Z.lor EPOLLIN EPOLLONESHOT)
                     (Some (le_event le)) in
    let o := eventfd_write o ev 1 in
    c ← client_at sv p;
    mret (mkLoops (touch_client sv p (le_now le) c) (<[le_event le := event]> (lp_events lp)) o)
  else if rr_rc r =? - ERRCLIENTDC then
    let o := (os_close o (client_fd c)).1 in
    val ← hashtable_get (clients (sv_triedb sv)) (uuid c);
    '(t, _) ← hashtable_del (clients (sv_triedb sv)) (uuid c);
    let lp := mkLoops (client_destructor (set_clients sv t) val) (lp_events lp) o in
    (* the new event has been released *)
    _ ← event_at (set_events lp (delete (le_event le) (lp_events lp))) (le_event le);
    mret lp
  else
    c ← client_at sv p;
    mret (mkLoops (touch_client sv p (le_now le) c) (lp_events lp) o).

(** The EPOLLOUT branch, for the [io_event] at [a]. *)
Definition io_out (ep : epoll) (le : loop_env) (lp : loops) (a : Z)
  : res (loops * (Z * list Z)) :=
  event ← event_at lp a;
  let sv := lp_server lp in
  let p := ev_client (ie_event event) in
  c ← client_at sv p;
  match ev_reply (ie_event event) with
  | None => Err Uninit
  | Some raw =>
      let '(_, bs, sent) := send_bytes (le_out le) raw in
      let o := lp_os lp in
      let o := if sent <? 0 then (os_close o (client_fd c)).1 else o in
      let sv := set_info sv (add_bytes_sent (sv_info sv) (if sent <? 0 then 0 else sent)) in
      let '(o, _) := epoll_mod (le_junk le) o (io_epollfd ep) (client_fd c) EPOLLIN (Some p) in
      _ ← aget raw 0;
      mret (mkLoops sv (delete a (lp_events lp)) o, (p, bs))
  end.

(** The tests of the loop on an event. *)
Definition io_dispatch (ep : epoll) (le : loop_env) (lp : loops) (e : epoll_event)
  : res (loops * option (Z * list Z) * verdict) :=
  let fd := data_fd (ev_data e) in
  let runfd := Config.run (sv_conf (lp_server lp)) in
  if EPOLL_ERR e then mret (set_os lp (os_close (lp_os lp) fd).1, None, Continue)
  else if fd =? runfd then mret (set_os lp (eventfd_read (lp_os lp) runfd).1, None, Exit)
  else if (0 <? busfd ep) && (fd =? busfd ep) then
    '(sv, _) ← bus_event (le_junk le) (lp_server lp) (le_dgram le);
    mret (set_server lp sv, None, Continue)
  else if negb (Z.land (ev_events e) EPOLLIN =? 0) then
    lp ← io_in ep le lp (ev_data e);
    mret (lp, None, Continue)
  else if negb (Z.land (ev_events e) EPOLLOUT =? 0) then
    '(lp, out) ← io_out ep le lp (ev_data e);
    mret (lp, Some out, Continue)
  else mret (lp, None, Continue).

(** ** worker *)

(** The EPOLLIN branch up to the call of [epoll_mod], for the [io_event] at [a]. *)
Definition worker_call (le : loop_env) (lp : loops) (a : Z) : res loops :=
  event ← event_at lp a;
  let o := (eventfd_read (lp_os lp) (ie_io_event event)).1 in
  let ev := ie_event event in
  c ← client_at (lp_server lp) (ev_client ev);
  h ← aget handlers (bits_opcode (request_head (ev_payload ev)));
  h ← deref h;
  '(sv, c, reply, _) ← call_handler h (le_handler le) (lp_server lp) c (ev_payload ev);
  _ ← client_at sv (ev_client ev);
  let sv := set_conns sv (<[ev_client ev := c]> (conns sv)) in
  let ev := mkEvent (ev_client ev) reply (ev_payload ev) in
  let '(o, _) := epoll_mod (le_junk le) o (ie_epollfd event) (client_fd c) EPOLLOUT (Some a) in
  mret (mkLoops sv (<[a := mkEventObj (ie_epollfd event) (ie_io_event event) ev]> (lp_events lp)) o).

(** The rest of the branch, which reads the [io_event] again. *)
Definition worker_after (lp : loops) (a : Z) : res loops :=
  event ← event_at lp a;
  mret (set_os lp (os_close (lp_os lp) (ie_io_event event)).1).

Definition worker_in (le : loop_env) (lp : loops) (a : Z) : res loops :=
  lp ← worker_call le lp a;
  worker_after lp a.

Definition worker_dispatch (ep : epoll) (le : loop_env) (lp : loops) (e : epoll_event)
  : res (loops * option (Z * list Z) * verdict) :=
  let fd := data_fd (ev_data e) in
  let runfd := Config.run (sv_conf (lp_server lp)) in
  if EPOLL_ERR e then mret (set_os lp (os_close (lp_os lp) fd).1, None, Continue)
  else if fd =? runfd then mret (set_os lp (eventfd_read (lp_os lp) runfd).1, None, Exit)
  else if fd =? expirefd ep then
    s ← expire_keys (le_now le) (sv_triedb (lp_server lp));
    mret (set_server lp (set_triedb (lp_server lp) s), None, Continue)
  else if negb (Z.land (ev_events e) EPOLLIN =? 0) then
    lp ← worker_in le lp (ev_data e);
    mret (lp, None, Continue)
  else mret (lp, None, Continue).

(** ** Both loops *)

(** An event that one of the two instances may report: the descriptor and what is ready
    on it. *)
Inductive report :=
| IoReport (fd ready : Z) (le : loop_env)
| WorkReport (fd ready : Z) (le : loop_env).

Definition loop_step (ep : epoll) (lp : loops) (r : report)
  : res (loops * option (Z * list Z) * verdict) :=
  match r with
  | IoReport fd ready le =>
      match epoll_report (lp_os lp) (io_epollfd ep) fd ready with
      | Some (o, e) => io_dispatch ep le (set_os lp o) e
      | None => mret (lp, None, Continue)
      end
  | WorkReport fd ready le =>
      match epoll_report (lp_os lp) (w_epollfd ep) fd ready with
      | Some (o, e) => worker_dispatch ep le (set_os lp o) e
      | None => mret (lp, None, Continue)
      end
  end.

(** The reports until a loop is left. *)
Fixpoint run_loops (ep : epoll) (lp : loops) (rs : list report)
  : res (loops * list (Z * list Z)) :=
  match rs with
  | [] => Ok (lp, [])
  | r :: rs =>
      '(lp, out, v) ← loop_step ep lp r;
      match v with
      | Exit => mret (lp, option_list out)
      | Continue =>
          '(lp, outs) ← run_loops ep lp rs;
          mret (lp, option_list out ++ outs)
      end
  end.

(** ** accept_loop *)

(** A connection that [accept] returns, with what the new client gets. *)
Record arriving := mkArriving {
  ar_fd : Z;
  ar_answers : answers;
  ar_uuid : list Z;
  ar_now : Z;
  ar_ptr : Z;
  ar_fuel : nat;
  ar_junk : Z
}.

(** The inner loop: it ends when [accept_connection] returns -1, after the connections [ars].
    [epollfd] is the instance of [accept_loop]. *)
Fixpoint accept_all (ep : epoll) (epollfd : Z) (lp : loops) (ars : list arriving) : res loops :=
  match ars with
  | [] => Ok lp
  | ar :: ars =>
      let sv := lp_server lp in
      let '(o, fd) := accept_connection (ar_answers ar) (lp_os lp) (socket_family (sv_conf sv))
                        (Some (ar_fd ar)) in
      if fd <? 0 then mret (set_os lp o)
      else
        '(s, c, info) ← accept_client (ar_fuel ar) fd (ar_uuid ar) (ar_now ar) (ar_ptr ar)
                          (sv_triedb sv) (sv_info sv);
        let sv := set_conns (set_info (set_triedb sv s) info) (<[ar_ptr ar := c]> (conns sv)) in
        let '(o, _) := epoll_add (ar_junk ar) o (io_epollfd ep) fd (Z.lor EPOLLIN EPOLLONESHOT)
                         (Some (ar_ptr ar)) in
        let '(o, _) := epoll_mod (ar_junk ar) o epollfd (serverfd ep) EPOLLIN None in
        accept_all ep epollfd (mkLoops sv (lp_events lp) o) ars
  end.

Definition accept_dispatch (ep : epoll) (epollfd : Z) (lp : loops) (ars : list arriving)
    (e : epoll_event) : res (loops * verdict) :=
  let fd := data_fd (ev_data e) in
  let runfd := Config.run (sv_conf (lp_server lp)) in
  if EPOLL_ERR e then mret (set_os lp (os_close (lp_os lp) fd).1, Continue)
  else if fd =? runfd then mret (set_os lp (eventfd_read (lp_os lp) runfd).1, Exit)
  else if fd =? serverfd ep then lp ← accept_all ep epollfd lp ars; mret (lp, Continue)
  else mret (lp, Continue).

(** The head of [accept_loop], where [acc] is the number of its instance. *)
Definition accept_start (junk runfd sfd acc : Z) (o : os) : os :=
  let o := epoll_create o acc in
  let o := (epoll_add junk o acc sfd (Z.lor EPOLLIN EPOLLONESHOT) None).1 in
  (epoll_add junk o acc runfd EPOLLIN None).1.

(** The set-up by [start_server]: the numbers of the new descriptors are [io], [w] and
    [timer], [sfd] is the listening socket. *)
Definition loops_setup (junk runfd sfd io w timer : Z) (o : os) : os * epoll :=
  let o := epoll_create o io in
  let o := epoll_create o w in
  let '(o, expire) := add_cron_task junk o w timer true in
  let o := (epoll_add junk o io runfd EPOLLIN None).1 in
  let o := (epoll_add junk o w runfd EPOLLIN None).1 in
  (o, mkEpoll io w sfd expire (-1)).

(** The socket of the bus, in cluster mode; what [create_and_bind] and [set_nonblocking]
    return is not checked. *)
Definition start_bus (an : answers) (junk : Z) (addr : list Z) (o : os) (ep : epoll) : os * epoll :=
  let '(o, bus) := create_and_bind an o addr UDP in
  let '(o, _) := set_nonblocking an o bus in
  let ep := mkEpoll (io_epollfd ep) (w_epollfd ep) (serverfd ep) (expirefd ep) bus in
  ((epoll_add junk o (io_epollfd ep) bus EPOLLIN None).1, ep).

(** The set-up of a server that is not part of a cluster, up to the loop of [accept_loop]. *)
Definition start_loops (junk runfd sfd io w timer acc : Z) (o : os) : os * epoll :=
  let '(o, ep) := loops_setup junk runfd sfd io w timer o in
  (accept_start junk runfd sfd acc o, ep).

(** ** Specification: the phases of the connections *)

(** The phases are not part of the server that the loops have. *)
Definition erase (sv : server) : server :=
  mkServer (sv_triedb sv) (sv_info sv) (sv_conf sv) (conns sv) ∅ (sv_buffer sv).

(** The descriptors that are not those of connections or requests. *)
Definition bus_fds (ep : epoll) : list Z := if 0 <? busfd ep then [busfd ep] else [].

Definition reserved (ep : epoll) (sv : server) : list Z :=
  io_epollfd ep :: w_epollfd ep :: expirefd ep :: Config.run (sv_conf sv) :: bus_fds ep.

(** A pointer whose low half is not one of the descriptors that the loops test for. *)
Definition ptr_ok (ep : epoll) (sv : server) (x : Z) : Prop :=
  data_fd x ≠ Config.run (sv_conf sv) ∧ data_fd x ≠ expirefd ep ∧ data_fd x ∉ bus_fds ep.

(** The [io_event] at [a] is the event [ev] of the connection of the client [c]. *)
Definition event_of (ep : epoll) (sv : server) (lp : loops) (a efd : Z) (ev : io_event) : Prop :=
  lp_events lp !! a = Some (mkEventObj (io_epollfd ep) efd ev) ∧ ptr_ok ep sv a.

(** What the instances hold for a connection in a phase. *)
Definition phase_regs (ep : epoll) (sv : server) (lp : loops) (p : Z) (c : client) (ph : phase)
  : Prop :=
  let o := lp_os lp in
  let fd := client_fd c in
  match ph with
  | Reading =>
      registered o (io_epollfd ep) fd = Some (armed EPOLLIN p) ∧ o_counters o !! fd = None ∧
      fd ∉ reserved ep sv
  | Working ev =>
      registered o (io_epollfd ep) fd = Some (disarmed p) ∧ o_counters o !! fd = None ∧
      fd ∉ reserved ep sv ∧
      ∃ a efd, event_of ep sv lp a efd ev ∧ efd ∉ reserved ep sv ∧ o_counters o !! efd = Some 1 ∧
        registered o (w_epollfd ep) efd = Some (armed EPOLLIN a)
  | Writing ev =>
      o_counters o !! fd = None ∧ fd ∉ reserved ep sv ∧
      ∃ a efd, event_of ep sv lp a efd ev ∧
        registered o (io_epollfd ep) fd = Some (armed EPOLLOUT a)
  | Disarmed => True
  end.

(** What the instances hold besides. *)
Definition io_entry (ep : epoll) (sv : server) (fd : Z) (r : epoll_event) : Prop :=
  (fd ∈ Config.run (sv_conf sv) :: bus_fds ep ∧ data_fd (ev_data r) = fd ∧ watched r) ∨
  (∃ d, r = disarmed d) ∨
  (∃ p c, conns sv !! p = Some c ∧ client_fd c = fd ∧
     (phases sv !! p = Some Reading ∨ ∃ ev, phases sv !! p = Some (Writing ev))).

Definition w_entry (ep : epoll) (sv : server) (lp : loops) (fd : Z) (r : epoll_event) : Prop :=
  (fd = Config.run (sv_conf sv) ∧ data_fd (ev_data r) = fd ∧ watched r) ∨
  (fd = expirefd ep ∧ data_fd (ev_data r) = fd ∧ watched r) ∨
  (∃ p ev a, phases sv !! p = Some (Working ev) ∧ event_of ep sv lp a fd ev ∧ r = armed EPOLLIN a).

(** The connection of an [io_event] is in the middle of its request. *)
Definition has_event (sv : server) (ev : io_event) : Prop :=
  phases sv !! ev_client ev = Some (Working ev) ∨ phases sv !! ev_client ev = Some (Writing ev).

Record refines (ep : epoll) (lp : loops) (sv : server) : Prop := {
  rf_server : lp_server lp = erase sv;
  rf_inv : server_inv sv;
  rf_wf : os_wf (lp_os lp);
  rf_bus : Config.run (sv_conf sv) ∉ bus_fds ep;
  rf_run : Config.run (sv_conf sv) ≠ expirefd ep;
  rf_epolls fd : fd = io_epollfd ep ∨ fd = w_epollfd ep → is_Some (o_epolls (lp_os lp) !! fd);
  rf_two : io_epollfd ep ≠ w_epollfd ep;
  rf_open fd : fd ∈ reserved ep sv → is_Some (o_fds (lp_os lp) !! fd);
  rf_ptr p c : conns sv !! p = Some c → ptr_ok ep sv p;
  rf_phase p ph c : phases sv !! p = Some ph → conns sv !! p = Some c → phase_regs ep sv lp p c ph;
  rf_events a eo : lp_events lp !! a = Some eo → has_event sv (ie_event eo);
  rf_unique a a' eo eo' :
    lp_events lp !! a = Some eo → lp_events lp !! a' = Some eo' →
    ev_client (ie_event eo) = ev_client (ie_event eo') → a = a';
  rf_io fd r : registered (lp_os lp) (io_epollfd ep) fd = Some r → io_entry ep sv fd r;
  rf_w fd r : registered (lp_os lp) (w_epollfd ep) fd = Some r → w_entry ep sv lp fd r
}.

Arguments rf_server {_ _ _} _.
Arguments rf_inv {_ _ _} _.
Arguments rf_wf {_ _ _} _.
Arguments rf_bus {_ _ _} _.
Arguments rf_run {_ _ _} _.
Arguments rf_epolls {_ _ _} _.
Arguments rf_two {_ _ _} _.
Arguments rf_open {_ _ _} _.
Arguments rf_ptr {_ _ _} _.
Arguments rf_phase {_ _ _} _.
Arguments rf_events {_ _ _} _.
Arguments rf_unique {_ _ _} _.
Arguments rf_io {_ _ _} _.
Arguments rf_w {_ _ _} _.

(** ** Whose entry it is *)

Lemma armed_inj evs d evs' d' : armed evs d = armed evs' d' → d = d'.
Proof. by intros [= _ ->]. Qed.

Lemma armed_in_out d d' : armed EPOLLIN d ≠ armed EPOLLOUT d'.
Proof. intros H. apply (f_equal ev_events) in H. discriminate H. Qed.

Lemma armed_disarmed evs d d' : (evs = EPOLLIN ∨ evs = EPOLLOUT) → armed evs d ≠ disarmed d'.
Proof. intros [->| ->] H; apply (f_equal ev_events) in H; discriminate H. Qed.

(** The entry of a connection that is not disarmed tells its client. *)
Definition entry_of (lp : loops) (p : Z) (r : epoll_event) : Prop :=
  r = armed EPOLLIN p ∨ r = disarmed p ∨
  ∃ a eo, r = armed EPOLLOUT a ∧ lp_events lp !! a = Some eo ∧ ev_client (ie_event eo) = p.

Lemma entry_of_unique lp p q r : entry_of lp p r → entry_of lp q r → p = q.
Proof.
  intros [->|[->|(a & eo & -> & Ha & Hp)]] [E|[E|(a' & eo' & E & Ha' & Hq)]].
  - by apply armed_inj in E.
  - apply armed_disarmed in E; [done|by left].
  - by apply armed_in_out in E.
  - symmetry in E. apply armed_disarmed in E; [done|by left].
  - by injection E.
  - symmetry in E. apply armed_disarmed in E; [done|by right].
  - symmetry in E. by apply armed_in_out in E.
  - apply armed_disarmed in E; [done|by right].
  - apply armed_inj in E as <-. congruence.
Qed.

Section Entries.
Context (ep : epoll) (lp : loops) (sv : server) (R : refines ep lp sv).

Lemma phase_entry p c ph :
  phases sv !! p = Some ph → conns sv !! p = Some c → ph ≠ Disarmed →
  ∃ r, registered (lp_os lp) (io_epollfd ep) (client_fd c) = Some r ∧ entry_of lp p r ∧
    o_counters (lp_os lp) !! client_fd c = None ∧ client_fd c ∉ reserved ep sv.
Proof.
  intros Hp Hc Hd. pose proof (rf_phase R p ph c Hp Hc) as H.
  destruct (rf_inv R p ph Hp) as [_ Hok].
  destruct ph as [|ev|ev|]; cbn in H; [| | |done].
  - destruct H as (Hr & Hcn & Hrs). eexists. split_and!; [exact Hr|by left|done..].
  - destruct H as (Hr & Hcn & Hrs & _). eexists. split_and!; [exact Hr|by right; left|done..].
  - destruct H as (Hcn & Hrs & a & efd & [Ha _] & Hr). eexists. split_and!; [exact Hr| |done..].
    right. right. eexists _, _. split_and!; [done|exact Ha|]. apply Hok.
Qed.

(** Two connections that are not disarmed have different descriptors. *)
Lemma client_fds_differ p c ph q d ph' :
  phases sv !! p = Some ph → conns sv !! p = Some c → ph ≠ Disarmed →
  phases sv !! q = Some ph' → conns sv !! q = Some d → ph' ≠ Disarmed →
  p ≠ q → client_fd c ≠ client_fd d.
Proof.
  intros Hp Hc Hd Hq Hc' Hd' Hne E.
  destruct (phase_entry p c ph Hp Hc Hd) as (r & Hr & He & _).
  destruct (phase_entry q d ph' Hq Hc' Hd') as (r' & Hr' & He' & _).
  rewrite E, Hr' in Hr. injection Hr as ->. by apply Hne, (entry_of_unique lp _ _ r).
Qed.

(** Events of different connections are different objects. *)
Lemma events_differ p ev q ev' a efd a' efd' :
  ev_client ev = p → ev_client ev' = q → p ≠ q →
  event_of ep sv lp a efd ev → event_of ep sv lp a' efd' ev' → a ≠ a'.
Proof. intros Hp Hq Hne [Ha _] [Ha' _] ->. rewrite Ha in Ha'. injection Ha' as _ ->. congruence. Qed.

(** The eventfd of a request counts one. *)
Lemma eventfd_counter q ev x fd :
  phases sv !! q = Some (Working ev) → event_of ep sv lp x fd ev →
  o_counters (lp_os lp) !! fd = Some 1 ∧ fd ∉ reserved ep sv ∧
  registered (lp_os lp) (w_epollfd ep) fd = Some (armed EPOLLIN x).
Proof.
  intros Hq [Hx _]. destruct (rf_inv R q _ Hq) as ([d Hd] & _).
  destruct (rf_phase R q _ d Hq Hd) as (_ & _ & _ & x' & fd' & [Hx' _] & Hrs & Hcn & Hr).
  assert (x = x') as <- by by eapply (rf_unique R).
  rewrite Hx in Hx'. by injection Hx' as <-.
Qed.

(** The worker loop does not watch the connections. *)
Lemma client_not_in_w p c ph :
  phases sv !! p = Some ph → conns sv !! p = Some c → ph ≠ Disarmed →
  registered (lp_os lp) (w_epollfd ep) (client_fd c) = None.
Proof.
  intros Hp Hc Hd. destruct (phase_entry p c ph Hp Hc Hd) as (r0 & _ & _ & Hcn & Hrs).
  destruct (registered _ (w_epollfd ep) _) as [r|] eqn:Hr; [|done]. exfalso.
  destruct (rf_w R _ _ Hr) as [[E _]|[[E _]|(q & ev & x & Hq & Hx & ->)]].
  - apply Hrs. rewrite E. unfold reserved. set_solver.
  - apply Hrs. rewrite E. unfold reserved. set_solver.
  - destruct (eventfd_counter q ev x _ Hq Hx) as [Hcn' _]. congruence.
Qed.
End Entries.

(** ** A step of one connection *)

(** The descriptor of the client [c] at [p] and at most one eventfd [efd] and one
    [io_event] at [a] change, which are new or belong to that connection. *)
Record frame (ep : epoll) (lp lp' : loops) (sv sv' : server) (p : Z) (c : client) (a efd : Z)
  : Prop := {
  fr_conf : sv_conf sv' = sv_conf sv;
  fr_conns q : q ≠ p → conns sv' !! q = conns sv !! q;
  fr_phases q : q ≠ p → phases sv' !! q = phases sv !! q;
  fr_live ph : phases sv !! p = Some ph → ph ≠ Disarmed;
  fr_is_Some : is_Some (phases sv !! p);
  fr_client : conns sv !! p = Some c;
  fr_events x : x ≠ a → lp_events lp' !! x = lp_events lp !! x;
  fr_event x eo : lp_events lp !! x = Some eo → (x = a ↔ ev_client (ie_event eo) = p);
  fr_efd : efd = client_fd c ∨ o_fds (lp_os lp) !! efd = None ∨
    (o_counters (lp_os lp) !! efd = Some 1 ∧
     registered (lp_os lp) (w_epollfd ep) efd = Some (armed EPOLLIN a) ∧
     ∃ ev, event_of ep sv lp a efd ev);
  fr_io fd r : fd ≠ client_fd c → fd ≠ efd → registered (lp_os lp) (io_epollfd ep) fd = Some r →
    registered (lp_os lp') (io_epollfd ep) fd = Some r;
  fr_io_back fd r : fd ≠ client_fd c → registered (lp_os lp') (io_epollfd ep) fd = Some r →
    registered (lp_os lp) (io_epollfd ep) fd = Some r;
  fr_w fd r : fd ≠ client_fd c → fd ≠ efd → registered (lp_os lp) (w_epollfd ep) fd = Some r →
    registered (lp_os lp') (w_epollfd ep) fd = Some r;
  fr_w_back fd r : fd ≠ efd → registered (lp_os lp') (w_epollfd ep) fd = Some r →
    registered (lp_os lp) (w_epollfd ep) fd = Some r;
  fr_counters fd : fd ≠ client_fd c → fd ≠ efd →
    o_counters (lp_os lp') !! fd = o_counters (lp_os lp) !! fd
}.

Arguments fr_conf {_ _ _ _ _ _ _ _ _} _.
Arguments fr_conns {_ _ _ _ _ _ _ _ _} _.
Arguments fr_phases {_ _ _ _ _ _ _ _ _} _.
Arguments fr_live {_ _ _ _ _ _ _ _ _} _.
Arguments fr_is_Some {_ _ _ _ _ _ _ _ _} _.
Arguments fr_client {_ _ _ _ _ _ _ _ _} _.
Arguments fr_events {_ _ _ _ _ _ _ _ _} _.
Arguments fr_event {_ _ _ _ _ _ _ _ _} _.
Arguments fr_efd {_ _ _ _ _ _ _ _ _} _.
Arguments fr_io {_ _ _ _ _ _ _ _ _} _.
Arguments fr_io_back {_ _ _ _ _ _ _ _ _} _.
Arguments fr_w {_ _ _ _ _ _ _ _ _} _.
Arguments fr_w_back {_ _ _ _ _ _ _ _ _} _.
Arguments fr_counters {_ _ _ _ _ _ _ _ _} _.

Section Frame.
Context (ep : epoll) (lp lp' : loops) (sv sv' : server) (p : Z) (c : client) (a efd : Z).
Context (R : refines ep lp sv) (F : frame ep lp lp' sv sv' p c a efd).

Lemma frame_reserved : reserved ep sv' = reserved ep sv.
Proof. unfold reserved. by rewrite (fr_conf F). Qed.

Lemma frame_ptr_ok x : ptr_ok ep sv' x ↔ ptr_ok ep sv x.
Proof. unfold ptr_ok. by rewrite (fr_conf F). Qed.

(** The descriptors of the other connections. *)
Lemma frame_fd q d ph :
  q ≠ p → phases sv !! q = Some ph → conns sv !! q = Some d → ph ≠ Disarmed →
  client_fd d ≠ client_fd c ∧ client_fd d ≠ efd.
Proof.
  intros Hne Hq Hd Hph. destruct (fr_is_Some F) as [php Hp].
  assert (client_fd d ≠ client_fd c) as Hdc.
  { apply (client_fds_differ _ _ _ R q d ph p c php); try done; [apply (fr_client F)|by apply (fr_live F)]. }
  split; [done|]. destruct (phase_entry _ _ _ R q d ph Hq Hd Hph) as (r & Hr & _ & Hcn & _).
  destruct (fr_efd F) as [->|[Hf|[Hf _]]]; [done| |congruence].
  intros <-. rewrite fresh_registered in Hr; [done|apply R|done].
Qed.

(** The event of another connection. *)
Lemma frame_event q ev x efdx :
  q ≠ p → ev_client ev = q → event_of ep sv lp x efdx ev → event_of ep sv' lp' x efdx ev ∧ x ≠ a.
Proof.
  intros Hne Hev [Hx Hptr].
  assert (x ≠ a) as Hxa.
  { intros E. apply (fr_event F x _ Hx) in E. cbn in E. congruence. }
  split; [|done]. split; [by rewrite (fr_events F)|by apply frame_ptr_ok].
Qed.

Lemma frame_eventfd q ev x fd :
  q ≠ p → ev_client ev = q → event_of ep sv lp x fd ev → o_counters (lp_os lp) !! fd = Some 1 →
  registered (lp_os lp) (w_epollfd ep) fd = Some (armed EPOLLIN x) → fd ≠ client_fd c ∧ fd ≠ efd.
Proof.
  intros Hne Hev Hx Hcn Hr. destruct (fr_is_Some F) as [php Hp].
  destruct (phase_entry _ _ _ R p c php Hp) as (r & _ & _ & Hcn' & _);
    [apply F|by apply (fr_live F)|].
  assert (fd ≠ client_fd c) as Hfc by congruence. split; [done|].
  destruct (frame_event q ev x fd Hne Hev Hx) as [_ Hxa].
  destruct (fr_efd F) as [->|[Hf|(_ & Hf & _)]]; [done| |].
  - intros ->. rewrite fresh_registered in Hr; [done|apply R|done].
  - intros ->. rewrite Hr in Hf. injection Hf as <-. done.
Qed.

(** The other connections are as before. *)
Lemma frame_phase q d ph :
  q ≠ p → phases sv !! q = Some ph → conns sv !! q = Some d →
  phase_regs ep sv' lp' q d ph.
Proof.
  intros Hne Hq Hd. pose proof (rf_phase R q ph d Hq Hd) as H.
  destruct (rf_inv R q ph Hq) as [_ Hok]. unfold phase_regs in *.
  rewrite frame_reserved. destruct ph as [|ev|ev|]; [| | |done].
  all: destruct (frame_fd q d _ Hne Hq Hd) as [H1 H2]; [done|].
  - destruct H as (Hr & Hcn & Hrs).
    split_and!; [by apply (fr_io F)|by rewrite (fr_counters F)|done].
  - destruct H as (Hr & Hcn & Hrs & x & fd & Hev & Hrs' & Hcn' & Hr').
    destruct Hok as [Hok _].
    destruct (frame_event q ev x fd Hne Hok Hev) as [Hev' _].
    destruct (frame_eventfd q ev x fd Hne Hok Hev Hcn' Hr') as [H3 H4].
    split_and!; [by apply (fr_io F)|by rewrite (fr_counters F)|done|].
    exists x, fd. split_and!; [done|done|by rewrite (fr_counters F)|by apply (fr_w F)].
  - destruct H as (Hcn & Hrs & x & fd & Hev & Hr). destruct Hok as [Hok _].
    destruct (frame_event q ev x fd Hne Hok Hev) as [Hev' _].
    split_and!; [by rewrite (fr_counters F)|done|].
    exists x, fd. split; [done|by apply (fr_io F)].
Qed.
(** The entries of the other connections. *)
Lemma frame_io_entry fd r :
  fd ≠ client_fd c → registered (lp_os lp') (io_epollfd ep) fd = Some r → io_entry ep sv' fd r.
Proof.
  intros Hfd Hr. apply (fr_io_back F) in Hr; [|done].
  destruct (rf_io R fd r Hr) as [H|[H|(q & d & Hd & <- & H)]].
  - left. by rewrite (fr_conf F).
  - by right; left.
  - right. right. assert (q ≠ p) as Hq.
    { intros ->. rewrite (fr_client F) in Hd. by injection Hd as ->. }
    exists q, d. by rewrite (fr_conns F), (fr_phases F).
Qed.

Lemma frame_w_entry fd r :
  fd ≠ efd → (∀ ev x, phases sv !! p = Some (Working ev) → event_of ep sv lp x fd ev → fd = efd) →
  registered (lp_os lp') (w_epollfd ep) fd = Some r → w_entry ep sv' lp' fd r.
Proof.
  intros Hfd Hp Hr. apply (fr_w_back F) in Hr; [|done].
  destruct (rf_w R fd r Hr) as [[-> H]|[[-> H]|(q & ev & x & Hq & Hx & ->)]].
  - left. by rewrite (fr_conf F).
  - by right; left.
  - right. right. assert (q ≠ p) as Hqp by (intros ->; by eapply Hfd, Hp).
    destruct (rf_inv R q _ Hq) as (_ & Hev & _).
    exists q, ev, x. rewrite (fr_phases F) by done. by destruct (frame_event q ev x fd Hqp Hev Hx).
Qed.

(** The eventfd of an event of the connection is [efd]. *)
Lemma frame_own_eventfd ev x fd :
  phases sv !! p = Some (Working ev) → event_of ep sv lp x fd ev →
  (∃ ev', event_of ep sv lp a efd ev') → fd = efd.
Proof.
  intros Hp [Hx _] (ev' & Ha & _). destruct (rf_inv R p _ Hp) as (_ & Hev & _).
  apply (fr_event F) in Hx as Hxa. cbn in Hxa. destruct Hxa as [_ Hxa]. rewrite (Hxa Hev) in Hx.
  rewrite Ha in Hx. by injection Hx.
Qed.

Lemma frame_has_event x eo :
  x ≠ a → lp_events lp' !! x = Some eo → has_event sv' (ie_event eo).
Proof.
  intros Hx He. rewrite (fr_events F) in He by done.
  assert (ev_client (ie_event eo) ≠ p) as Hp by (intros E; by apply (fr_event F x eo He) in E).
  pose proof (rf_events R x eo He) as H. unfold has_event in *. by rewrite (fr_phases F).
Qed.

(** What is left to show for the connection itself. *)
Lemma frame_refines c' ph' :
  lp_server lp' = erase sv' → server_inv sv' → os_wf (lp_os lp') →
  (∀ fd, fd = io_epollfd ep ∨ fd = w_epollfd ep → is_Some (o_epolls (lp_os lp') !! fd)) →
  (∀ fd, fd ∈ reserved ep sv → is_Some (o_fds (lp_os lp') !! fd)) →
  phases sv' !! p = Some ph' → conns sv' !! p = Some c' → client_fd c' = client_fd c →
  phase_regs ep sv' lp' p c' ph' →
  (∀ eo, lp_events lp' !! a = Some eo →
     ev_client (ie_event eo) = p ∧ (ph' = Working (ie_event eo) ∨ ph' = Writing (ie_event eo))) →
  (∀ r, registered (lp_os lp') (io_epollfd ep) (client_fd c) = Some r →
     (∃ d, r = disarmed d) ∨ ph' = Reading ∨ ∃ ev, ph' = Writing ev) →
  (∀ r, registered (lp_os lp') (w_epollfd ep) efd = Some r →
     ∃ ev, ph' = Working ev ∧ event_of ep sv' lp' a efd ev ∧ r = armed EPOLLIN a) →
  (∀ ev x fd, phases sv !! p = Some (Working ev) → event_of ep sv lp x fd ev → fd = efd) →
  refines ep lp' sv'.
Proof.
  intros Hs Hi Hwf Hep Hop Hp Hc Hfd Hph He Hio Hw Hown.
  split; [done|done|done|rewrite (fr_conf F); apply R..|done|apply R| | | | | | |].
  - intros fd. rewrite frame_reserved. apply Hop.
  - intros q d Hd. apply frame_ptr_ok. destruct (decide (q = p)) as [->|Hq].
    + apply (rf_ptr R p c), (fr_client F).
    + apply (rf_ptr R q d). by rewrite <-(fr_conns F).
  - intros q ph d Hq Hd. destruct (decide (q = p)) as [->|Hne]; [by simplify_eq|].
    rewrite (fr_conns F) in Hd by done. rewrite (fr_phases F) in Hq by done.
    by apply frame_phase.
  - intros x eo Hx. destruct (decide (x = a)) as [->|Hxa]; [|by eapply frame_has_event].
    destruct (He eo Hx) as [Hev H]. unfold has_event. rewrite Hev, Hp.
    destruct H as [->| ->]; auto.
  - intros x x' eo eo' Hx Hx' E. destruct (decide (x = a)) as [->|Hxa], (decide (x' = a)) as [->|Hxa'];
      [done| | |].
    + exfalso. apply Hxa'. rewrite (fr_events F) in Hx' by done. apply (fr_event F x' eo' Hx').
      rewrite <-E. by apply He.
    + exfalso. apply Hxa. rewrite (fr_events F) in Hx by done. apply (fr_event F x eo Hx).
      rewrite E. by apply He.
    + rewrite (fr_events F) in Hx, Hx' by done. by eapply (rf_unique R).
  - intros fd r Hr. destruct (decide (fd = client_fd c)) as [->|Hne]; [|by apply frame_io_entry].
    right. destruct (Hio r Hr) as [?|H]; [by left|right]. exists p, c'. rewrite Hp.
    split_and!; [done|done|]. destruct H as [->|[ev ->]]; eauto.
  - intros fd r Hr. destruct (decide (fd = efd)) as [->|Hne].
    + right. right. destruct (Hw r Hr) as (ev & -> & Hev & ->). by exists p, ev, a.
    + by apply frame_w_entry; [|intros ev x; apply Hown|].
Qed.
End Frame.

(** ** Reports and outcomes *)

(** The entries after a report: that of the descriptor is disarmed. *)
Definition reported (o o' : os) (efd fd d : Z) : Prop :=
  o_fds o' = o_fds o ∧ o_counters o' = o_counters o ∧ dom (o_epolls o') = dom (o_epolls o) ∧
  ∀ efd' fd', registered o' efd' fd' =
    if decide (efd' = efd ∧ fd' = fd) then Some (disarmed d) else registered o efd' fd'.

Lemma reported_wf o o' efd fd d : os_wf o → is_Some (o_fds o !! fd) → reported o o' efd fd d → os_wf o'.
Proof. intros Hwf Hfd (H1 & H2 & H3 & H4). by eapply os_wf_entry. Qed.

Lemma EPOLL_ERR_in e : ev_events e = EPOLLIN → EPOLL_ERR e = false.
Proof. unfold EPOLL_ERR. by intros ->. Qed.
Lemma EPOLL_ERR_out d : EPOLL_ERR (mkEpollEvent EPOLLOUT d) = false.
Proof. reflexivity. Qed.

Lemma set_os_server ep lp sv o : refines ep lp sv → lp_server (set_os lp o) = erase sv.
Proof. intros R. apply (rf_server R). Qed.

(** The test of the I/O loop for the bus. *)
Lemma bus_test ep fd : (0 <? busfd ep) && (fd =? busfd ep) = bool_decide (fd ∈ bus_fds ep).
Proof.
  unfold bus_fds. destruct (0 <? busfd ep); cbn [andb].
  - destruct (Z.eqb_spec fd (busfd ep)) as [->|Hne].
    + by rewrite bool_decide_true by (by left).
    + rewrite bool_decide_false; [done|]. by intros ?%list_elem_of_singleton.
  - rewrite bool_decide_false; [done|apply not_elem_of_nil].
Qed.

(** The same outcome, up to what the loops keep besides. *)
Definition agree {A B} (P : A → B → Prop) (x : res A) (y : res B) : Prop :=
  match x, y with
  | Ok a, Ok b => P a b
  | Err f, Err f' => f = f'
  | _, _ => False
  end.

Lemma agree_bind {A B C} (P : A → C → Prop) (m : res B) (f : B → res A) (g : B → res C) :
  (∀ b, m = Ok b → agree P (f b) (g b)) → agree P (m ≫= f) (m ≫= g).
Proof. intros H. destruct m as [b|e]; cbn; [by apply H|done]. Qed.

Lemma agree_map {A B A' B'} (P : A → B → Prop) (Q : A' → B' → Prop) (x : res A) (y : res B)
    (f : A → res A') (g : B → res B') :
  agree P x y → (∀ a b, x = Ok a → y = Ok b → P a b → agree Q (f a) (g b)) → agree Q (x ≫= f) (y ≫= g).
Proof. destruct x, y; cbn; intros H1 H2; try done. by apply H2. Qed.
