(* ===== verification/Accept.v ===== *)
(** * The start of the loops and new connections

    The set-up of the epoll instances by start_server, and [accept_loop]: both lead to
    states that correspond to the transition system of Worker. *)

From S2P Require Import Prelude Util Config Store Bst Vec Trie Pack Db Protocol Network Hashtable.
From S2P Require Import Os Sockets Server Commands Worker Loop.

(** ** New connections *)

Lemma accept_refines ep lp lp' sv sv' p c :
  refines ep lp sv → phases sv !! p = None → conns sv !! p = None → ptr_ok ep sv p →
  o_fds (lp_os lp) !! client_fd c = None →
  lp_server lp' = erase sv' → sv_conf sv' = sv_conf sv → conns sv' = <[p := c]> (conns sv) →
  phases sv' = <[p := Reading]> (phases sv) → lp_events lp' = lp_events lp → os_wf (lp_os lp') →
  (∀ fd, is_Some (o_fds (lp_os lp) !! fd) → is_Some (o_fds (lp_os lp') !! fd)) →
  dom (o_epolls (lp_os lp')) = dom (o_epolls (lp_os lp)) →
  o_counters (lp_os lp') = o_counters (lp_os lp) →
  (∀ fd, registered (lp_os lp') (io_epollfd ep) fd =
     if decide (fd = client_fd c) then Some (armed EPOLLIN p)
     else registered (lp_os lp) (io_epollfd ep) fd) →
  (∀ fd, registered (lp_os lp') (w_epollfd ep) fd = registered (lp_os lp) (w_epollfd ep) fd) →
  refines ep lp' sv'.
Proof.
  intros R Hp Hc Hptr Hfd Hs Hcf Hcs Hph He Hwf Hop Hd Hcn Hio Hw.
  assert (reserved ep sv' = reserved ep sv) as Hrs by (unfold reserved; by rewrite Hcf).
  assert (∀ x, ptr_ok ep sv' x ↔ ptr_ok ep sv x) as Hpt by (intros; unfold ptr_ok; by rewrite Hcf).
  assert (∀ x efd ev, event_of ep sv' lp' x efd ev ↔ event_of ep sv lp x efd ev) as Hev.
  { intros. unfold event_of. by rewrite He, Hpt. }
  assert (∀ q ph, phases sv !! q = Some ph → q ≠ p) as Hqp by (intros q ph Hq ->; congruence).
  assert (∀ fd r, registered (lp_os lp) (io_epollfd ep) fd = Some r →
    registered (lp_os lp') (io_epollfd ep) fd = Some r) as Hior.
  { intros fd r Hr. rewrite Hio, decide_False; [done|]. intros ->.
    rewrite fresh_registered in Hr; [done|apply R|done]. }
  split; [done| |done|rewrite Hcf; apply R..| |apply R| | | | | | |].
  - unfold server_inv. rewrite Hph. apply map_Forall_insert_2.
    + split; [by rewrite Hcs, lookup_insert_eq|done].
    + intros q ph Hq. destruct (rf_inv R q ph Hq) as [Hq1 Hq2]. split; [|done].
      rewrite Hcs. by apply insert_keeps.
  - intros fd Hin. apply (dom_epolls_eq (lp_os lp)); [done|]. by apply (rf_epolls R).
  - intros fd. rewrite Hrs. intros Hin. by apply Hop, (rf_open R).
  - intros q d. rewrite Hcs, Hpt. intros [[<- <-]|[_ Hq]]%lookup_insert_Some; [done|]. by eapply (rf_ptr R).
  - intros q ph d. rewrite Hph, Hcs. intros Hq Hd'. destruct (decide (q = p)) as [->|Hne].
    + rewrite lookup_insert_eq in Hq. rewrite lookup_insert_eq in Hd'. injection Hq as <-.
      injection Hd' as <-. unfold phase_regs.
      rewrite Hrs, Hio, decide_True, Hcn by done.
      split_and!; [done|apply fresh_counter; [apply R|done]|].
      intros [? Hin]%(rf_open R). congruence.
    + rewrite lookup_insert_ne in Hq by done. rewrite lookup_insert_ne in Hd' by done. pose proof (rf_phase R q ph d Hq Hd') as H.
      unfold phase_regs in *. rewrite Hrs, Hcn. destruct ph as [|ev|ev|]; [| | |done].
      * destruct H as (H1 & H2 & H3). split_and!; auto.
      * destruct H as (H1 & H2 & H3 & x & efd & Hx & H4). split_and!; auto. exists x, efd.
        by rewrite Hev, Hw.
      * destruct H as (H2 & H3 & x & efd & Hx & H4). split_and!; auto. exists x, efd.
        rewrite Hev. auto.
  - intros x eo. rewrite He. intros Hx. pose proof (rf_events R x eo Hx) as H. unfold has_event in *.
    rewrite Hph, lookup_insert_ne; [done|]. destruct H as [H|H]; apply Hqp in H; done.
  - intros x x' eo eo'. rewrite He. apply (rf_unique R).
  - intros fd r Hr. rewrite Hio in Hr. unfold io_entry. rewrite Hcf. case_decide as E.
    + right. right. exists p, c. rewrite Hcs, Hph, !lookup_insert_eq. by auto.
    + destruct (rf_io R fd r Hr) as [?|[?|(q & d & Hq & <- & Hph')]]; [by left|by right; left|].
      right. right. exists q, d. assert (q ≠ p) by (destruct Hph' as [H|[? H]]; by eapply Hqp).
      by rewrite Hcs, Hph, !lookup_insert_ne.
  - intros fd r. rewrite Hw. intros H%(rf_w R). unfold w_entry in *. rewrite Hcf, Hph.
    destruct H as [?|[?|(q & ev & x & Hq & Hx)]]; [by left|by right; left|]. right. right.
    exists q, ev, x. rewrite Hev, lookup_insert_ne; [done|]. intros ->. congruence.
Qed.

Lemma accept_connection_spec an o family fd :
  ∃ i, accept_connection an o family (Some fd) =
         (mkOs (<[fd := i]> (o_fds o)) (o_epolls o) (o_counters o), fd).
Proof.
  unfold accept_connection, set_nonblocking, set_tcp_nodelay, os_set, os_socket.
  destruct (an_getfl an), (an_setfl an), (family =? INET); cbn;
    eexists; by rewrite ?alter_insert_eq.
Qed.

Lemma os_wf_with o fd i :
  os_wf o → os_wf (mkOs (<[fd := i]> (o_fds o)) (o_epolls o) (o_counters o)).
Proof.
  intros Hwf. apply (os_wf_change o); [done| |by left| |].
  - intros. by apply lookup_insert_is_Some'; right.
  - intros efd fd' r H. left. change (registered o efd fd' = Some r) in H. by rewrite H.
  - intros fd' n H. left. cbn in H. by rewrite H.
Qed.

Definition fresh_arrivals (ep : epoll) (sv : server) (o : os) (ars : list arriving) : Prop :=
  NoDup (ar_ptr <$> ars) ∧ NoDup (ar_fd <$> ars) ∧
  Forall (λ ar, 0 <= ar_fd ar ∧ o_fds o !! ar_fd ar = None ∧ conns sv !! ar_ptr ar = None ∧
                ptr_ok ep sv (ar_ptr ar)) ars.

(** The instance of [accept_loop]. *)
Record acceptor (ep : epoll) (acc : Z) (o : os) : Prop := {
  ac_io : acc ≠ io_epollfd ep;
  ac_w : acc ≠ w_epollfd ep;
  ac_server : is_Some (registered o acc (serverfd ep))
}.

(** The entries after a connection has been accepted. *)
Lemma accept_entries ep acc lp sv ar :
  refines ep lp sv → acceptor ep acc (lp_os lp) → o_fds (lp_os lp) !! ar_fd ar = None →
  ∃ o, (∃ i, o_fds o = <[ar_fd ar := i]> (o_fds (lp_os lp))) ∧ os_wf o ∧
    o_counters o = o_counters (lp_os lp) ∧ dom (o_epolls o) = dom (o_epolls (lp_os lp)) ∧
    (∀ e fd, registered o e fd =
       if decide (e = acc ∧ fd = serverfd ep) then
         Some (armed EPOLLIN (fd_data (ar_junk ar) (serverfd ep)))
       else if decide (e = io_epollfd ep ∧ fd = ar_fd ar) then Some (armed EPOLLIN (ar_ptr ar))
       else registered (lp_os lp) e fd) ∧
    (let '(o1, fd) := accept_connection (ar_answers ar) (lp_os lp)
                        (socket_family (sv_conf (lp_server lp))) (Some (ar_fd ar)) in
     let '(o1, _) := epoll_add (ar_junk ar) o1 (io_epollfd ep) fd (Z.lor EPOLLIN EPOLLONESHOT)
                       (Some (ar_ptr ar)) in
     (epoll_mod (ar_junk ar) o1 acc (serverfd ep) EPOLLIN None).1) = o.
Proof.
  intros R [Hai Haw [r0 Hr0]] Hfd.
  destruct (accept_connection_spec (ar_answers ar) (lp_os lp)
    (socket_family (sv_conf (lp_server lp))) (ar_fd ar)) as [i ->].
  set (o1 := mkOs (<[ar_fd ar := i]> (o_fds (lp_os lp))) (o_epolls (lp_os lp)) (o_counters (lp_os lp))).
  assert (os_wf o1) as Hwf1 by (apply os_wf_with, R).
  assert (is_Some (o_fds o1 !! ar_fd ar)) as Hfd1 by (cbn; rewrite lookup_insert_eq; by eexists).
  unfold epoll_add, ctl_data.
  destruct (epoll_ctl_add o1 (io_epollfd ep) (ar_fd ar)
    (mkEpollEvent (Z.lor (Z.lor EPOLLIN EPOLLONESHOT) EPOLLET) (ar_ptr ar)))
    as (o2 & -> & Hf2 & Hc2 & Hd2 & Hr2).
  { apply (rf_epolls R). by left. }
  { change (registered (lp_os lp) (io_epollfd ep) (ar_fd ar) = None).
    apply fresh_registered; [apply R|done]. }
  { done. }
  assert (os_wf o2) as Hwf2 by (by eapply os_wf_entry).
  assert (is_Some (o_fds o1 !! serverfd ep)) as Hs.
  { apply lookup_insert_is_Some'. right. by eapply (wf_regs _ (rf_wf R)). }
  unfold epoll_mod, ctl_data.
  destruct (epoll_ctl_mod o2 acc (serverfd ep) r0
    (mkEpollEvent (Z.lor (Z.lor EPOLLIN EPOLLET) EPOLLONESHOT) (fd_data (ar_junk ar) (serverfd ep))))
    as (o3 & -> & Hf3 & Hc3 & Hd3 & Hr3).
  { by rewrite Hr2, decide_False by naive_solver. }
  { by rewrite Hf2. }
  exists o3. split_and!.
  - exists i. by rewrite Hf3, Hf2.
  - eapply (os_wf_entry o2); [done..| |exact Hr3]. by rewrite Hf2.
  - by rewrite Hc3, Hc2.
  - by rewrite Hd3, Hd2.
  - intros e fd. rewrite Hr3, Hr2. case_decide; [done|]. by case_decide.
  - done.
Qed.

Lemma accept_client_fd fuel fd u now ptr s info s' c info' :
  accept_client fuel fd u now ptr s info = Ok (s', c, info') → client_fd c = fd.
Proof. unfold accept_client. intros H. peel H. by injection H as _ <- _. Qed.

Lemma fresh_arrivals_tail ep sv sv' lp o ar ars c :
  fresh_arrivals ep sv (lp_os lp) (ar :: ars) → sv_conf sv' = sv_conf sv →
  conns sv' = <[ar_ptr ar := c]> (conns sv) → (∃ i, o_fds o = <[ar_fd ar := i]> (o_fds (lp_os lp))) →
  fresh_arrivals ep sv' o ars.
Proof.
  intros (Hp & Hf & Ha) Hcf Hcs [i Ho]. cbn in Hp, Hf. apply NoDup_cons in Hp as [Hp Hps], Hf as [Hf Hfs].
  apply Forall_cons in Ha as [_ Ha]. split_and!; [done|done|].
  apply Forall_forall. intros ar' Hin. destruct (proj1 (Forall_forall _ _) Ha ar' Hin) as (H1 & H2 & H3 & H4).
  split_and!; [done| | |unfold ptr_ok; by rewrite Hcf].
  - rewrite Ho, lookup_insert_ne; [done|]. intros E. apply Hf. rewrite E. by apply list_elem_of_fmap_2.
  - rewrite Hcs, lookup_insert_ne; [done|]. intros E. apply Hp. rewrite E. by apply list_elem_of_fmap_2.
Qed.

(** The step of the transition system for a connection. *)
Definition accept_label (ar : arriving) : label :=
  LAccept (ar_fuel ar) (ar_fd ar) (ar_uuid ar) (ar_now ar) (ar_ptr ar).

(** What new connections leave: they wait for a request, the others are as they were, and
    the listening socket is armed. *)
Record accepted (ep : epoll) (acc : Z) (lp : loops) (sv : server) (ars : list arriving)
    (lp' : loops) (sv' : server) : Prop := {
  ad_refines : refines ep lp' sv';
  ad_new ar : ar ∈ ars → phases sv' !! ar_ptr ar = Some Reading;
  ad_old p : p ∉ ar_ptr <$> ars → phases sv' !! p = phases sv !! p;
  ad_socket : match ars with
    | [] => lp' = lp
    | _ => ∃ junk, registered (lp_os lp') acc (serverfd ep) = Some (armed EPOLLIN (fd_data junk (serverfd ep)))
    end
}.

Lemma accept_all_refines ep acc lp sv ars :
  refines ep lp sv → acceptor ep acc (lp_os lp) → fresh_arrivals ep sv (lp_os lp) ars →
  agree (λ lp' y, y.2 = [] ∧ accepted ep acc lp sv ars lp' y.1)
    (accept_all ep acc lp ars) (run_server sv (accept_label <$> ars)).
Proof.
  revert lp sv. induction ars as [|ar ars IH]; intros lp sv R A Hfr.
  { split; [done|]. split; [done|intros ar Hin; by apply elem_of_nil in Hin|done|done]. }
  pose proof Hfr as (_ & _ & Hall). apply Forall_cons in Hall as [(H0 & Hfd & Hptr & Hok) _].
  destruct (accept_entries ep acc lp sv ar R A Hfd) as (o & Hfds & Hwf & Hcn & Hd & Hr & Eo).
  cbn [accept_all fmap list_fmap run_server step accept_label]. rewrite Hptr.
  destruct (accept_connection _ _ _ _) as [o1 fd] eqn:E1.
  assert (fd = ar_fd ar) as ->.
  { destruct (accept_connection_spec (ar_answers ar) (lp_os lp)
      (socket_family (sv_conf (lp_server lp))) (ar_fd ar)) as [i Ei]. rewrite Ei in E1. by injection E1. }
  destruct (Z.ltb_spec (ar_fd ar) 0); [lia|]. rewrite (rf_server R).
  change (sv_triedb (erase sv)) with (sv_triedb sv). change (sv_info (erase sv)) with (sv_info sv).
  destruct (accept_client _ _ _ _ _ _ _) as [[[s c] info]|f] eqn:Hac; [|done]. apply accept_client_fd in Hac.
  rewrite !res_bind_Ok_l.
  destruct (epoll_add _ _ _ _ _ _) as [o2 rc2]. destruct (epoll_mod _ _ _ _ _ _) as [o3 rc3].
  cbn in Eo. subst o3.
  set (sv1 := mkServer s info (sv_conf sv) (<[ar_ptr ar := c]> (conns sv))
                (<[ar_ptr ar := Reading]> (phases sv)) (sv_buffer sv)).
  set (lp1 := mkLoops (erase sv1) (lp_events lp) o).
  assert (phases sv !! ar_ptr ar = None) as Hph.
  { destruct (phases sv !! ar_ptr ar) as [ph|] eqn:E; [|done].
    apply (rf_inv R) in E as [[? E] _]. congruence. }
  assert (refines ep lp1 sv1) as R1.
  { eapply (accept_refines ep lp lp1 sv sv1 (ar_ptr ar) c); try done.
    - by rewrite Hac.
    - intros fd Hin. destruct Hfds as [i Hi]. cbn. rewrite Hi. by apply insert_keeps.
    - intros fd. cbn. rewrite Hr, Hac, decide_False by (intros [E _]; by apply (ac_io _ _ _ A)).
      destruct (decide (fd = ar_fd ar)); [by rewrite decide_True|by rewrite decide_False by naive_solver].
    - intros fd. cbn. rewrite Hr, !decide_False; [done| |].
      + intros [E _]. by apply (rf_two R).
      + intros [E _]. by apply (ac_w _ _ _ A). }
  assert (acceptor ep acc (lp_os lp1)) as A1.
  { split; [apply A|apply A|]. cbn. rewrite Hr, decide_True by done. by eexists. }
  assert (fresh_arrivals ep sv1 (lp_os lp1) ars) as Hfr1 by (by eapply (fresh_arrivals_tail ep sv sv1 lp)).
  specialize (IH lp1 sv1 R1 A1 Hfr1). destruct Hfr as (Hnd & _). cbn in Hnd. apply NoDup_cons in Hnd as [Hnin _].
  change (agree (λ lp' y, y.2 = [] ∧ accepted ep acc lp sv (ar :: ars) lp' y.1) (accept_all ep acc lp1 ars)
    ('(sv', os) ← run_server sv1 (accept_label <$> ars); mret (sv', os))).
  destruct (accept_all ep acc lp1 ars) as [lp'|], (run_server sv1 _) as [[sv' os]|]; try done.
  destruct IH as [Hos [R' Hin Hout Hlast]]. cbn in *. split; [done|]. split; [done| | |].
  - intros ar' [->|Har]%elem_of_cons; [|by apply Hin]. rewrite Hout by done. cbn. apply lookup_insert_eq.
  - intros p Hp. cbn in Hp. apply not_elem_of_cons in Hp as [Hne Hp]. rewrite Hout by done. cbn.
    by rewrite lookup_insert_ne.
  - destruct ars; [|done]. subst lp'. eexists. cbn. by rewrite Hr, decide_True.
Qed.

(** ** The start *)

Lemma epoll_create_spec o efd :
  os_wf o → o_fds o !! efd = None →
  let o' := epoll_create o efd in
  os_wf o' ∧ o_fds o' = <[efd := new_fd]> (o_fds o) ∧
  (∀ e, is_Some (o_epolls o' !! e) ↔ e = efd ∨ is_Some (o_epolls o !! e)) ∧
  (∀ e fd, registered o' e fd = registered o e fd).
Proof.
  intros Hwf Hfd o'.
  assert (∀ e fd, registered o' e fd = registered o e fd) as Hr.
  { intros e fd. unfold o', registered. cbn. destruct (decide (e = efd)) as [->|Hne].
    - rewrite lookup_insert_eq. cbn. rewrite lookup_empty.
      destruct (o_epolls o !! efd) as [regs|] eqn:E; [|done].
      apply (wf_epolls _ Hwf) in E as [? E]. congruence.
    - by rewrite lookup_insert_ne. }
  split_and!; [|done| |done].
  - apply (os_wf_change (os_open o efd)); [by apply os_wf_open|done| | |by left].
    + intros e. unfold o'. cbn. destruct (decide (e = efd)) as [->|Hne].
      * intros _. right. rewrite lookup_insert_eq. by eexists.
      * rewrite lookup_insert_ne by done. by left.
    + intros e fd r H. left. rewrite Hr in H. change (is_Some (registered o e fd)). by rewrite H.
  - intros e. unfold o'. cbn. rewrite lookup_insert_is_Some'. naive_solver.
Qed.

(** [epoll_add] of an open descriptor that is not in the list. *)
Lemma epoll_add_spec junk o efd fd evs data :
  os_wf o → is_Some (o_epolls o !! efd) → registered o efd fd = None → is_Some (o_fds o !! fd) →
  let o' := (epoll_add junk o efd fd evs data).1 in
  os_wf o' ∧ o_fds o' = o_fds o ∧ (∀ e, is_Some (o_epolls o' !! e) ↔ is_Some (o_epolls o !! e)) ∧
  ∀ e x, registered o' e x =
    if decide (e = efd ∧ x = fd) then
      Some (mkEpollEvent (Z.lor (Z.lor evs EPOLLET) ALWAYS) (ctl_data junk fd data))
    else registered o e x.
Proof.
  intros Hwf He Hr Hfd o'. unfold o', epoll_add.
  destruct (epoll_ctl_add o efd fd (mkEpollEvent (Z.lor evs EPOLLET) (ctl_data junk fd data)) He Hr Hfd)
    as (o1 & -> & Hf & Hc & Hd & Hr1). cbn [fst].
  split_and!; [by eapply os_wf_entry|done|intros e; by apply dom_epolls_eq|exact Hr1].
Qed.

(** A stage of the set-up: descriptors that are open, instances, entries, and the numbers
    that the kernel has not given yet. *)
Record stage (o : os) (opened eps : list Z) (reg : Z → Z → option epoll_event) (todo : list Z)
  : Prop := {
  sg_wf : os_wf o;
  sg_open fd : fd ∈ opened → is_Some (o_fds o !! fd);
  sg_eps e : e ∈ eps → is_Some (o_epolls o !! e);
  sg_reg e fd : registered o e fd = reg e fd;
  sg_todo fd : fd ∈ todo → o_fds o !! fd = None
}.

Definition add_reg (reg : Z → Z → option epoll_event) (efd fd : Z) (r : epoll_event)
  : Z → Z → option epoll_event :=
  λ e x, if decide (e = efd ∧ x = fd) then Some r else reg e x.

Lemma stage_create o opened eps reg efd todo :
  stage o opened eps reg (efd :: todo) → efd ∉ todo →
  stage (epoll_create o efd) (efd :: opened) (efd :: eps) reg todo.
Proof.
  intros [Hwf Ho He Hr Ht] Hn.
  destruct (epoll_create_spec o efd Hwf) as (W & F & E & R); [apply Ht; set_solver|].
  split; [done| | | |].
  - intros fd [->|Hin]%elem_of_cons; rewrite F; [rewrite lookup_insert_eq; by eexists|].
    apply insert_keeps. auto.
  - intros e [->|Hin]%elem_of_cons; apply E; auto.
  - intros. by rewrite R.
  - intros fd Hin. rewrite F, lookup_insert_ne by (intros ->; done). apply Ht. set_solver.
Qed.

Lemma stage_add o opened eps reg todo junk efd fd evs :
  stage o opened eps reg todo → efd ∈ eps → fd ∈ opened → reg efd fd = None →
  stage (epoll_add junk o efd fd evs None).1 opened eps
    (add_reg reg efd fd (mkEpollEvent (Z.lor (Z.lor evs EPOLLET) ALWAYS) (fd_data junk fd))) todo.
Proof.
  intros [Hwf Ho He Hr Ht] Hin Hop Hn.
  destruct (epoll_add_spec junk o efd fd evs None Hwf) as (W & F & E & R); [auto|by rewrite Hr|auto|].
  split; [done| | | |].
  - intros. rewrite F. auto.
  - intros. apply E. auto.
  - intros e x. rewrite R. unfold add_reg. case_decide; [done|apply Hr].
  - intros. rewrite F. auto.
Qed.

Lemma stage_timer o opened eps reg todo junk efd timer :
  stage o opened eps reg (timer :: todo) → timer ∉ todo → efd ∈ eps →
  ∃ o', add_cron_task junk o efd timer true = (o', timer) ∧
    stage o' (timer :: opened) eps
      (add_reg reg efd timer (mkEpollEvent (Z.lor EPOLLIN ALWAYS) (fd_data junk timer))) todo.
Proof.
  intros [Hwf Ho He Hr Ht] Hn Hin. unfold add_cron_task. cbn [negb].
  assert (o_fds o !! timer = None) as Hfd by (apply Ht; set_solver).
  destruct (epoll_ctl_add (os_open o timer) efd timer (mkEpollEvent EPOLLIN (fd_data junk timer)))
    as (o4 & -> & F & C & D & R).
  { change (is_Some (o_epolls o !! efd)). auto. }
  { change (registered o efd timer = None). by apply fresh_registered. }
  { cbn. rewrite lookup_insert_eq. by eexists. }
  exists o4. split; [done|]. split.
  - eapply (os_wf_entry (os_open o timer)); [by apply os_wf_open|done..| |exact R].
    cbn. rewrite lookup_insert_eq. by eexists.
  - intros fd [->|Hop]%elem_of_cons; rewrite F; cbn; [rewrite lookup_insert_eq; by eexists|].
    apply insert_keeps. auto.
  - intros e Hine. apply (dom_epolls_eq (os_open o timer)); [done|]. cbn. auto.
  - intros e x. rewrite R. unfold add_reg. case_decide; [done|]. apply Hr.
  - intros fd Hin'. rewrite F. cbn. rewrite lookup_insert_ne by (intros ->; done). apply Ht. set_solver.
Qed.

(** A socket that is bound. *)
Lemma stage_with o opened eps reg todo fd i :
  stage o opened eps reg todo → fd ∈ todo →
  stage (with_fd o fd i) (fd :: opened) eps reg (filter (.≠ fd) todo).
Proof.
  intros [Hwf Ho He Hr Ht] Hin. split.
  - by apply os_wf_with.
  - intros x [->|Hx]%elem_of_cons; cbn; [rewrite lookup_insert_eq; by eexists|]. apply insert_keeps. auto.
  - done.
  - done.
  - intros x [Hne Hx]%list_elem_of_filter. cbn. rewrite lookup_insert_ne by auto. auto.
Qed.

(** A pair that no entry of the set-up is for. *)
Ltac other := rewrite decide_False by (intros [? ?]; congruence).

(** The entry of a descriptor that is watched. *)
Definition watching (junk fd : Z) : epoll_event :=
  mkEpollEvent (Z.lor (Z.lor EPOLLIN EPOLLET) ALWAYS) (fd_data junk fd).

Lemma watching_ok junk fd :
  0 <= fd < 2 ^ 31 → data_fd (ev_data (watching junk fd)) = fd ∧ watched (watching junk fd).
Proof. intros H. split; [apply data_fd_data; lia|by left]. Qed.

Section Start.
Context (junk runfd sfd : Z).

Definition setup_reg (reg : Z → Z → option epoll_event) (io w timer : Z) : Z → Z → option epoll_event :=
  add_reg (add_reg (add_reg reg w timer (mkEpollEvent (Z.lor EPOLLIN ALWAYS) (fd_data junk timer)))
    io runfd (watching junk runfd)) w runfd (watching junk runfd).

Lemma setup_stage o reg io w timer todo :
  stage o [runfd; sfd] [] reg (io :: w :: timer :: todo) →
  NoDup [io; w; timer] → io ∉ todo → w ∉ todo → timer ∉ todo →
  (∀ fd, reg io fd = None) → (∀ fd, reg w fd = None) →
  ∃ o', loops_setup junk runfd sfd io w timer o = (o', mkEpoll io w sfd timer (-1)) ∧
    stage o' [timer; w; io; runfd; sfd] [w; io] (setup_reg reg io w timer) todo.
Proof.
  intros S0 Hnd H1 H2 H3 Hio Hw. rewrite !NoDup_cons in Hnd. destruct Hnd as (D1 & D2 & _).
  assert (timer ≠ runfd) as Ht.
  { intros ->. destruct (sg_open _ _ _ _ _ S0 runfd) as [x Hx]; [set_solver|].
    rewrite (sg_todo _ _ _ _ _ S0) in Hx; [done|set_solver]. }
  unfold loops_setup.
  apply stage_create in S0 as S1; [|set_solver]. apply stage_create in S1 as S2; [|set_solver].
  destruct (stage_timer _ _ _ _ _ junk w timer S2) as (o3 & -> & S3); [done|set_solver|].
  apply (stage_add _ _ _ _ _ junk io runfd EPOLLIN) in S3 as S4; [|set_solver..|].
  2:{ unfold add_reg. other. apply Hio. }
  apply (stage_add _ _ _ _ _ junk w runfd EPOLLIN) in S4 as S5; [|set_solver..|].
  2:{ unfold add_reg. assert (io ≠ w) by set_solver. do 2 other. apply Hw. }
  eexists. split; [reflexivity|exact S5].
Qed.

(** The entries of the setup. *)
Lemma setup_reg_io reg io w timer fd r :
  io ≠ w → reg io fd = None → setup_reg reg io w timer io fd = Some r → fd = runfd ∧ r = watching junk runfd.
Proof.
  intros Hne Hn. unfold setup_reg, add_reg. other. case_decide as Hd; [intros [= <-]; by destruct Hd|]. other.
  by rewrite Hn.
Qed.

Lemma setup_reg_w reg io w timer fd r :
  io ≠ w → reg w fd = None → setup_reg reg io w timer w fd = Some r →
  (fd = runfd ∧ r = watching junk runfd) ∨
  (fd = timer ∧ r = mkEpollEvent (Z.lor EPOLLIN ALWAYS) (fd_data junk timer)).
Proof.
  intros Hne Hn. unfold setup_reg, add_reg. case_decide as Hd; [intros [= <-]; left; by destruct Hd|]. other.
  case_decide as Hd'; [intros [= <-]; right; by destruct Hd'|]. by rewrite Hn.
Qed.

Lemma accept_stage o opened eps reg acc todo :
  stage o opened eps reg (acc :: todo) → acc ∉ todo → runfd ∈ opened → sfd ∈ opened → runfd ≠ sfd →
  (∀ fd, reg acc fd = None) →
  stage (accept_start junk runfd sfd acc o) (acc :: opened) (acc :: eps)
    (add_reg (add_reg reg acc sfd (armed EPOLLIN (fd_data junk sfd))) acc runfd (watching junk runfd)) todo.
Proof.
  intros S0 Hn Hr Hs Hne Hacc. unfold accept_start.
  apply stage_create in S0 as S1; [|done].
  apply (stage_add _ _ _ _ _ junk acc sfd (Z.lor EPOLLIN EPOLLONESHOT)) in S1 as S2; [|set_solver..|done].
  apply (stage_add _ _ _ _ _ junk acc runfd EPOLLIN) in S2 as S3; [|set_solver..|].
  2:{ unfold add_reg. other. apply Hacc. }
  exact S3.
Qed.
End Start.

(** A stage that is complete: the relation to a server without connections. *)
Lemma stage_refines ep sv o opened eps reg todo :
  stage o opened eps reg todo → conns sv = ∅ → phases sv = ∅ →
  io_epollfd ep ∈ eps → w_epollfd ep ∈ eps → io_epollfd ep ≠ w_epollfd ep →
  Config.run (sv_conf sv) ≠ expirefd ep → Config.run (sv_conf sv) ∉ bus_fds ep →
  (∀ fd, fd ∈ reserved ep sv → fd ∈ opened) →
  (∀ fd r, reg (io_epollfd ep) fd = Some r →
     fd ∈ Config.run (sv_conf sv) :: bus_fds ep ∧ data_fd (ev_data r) = fd ∧ watched r) →
  (∀ fd r, reg (w_epollfd ep) fd = Some r →
     (fd = Config.run (sv_conf sv) ∨ fd = expirefd ep) ∧ data_fd (ev_data r) = fd ∧ watched r) →
  refines ep (mkLoops (erase sv) ∅ o) sv.
Proof.
  intros [W O E R _] Hcs Hph Hio Hw Hne Hrun Hbus Hres Hrio Hrw. split; cbn; try done.
  - unfold server_inv. rewrite Hph. apply map_Forall_empty.
  - intros fd [->| ->]; by apply E.
  - intros fd Hin. by apply O, Hres.
  - intros p c. by rewrite Hcs, lookup_empty.
  - intros p ph c. by rewrite Hph, lookup_empty.
  - intros fd r. rewrite R. intros H%Hrio. by left.
  - intros fd r. rewrite R. intros [[->| ->] H]%Hrw; [by left|right; by left].
Qed.

(** A stage to begin with. *)
Lemma stage_begin o runfd sfd todo :
  os_wf o → is_Some (o_fds o !! runfd) → is_Some (o_fds o !! sfd) → (∀ fd, fd ∈ todo → o_fds o !! fd = None) →
  stage o [runfd; sfd] [] (registered o) todo ∧ ∀ e fd, e ∈ todo → registered o e fd = None.
Proof.
  intros Hwf Hrun Hsfd Hfr. split.
  - split; [done| | |done|done]; intros x Hin; [|by apply elem_of_nil in Hin].
    apply elem_of_cons in Hin as [->|Hin]; [done|]. by apply list_elem_of_singleton in Hin as ->.
  - intros e fd Hin%Hfr. unfold registered. destruct (o_epolls o !! e) eqn:E; [|done].
    apply (wf_epolls _ Hwf) in E as [? E]. congruence.
Qed.

(** The set-up leaves the relation to a server without connections, and the listening
    socket armed. *)
Theorem start_loops_refines junk sv sfd io w timer acc o :
  let runfd := Config.run (sv_conf sv) in
  os_wf o → conns sv = ∅ → phases sv = ∅ → is_Some (o_fds o !! runfd) → is_Some (o_fds o !! sfd) →
  runfd ≠ sfd → NoDup [io; w; timer; acc] → (∀ fd, fd ∈ [io; w; timer; acc] → o_fds o !! fd = None) →
  0 <= runfd < 2 ^ 31 → 0 <= sfd < 2 ^ 31 → 0 <= timer < 2 ^ 31 →
  let '(o', ep) := start_loops junk runfd sfd io w timer acc o in
  refines ep (mkLoops (erase sv) ∅ o') sv ∧ acceptor ep acc o' ∧ serverfd ep = sfd ∧
  ∃ d, registered o' acc sfd = Some (armed EPOLLIN d) ∧ data_fd d = sfd.
Proof.
  intros runfd Hwf Hcs Hph Hrun Hsfd Hrs Hnd Hfr Hg1 Hg2 Hg3.
  destruct (stage_begin o runfd sfd [io; w; timer; acc] Hwf Hrun Hsfd Hfr) as [S0 Hun].
  assert (runfd ≠ timer) as Ht by (intros E; destruct Hrun as [x Hx]; rewrite E, Hfr in Hx; set_solver).
  assert (NoDup [io; w; timer]) as Hnd3 by (by apply (NoDup_app [io; w; timer] [acc])).
  rewrite !NoDup_cons, !not_elem_of_cons in Hnd.
  destruct Hnd as ((N3 & _ & N1 & _) & (_ & N2 & _) & (N4 & _) & _).
  destruct (setup_stage junk runfd sfd o (registered o) io w timer [acc]) as (o1 & E1 & S1);
    [done|done|by intros ->%list_elem_of_singleton..|intros; apply Hun; by left|intros; apply Hun; by right; left|].
  apply (accept_stage junk runfd sfd) in S1 as S2;
    [|apply not_elem_of_nil|by do 3 right; left|by do 4 right; left|done|].
  2:{ intros fd. unfold setup_reg, add_reg. do 3 other. apply Hun. by do 3 right; left. }
  unfold start_loops. rewrite E1.
  assert (registered (accept_start junk runfd sfd acc o1) acc sfd = Some (armed EPOLLIN (fd_data junk sfd))) as Hacc.
  { rewrite (sg_reg _ _ _ _ _ S2). unfold add_reg. other. by rewrite decide_True. }
  split_and!; [|split; cbn; [done|done|by rewrite Hacc]|done|exists (fd_data junk sfd); split; [done|apply data_fd_data; lia]].
  eapply (stage_refines _ _ _ _ _ _ _ S2); cbn [io_epollfd w_epollfd expirefd]; [done|done|by do 2 right; left|by right; left|done|done| | | |].
  - apply not_elem_of_nil.
  - intros fd Hin. unfold reserved in Hin. cbn in Hin. fold runfd in Hin. clear -Hin. set_solver.
  - intros fd r. unfold add_reg at 1 2. do 2 other. intros [-> ->]%setup_reg_io; [|done|apply Hun; by left].
    split; [by left|by apply watching_ok].
  - intros fd r. unfold add_reg at 1 2. do 2 other.
    intros [[-> ->]|[-> ->]]%setup_reg_w; [| |done|apply Hun; by right; left].
    + split; [by left|by apply watching_ok].
    + split; [by right|]. split; [apply data_fd_data; lia|by right].
Qed.

(** ** A server that has been started *)

Definition demo_os : os := mkOs {[3 := new_fd; 4 := new_fd]} ∅ {[3 := 0]}.
Definition demo_ep : epoll := (start_loops 0 3 4 10 11 12 13 demo_os).2.
Definition demo_started (s : triedb) : loops :=
  mkLoops (erase (mkServer s demo_infos demo_conf ∅ ∅ (replicate 200 7))) ∅
    (start_loops 0 3 4 10 11 12 13 demo_os).1.
Definition demo_arrival : arriving :=
  mkArriving 20 (mkAnswers None None false true true true) (str "u") 100 1024 1 0.

Lemma demo_os_wf : os_wf demo_os.
Proof.
  split; cbn.
  - intros efd regs H. by rewrite lookup_empty in H.
  - intros efd fd r H. unfold registered in H. cbn in H. by rewrite lookup_empty in H.
  - intros fd n H. apply lookup_singleton_Some in H as [<- _]. rewrite lookup_insert_eq. by eexists.
Qed.

Lemma demo_started_refines s :
  refines demo_ep (demo_started s) (mkServer s demo_infos demo_conf ∅ ∅ (replicate 200 7)) ∧
  acceptor demo_ep 13 (lp_os (demo_started s)) ∧
  registered (lp_os (demo_started s)) 13 4 = Some (armed EPOLLIN 4).
Proof.
  pose proof (start_loops_refines 0 (mkServer s demo_infos demo_conf ∅ ∅ (replicate 200 7)) 4 10 11 12 13
    demo_os) as H. cbv zeta in H. change (Config.run _) with 3 in H.
  unfold demo_started, demo_ep. destruct (start_loops 0 3 4 10 11 12 13 demo_os) as [o ep] eqn:E.
  destruct H as (R & A & _ & _).
  - apply demo_os_wf.
  - done.
  - done.
  - by eexists.
  - by eexists.
  - done.
  - by apply (bool_decide_unpack _).
  - intros fd Hin. rewrite !elem_of_cons in Hin.
    destruct Hin as [->|[->|[->|[->|Hin]]]]; [reflexivity..|by apply elem_of_nil in Hin].
  - done.
  - done.
  - done.
  - split_and!; [exact R|exact A|].
    assert (registered (start_loops 0 3 4 10 11 12 13 demo_os).1 13 4 = Some (armed EPOLLIN 4)) as Hr
      by (vm_compute; reflexivity).
    by rewrite E in Hr.
Qed.

(** The report of the listening socket does not concern the other loops. *)
Lemma accept_report_refines ep acc lp sv o d :
  refines ep lp sv → acc ≠ io_epollfd ep → acc ≠ w_epollfd ep →
  is_Some (o_fds (lp_os lp) !! serverfd ep) →
  reported (lp_os lp) o acc (serverfd ep) d → refines ep (set_os lp o) sv.
Proof.
  intros R Hai Haw Hs Hrep. pose proof (reported_wf _ _ _ _ _ (rf_wf R) Hs Hrep) as Hwf.
  destruct Hrep as (Hf & Hc & Hd & Hr).
  assert (∀ fd, registered o (io_epollfd ep) fd = registered (lp_os lp) (io_epollfd ep) fd) as Hio.
  { intros fd. by rewrite Hr, decide_False by naive_solver. }
  assert (∀ fd, registered o (w_epollfd ep) fd = registered (lp_os lp) (w_epollfd ep) fd) as Hw.
  { intros fd. by rewrite Hr, decide_False by naive_solver. }
  destruct R as [? ? ? ? ? Hep ? Hop ? Hph ? ? Hrio Hrw]. split; try done; cbn.
  - intros fd Hin. apply (dom_epolls_eq (lp_os lp)); [done|]. by apply Hep.
  - intros fd Hin. rewrite Hf. by apply Hop.
  - intros p ph c Hp Hcn. pose proof (Hph p ph c Hp Hcn) as H. unfold phase_regs in *. cbn.
    rewrite !Hio, !Hc. destruct ph as [|ev|ev|]; [done| | |done].
    + destruct H as (H1 & H2 & H3 & x & efd & Hx & H4). split_and!; [done..|]. exists x, efd. by rewrite Hw.
    + destruct H as (H2 & H3 & x & efd & Hx & H4). split_and!; [done..|]. by exists x, efd.
  - intros fd r. rewrite Hio. apply Hrio.
  - intros fd r. rewrite Hw. apply Hrw.
Qed.

(** C9 A report of the listening socket.  The loop does what the transition system does for
    new connections: each one that is accepted is in its first phase, armed for reading in
    the I/O loop, and the others stay as they are; the socket is armed again once a
    connection has been accepted.  But when the first call of accept
    fails (as it does when no descriptor is left), nothing is reported for the socket ever
    after, whatever arrives on it. *)
Theorem accept_loop_correct ep acc lp sv ars ready o e d :
  refines ep lp sv → acceptor ep acc (lp_os lp) → fresh_arrivals ep sv (lp_os lp) ars →
  registered (lp_os lp) acc (serverfd ep) = Some (armed EPOLLIN d) → data_fd d = serverfd ep →
  0 <= serverfd ep < 2 ^ 31 → serverfd ep ≠ Config.run (sv_conf sv) → no_error ready →
  epoll_report (lp_os lp) acc (serverfd ep) ready = Some (o, e) →
  agree (λ x y, x.2 = Continue ∧ y.2 = [] ∧ refines ep x.1 y.1 ∧
      (∀ ar, ar ∈ ars → phases y.1 !! ar_ptr ar = Some Reading) ∧
      (∀ p, p ∉ ar_ptr <$> ars → phases y.1 !! p = phases sv !! p) ∧
      match ars with
      | [] => ∀ ready', epoll_report (lp_os x.1) acc (serverfd ep) ready' = None
      | _ => ∃ d', registered (lp_os x.1) acc (serverfd ep) = Some (armed EPOLLIN d') ∧
               data_fd d' = serverfd ep
      end)
    (accept_dispatch ep acc (set_os lp o) ars e) (run_server sv (accept_label <$> ars)).
Proof.
  intros R A Hfr Hr Hd Hlt Hrun Hn He.
  destruct (report_armed _ _ _ ready o e 0 d Hr) as (-> & Hf & Hc & Hdom & Hreg); [done..|].
  unfold accept_dispatch. rewrite EPOLL_ERR_in by done. cbn [ev_data]. rewrite Hd.
  rewrite (set_os_server _ _ _ _ R). change (sv_conf (erase sv)) with (sv_conf sv).
  rewrite (proj2 (Z.eqb_neq _ _) Hrun), Z.eqb_refl. destruct A as [Hai Haw Hs].
  assert (refines ep (set_os lp o) sv) as R1.
  { eapply (accept_report_refines ep acc lp sv o d); try done. by eapply (wf_regs _ (rf_wf R)). }
  assert (acceptor ep acc (lp_os (set_os lp o))) as A1.
  { split; [done|done|]. cbn. rewrite Hreg, decide_True by done. by eexists. }
  assert (fresh_arrivals ep sv (lp_os (set_os lp o)) ars) as Hfr1.
  { destruct Hfr as (F1 & F2 & F3). split_and!; [done|done|]. cbn. by rewrite Hf. }
  pose proof (accept_all_refines ep acc (set_os lp o) sv ars R1 A1 Hfr1) as H.
  destruct (accept_all ep acc (set_os lp o) ars) as [lp'|f], (run_server sv _) as [[sv' os]|]; try done.
  destruct H as [Hos [R' H1 H2 H3]]. cbn in *. split_and!; [done..|]. destruct ars as [|ar ars].
  - subst lp'. intros ready'. eapply report_disarmed. cbn. by rewrite Hreg, decide_True.
  - destruct H3 as [junk H3]. eexists. split; [exact H3|]. apply data_fd_data. lia.
Qed.

Lemma demo_fresh s :
  fresh_arrivals demo_ep (mkServer s demo_infos demo_conf ∅ ∅ (replicate 200 7))
    (lp_os (demo_started s)) [demo_arrival].
Proof.
  split_and!; [apply NoDup_singleton|apply NoDup_singleton|].
  apply Forall_singleton. split_and!; [done|vm_compute; reflexivity|reflexivity|].
  apply (bool_decide_unpack _). vm_compute. exact I.
Qed.

(** A server with one connection, as [accept_loop] leaves it. *)
Lemma demo_accepted :
  ∃ s lp sv, init_triedb 16 = Ok s ∧ accept_all demo_ep 13 (demo_started s) [demo_arrival] = Ok lp ∧
    refines demo_ep lp sv ∧ phases sv !! 1024 = Some Reading.
Proof.
  destruct (init_triedb_spec 16) as (s & Hs & _). destruct (demo_started_refines s) as (R & A & _).
  assert (match init_triedb 16 with
          | Ok s => match accept_all demo_ep 13 (demo_started s) [demo_arrival] with
                    | Ok _ => True | Err _ => False end
          | Err _ => False end) as Hok by (vm_compute; exact I).
  rewrite Hs in Hok. destruct (accept_all demo_ep 13 (demo_started s) [demo_arrival]) as [lp|] eqn:E;
    [|destruct Hok].
  pose proof (accept_all_refines _ _ _ _ _ R A (demo_fresh s)) as H. rewrite E in H.
  destruct (run_server _ _) as [[sv os]|]; [|destruct H]. destruct H as [_ [R' Hin _ _]].
  exists s, lp, sv. split_and!; [exact Hs|exact E|exact R'|]. apply (Hin demo_arrival). by left.
Qed.

Lemma accept_loop_correct_witness :
  ∃ s o e lp' sv', init_triedb 16 = Ok s ∧
    epoll_report (lp_os (demo_started s)) 13 4 EPOLLIN = Some (o, e) ∧
    accept_dispatch demo_ep 13 (set_os (demo_started s) o) [demo_arrival] e = Ok (lp', Continue) ∧
    refines demo_ep lp' sv' ∧ phases sv' !! 1024 = Some Reading.
Proof.
  destruct (init_triedb_spec 16) as (s & Hs & _). destruct (demo_started_refines s) as (R & A & Hr).
  destruct (report_ready _ _ _ 0 4 Hr) as [o Ho]; [lia|reflexivity|reflexivity|].
  exists s, o, (mkEpollEvent EPOLLIN 4).
  pose proof (accept_loop_correct demo_ep 13 (demo_started s) _ [demo_arrival] EPOLLIN o
    (mkEpollEvent EPOLLIN 4) 4 R A (demo_fresh s) Hr eq_refl
    ltac:(split; [discriminate|reflexivity]) ltac:(discriminate) eq_refl Ho) as H.
  assert (match init_triedb 16 with
          | Ok s => match epoll_report (lp_os (demo_started s)) 13 4 EPOLLIN with
                    | Some (o, e) =>
                        match accept_dispatch demo_ep 13 (set_os (demo_started s) o) [demo_arrival] e with
                        | Ok _ => True | Err _ => False end
                    | None => False end
          | Err _ => False end) as Hok by (vm_compute; exact I).
  rewrite Hs in Hok. change (2 ^ 0) with EPOLLIN in Ho. rewrite Ho in Hok.
  destruct (accept_dispatch _ _ _ _ _) as [[lp' v]|]; [|destruct Hok].
  destruct (run_server _ _) as [[sv' os]|]; [|destruct H].
  destruct H as (Hv & _ & R' & Hin & _). cbn in Hv. subst v. exists lp', sv'.
  split_and!; [exact Hs|exact Ho|reflexivity|exact R'|]. apply (Hin demo_arrival). by left.
Defined.
