(* ===== verification/Events.v ===== *)
(** * The event loops refine the transition system of Worker

    For every order of reports the loops over epoll do what the transition system of the
    connections does, when each event is dispatched at once, and every connection that waits for something can be reported.  The
    last part is what the correspondence leaves out: the hand-over of an [io_event] in the
    middle of a branch of [worker], and events with an error or a hang-up. *)

From S2P Require Import Prelude Util Config Store Bst Vec Trie Pack Db Protocol Network Hashtable.
From S2P Require Import Os Sockets Server Commands Worker Loop Accept.

(** ** The steps of the loops and those of Worker *)

(** No read fails in the middle of a packet. *)
Definition reads_well (lp : loops) (le : loop_env) : Prop :=
  ∀ r, read_data (le_junk le) (max_request_size (sv_conf (lp_server lp))) (le_sock le)
         (sv_buffer (lp_server lp)) (sv_info (lp_server lp)) = Ok r →
       rr_closed r = true → rr_rc r = - ERRCLIENTDC.

(** The I/O loop for a request: what becomes of the server, and of the rest. *)
Lemma io_in_read ep lp sv le p :
  lp_server lp = erase sv → reads_well lp le →
  agree (λ lp' sv's,
      let sv' := sv's.1 in
      lp_server lp' = erase sv' ∧ sv_conf sv' = sv_conf sv ∧
      (∃ c c', conns sv !! p = Some c ∧ conns sv' = <[p := c']> (conns sv) ∧ client_fd c' = client_fd c) ∧
      ((phases sv' = <[p := Disarmed]> (phases sv) ∧ lp_events lp' = lp_events lp ∧ lp_os lp' = lp_os lp) ∨
       ∃ pkt, phases sv' = <[p := Working (mkEvent p None pkt)]> (phases sv) ∧
         lp_events lp' = <[le_event le := mkEventObj (io_epollfd ep) (le_eventfd le) (mkEvent p None pkt)]>
                           (lp_events lp) ∧
         lp_os lp' = eventfd_write
           (epoll_add (le_junk le) (eventfd (lp_os lp) (le_eventfd le) 0) (w_epollfd ep) (le_eventfd le)
              (Z.lor EPOLLIN EPOLLONESHOT) (Some (le_event le))).1 (le_eventfd le) 1))
    (io_in ep le lp p) (io_read (le_junk le) (le_now le) sv p (le_sock le)).
Proof.
  intros Hs Hrw. unfold io_in, io_read. rewrite Hs.
  change (client_at (erase sv) p) with (client_at sv p). apply agree_bind. intros c Hc.
  unfold client_at in Hc. destruct (conns sv !! p) as [c0|] eqn:Ec; [|done]. injection Hc as ->.
  change (sv_conf (erase sv)) with (sv_conf sv). change (sv_buffer (erase sv)) with (sv_buffer sv).
  change (sv_info (erase sv)) with (sv_info sv). apply agree_bind. intros r Hr.
  unfold reads_well in Hrw. rewrite Hs in Hrw. specialize (Hrw r Hr).
  destruct (Z.eqb_spec (rr_rc r) 0) as [E0|E0].
  - destruct (rr_closed r); [rewrite Hrw in E0; done|].
    rewrite res_bind_assoc. apply agree_bind. intros pkt _. rewrite res_bind_mret_l.
    destruct (epoll_add _ _ _ _ _ _) as [o rc]. unfold client_at, set_phase.
    cbn [conns set_buffer set_info erase]. rewrite Ec, !res_bind_Ok_l. cbn.
    split_and!; [done|done|eauto|right]. by exists pkt.
  - destruct (Z.eqb_spec (rr_rc r) (- ERRCLIENTDC)) as [E1|E1].
    + rewrite res_bind_assoc. apply agree_bind. intros val _. rewrite res_bind_assoc. apply agree_bind.
      intros [t rc] _. unfold event_at. cbn. by rewrite lookup_delete_eq.
    + destruct (rr_closed r); [by rewrite Hrw in E1|]. rewrite res_bind_mret_l. unfold client_at, set_phase.
      cbn [conns set_buffer set_info erase]. rewrite Ec, !res_bind_Ok_l. cbn.
      split_and!; [done|done|eauto|by left].
Qed.

(** The I/O loop for a reply. *)
Lemma io_out_write ep lp sv le a eo c :
  lp_server lp = erase sv → lp_events lp !! a = Some eo →
  conns sv !! ev_client (ie_event eo) = Some c →
  let p := ev_client (ie_event eo) in
  agree (λ lps svs, ∃ closed : bool,
      let '(lp', out) := lps in let '(sv', _, bs) := svs in
      lp_server lp' = erase sv' ∧ out = (p, bs) ∧ conns sv' = conns sv ∧ sv_conf sv' = sv_conf sv ∧
      phases sv' = <[p := if closed then Disarmed else Reading]> (phases sv) ∧
      lp_events lp' = delete a (lp_events lp) ∧
      lp_os lp' = (epoll_mod (le_junk le)
                     (if closed then (os_close (lp_os lp) (client_fd c)).1 else lp_os lp)
                     (io_epollfd ep) (client_fd c) EPOLLIN (Some p)).1)
    (io_out ep le lp a) (io_write sv (ie_event eo) (le_out le)).
Proof.
  intros Hs Ha Hc p. unfold io_out, io_write, event_at. rewrite Ha, res_bind_Ok_l, Hs.
  change (client_at (erase sv)) with (client_at sv). apply agree_bind. intros c' Hc'.
  unfold client_at in Hc'. rewrite Hc in Hc'. injection Hc' as <-.
  destruct (ev_reply (ie_event eo)) as [raw|]; [|done].
  destruct (send_bytes (le_out le) raw) as [[out bs] sent].
  destruct (epoll_mod _ _ _ _ _ _) as [o rc] eqn:E. apply agree_bind. intros b _.
  exists (sent <? 0). split_and!; try done. cbn. fold p in E. by rewrite E.
Qed.

(** The handlers of requests that can be read depend on the databases, the configuration
    and the statistics only, and leave the client as it is. *)
Lemma typed_call_outcome pkt f e c s i cf :
  request_typed pkt → aget handlers (bits_opcode (request_head pkt)) = Ok (Some f) →
  ∃ o : res outcome,
    (∀ sv, sv_triedb sv = s → sv_info sv = i → sv_conf sv = cf →
       call_handler f e sv c pkt = on_triedb sv o) ∧
    (∀ s' c' raw rc, o = Ok (s', c', raw, rc) → c' = c).
Proof.
  intros Ht Hf. destruct pkt as [p|g|t|ak]; cbn [request_typed request_head] in Ht, Hf.
  - rewrite Ht in Hf. injection Hf as <-. eexists. split; [intros sv Hs _ _; cbn; by rewrite Hs|].
    intros s' c' raw rc H. unfold put_handler, reply_ack in H. peel H; by injection H.
  - destruct Ht as [Ht|Ht]; rewrite Ht in Hf; injection Hf as <-; eexists;
      (split; [intros sv Hs _ _; cbn; by rewrite Hs|]); intros s' c' raw rc H.
    + unfold get_handler, reply_ack in H. peel H; by injection H.
    + unfold del_handler, reply_ack in H. peel H; by injection H.
  - done.
  - rewrite Ht, handlers_info in Hf. injection Hf as <-. eexists.
    split; [intros sv Hs Hi Hcf; cbn; unfold info_entry; by rewrite Hs, Hi, Hcf|].
    intros s' c' raw rc H. unfold info_handler in H. peel H; by injection H.
Qed.

(** The worker loop. *)
Lemma worker_in_event ep lp sv le a efd ev :
  lp_server lp = erase sv → lp_events lp !! a = Some (mkEventObj (io_epollfd ep) efd ev) →
  request_typed (ev_payload ev) →
  let p := ev_client ev in
  agree (λ lp' sv', ∃ c raw,
      lp_server lp' = erase sv' ∧ conns sv !! p = Some c ∧ conns sv' = conns sv ∧
      sv_conf sv' = sv_conf sv ∧
      phases sv' = <[p := Writing (mkEvent p raw (ev_payload ev))]> (phases sv) ∧
      lp_events lp' = <[a := mkEventObj (io_epollfd ep) efd (mkEvent p raw (ev_payload ev))]>
                        (lp_events lp) ∧
      lp_os lp' = (os_close (epoll_mod (le_junk le) (eventfd_read (lp_os lp) efd).1 (io_epollfd ep)
                               (client_fd c) EPOLLOUT (Some a)).1 efd).1)
    (worker_in le lp a) (worker_event (le_handler le) sv ev).
Proof.
  intros Hs Ha Ht p. unfold worker_in, worker_call, worker_event, event_at.
  rewrite Ha, res_bind_Ok_l, Hs. cbn [ie_event ie_io_event ie_epollfd]. rewrite res_bind_assoc.
  change (client_at (erase sv)) with (client_at sv). apply agree_bind. intros c Hc.
  unfold client_at in Hc. fold p in Hc. destruct (conns sv !! p) as [c0|] eqn:Ec; [|done].
  injection Hc as ->. rewrite res_bind_assoc. apply agree_bind. intros o Ho.
  rewrite res_bind_assoc. apply agree_bind. intros f Hf. destruct o as [f'|]; [|done]. injection Hf as ->.
  destruct (typed_call_outcome _ f (le_handler le) c (sv_triedb sv) (sv_info sv) (sv_conf sv) Ht Ho)
    as (out & Hcall & Hcl).
  rewrite !Hcall by done. unfold on_triedb. rewrite !res_bind_assoc. apply agree_bind.
  intros [[[s c'] raw] rc] Hout. apply Hcl in Hout as ->. rewrite !res_bind_mret_l.
  unfold client_at. fold p. cbn [conns set_triedb erase]. rewrite Ec, !res_bind_Ok_l.
  destruct (epoll_mod _ _ _ _ _ _) as [o rc'] eqn:E. unfold worker_after, event_at. rewrite res_bind_mret_l.
  cbn. rewrite lookup_insert_eq. cbn. exists c, raw. split_and!; try done.
  - by rewrite insert_id.
  - by rewrite E.
Qed.

(** ** The connections one by one *)

(** No other [io_event] is that of a connection without one. *)
Lemma no_event ep lp sv p x eo ph :
  refines ep lp sv → phases sv !! p = Some ph → (ph = Reading ∨ ph = Disarmed) →
  lp_events lp !! x = Some eo → ev_client (ie_event eo) ≠ p.
Proof.
  intros R Hp Hph Hx E. destruct (rf_events R x eo Hx) as [H|H]; rewrite E, Hp in H; naive_solver.
Qed.

(** The new eventfd of a request. *)
Lemma request_eventfd ep lp sv o p fd junk ev a :
  refines ep lp sv → reported (lp_os lp) o (io_epollfd ep) fd p → is_Some (o_fds (lp_os lp) !! fd) →
  o_fds (lp_os lp) !! ev = None →
  let o' := eventfd_write (epoll_add junk (eventfd o ev 0) (w_epollfd ep) ev
              (Z.lor EPOLLIN EPOLLONESHOT) (Some a)).1 ev 1 in
  os_wf o' ∧ o_fds o' = <[ev := new_fd]> (o_fds o) ∧ dom (o_epolls o') = dom (o_epolls o) ∧
  o_counters o' = <[ev := 1]> (o_counters o) ∧
  ∀ efd' fd', registered o' efd' fd' =
    if decide (efd' = w_epollfd ep ∧ fd' = ev) then Some (armed EPOLLIN a) else registered o efd' fd'.
Proof.
  intros R Hrep Hfd Hev o'. pose proof (reported_wf _ _ _ _ _ (rf_wf R) Hfd Hrep) as Hwf.
  destruct Hrep as (H1 & H2 & H3 & H4). rewrite <-H1 in Hev.
  destruct (epoll_ctl_add (eventfd o ev 0) (w_epollfd ep) ev
    (mkEpollEvent (Z.lor (Z.lor EPOLLIN EPOLLONESHOT) EPOLLET) a)) as (o1 & E & Hf & Hc & Hd & Hr).
  - apply (dom_epolls_eq (lp_os lp)); [done|]. apply (rf_epolls R). by right.
  - change (registered o (w_epollfd ep) ev = None). by apply fresh_registered.
  - cbn. rewrite lookup_insert_eq. by eexists.
  - unfold o', epoll_add, ctl_data. rewrite E. cbn [fst]. unfold eventfd_write. rewrite Hc.
    cbn [o_counters eventfd]. rewrite lookup_insert_eq. cbn [o_fds o_epolls o_counters].
    rewrite insert_insert_eq. split_and!.
    + rewrite <-(insert_insert_eq (o_counters o) ev 1 0). change (<[ev := 0]> (o_counters o)) with (o_counters (eventfd o ev 0)).
      rewrite <-Hc. apply (os_wf_counter o1 ev 0); [|rewrite Hc; cbn; by rewrite lookup_insert_eq].
      eapply (os_wf_entry (eventfd o ev 0)); [by apply os_wf_eventfd|done..| |exact Hr].
      cbn. rewrite lookup_insert_eq. by eexists.
    + done.
    + done.
    + done.
    + intros efd' fd'. change (registered o1 efd' fd' = if decide (efd' = w_epollfd ep ∧ fd' = ev)
        then Some (armed EPOLLIN a) else registered o efd' fd'). by rewrite Hr.
Qed.

(** What a disarmed connection leaves to show. *)
Lemma disarmed_refines ep lp lp' sv sv' p c c' o :
  refines ep lp sv → phases sv !! p = Some Reading → conns sv !! p = Some c →
  reported (lp_os lp) o (io_epollfd ep) (client_fd c) p → server_inv sv' →
  lp_server lp' = erase sv' → sv_conf sv' = sv_conf sv → conns sv' = <[p := c']> (conns sv) →
  client_fd c' = client_fd c → phases sv' = <[p := Disarmed]> (phases sv) →
  lp_events lp' = lp_events lp → lp_os lp' = o → refines ep lp' sv'.
Proof.
  intros R Hp Hc Hrep Hi Hs Hcf Hcs Hfd Hph He Ho.
  destruct (phase_entry _ _ _ R p c Reading Hp Hc) as (r0 & Hr0 & _); [done|].
  assert (is_Some (o_fds (lp_os lp) !! client_fd c)) as Hop by (by eapply (wf_regs _ (rf_wf R))).
  pose proof (reported_wf _ _ _ _ _ (rf_wf R) Hop Hrep) as Hwf.
  destruct Hrep as (H1 & H2 & H3 & H4). rewrite <-Ho in *.
  destruct (exist_fresh (dom (lp_events lp))) as [a Ha]. apply not_elem_of_dom in Ha.
  assert (frame ep lp lp' sv sv' p c a (client_fd c)) as F.
  { split; try done.
    - intros q Hq. by rewrite Hcs, lookup_insert_ne.
    - intros q Hq. by rewrite Hph, lookup_insert_ne.
    - intros ph E. rewrite Hp in E. by injection E as <-.
    - intros x _. by rewrite He.
    - intros x eo Hx. split; [intros ->; congruence|]. intros E. exfalso.
      eapply no_event; [exact R|exact Hp|by left|exact Hx|done].
    - by left.
    - intros fd r Hne _ Hr. by rewrite H4, decide_False by naive_solver.
    - intros fd r Hne Hr. by rewrite H4, decide_False in Hr by naive_solver.
    - intros fd r Hne _ Hr. by rewrite H4, decide_False by naive_solver.
    - intros fd r Hne Hr. by rewrite H4, decide_False in Hr by naive_solver.
    - intros. by rewrite H2. }
  eapply (frame_refines _ _ _ _ _ _ _ _ _ R F c' Disarmed); try done.
  - intros fd Hfd'. apply (dom_epolls_eq (lp_os lp)); [done|]. by apply (rf_epolls R).
  - intros fd Hin. rewrite H1. by apply (rf_open R).
  - by rewrite Hph, lookup_insert_eq.
  - by rewrite Hcs, lookup_insert_eq.
  - rewrite He, Ha. done.
  - intros r Hr. left. rewrite H4, decide_True in Hr by done. injection Hr as <-. by exists p.
  - intros r Hr. rewrite H4, decide_False in Hr by (intros [E _]; by apply (rf_two R)).
    by rewrite (client_not_in_w _ _ _ R p c Reading) in Hr.
  - intros ev x fd Hw. by rewrite Hp in Hw.
Qed.

(** The request of a connection is passed to the worker loop. *)
Lemma request_refines ep lp lp' sv sv' p c c' o junk a ev pkt :
  refines ep lp sv → phases sv !! p = Some Reading → conns sv !! p = Some c →
  reported (lp_os lp) o (io_epollfd ep) (client_fd c) p → server_inv sv' →
  o_fds (lp_os lp) !! ev = None → lp_events lp !! a = None → ptr_ok ep sv a →
  lp_server lp' = erase sv' → sv_conf sv' = sv_conf sv → conns sv' = <[p := c']> (conns sv) →
  client_fd c' = client_fd c →
  phases sv' = <[p := Working (mkEvent p None pkt)]> (phases sv) →
  lp_events lp' = <[a := mkEventObj (io_epollfd ep) ev (mkEvent p None pkt)]> (lp_events lp) →
  lp_os lp' = eventfd_write (epoll_add junk (eventfd o ev 0) (w_epollfd ep) ev
                (Z.lor EPOLLIN EPOLLONESHOT) (Some a)).1 ev 1 →
  refines ep lp' sv'.
Proof.
  intros R Hp Hc Hrep Hi Hev Ha Hptr Hs Hcf Hcs Hfd Hph He Ho.
  destruct (phase_entry _ _ _ R p c Reading Hp Hc) as (r0 & Hr0 & _ & Hcn0 & Hrs0); [done|].
  assert (is_Some (o_fds (lp_os lp) !! client_fd c)) as Hop by (by eapply (wf_regs _ (rf_wf R))).
  destruct (request_eventfd ep lp sv o p (client_fd c) junk ev a R Hrep Hop Hev)
    as (Hwf & Hf' & Hd' & Hcn' & Hr'). rewrite <-Ho in *.
  destruct Hrep as (H1 & H2 & H3 & H4).
  assert (client_fd c ≠ ev) as Hce by (intros E; rewrite E, Hev in Hop; by destruct Hop).
  assert (∀ fd, fd ∈ reserved ep sv → fd ≠ ev) as Hrs.
  { intros fd Hin ->. apply (rf_open R) in Hin as [? Hin]. congruence. }
  assert (frame ep lp lp' sv sv' p c a ev) as F.
  { split; try done.
    - intros q Hq. by rewrite Hcs, lookup_insert_ne.
    - intros q Hq. by rewrite Hph, lookup_insert_ne.
    - intros ph E. rewrite Hp in E. by injection E as <-.
    - intros x Hx. by rewrite He, lookup_insert_ne.
    - intros x eo Hx. split; [intros ->; congruence|]. intros E. exfalso.
      eapply no_event; [exact R|exact Hp|by left|exact Hx|done].
    - by right; left.
    - intros fd r Hne Hne' Hr. by rewrite Hr', decide_False, H4, decide_False by naive_solver.
    - intros fd r Hne Hr. rewrite Hr', decide_False, H4, decide_False in Hr;
        [done|naive_solver|intros [E _]; by apply (rf_two R)].
    - intros fd r Hne Hne' Hr. by rewrite Hr', decide_False, H4, decide_False by naive_solver.
    - intros fd r Hne Hr. rewrite Hr', decide_False, H4, decide_False in Hr;
        [done|intros [E _]; by apply (rf_two R)|naive_solver].
    - intros fd Hne Hne'. by rewrite Hcn', lookup_insert_ne, H2. }
  assert (event_of ep sv' lp' a ev (mkEvent p None pkt)) as Hevent.
  { split; [by rewrite He, lookup_insert_eq|]. by apply (frame_ptr_ok _ _ _ _ _ _ _ _ _ F). }
  assert (reserved ep sv' = reserved ep sv) as Hrsv by (by apply (frame_reserved _ _ _ _ _ _ _ _ _ F)).
  eapply (frame_refines _ _ _ _ _ _ _ _ _ R F c' (Working (mkEvent p None pkt))); try done.
  - intros fd Hfd'. apply (dom_epolls_eq (lp_os lp)); [by rewrite Hd'|]. by apply (rf_epolls R).
  - intros fd Hin. rewrite Hf', H1. apply lookup_insert_is_Some'. right. by apply (rf_open R).
  - by rewrite Hph, lookup_insert_eq.
  - by rewrite Hcs, lookup_insert_eq.
  - cbn. rewrite Hfd, Hrsv. split_and!; [| |done|].
    + rewrite Hr', decide_False by naive_solver. by rewrite H4, decide_True.
    + by rewrite Hcn', lookup_insert_ne, H2.
    + exists a, ev. split_and!; [done|by intros ?%Hrs|by rewrite Hcn', lookup_insert_eq|].
      by rewrite Hr', decide_True.
  - intros eo E. rewrite He, lookup_insert_eq in E. injection E as <-. by split; [|left].
  - intros r Hr. left. rewrite Hr', decide_False, H4, decide_True in Hr by naive_solver.
    injection Hr as <-. by exists p.
  - intros r Hr. rewrite Hr', decide_True in Hr by done. injection Hr as <-. by eexists.
  - intros ev' x fd Hw. by rewrite Hp in Hw.
Qed.

(** The reply of a connection is written, and its descriptor armed again or closed. *)
Lemma reply_entries ep lp sv o c junk d p (closed : bool) :
  refines ep lp sv → is_Some (o_fds (lp_os lp) !! client_fd c) → client_fd c ∉ reserved ep sv →
  reported (lp_os lp) o (io_epollfd ep) (client_fd c) d →
  let o' := (epoll_mod junk (if closed then (os_close o (client_fd c)).1 else o)
               (io_epollfd ep) (client_fd c) EPOLLIN (Some p)).1 in
  os_wf o' ∧ (∀ fd, fd ≠ client_fd c → o_fds o' !! fd = o_fds o !! fd) ∧
  (∀ fd, fd ≠ client_fd c → is_Some (o_epolls o !! fd) → is_Some (o_epolls o' !! fd)) ∧
  (∀ fd, fd ≠ client_fd c → o_counters o' !! fd = o_counters o !! fd) ∧
  (o_counters o !! client_fd c = None → o_counters o' !! client_fd c = None) ∧
  (∀ efd' fd', fd' ≠ client_fd c → efd' ≠ client_fd c → registered o' efd' fd' = registered o efd' fd') ∧
  registered o' (io_epollfd ep) (client_fd c) = (if closed then None else Some (armed EPOLLIN p)) ∧
  (∀ r, registered o' (w_epollfd ep) (client_fd c) = Some r →
        registered o (w_epollfd ep) (client_fd c) = Some r).
Proof.
  intros R Hop Hrs Hrep o'. pose proof (reported_wf _ _ _ _ _ (rf_wf R) Hop Hrep) as Hwf.
  destruct Hrep as (H1 & H2 & H3 & H4). assert (is_Some (o_fds o !! client_fd c)) as Hop' by by rewrite H1.
  unfold o', epoll_mod, ctl_data. destruct closed.
  - destruct (os_close_spec o (client_fd c) Hop') as (o1 & -> & Hf & Hc & Hd & Hr). cbn [fst].
    assert ((epoll_ctl o1 (io_epollfd ep) EPOLL_CTL_MOD (client_fd c)
      (mkEpollEvent (Z.lor (Z.lor EPOLLIN EPOLLET) EPOLLONESHOT) p)).1 = o1) as ->.
    { unfold epoll_ctl. destruct (o_epolls o1 !! _); [|done]. rewrite decide_False; [done|].
      rewrite Hf, lookup_delete_eq. by intros []. }
    split_and!.
    + by eapply os_wf_close.
    + intros fd Hne. by rewrite Hf, lookup_delete_ne.
    + intros fd Hne. rewrite <-!elem_of_dom, Hd. set_solver.
    + intros fd Hne. by rewrite Hc, lookup_delete_ne.
    + intros _. by rewrite Hc, lookup_delete_eq.
    + intros. by rewrite Hr, decide_False by naive_solver.
    + by rewrite Hr, decide_True by by right.
    + intros r. by rewrite Hr, decide_True by by right.
  - destruct (epoll_ctl_mod o (io_epollfd ep) (client_fd c) (disarmed d)
      (mkEpollEvent (Z.lor (Z.lor EPOLLIN EPOLLET) EPOLLONESHOT) p)) as (o1 & -> & Hf & Hc & Hd & Hr);
      [by rewrite H4, decide_True|done|]. cbn [fst]. split_and!.
    + by eapply os_wf_entry.
    + intros. by rewrite Hf.
    + intros fd _. apply (dom_epolls_eq o o1 fd Hd).
    + intros. by rewrite Hc.
    + by rewrite Hc.
    + intros. by rewrite Hr, decide_False by naive_solver.
    + by rewrite Hr, decide_True.
    + intros r. rewrite Hr, decide_False by (intros [E _]; by apply (rf_two R)). done.
Qed.

Lemma reply_refines ep lp lp' sv sv' p c o junk a efd ev (closed : bool) :
  refines ep lp sv → phases sv !! p = Some (Writing ev) → conns sv !! p = Some c →
  event_of ep sv lp a efd ev → reported (lp_os lp) o (io_epollfd ep) (client_fd c) a → server_inv sv' →
  lp_server lp' = erase sv' → sv_conf sv' = sv_conf sv → conns sv' = conns sv →
  phases sv' = <[p := if closed then Disarmed else Reading]> (phases sv) →
  lp_events lp' = delete a (lp_events lp) →
  lp_os lp' = (epoll_mod junk (if closed then (os_close o (client_fd c)).1 else o)
                 (io_epollfd ep) (client_fd c) EPOLLIN (Some p)).1 →
  refines ep lp' sv'.
Proof.
  intros R Hp Hc Hev Hrep Hi Hs Hcf Hcs Hph He Ho.
  destruct (phase_entry _ _ _ R p c _ Hp Hc) as (r0 & Hr0 & _ & Hcn0 & Hrs0); [done|].
  assert (is_Some (o_fds (lp_os lp) !! client_fd c)) as Hop by (by eapply (wf_regs _ (rf_wf R))).
  destruct (reply_entries ep lp sv o c junk a p closed R Hop Hrs0 Hrep)
    as (Hwf & Hf' & Hd' & Hcn' & Hcn0' & Hr' & Hio' & Hw'). rewrite <-Ho in *.
  destruct Hrep as (H1 & H2 & H3 & H4). destruct (rf_inv R p _ Hp) as (_ & Hevp & _).
  assert (io_epollfd ep ≠ client_fd c ∧ w_epollfd ep ≠ client_fd c) as [Hni Hnw].
  { split; intros E; apply Hrs0; unfold reserved; set_solver. }
  pose proof (client_not_in_w _ _ _ R p c _ Hp Hc ltac:(done)) as Hcw.
  assert (∀ r, registered (lp_os lp') (w_epollfd ep) (client_fd c) = Some r → False) as Hcw'.
  { intros r Hr. apply Hw' in Hr. rewrite H4, decide_False, Hcw in Hr; [done|].
    intros [E _]. by apply (rf_two R). }
  assert (frame ep lp lp' sv sv' p c a (client_fd c)) as F.
  { split; try done.
    - intros q _. by rewrite Hcs.
    - intros q Hq. by rewrite Hph, lookup_insert_ne.
    - intros ph E. rewrite Hp in E. by injection E as <-.
    - intros x Hx. by rewrite He, lookup_delete_ne.
    - intros x eo Hx. split.
      + intros ->. destruct Hev as [Hev _]. rewrite Hev in Hx. by injection Hx as <-.
      + intros E. destruct Hev as [Hev _]. eapply (rf_unique R); [exact Hx|exact Hev|]. cbn. congruence.
    - by left.
    - intros fd r Hne _ Hr. by rewrite Hr', H4, decide_False by naive_solver.
    - intros fd r Hne Hr. by rewrite Hr', H4, decide_False in Hr by naive_solver.
    - intros fd r Hne _ Hr. by rewrite Hr', H4, decide_False by naive_solver.
    - intros fd r Hne Hr. by rewrite Hr', H4, decide_False in Hr by naive_solver.
    - intros fd Hne _. by rewrite Hcn', H2. }
  eapply (frame_refines _ _ _ _ _ _ _ _ _ R F c (if closed then Disarmed else Reading)); try done.
  - intros fd Hfd'. apply Hd'; [naive_solver|]. apply (dom_epolls_eq (lp_os lp)); [done|].
    by apply (rf_epolls R).
  - intros fd Hin. rewrite Hf' by (intros ->; done). rewrite H1. by apply (rf_open R).
  - by rewrite Hph, lookup_insert_eq.
  - by rewrite Hcs.
  - destruct closed; [done|]. cbn. rewrite (frame_reserved _ _ _ _ _ _ _ _ _ F).
    split_and!; [done|by apply Hcn0'; rewrite H2|done].
  - intros eo E. by rewrite He, lookup_delete_eq in E.
  - intros r Hr. rewrite Hio' in Hr. destruct closed; [done|by right; left].
  - intros r Hr. by apply Hcw' in Hr.
  - intros ev' x fd Hw. by rewrite Hp in Hw.
Qed.

(** The worker loop arms the descriptor of the connection and closes the eventfd. *)
Lemma work_entries ep lp sv o fd d junk a efd :
  refines ep lp sv → is_Some (o_fds (lp_os lp) !! efd) → fd ≠ efd → fd ∉ reserved ep sv →
  efd ∉ reserved ep sv →
  registered (lp_os lp) (io_epollfd ep) fd = Some d →
  reported (lp_os lp) o (w_epollfd ep) efd a →
  let o' := (os_close (epoll_mod junk (eventfd_read o efd).1 (io_epollfd ep) fd EPOLLOUT (Some a)).1
               efd).1 in
  os_wf o' ∧ (∀ x, x ≠ efd → o_fds o' !! x = o_fds o !! x) ∧
  (∀ x, x ≠ efd → is_Some (o_epolls o !! x) → is_Some (o_epolls o' !! x)) ∧
  (∀ x, x ≠ efd → o_counters o' !! x = o_counters o !! x) ∧
  (∀ e x, registered o' e x =
     if decide (e = efd ∨ x = efd) then None
     else if decide (e = io_epollfd ep ∧ x = fd) then Some (armed EPOLLOUT a)
     else registered o e x).
Proof.
  intros R Hop Hne Hrs Hrse Hd Hrep o'. pose proof (reported_wf _ _ _ _ _ (rf_wf R) Hop Hrep) as Hwf.
  destruct Hrep as (H1 & H2 & H3 & H4).
  destruct (eventfd_read_frame o efd) as (Hf1 & He1 & Hc1 & _ & Hwf1). specialize (Hwf1 Hwf).
  unfold o', epoll_mod, ctl_data. remember (eventfd_read o efd).1 as o1 eqn:Eo1.
  assert (∀ e x, registered o1 e x = registered o e x) as Hr1 by (intros; unfold registered; by rewrite He1).
  assert (is_Some (o_fds o1 !! fd)) as Hfd by (rewrite Hf1, H1; by eapply (wf_regs _ (rf_wf R))).
  destruct (epoll_ctl_mod o1 (io_epollfd ep) fd d
    (mkEpollEvent (Z.lor (Z.lor EPOLLOUT EPOLLET) EPOLLONESHOT) a)) as (o2 & -> & Hf2 & Hc2 & Hd2 & Hr2);
    [rewrite Hr1, H4, decide_False; [done|naive_solver]|done|]. cbn [fst].
  assert (os_wf o2) as Hwf2 by by eapply os_wf_entry.
  destruct (os_close_spec o2 efd) as (o3 & -> & Hf3 & Hc3 & Hd3 & Hr3); [by rewrite Hf2, Hf1, H1|].
  cbn [fst]. split_and!.
  - by eapply os_wf_close.
  - intros x Hx. by rewrite Hf3, lookup_delete_ne, Hf2, Hf1.
  - intros x Hx. rewrite <-!elem_of_dom, Hd3, Hd2, He1. set_solver.
  - intros x Hx. by rewrite Hc3, lookup_delete_ne, Hc2, Hc1.
  - intros e x. rewrite Hr3, Hr2. case_decide; [done|]. case_decide; [done|]. apply Hr1.
Qed.

Lemma handled_refines ep lp lp' sv sv' p c o junk a efd ev ev' :
  refines ep lp sv → phases sv !! p = Some (Working ev) → conns sv !! p = Some c →
  event_of ep sv lp a efd ev → ev_client ev' = p →
  reported (lp_os lp) o (w_epollfd ep) efd a → server_inv sv' →
  lp_server lp' = erase sv' → sv_conf sv' = sv_conf sv → conns sv' = conns sv →
  phases sv' = <[p := Writing ev']> (phases sv) →
  lp_events lp' = <[a := mkEventObj (io_epollfd ep) efd ev']> (lp_events lp) →
  lp_os lp' = (os_close (epoll_mod junk (eventfd_read o efd).1 (io_epollfd ep) (client_fd c) EPOLLOUT
                           (Some a)).1 efd).1 →
  refines ep lp' sv'.
Proof.
  intros R Hp Hc Hev Hevp Hrep Hi Hs Hcf Hcs Hph He Ho.
  destruct (phase_entry _ _ _ R p c _ Hp Hc) as (r0 & Hr0 & _ & Hcn0 & Hrs0); [done|].
  destruct (eventfd_counter _ _ _ R p ev a efd Hp Hev) as (Hcn1 & Hrs1 & Hr1).
  assert (is_Some (o_fds (lp_os lp) !! efd)) as Hop by (by eapply (wf_regs _ (rf_wf R))).
  assert (client_fd c ≠ efd) as Hne by congruence.
  destruct (work_entries ep lp sv o (client_fd c) r0 junk a efd R Hop Hne Hrs0 Hrs1 Hr0 Hrep)
    as (Hwf & Hf' & Hd' & Hcn' & Hr'). rewrite <-Ho in *.
  destruct Hrep as (H1 & H2 & H3 & H4). destruct (rf_inv R p _ Hp) as (_ & Hevo & _).
  assert (io_epollfd ep ≠ efd ∧ w_epollfd ep ≠ efd) as [Hni Hnw].
  { split; intros E; apply Hrs1; unfold reserved; set_solver. }
  assert (frame ep lp lp' sv sv' p c a efd) as F.
  { split; try done.
    - intros q _. by rewrite Hcs.
    - intros q Hq. by rewrite Hph, lookup_insert_ne.
    - intros ph E. rewrite Hp in E. by injection E as <-.
    - intros x Hx. by rewrite He, lookup_insert_ne.
    - intros x eo Hx. destruct Hev as [Hev _]. split.
      + intros ->. rewrite Hev in Hx. by injection Hx as <-.
      + intros E. eapply (rf_unique R); [exact Hx|exact Hev|]. cbn. congruence.
    - right. right. split_and!; [done|done|by exists ev].
    - intros fd r Hn1 Hn2 Hr. by rewrite Hr', !decide_False, H4, decide_False by naive_solver.
    - intros fd r Hn1 Hr. rewrite Hr' in Hr. case_decide; [done|].
      rewrite decide_False, H4, decide_False in Hr by naive_solver. done.
    - intros fd r Hn1 Hn2 Hr. by rewrite Hr', !decide_False, H4, decide_False by naive_solver.
    - intros fd r Hn1 Hr. rewrite Hr' in Hr. case_decide; [done|]. case_decide as E.
      + destruct E as [E _]. exfalso. by apply (rf_two R).
      + by rewrite H4, decide_False in Hr by naive_solver.
    - intros fd _ Hn. by rewrite Hcn', H2. }
  assert (event_of ep sv' lp' a efd ev') as Hevent.
  { split; [by rewrite He, lookup_insert_eq|]. apply (frame_ptr_ok _ _ _ _ _ _ _ _ _ F). apply Hev. }
  eapply (frame_refines _ _ _ _ _ _ _ _ _ R F c (Writing ev')); try done.
  - intros fd Hfd'. apply Hd'; [naive_solver|]. apply (dom_epolls_eq (lp_os lp)); [done|].
    by apply (rf_epolls R).
  - intros fd Hin. rewrite Hf' by (intros ->; done). rewrite H1. by apply (rf_open R).
  - by rewrite Hph, lookup_insert_eq.
  - by rewrite Hcs.
  - cbn. rewrite (frame_reserved _ _ _ _ _ _ _ _ _ F).
    split_and!; [by rewrite Hcn', H2|done|]. exists a, efd. split; [done|].
    by rewrite Hr', decide_False, decide_True by naive_solver.
  - intros eo E. rewrite He, lookup_insert_eq in E. injection E as <-. by split; [|right].
  - intros r Hr. right. right. by exists ev'.
  - intros r Hr. by rewrite Hr', decide_True in Hr by by right.
  - intros ev0 x fd Hw Hx. apply (frame_own_eventfd _ _ _ _ _ _ _ _ _ R F ev0 x fd Hw Hx). by exists ev.
Qed.

(** ** Every report *)

(** Steps that leave the connections alone. *)
Lemma quiet_refines ep lp lp' sv sv' :
  refines ep lp sv → lp_server lp' = erase sv' → conns sv' = conns sv → phases sv' = phases sv →
  sv_conf sv' = sv_conf sv → lp_events lp' = lp_events lp → os_wf (lp_os lp') →
  o_fds (lp_os lp') = o_fds (lp_os lp) → dom (o_epolls (lp_os lp')) = dom (o_epolls (lp_os lp)) →
  (∀ fd, fd ∉ reserved ep sv → o_counters (lp_os lp') !! fd = o_counters (lp_os lp) !! fd) →
  (∀ efd fd, registered (lp_os lp') efd fd = registered (lp_os lp) efd fd) →
  refines ep lp' sv'.
Proof.
  intros R Hs Hcs Hph Hcf He Hwf Hf Hd Hcn Hr.
  assert (reserved ep sv' = reserved ep sv) as Hrs by (unfold reserved; by rewrite Hcf).
  assert (∀ x, ptr_ok ep sv' x ↔ ptr_ok ep sv x) as Hptr by (intros; unfold ptr_ok; by rewrite Hcf).
  assert (∀ x efd ev, event_of ep sv' lp' x efd ev ↔ event_of ep sv lp x efd ev) as Hev.
  { intros. unfold event_of. by rewrite He, Hptr. }
  split; [done| |done|rewrite Hcf; apply R..| |apply R| | | | | | |].
  - intros p ph Hp. rewrite Hph in Hp. unfold phase_ok. rewrite Hcs. by apply (rf_inv R).
  - intros fd Hfd. apply (dom_epolls_eq (lp_os lp)); [done|]. by apply (rf_epolls R).
  - intros fd. rewrite Hrs, Hf. apply (rf_open R).
  - intros p c. rewrite Hcs, Hptr. apply (rf_ptr R).
  - intros p ph c. rewrite Hph, Hcs. intros Hp Hc. pose proof (rf_phase R p ph c Hp Hc) as H.
    unfold phase_regs in *. rewrite Hrs. destruct ph as [|ev|ev|]; [| | |done].
    + destruct H as (H1 & H2 & H3). by rewrite Hr, Hcn.
    + destruct H as (H1 & H2 & H3 & x & efd & Hx & Hefd & H4 & H5). rewrite !Hr, Hcn by done.
      split_and!; [done..|]. exists x, efd. by rewrite Hev, Hcn, Hr.
    + destruct H as (H2 & H3 & x & efd & Hx & H4). rewrite Hcn by done. split_and!; [done..|].
      exists x, efd. by rewrite Hev, Hr.
  - intros x eo. rewrite He. unfold has_event. rewrite Hph. apply (rf_events R).
  - intros x x' eo eo'. rewrite He. apply (rf_unique R).
  - intros fd r. rewrite Hr. intros H%(rf_io R). unfold io_entry in *. by rewrite Hcf, Hcs, Hph.
  - intros fd r. rewrite Hr. intros H%(rf_w R). unfold w_entry in *. rewrite Hcf, Hph.
    destruct H as [?|[?|(p & ev & x & H)]]; [by left|by right; left|]. right. right.
    exists p, ev, x. by rewrite Hev.
Qed.

(** What the surroundings may not do: errors and hang-ups are left to
    [error_event_keeps_connection]; the new descriptor and the new object are not in use,
    and its address cannot be taken for a descriptor. *)
Definition calm_report (ep : epoll) (lp : loops) (r : report) : Prop :=
  match r with
  | IoReport _ ready le =>
      no_error ready ∧ reads_well lp le ∧ o_fds (lp_os lp) !! le_eventfd le = None ∧
      lp_events lp !! le_event le = None ∧ ptr_ok ep (lp_server lp) (le_event le)
  | WorkReport _ ready _ => no_error ready
  end.

(** The phases do not matter for a datagram. *)
Lemma bus_event_erase junk sv d :
  bus_event junk (erase sv) d = ('(sv', pkt) ← bus_event junk sv d; mret (erase sv', pkt)).
Proof.
  unfold bus_event. change (sv_buffer (erase sv)) with (sv_buffer sv).
  destruct (stores _ _ _) as [b1|]; [|done]. rewrite !res_bind_Ok_l.
  destruct (aset _ _ _) as [b2|]; [|done]. rewrite !res_bind_Ok_l.
  destruct (aget b2 0) as [h|]; [|done]. rewrite !res_bind_Ok_l.
  destruct (decode_length b2 1) as [[n pos]|]; [|done]. rewrite !res_bind_Ok_l.
  by destruct (unpack_triedb_request _ _ _ _ _) as [[pkt rc]|].
Qed.

Lemma run_server_one sv l :
  run_server sv [l] = ('(sv', o) ← step sv l; mret (sv', option_list o)).
Proof. cbn. destruct (step sv l) as [[sv' [o|]]|]; done. Qed.

Definition step_agrees (ep : epoll) : loops * option (Z * list Z) * verdict →
    server * list (Z * list Z) → Prop :=
  λ x y, y.2 = option_list x.1.2 ∧ refines ep x.1.1 y.1.

Section Dispatch.
Context (ep : epoll) (lp : loops) (sv : server) (R : refines ep lp sv).
Context (o : os) (e : epoll_event) (fd ready : Z) (Hn : no_error ready).

(** The entry of [conf->run], in either loop. *)
Lemma run_refines efd :
  epoll_report (lp_os lp) efd fd ready = Some (o, e) →
  (∃ r, registered (lp_os lp) efd fd = Some r ∧ watched r) →
  is_Some (o_fds (lp_os lp) !! fd) →
  refines ep (set_os lp o) sv ∧
  refines ep (set_os lp (eventfd_read o (Config.run (sv_conf sv))).1) sv.
Proof.
  intros He (r & Hr & Hw) Hfd.
  destruct (report_watched _ _ _ _ _ _ _ Hr Hw Hn He) as (_ & H1 & H2 & H3 & H4).
  assert (os_wf o) as Hwf.
  { eapply (os_wf_entry (lp_os lp) o efd fd (Some r)); [apply R|done..|]. intros efd' fd'. rewrite H4.
    case_decide as E; [|done]. by destruct E as [-> ->]. }
  split.
  - eapply (quiet_refines _ _ _ sv sv R); try done; cbn; [apply (rf_server R)..|intros; by rewrite H2].
  - destruct (eventfd_read_frame o (Config.run (sv_conf sv))) as (F1 & F2 & F3 & _ & F4).
    eapply (quiet_refines _ _ _ sv sv R); cbn; try done.
    + apply (rf_server R).
    + by apply F4.
    + by rewrite F1.
    + by rewrite F2.
    + intros x Hx. rewrite F3, H2; [done|]. intros ->. apply Hx. unfold reserved. set_solver.
    + intros. unfold registered. rewrite F2. apply H4.
Qed.

Lemma io_run le :
  data_fd (ev_data e) = Config.run (sv_conf sv) → ev_events e = EPOLLIN →
  refines ep (set_os lp (eventfd_read o (Config.run (sv_conf sv))).1) sv →
  agree (step_agrees ep) (io_dispatch ep le (set_os lp o) e) (run_server sv []).
Proof.
  intros Hd He HR. unfold io_dispatch. rewrite EPOLL_ERR_in, Hd, (set_os_server _ _ _ _ R) by done.
  change (sv_conf (erase sv)) with (sv_conf sv). rewrite Z.eqb_refl. by split.
Qed.

Lemma worker_run le :
  data_fd (ev_data e) = Config.run (sv_conf sv) → ev_events e = EPOLLIN →
  refines ep (set_os lp (eventfd_read o (Config.run (sv_conf sv))).1) sv →
  agree (step_agrees ep) (worker_dispatch ep le (set_os lp o) e) (run_server sv []).
Proof.
  intros Hd He HR. unfold worker_dispatch. rewrite EPOLL_ERR_in, Hd, (set_os_server _ _ _ _ R) by done.
  change (sv_conf (erase sv)) with (sv_conf sv). rewrite Z.eqb_refl. by split.
Qed.

(** A datagram on the bus. *)
Lemma io_bus le :
  data_fd (ev_data e) = fd → fd ∈ bus_fds ep → ev_events e = EPOLLIN → refines ep (set_os lp o) sv →
  agree (step_agrees ep) (io_dispatch ep le (set_os lp o) e) (run_server sv [LBus (le_junk le) (le_dgram le)]).
Proof.
  intros Hd Hb He HR. rewrite run_server_one. unfold io_dispatch.
  rewrite EPOLL_ERR_in, Hd, (set_os_server _ _ _ _ R) by done.
  change (sv_conf (erase sv)) with (sv_conf sv).
  rewrite (proj2 (Z.eqb_neq fd _)) by (intros ->; by apply (rf_bus R)).
  rewrite bus_test, bool_decide_true by done. cbn [step].
  rewrite bus_event_erase, !res_bind_assoc.
  destruct (bus_event (le_junk le) sv (le_dgram le)) as [[sv' pkt]|] eqn:E; [|done].
  apply bus_event_same in E as (buf & info & -> & _). unfold agree, step_agrees. cbn. split; [done|].
  eapply (quiet_refines _ _ _ sv _ HR); try done. apply (rf_wf HR).
Qed.

(** A request. *)
Lemma io_reading le p c :
  phases sv !! p = Some Reading → conns sv !! p = Some c → e = mkEpollEvent EPOLLIN p →
  reported (lp_os lp) o (io_epollfd ep) (client_fd c) p →
  reads_well lp le → o_fds (lp_os lp) !! le_eventfd le = None →
  lp_events lp !! le_event le = None → ptr_ok ep sv (le_event le) →
  agree (step_agrees ep) (io_dispatch ep le (set_os lp o) e)
    (run_server sv [LRead p (le_now le) (le_junk le) (le_sock le)]).
Proof.
  intros Hp Hc -> Hrep Hrw Hfd Ha Hptr. rewrite run_server_one. unfold io_dispatch.
  rewrite EPOLL_ERR_in by done. cbn [ev_data ev_events]. destruct (rf_ptr R p c Hc) as (Hp1 & _ & Hp3).
  rewrite (set_os_server _ _ _ _ R). change (sv_conf (erase sv)) with (sv_conf sv).
  rewrite (proj2 (Z.eqb_neq _ _) Hp1), bus_test, bool_decide_false by done. cbn [step]. rewrite Hp.
  change (negb (Z.land EPOLLIN EPOLLIN =? 0)) with true. cbv iota. rewrite !res_bind_assoc.
  eapply agree_map; [by apply (io_in_read ep (set_os lp o) sv le p); [apply (set_os_server _ _ _ _ R)|]|].
  intros lp' [sv' sock'] _ Hok (Hs & Hcf & (c0 & c' & Hc0 & Hcs & Hfdc) & Hcase). rewrite res_bind_mret_l.
  unfold agree, step_agrees. cbn in *. rewrite Hc in Hc0. injection Hc0 as <-.
  apply io_read_inv in Hok; [|apply R]. split; [done|].
  destruct Hcase as [(Hph & He & Ho)|(pkt & Hph & He & Ho)].
  - by eapply (disarmed_refines ep lp lp' sv sv').
  - by eapply (request_refines ep lp lp' sv sv').
Qed.

(** A reply. *)
Lemma io_writing le p c ev a efd :
  phases sv !! p = Some (Writing ev) → conns sv !! p = Some c → e = mkEpollEvent EPOLLOUT a →
  event_of ep sv lp a efd ev → reported (lp_os lp) o (io_epollfd ep) (client_fd c) a →
  agree (step_agrees ep) (io_dispatch ep le (set_os lp o) e) (run_server sv [LWrite p (le_out le)]).
Proof.
  intros Hp Hc -> Hev Hrep. rewrite run_server_one. unfold io_dispatch.
  rewrite EPOLL_ERR_out. cbn [ev_data ev_events]. pose proof Hev as [Ha (Hp1 & Hp2 & Hp3)].
  rewrite (set_os_server _ _ _ _ R). change (sv_conf (erase sv)) with (sv_conf sv).
  rewrite (proj2 (Z.eqb_neq _ _) Hp1), bus_test, bool_decide_false by done. cbn [step]. rewrite Hp.
  change (negb (Z.land EPOLLOUT EPOLLIN =? 0)) with false.
  change (negb (Z.land EPOLLOUT EPOLLOUT =? 0)) with true. cbv iota. rewrite !res_bind_assoc.
  destruct (rf_inv R p _ Hp) as (_ & Hevp & _).
  eapply agree_map.
  { apply (io_out_write ep (set_os lp o) sv le a (mkEventObj (io_epollfd ep) efd ev) c); [apply (set_os_server _ _ _ _ R)|exact Ha|].
    cbn. by rewrite Hevp. }
  intros [lp' out] [[sv' out'] bs] _ Hok (closed & Hs & -> & Hcs & Hcf & Hph & He & Ho).
  cbn in Hph, Ho. rewrite Hevp in *. apply io_write_inv in Hok; [|apply R|rewrite Hevp, Hc; by eexists].
  unfold agree, step_agrees. cbn. split; [by rewrite Hevp|].
  by eapply (reply_refines ep lp lp' sv sv' p c o _ a efd ev closed).
Qed.

(** A handler. *)
Lemma worker_working le p c ev a efd :
  phases sv !! p = Some (Working ev) → conns sv !! p = Some c → e = mkEpollEvent EPOLLIN a →
  event_of ep sv lp a efd ev → reported (lp_os lp) o (w_epollfd ep) efd a →
  agree (step_agrees ep) (worker_dispatch ep le (set_os lp o) e)
    (run_server sv [LWork p (le_handler le)]).
Proof.
  intros Hp Hc -> Hev Hrep. rewrite run_server_one. unfold worker_dispatch.
  rewrite EPOLL_ERR_in by done. cbn [ev_data ev_events]. pose proof Hev as [Ha (Hp1 & Hp2 & Hp3)].
  rewrite (set_os_server _ _ _ _ R). change (sv_conf (erase sv)) with (sv_conf sv).
  rewrite (proj2 (Z.eqb_neq _ _) Hp1), (proj2 (Z.eqb_neq _ _) Hp2). cbn [step]. rewrite Hp.
  change (negb (Z.land EPOLLIN EPOLLIN =? 0)) with true. cbv iota. rewrite !res_bind_assoc.
  destruct (rf_inv R p _ Hp) as (_ & Hevp & Ht).
  eapply agree_map; [by apply (worker_in_event ep (set_os lp o) sv le a efd ev); [apply (set_os_server _ _ _ _ R)|..]|].
  intros lp' sv' _ Hok (c0 & raw & Hs & Hc0 & Hcs & Hcf & Hph & He & Ho).
  apply worker_event_inv in Hok; [|apply R|done]. rewrite Hevp in *. rewrite Hc in Hc0. injection Hc0 as <-.
  unfold agree, step_agrees. cbn in *. split; [done|].
  by eapply (handled_refines ep lp lp' sv sv' p c o _ a efd ev (mkEvent p raw (ev_payload ev))).
Qed.

(** The timer. *)
Lemma worker_timer le :
  data_fd (ev_data e) = expirefd ep → ev_events e = EPOLLIN → refines ep (set_os lp o) sv →
  agree (step_agrees ep) (worker_dispatch ep le (set_os lp o) e) (run_server sv [LTick (le_now le)]).
Proof.
  intros Hd He HR. rewrite run_server_one. unfold worker_dispatch.
  rewrite EPOLL_ERR_in, Hd, (set_os_server _ _ _ _ R) by done.
  change (sv_conf (erase sv)) with (sv_conf sv).
  rewrite (proj2 (Z.eqb_neq (expirefd ep) _)), Z.eqb_refl by (intros E; by apply (rf_run R)).
  change (sv_triedb (erase sv)) with (sv_triedb sv). cbn [step]. rewrite res_bind_assoc.
  apply agree_bind. intros s _. unfold agree, step_agrees. cbn. split; [done|].
  eapply (quiet_refines _ _ _ sv _ HR); try done. apply (rf_wf HR).
Qed.
End Dispatch.

(** A label takes what the surroundings choose from the pass of the loop. *)
Definition label_from (le : loop_env) (l : label) : Prop :=
  match l with
  | LRead _ now junk sock => now = le_now le ∧ junk = le_junk le ∧ sock = le_sock le
  | LWork _ e => e = le_handler le
  | LWrite _ out => out = le_out le
  | LTick now => now = le_now le
  | LBus junk d => junk = le_junk le ∧ d = le_dgram le
  | LAccept _ _ _ _ _ => False
  end.

(** The labels of a number of passes, in their order: at most one for each. *)
Inductive drawn : list loop_env → list label → Prop :=
| drawn_nil : drawn [] []
| drawn_skip le les ls : drawn les ls → drawn (le :: les) ls
| drawn_take le les l ls : label_from le l → drawn les ls → drawn (le :: les) (l :: ls).
Create HintDb drawn.
#[export] Hint Constructors drawn : drawn.

Lemma drawn_one le l : label_from le l → drawn [le] [l].
Proof. auto with drawn. Qed.

Lemma drawn_none le : drawn [le] [].
Proof. auto with drawn. Qed.
#[export] Hint Resolve drawn_one drawn_none : drawn.

Lemma drawn_app les1 ls1 les2 ls2 : drawn les1 ls1 → drawn les2 ls2 → drawn (les1 ++ les2) (ls1 ++ ls2).
Proof. intros H1 H2. induction H1; cbn; auto with drawn. Qed.

Lemma drawn_skips les : drawn les [].
Proof. induction les; auto with drawn. Qed.

(** ** What an event is for *)

(** A request, a reply or a handler of the connection [p], the timer, the bus,
    [conf->run]. *)
Inductive target :=
| TRead (p : Z)
| TWrite (p : Z)
| TWork (p : Z)
| TTick
| TBus
| TStop.

(** The descriptor [fd] in the instance of the I/O loop, or in that of the worker loop. *)
Definition concerns (ep : epoll) (lp : loops) (sv : server) (io : bool) (fd : Z) (x : target) : Prop :=
  match x with
  | TRead p => io = true ∧ phases sv !! p = Some Reading ∧ ∃ c, conns sv !! p = Some c ∧ client_fd c = fd
  | TWrite p => io = true ∧ (∃ ev, phases sv !! p = Some (Writing ev)) ∧
                ∃ c, conns sv !! p = Some c ∧ client_fd c = fd
  | TWork p => io = false ∧ ∃ ev a, phases sv !! p = Some (Working ev) ∧ event_of ep sv lp a fd ev
  | TTick => io = false ∧ fd = expirefd ep
  | TBus => io = true ∧ fd ∈ bus_fds ep
  | TStop => fd = Config.run (sv_conf sv)
  end.

(** What is ready when it is reported. *)
Definition target_bit (x : target) : Z := match x with TWrite _ => EPOLLOUT | _ => EPOLLIN end.

(** The step of the transition system, with what the surroundings choose. *)
Definition target_labels (le : loop_env) (x : target) : list label :=
  match x with
  | TRead p => [LRead p (le_now le) (le_junk le) (le_sock le)]
  | TWrite p => [LWrite p (le_out le)]
  | TWork p => [LWork p (le_handler le)]
  | TTick => [LTick (le_now le)]
  | TBus => [LBus (le_junk le) (le_dgram le)]
  | TStop => []
  end.

Lemma target_drawn le x : drawn [le] (target_labels le x).
Proof. destruct x; cbn; auto with drawn; by apply drawn_one. Qed.

(** The labels of a report: those of what it is for, or none if nothing is reported. *)
Definition report_labels (ep : epoll) (lp : loops) (sv : server) (io : bool) (fd ready : Z) (le : loop_env)
    (ls : list label) : Prop :=
  match epoll_report (lp_os lp) (if io then io_epollfd ep else w_epollfd ep) fd ready with
  | Some _ => ∃ x, concerns ep lp sv io fd x ∧ ls = target_labels le x
  | None => ls = []
  end.

Lemma report_drawn ep lp sv io fd ready le ls : report_labels ep lp sv io fd ready le ls → drawn [le] ls.
Proof.
  unfold report_labels. destruct (epoll_report _ _ _ _); [|intros ->; apply drawn_none].
  intros (x & _ & ->). apply target_drawn.
Qed.

Lemma io_step_refines ep lp sv fd ready le :
  refines ep lp sv → calm_report ep lp (IoReport fd ready le) →
  ∃ ls, report_labels ep lp sv true fd ready le ls ∧
    agree (step_agrees ep) (loop_step ep lp (IoReport fd ready le)) (run_server sv ls).
Proof.
  intros R (Hn & Hrw & Hfd & Ha & Hptr). cbn [loop_step]. unfold report_labels.
  destruct (epoll_report _ _ _ _) as [[o e]|] eqn:E; [|by exists []].
  pose proof (epoll_report_spec _ _ _ _ _ _ E) as (r & Hr & _).
  assert (∀ x, concerns ep lp sv true fd x →
    agree (step_agrees ep) (io_dispatch ep le (set_os lp o) e) (run_server sv (target_labels le x)) →
    ∃ ls, (∃ x, concerns ep lp sv true fd x ∧ ls = target_labels le x) ∧
      agree (step_agrees ep) (io_dispatch ep le (set_os lp o) e) (run_server sv ls)) as Hdone by eauto 10.
  destruct (rf_io R fd r Hr) as [(Hin & Hd & Hw)|[[d ->]|(p & c & Hc & <- & Hp)]].
  - destruct (report_watched _ _ _ _ _ _ _ Hr Hw Hn E) as (-> & _).
    destruct (run_refines ep lp sv R o (mkEpollEvent EPOLLIN (ev_data r)) fd ready Hn (io_epollfd ep)) as [R1 R2];
      [done|by exists r|apply (rf_open R); by do 3 right|].
    apply elem_of_cons in Hin as [->|Hin].
    + apply (Hdone TStop); [done|]. by apply (io_run ep lp sv R).
    + apply (Hdone TBus); [done|]. by apply (io_bus ep lp sv R o _ fd).
  - by rewrite (report_disarmed _ _ _ _ _ Hr) in E.
  - destruct Hp as [Hp|[ev Hp]].
    + destruct (rf_phase R p _ c Hp Hc) as (Hr' & _).
      destruct (report_armed _ _ _ ready o e 0 p Hr') as (-> & Hrep); [done..|].
      apply (Hdone (TRead p)); [cbn; eauto 10|].
      eapply (io_reading ep lp sv R); try done. by rewrite (rf_server R) in Hptr.
    + destruct (rf_phase R p _ c Hp Hc) as (_ & _ & a & efd & Hev & Hr').
      destruct (report_armed _ _ _ ready o e 2 a Hr') as (-> & Hrep); [done..|].
      apply (Hdone (TWrite p)); [cbn; eauto 10|]. by eapply (io_writing ep lp sv R).
Qed.

Lemma worker_step_refines ep lp sv fd ready le :
  refines ep lp sv → calm_report ep lp (WorkReport fd ready le) →
  ∃ ls, report_labels ep lp sv false fd ready le ls ∧
    agree (step_agrees ep) (loop_step ep lp (WorkReport fd ready le)) (run_server sv ls).
Proof.
  intros R Hn. cbn [loop_step calm_report] in *. unfold report_labels.
  destruct (epoll_report _ _ _ _) as [[o e]|] eqn:E; [|by exists []].
  pose proof (epoll_report_spec _ _ _ _ _ _ E) as (r & Hr & _).
  destruct (rf_w R fd r Hr) as [(-> & Hd & Hw)|[(-> & Hd & Hw)|(p & ev & a & Hp & Hev & ->)]].
  - exists []. split; [by exists TStop|]. destruct (report_watched _ _ _ _ _ _ _ Hr Hw Hn E) as (-> & _).
    apply (worker_run ep lp sv R); [done|done|]. eapply run_refines; [done|exact Hn|exact E|by exists r|].
    apply (rf_open R). unfold reserved. set_solver.
  - exists [LTick (le_now le)]. split; [by exists TTick|].
    destruct (report_watched _ _ _ _ _ _ _ Hr Hw Hn E) as (-> & _).
    apply (worker_timer ep lp sv R); [done|done|]. eapply run_refines; [done|exact Hn|exact E|by exists r|].
    apply (rf_open R). unfold reserved. set_solver.
  - destruct (rf_inv R p _ Hp) as ([c Hc] & _).
    destruct (report_armed _ _ _ ready o e 0 a Hr) as (-> & Hrep); [done..|].
    eexists. split; [exists (TWork p); cbn; eauto 10|]. by eapply (worker_working ep lp sv R).
Qed.

Lemma run_server_app sv ls1 ls2 :
  run_server sv (ls1 ++ ls2) =
    ('(sv', os1) ← run_server sv ls1; '(sv'', os2) ← run_server sv' ls2; mret (sv'', os1 ++ os2)).
Proof.
  revert sv. induction ls1 as [|l ls1 IH]; intros sv; cbn [run_server app].
  - rewrite res_bind_Ok_l. by destruct (run_server sv ls2) as [[sv' os2]|].
  - rewrite res_bind_assoc. destruct (step sv l) as [[sv1 o]|]; [|done]. rewrite !res_bind_Ok_l, IH, !res_bind_assoc.
    destruct (run_server sv1 ls1) as [[sv2 os1]|]; [|done]. cbn.
    destruct (run_server sv2 ls2) as [[sv3 os2]|]; [|done]. cbn. by destruct o.
Qed.

(** Every report of a run is calm. *)
Fixpoint calm_run (ep : epoll) (lp : loops) (rs : list report) : Prop :=
  match rs with
  | [] => True
  | r :: rs => calm_report ep lp r ∧
      match loop_step ep lp r with
      | Ok (lp', _, Continue) => calm_run ep lp' rs
      | _ => True
      end
  end.

(** Whatever the two epoll instances report, in whatever order, without errors and
    hang-ups: the I/O loop and the worker loop do what the transition system of the
    connections does, with the same bytes on the wires and the same faults.  So the
    one-shot entries, the eventfds and the io_events that the loops pass to each other keep
    each connection in one phase at a time. *)
Theorem loops_refine_server ep lp sv rs :
  refines ep lp sv → calm_run ep lp rs →
  ∃ ls, agree (λ x y, x.2 = y.2 ∧ refines ep x.1 y.1) (run_loops ep lp rs) (run_server sv ls).
Proof.
  revert lp sv. induction rs as [|r rs IH]; intros lp sv R Hc; [by exists []|].
  destruct Hc as [Hc Hcs]. cbn [run_loops].
  assert (∃ ls, agree (step_agrees ep) (loop_step ep lp r) (run_server sv ls)) as [ls Hls].
  { destruct r; [edestruct io_step_refines as (? & _ & ?)|edestruct worker_step_refines as (? & _ & ?)];
      by eauto. }
  destruct (loop_step ep lp r) as [[[lp1 out] v]|f].
  2:{ exists ls. destruct (run_server sv ls); done. }
  destruct (run_server sv ls) as [[sv1 os1]|] eqn:E1; [|done]. destruct Hls as [Ho R1]. cbn in Ho, R1. subst os1.
  destruct v.
  - destruct (IH lp1 sv1 R1 Hcs) as [ls' Hls']. exists (ls ++ ls'). rewrite run_server_app, E1, !res_bind_Ok_l.
    eapply agree_map; [exact Hls'|]. intros [lp2 outs] [sv2 outs'] _ _ [H1 H2]. cbn in *. subst. by split.
  - exists ls. rewrite E1. by split.
Qed.

(** A request, its handler and its reply on the connection of a server that was started. *)
Definition demo_le (event : Z) : loop_env :=
  mkLoopEnv 100 0 [Data (packet 48 (str "hello")); Again] [Accept 100] event 21
    (mkEnv 100 100 3000 0 [] 1) [].
Definition demo_reports : list report :=
  [IoReport 20 EPOLLIN (demo_le 2048); WorkReport 21 EPOLLIN (demo_le 2048);
   IoReport 20 EPOLLOUT (demo_le 4096)].

(** What is computed for the state that [demo_accepted] describes. *)
Definition on_accepted (P : loops → Prop) : Prop :=
  match init_triedb 16 with
  | Ok s => match accept_all demo_ep 13 (demo_started s) [demo_arrival] with
            | Ok lp => P lp
            | Err _ => False
            end
  | Err _ => False
  end.

Lemma on_accepted_ok (P : loops → Prop) s lp :
  on_accepted P → init_triedb 16 = Ok s →
  accept_all demo_ep 13 (demo_started s) [demo_arrival] = Ok lp → P lp.
Proof. unfold on_accepted. intros H Hs Hlp. by rewrite Hs, Hlp in H. Qed.

(** Decides what the surroundings may do, in a closed state. *)
Ltac calm_eval :=
  vm_compute;
  repeat match goal with
  | |- _ ∧ _ => split
  | |- true = true → _ => intros _
  | |- false = true → _ => intros [=]
  | |- _ = _ → False => intros [=]
  | |- ∀ r, Ok _ = Ok r → _ => intros r [= <-] [=]
  | |- _ → False => let H := fresh in intros H; by inversion H
  end; done.

Lemma demo_calm : on_accepted (λ lp, calm_report demo_ep lp (IoReport 20 EPOLLIN (demo_le 2048))).
Proof. calm_eval. Qed.

Lemma loops_refine_server_witness :
  ∃ lp sv lp' sv' ls,
    run_loops demo_ep lp demo_reports = Ok (lp', [(1024, ack_nok)]) ∧
    run_server sv ls = Ok (sv', [(1024, ack_nok)]) ∧ refines demo_ep lp' sv'.
Proof.
  destruct demo_accepted as (s & lp & sv & Hs & Hlp & R & _).
  assert (on_accepted (λ lp, calm_run demo_ep lp demo_reports)) as Hcalm.
  { calm_eval. }
  pose proof (on_accepted_ok _ s lp Hcalm Hs Hlp) as Hc. cbv beta in Hc. clear Hcalm.
  assert (on_accepted (λ lp, snd <$> (match run_loops demo_ep lp demo_reports with
    Ok x => Some x | Err _ => None end) = Some [(1024, ack_nok)])) as Hout by (vm_compute; reflexivity).
  pose proof (on_accepted_ok _ s lp Hout Hs Hlp) as Ho. cbv beta in Ho. clear Hout.
  destruct (loops_refine_server demo_ep lp sv demo_reports R Hc) as [ls Hls].
  destruct (run_loops demo_ep lp demo_reports) as [[lp' outs]|] eqn:El; [|discriminate Ho].
  injection Ho as ->. destruct (run_server sv ls) as [[sv' outs']|] eqn:E; [|destruct Hls].
  destruct Hls as [Ho R']. exists lp, sv, lp', sv', ls. split_and!; [exact El| |exact R'].
  rewrite E. cbn in Ho. by rewrite <-Ho.
Defined.

(** ** Every phase *)

(** The label of a phase, with what the surroundings choose. *)
Definition label_of (p : Z) (le : loop_env) (ph : phase) : option label :=
  match ph with
  | Reading => Some (LRead p (le_now le) (le_junk le) (le_sock le))
  | Working _ => Some (LWork p (le_handler le))
  | Writing _ => Some (LWrite p (le_out le))
  | Disarmed => None
  end.

(** The instance of the loop does report it. *)
Definition delivered (ep : epoll) (lp : loops) (r : report) : Prop :=
  match r with
  | IoReport fd ready _ => is_Some (epoll_report (lp_os lp) (io_epollfd ep) fd ready)
  | WorkReport fd ready _ => is_Some (epoll_report (lp_os lp) (w_epollfd ep) fd ready)
  end.

(** C11 The other direction: for every connection that waits for a request, for its handler or
    for its reply to be written there is a report that its epoll instance delivers, and
    the loop then does that step of the transition system; so such a connection is not
    forgotten.  The connections that a refused packet or a failed reply has left disarmed
    are not among them: they are forgotten (refused_packet_stalls).  The
    new eventfd and the new event object are not in use, the object's address cannot be
    taken for a descriptor that the loops test for, and no read fails in the middle of a
    packet. *)
Theorem phases_reported ep lp sv p ph le l fd :
  refines ep lp sv → phases sv !! p = Some ph → label_of p le ph = Some l →
  calm_report ep lp (IoReport fd EPOLLIN le) →
  ∃ r, delivered ep lp r ∧ agree (step_agrees ep) (loop_step ep lp r) (run_server sv [l]).
Proof.
  intros R Hp Hl (_ & Hrw & Hfd & Ha & Hptr). destruct (rf_inv R p ph Hp) as ([c Hc] & _).
  pose proof (rf_phase R p ph c Hp Hc) as H. destruct ph as [|ev|ev|]; [..|discriminate Hl]; injection Hl as <-.
  - exists (IoReport (client_fd c) EPOLLIN le). destruct H as (Hr & _). cbn [loop_step].
    destruct (report_ready _ _ _ 0 p Hr) as [o E]; [done..|].
    change (2 ^ 0) with EPOLLIN in E. cbn [delivered]. rewrite E. split; [by eexists|].
    destruct (report_armed _ _ _ EPOLLIN o (mkEpollEvent EPOLLIN p) 0 p Hr) as (_ & Hrep); [done..|].
    eapply (io_reading ep lp sv R); try done. by rewrite (rf_server R) in Hptr.
  - destruct H as (_ & _ & _ & a & efd & Hev & _ & _ & Hr).
    exists (WorkReport efd EPOLLIN le). cbn [loop_step].
    destruct (report_ready _ _ _ 0 a Hr) as [o E]; [done..|].
    change (2 ^ 0) with EPOLLIN in E. cbn [delivered]. rewrite E. split; [by eexists|].
    destruct (report_armed _ _ _ EPOLLIN o (mkEpollEvent EPOLLIN a) 0 a Hr) as (_ & Hrep); [done..|].
    by eapply (worker_working ep lp sv R).
  - destruct H as (_ & _ & a & efd & Hev & Hr).
    exists (IoReport (client_fd c) EPOLLOUT le). cbn [loop_step].
    destruct (report_ready _ _ _ 2 a Hr) as [o E]; [done..|].
    change (2 ^ 2) with EPOLLOUT in E. cbn [delivered]. rewrite E. split; [by eexists|].
    destruct (report_armed _ _ _ EPOLLOUT o (mkEpollEvent EPOLLOUT a) 2 a Hr) as (_ & Hrep); [done..|].
    by eapply (io_writing ep lp sv R).
Qed.

Lemma phases_reported_witness :
  ∃ lp sv r, refines demo_ep lp sv ∧ phases sv !! 1024 = Some Reading ∧ delivered demo_ep lp r ∧
    agree (step_agrees demo_ep) (loop_step demo_ep lp r)
      (run_server sv [LRead 1024 100 0 [Data (packet 48 (str "hello")); Again]]).
Proof.
  destruct demo_accepted as (s & lp & sv & Hs & Hlp & R & Hp).
  pose proof (on_accepted_ok _ s lp demo_calm Hs Hlp) as Hc. cbv beta in Hc.
  destruct (phases_reported demo_ep lp sv 1024 Reading (demo_le 2048) _ 20 R Hp eq_refl Hc) as (r & Hd & Hr).
  exists lp, sv, r. split_and!; [exact R|exact Hp|exact Hd|exact Hr].
Defined.

(** ** What the correspondence leaves out *)

(** The branch of [worker] up to the hand-over: the event is armed for the I/O loop and
    still in use. *)
Lemma worker_call_entries ep lp sv p c ev a efd le o e lp1 :
  refines ep lp sv → phases sv !! p = Some (Working ev) → conns sv !! p = Some c →
  event_of ep sv lp a efd ev → epoll_report (lp_os lp) (w_epollfd ep) efd EPOLLIN = Some (o, e) →
  worker_call le (set_os lp o) a = Ok lp1 →
  registered (lp_os lp1) (io_epollfd ep) (client_fd c) = Some (armed EPOLLOUT a) ∧
  sv_conf (lp_server lp1) = sv_conf sv ∧ conns (lp_server lp1) !! p = Some c ∧
  ∃ raw, lp_events lp1 !! a = Some (mkEventObj (io_epollfd ep) efd (mkEvent p raw (ev_payload ev))).
Proof.
  intros R Hp Hc Hev He H. pose proof Hev as [Ha _].
  destruct (rf_phase R p _ c Hp Hc) as (Hr & _). destruct (rf_inv R p _ Hp) as (_ & Hevp & Ht).
  destruct (eventfd_counter _ _ _ R p ev a efd Hp Hev) as (_ & _ & Hrw).
  destruct (report_armed _ _ _ EPOLLIN o e 0 a Hrw) as (_ & Hf & _ & _ & Hreg); [done..|].
  unfold worker_call, event_at in H. cbn [lp_events set_os lp_server lp_os] in H.
  rewrite Ha, res_bind_Ok_l in H. cbn [ie_event ie_io_event ie_epollfd] in H. rewrite (rf_server R), Hevp in H.
  apply res_bind_Ok in H as (c0 & Hc0 & H). unfold client_at in Hc0. cbn in Hc0.
  rewrite Hc in Hc0. injection Hc0 as <-. apply res_bind_Ok in H as (fo & Hof & H).
  apply res_bind_Ok in H as (f & Hf' & H). destruct fo as [f'|]; [|done]. injection Hf' as ->.
  destruct (typed_call_outcome _ f (le_handler le) c (sv_triedb sv) (sv_info sv) (sv_conf sv) Ht Hof)
    as (out & Hcall & Hcl).
  rewrite Hcall in H by done. unfold on_triedb in H. rewrite res_bind_assoc in H.
  apply res_bind_Ok in H as ([[[s c'] raw] rc] & Hout & H). apply Hcl in Hout as ->.
  rewrite res_bind_mret_l in H. apply res_bind_Ok in H as (? & _ & H).
  destruct (epoll_mod _ _ _ _ _ _) as [o2 rc2] eqn:Em. injection H as <-. cbn.
  split_and!; [|done|by rewrite lookup_insert_eq|exists raw; by rewrite lookup_insert_eq].
  destruct (eventfd_read_frame o efd) as (F1 & F2 & _). unfold epoll_mod, ctl_data in Em.
  destruct (epoll_ctl_mod (eventfd_read o efd).1 (io_epollfd ep) (client_fd c) (disarmed p)
    (mkEpollEvent (Z.lor (Z.lor EPOLLOUT EPOLLET) EPOLLONESHOT) a)) as (o3 & Eo3 & _ & _ & _ & Hr3).
  - unfold registered. rewrite F2. change (registered o (io_epollfd ep) (client_fd c) = Some (disarmed p)).
    rewrite Hreg, decide_False; [done|]. intros [E _]. by apply (rf_two R).
  - rewrite F1, Hf. by eapply (wf_regs _ (rf_wf R)).
  - rewrite Em in Eo3. injection Eo3 as -> _. by rewrite Hr3, decide_True.
Qed.

(** The rest of the branch of [worker] when the I/O loop gets the event of the connection
    first. *)
Definition overtaken (ep : epoll) (le : loop_env) (lp : loops) (a fd : Z) : res loops :=
  match epoll_report (lp_os lp) (io_epollfd ep) fd EPOLLOUT with
  | Some (o, e) => '(lp, _, _) ← io_dispatch ep le (set_os lp o) e; worker_after lp a
  | None => worker_after lp a
  end.

(** C32 The worker loop arms the connection for the reply while it still uses the io_event.
    When the I/O loop is told that the connection is writable before the worker loop goes
    on, it writes the reply and releases the io_event, and the worker loop then reads the
    released object to close its eventfd and to release the request. *)
Theorem event_release_race ep lp sv p c ev a efd le le' o e lp1 eo b raw :
  refines ep lp sv → phases sv !! p = Some (Working ev) → conns sv !! p = Some c →
  event_of ep sv lp a efd ev → epoll_report (lp_os lp) (w_epollfd ep) efd EPOLLIN = Some (o, e) →
  worker_call le (set_os lp o) a = Ok lp1 →
  lp_events lp1 !! a = Some eo → ev_reply (ie_event eo) = Some (b :: raw) →
  overtaken ep le' lp1 a (client_fd c) = Err UseAfterFree.
Proof.
  intros R Hp Hc Hev He Hcall Heo Hraw.
  destruct (worker_call_entries _ _ _ _ _ _ _ _ _ _ _ _ R Hp Hc Hev He Hcall)
    as (Hr & Hcf & Hcl & raw' & Heo').
  rewrite Heo in Heo'. injection Heo' as ->. cbn in Hraw. subst raw'.
  destruct (report_ready _ _ _ 2 a Hr) as [o1 E1]; [done..|]. change (2 ^ 2) with EPOLLOUT in E1.
  unfold overtaken. rewrite E1. destruct Hev as [_ (Hp1 & _ & Hp3)]. unfold io_dispatch.
  rewrite EPOLL_ERR_out. cbn [ev_data ev_events set_os lp_server]. rewrite Hcf.
  rewrite (proj2 (Z.eqb_neq _ _) Hp1), bus_test, bool_decide_false by done.
  change (negb (Z.land EPOLLOUT EPOLLIN =? 0)) with false.
  change (negb (Z.land EPOLLOUT EPOLLOUT =? 0)) with true. cbv iota.
  unfold io_out, event_at, client_at. cbn [set_os lp_events lp_server lp_os]. rewrite Heo, res_bind_Ok_l.
  cbn [ie_event ev_client ev_reply]. rewrite Hcl, res_bind_Ok_l.
  destruct (send_bytes (le_out le') (b :: raw)) as [[? bs] sent].
  destruct (epoll_mod _ _ _ _ _ _) as [o2 rc2]. change (aget (b :: raw) 0) with (Ok b).
  rewrite !res_bind_Ok_l. unfold worker_after, event_at. cbn. by rewrite lookup_delete_eq.
Qed.

(** The [io_event] of a disarmed connection waits for the worker loop. *)
Lemma event_is_working ep lp sv a eo c d :
  refines ep lp sv → lp_events lp !! a = Some eo → conns sv !! ev_client (ie_event eo) = Some c →
  registered (lp_os lp) (io_epollfd ep) (client_fd c) = Some (disarmed d) →
  phases sv !! ev_client (ie_event eo) = Some (Working (ie_event eo)).
Proof.
  intros R Ha Hc Hr. destruct (rf_events R a eo Ha) as [H|H]; [done|].
  destruct (rf_phase R _ _ c H Hc) as (_ & _ & x & efd & _ & Hr'). rewrite Hr in Hr'.
  destruct (armed_disarmed EPOLLOUT x d); [by right|congruence].
Qed.

(** The request of the example has been read. *)
Lemma demo_working :
  ∃ lp sv ev c, refines demo_ep lp sv ∧ phases sv !! 1024 = Some (Working ev) ∧
    conns sv !! 1024 = Some c ∧ client_fd c = 20 ∧ event_of demo_ep sv lp 2048 21 ev ∧
    on_accepted (λ lp0,
      loop_step demo_ep lp0 (IoReport 20 EPOLLIN (demo_le 2048)) = Ok (lp, None, Continue)).
Proof.
  destruct demo_accepted as (s & lp & sv & Hs & Hlp & R & _).
  pose proof (on_accepted_ok _ s lp demo_calm Hs Hlp) as Hc. cbv beta in Hc.
  assert (on_accepted (λ lp, match loop_step demo_ep lp (IoReport 20 EPOLLIN (demo_le 2048)) with
    | Ok (lp1, out, v) => out = None ∧ v = Continue ∧
        option_map ie_io_event (lp_events lp1 !! 2048) = Some 21 ∧
        option_map ie_epollfd (lp_events lp1 !! 2048) = Some 10 ∧
        option_map (λ eo, ev_client (ie_event eo)) (lp_events lp1 !! 2048) = Some 1024 ∧
        option_map client_fd (conns (lp_server lp1) !! 1024) = Some 20 ∧
        registered (lp_os lp1) 10 20 = Some (disarmed 1024) ∧
        Config.run (sv_conf (lp_server lp1)) = 3
    | Err _ => False end)) as Hok by (vm_compute; repeat split).
  pose proof (on_accepted_ok _ s lp Hok Hs Hlp) as Ho. cbv beta in Ho. clear Hok.
  destruct (io_step_refines demo_ep lp sv 20 EPOLLIN (demo_le 2048) R Hc) as (ls & _ & Hls).
  destruct (loop_step demo_ep lp (IoReport 20 EPOLLIN (demo_le 2048))) as [[[lp1 out] v]|] eqn:El; [|destruct Ho].
  destruct Ho as (-> & -> & H1 & H2 & H3 & H4 & H5 & H6).
  destruct (run_server sv ls) as [[sv1 outs]|]; [|destruct Hls]. destruct Hls as [_ R1]. cbn [fst snd] in R1.
  rewrite (rf_server R1) in H4, H6. cbn [conns erase sv_conf] in H4, H6.
  destruct (lp_events lp1 !! 2048) as [[ie ef ev]|] eqn:Ee; [|discriminate H1].
  cbn in H1, H2, H3. injection H1 as ->. injection H2 as ->. injection H3 as H3.
  destruct (conns sv1 !! 1024) as [c|] eqn:Ec; [|discriminate H4]. cbn in H4. injection H4 as H4.
  exists lp1, sv1, ev, c. split_and!; [exact R1| |exact Ec|exact H4| |].
  - pose proof (event_is_working demo_ep lp1 sv1 2048 (mkEventObj 10 21 ev) c 1024 R1 Ee) as H.
    cbn [ie_event] in H. rewrite H3, H4 in H. apply H; [exact Ec|exact H5].
  - split; [exact Ee|]. unfold ptr_ok. rewrite H6. calm_eval.
  - unfold on_accepted. rewrite Hs, Hlp. exact El.
Qed.

Lemma event_release_race_witness :
  ∃ lp sv ev c o e lp1, refines demo_ep lp sv ∧
    phases sv !! 1024 = Some (Working ev) ∧ conns sv !! 1024 = Some c ∧
    epoll_report (lp_os lp) (w_epollfd demo_ep) 21 EPOLLIN = Some (o, e) ∧
    worker_call (demo_le 2048) (set_os lp o) 2048 = Ok lp1 ∧
    overtaken demo_ep (demo_le 4096) lp1 2048 (client_fd c) = Err UseAfterFree.
Proof.
  destruct demo_working as (lp & sv & ev & c & R & Hp & Hc & Hfd & Hev & Hstep).
  destruct demo_accepted as (s & lp0 & _ & Hs & Hlp & _).
  pose proof (on_accepted_ok _ s lp0 Hstep Hs Hlp) as Hst. cbv beta in Hst. clear Hstep.
  assert (on_accepted (λ lp0, match loop_step demo_ep lp0 (IoReport 20 EPOLLIN (demo_le 2048)) with
    | Ok (lp, _, _) =>
        match epoll_report (lp_os lp) (w_epollfd demo_ep) 21 EPOLLIN with
        | Some (o, _) =>
            match worker_call (demo_le 2048) (set_os lp o) 2048 with
            | Ok lp1 => option_map (λ eo, ev_reply (ie_event eo)) (lp_events lp1 !! 2048) =
                          Some (Some ack_nok)
            | Err _ => False
            end
        | None => False
        end
    | Err _ => False
    end)) as Hok by (vm_compute; reflexivity).
  pose proof (on_accepted_ok _ s lp0 Hok Hs Hlp) as Ho. cbv beta in Ho. clear Hok. rewrite Hst in Ho.
  destruct (epoll_report (lp_os lp) (w_epollfd demo_ep) 21 EPOLLIN) as [[o e]|] eqn:E1; [|destruct Ho].
  destruct (worker_call (demo_le 2048) (set_os lp o) 2048) as [lp1|] eqn:E2; [|destruct Ho].
  destruct (lp_events lp1 !! 2048) as [eo|] eqn:E3; [|discriminate Ho]. cbn in Ho. injection Ho as E4.
  exists lp, sv, ev, c, o, e, lp1.
  split_and!; [exact R|exact Hp|exact Hc|exact E1|exact E2|].
  exact (event_release_race demo_ep lp sv 1024 c ev 2048 21 (demo_le 2048) (demo_le 4096) o e lp1 eo _ _
    R Hp Hc Hev E1 E2 E3 E4).
Defined.

(** An event with an error or a hang-up: [data] holds the address of the client, and what
    the loop closes is the descriptor with the number of its low half.  The connection stays
    open and nothing is reported for it again. *)
Theorem error_event_keeps_connection ep lp sv p c le ready o e :
  refines ep lp sv → phases sv !! p = Some Reading → conns sv !! p = Some c →
  Z.land ready EPOLLHUP ≠ 0 → data_fd p ≠ client_fd c → data_fd p ≠ io_epollfd ep →
  epoll_report (lp_os lp) (io_epollfd ep) (client_fd c) ready = Some (o, e) →
  ∃ o', io_dispatch ep le (set_os lp o) e = Ok (set_os lp o', None, Continue) ∧
    o_fds o' = delete (data_fd p) (o_fds (lp_os lp)) ∧ is_Some (o_fds o' !! client_fd c) ∧
    ∀ ready', epoll_report o' (io_epollfd ep) (client_fd c) ready' = None.
Proof.
  intros R Hp Hc Hh Hd Hi He. destruct (rf_phase R p _ c Hp Hc) as (Hr & _).
  assert (is_Some (o_fds (lp_os lp) !! client_fd c)) as Hop by (by eapply (wf_regs _ (rf_wf R))).
  apply epoll_report_spec in He as (r & Hr' & Hev & _ & Hda & Hf & _ & _ & Hreg).
  rewrite Hr in Hr'. injection Hr' as <-.
  assert (EPOLL_ERR e = true) as Herr.
  { unfold EPOLL_ERR. rewrite Hev. cbn [armed ev_events].
    assert (Z.land (Z.land (Z.lor (Z.lor EPOLLIN FLAGS) ALWAYS) (Z.land ready (Z.lnot FLAGS))) EPOLLHUP
            = Z.land ready EPOLLHUP) as ->; [|by rewrite (proj2 (Z.eqb_neq _ _) Hh), orb_true_r].
    rewrite (Z.land_comm _ EPOLLHUP), !Z.land_assoc.
    change (Z.land EPOLLHUP (Z.lor (Z.lor EPOLLIN FLAGS) ALWAYS)) with EPOLLHUP.
    rewrite <-Z.land_assoc, (Z.land_comm ready), Z.land_assoc.
    change (Z.land EPOLLHUP (Z.lnot FLAGS)) with EPOLLHUP. apply Z.land_comm. }
  unfold io_dispatch. rewrite Herr. cbn [lp_os set_os]. rewrite Hda. cbn [ev_data armed].
  exists (os_close o (data_fd p)).1. split; [done|].
  assert (registered o (io_epollfd ep) (client_fd c) = Some (disarmed p)) as Hro.
  { by rewrite Hreg, decide_True. }
  destruct (decide (is_Some (o_fds o !! data_fd p))) as [Hs|Hn].
  - destruct (os_close_spec o (data_fd p) Hs) as (o' & -> & Hf' & _ & _ & Hr'). cbn [fst]. rewrite Hf', Hf.
    split_and!; [done|by rewrite lookup_delete_ne|].
    intros ready'. eapply report_disarmed. by rewrite Hr', decide_False by naive_solver.
  - unfold os_close. rewrite decide_False by done. cbn [fst]. rewrite Hf in *.
    split_and!; [|done|intros; by eapply report_disarmed].
    rewrite delete_id; [done|]. by apply eq_None_not_Some.
Qed.

Lemma error_event_keeps_connection_witness :
  ∃ lp sv c o e o', refines demo_ep lp sv ∧ conns sv !! 1024 = Some c ∧
    epoll_report (lp_os lp) (io_epollfd demo_ep) (client_fd c) (Z.lor EPOLLIN EPOLLHUP) = Some (o, e) ∧
    io_dispatch demo_ep (demo_le 2048) (set_os lp o) e = Ok (set_os lp o', None, Continue) ∧
    is_Some (o_fds o' !! client_fd c) ∧
    ∀ ready', epoll_report o' (io_epollfd demo_ep) (client_fd c) ready' = None.
Proof.
  destruct demo_accepted as (s & lp & sv & Hs & Hlp & R & Hp).
  destruct (rf_inv R 1024 _ Hp) as ([c Hc] & _).
  assert (on_accepted (λ lp, option_map client_fd (conns (lp_server lp) !! 1024) = Some 20 ∧
    is_Some (epoll_report (lp_os lp) (io_epollfd demo_ep) 20 (Z.lor EPOLLIN EPOLLHUP)))) as Hok
    by (vm_compute; split; [reflexivity|by eexists]).
  pose proof (on_accepted_ok _ s lp Hok Hs Hlp) as Ho. cbv beta in Ho. clear Hok. destruct Ho as [Hfd [[o e] Ho]].
  rewrite (rf_server R) in Hfd. cbn [conns erase] in Hfd. rewrite Hc in Hfd. cbn in Hfd. injection Hfd as Hfd.
  rewrite <-Hfd in Ho.
  destruct (error_event_keeps_connection demo_ep lp sv 1024 c (demo_le 2048) (Z.lor EPOLLIN EPOLLHUP) o e
    R Hp Hc) as (o' & H1 & _ & H2 & H3);
    [discriminate|rewrite Hfd; discriminate|discriminate|exact Ho|].
  exists lp, sv, c, o, e, o'. split_and!; [exact R|exact Hc|exact Ho|exact H1|exact H2|exact H3].
Defined.
