(* ===== verification/Batch.v ===== *)
(** * Batches: what epoll_wait returns and when it is dispatched

    [epoll_wait] returns up to EPOLL_MAX_EVENTS events at once, and the thread goes through
    them one by one, while the other threads go on.  So an event is dispatched some time
    after it was taken from its instance.  Here a step takes one event, or dispatches one of
    those that were taken; a batch is a number of takes, and the order in which events are
    dispatched is left open, so that the schedules include those of any number of threads
    of either loop.  The relation of Loop holds for the state in which the entries of the
    events that were taken are armed again. *)

From S2P Require Import Prelude Util Config Store Bst Vec Trie Pack Db Protocol Network Hashtable.
From S2P Require Import Os Sockets Server Commands Worker Loop Accept Events.

(** ** Data *)

(** An event in the array [e_events] of a thread, not dispatched yet. *)
Record taken := mkTaken {
  tk_io : bool;               (* by [io_worker], otherwise by [worker] *)
  tk_fd : Z;
  tk_event : epoll_event
}.

Inductive action :=
| Take (io : bool) (fd ready : Z)
| Dispatch (i : nat) (le : loop_env).

(** ** Operations *)

Definition instance_fd (ep : epoll) (io : bool) : Z := if io then io_epollfd ep else w_epollfd ep.

Definition dispatch (ep : epoll) (io : bool) (le : loop_env) (lp : loops) (e : epoll_event)
  : res (loops * option (Z * list Z) * verdict) :=
  if io then io_dispatch ep le lp e else worker_dispatch ep le lp e.

(** One entry of the result of [epoll_wait], or one round of the loop over the events.  A
    thread that leaves its loop leaves the rest of its batch undispatched, which is a
    schedule too. *)
Definition act (ep : epoll) (lp : loops) (ts : list taken) (x : action)
  : res (loops * list taken * option (Z * list Z)) :=
  match x with
  | Take io fd ready =>
      match epoll_report (lp_os lp) (instance_fd ep io) fd ready with
      | Some (o, e) => mret (set_os lp o, ts ++ [mkTaken io fd e], None)
      | None => mret (lp, ts, None)
      end
  | Dispatch i le =>
      match ts !! i with
      | Some t =>
          '(lp, out, _) ← dispatch ep (tk_io t) le lp (tk_event t);
          mret (lp, delete i ts, out)
      | None => mret (lp, ts, None)
      end
  end.

Fixpoint run_schedule (ep : epoll) (lp : loops) (ts : list taken) (xs : list action)
  : res (loops * list taken * list (Z * list Z)) :=
  match xs with
  | [] => Ok (lp, ts, [])
  | x :: xs =>
      '(lp, ts, out) ← act ep lp ts x;
      '(lp, ts, outs) ← run_schedule ep lp ts xs;
      mret (lp, ts, option_list out ++ outs)
  end.

(** ** The entries armed again *)

Definition restore (o : os) (efd fd : Z) (r : epoll_event) : os :=
  mkOs (o_fds o) (alter (<[fd := r]>) efd (o_epolls o)) (o_counters o).

Lemma registered_restore o efd fd r e x :
  is_Some (o_epolls o !! efd) →
  registered (restore o efd fd r) e x = if decide (e = efd ∧ x = fd) then Some r else registered o e x.
Proof.
  intros [regs He]. unfold registered, restore. cbn. destruct (decide (e = efd)) as [->|Hne].
  - rewrite lookup_alter_eq, He. cbn. destruct (decide (x = fd)) as [->|Hx].
    + by rewrite lookup_insert_eq, decide_True.
    + by rewrite lookup_insert_ne, decide_False by naive_solver.
  - by rewrite lookup_alter_ne, decide_False by naive_solver.
Qed.

(** A report undone, and an entry reported again. *)
Lemma restore_report o efd fd ready o' e r :
  registered o efd fd = Some r → epoll_report o efd fd ready = Some (o', e) →
  restore o' efd fd r = o.
Proof.
  intros (regs & He & Hr)%registered_regs H. unfold epoll_report in H. rewrite He in H.
  cbn [mbind option_bind] in H. rewrite Hr in H. cbn [mbind option_bind] in H.
  destruct (_ =? 0); [done|]. injection H as <- _. unfold restore, set_interest. cbn.
  destruct o as [fds eps cs]. cbn in *. f_equal.
  rewrite alter_insert_eq, insert_insert_eq, (insert_id regs fd r) by done. by rewrite insert_id.
Qed.

Lemma report_restore o efd fd k d :
  registered o efd fd = Some (disarmed d) → 0 <= k → Z.land (2 ^ k) FLAGS = 0 →
  Z.land (2 ^ k) EPOLLONESHOT = 0 → no_error (2 ^ k) →
  epoll_report (restore o efd fd (armed (2 ^ k) d)) efd fd (2 ^ k) = Some (o, mkEpollEvent (2 ^ k) d).
Proof.
  intros (regs & He & Hr)%registered_regs Hk Hf Hs Hn. unfold epoll_report, restore. cbn [o_epolls].
  rewrite lookup_alter_eq, He. cbn [fmap option_fmap option_map mbind option_bind].
  rewrite lookup_insert_eq. cbn [mbind option_bind]. rewrite armed_report, Z.land_diag by done.
  rewrite (proj2 (Z.eqb_neq (2 ^ k) 0)) by lia. cbn [armed ev_data ev_events].
  assert (Z.land (Z.lor (Z.lor (2 ^ k) FLAGS) ALWAYS) EPOLLONESHOT = EPOLLONESHOT) as ->.
  { rewrite !Z.land_lor_distr_l, Hs. reflexivity. }
  change (EPOLLONESHOT =? 0) with false. cbv iota.
  assert (Z.land (Z.lor (Z.lor (2 ^ k) FLAGS) ALWAYS) FLAGS = FLAGS) as ->.
  { rewrite !Z.land_lor_distr_l, Hf, Z.land_diag. reflexivity. }
  do 2 f_equal. unfold set_interest. destruct o as [fds eps cs]. cbn in *. f_equal.
  rewrite insert_insert_eq, (insert_id regs fd) by done. apply map_eq. intros x.
  destruct (decide (x = efd)) as [->|Hx]; [by rewrite lookup_insert_eq|].
  by rewrite lookup_insert_ne, lookup_alter_ne.
Qed.

(** ** Calls on other descriptors commute with it *)

Lemma restore_set_interest o e2 fd2 r2 efd regs fd r :
  o_epolls o !! efd = Some regs → (efd = e2 → fd ≠ fd2) →
  set_interest (restore o e2 fd2 r2) efd
    (<[fd := r]> (if decide (efd = e2) then <[fd2 := r2]> regs else regs)) =
  restore (set_interest o efd (<[fd := r]> regs)) e2 fd2 r2.
Proof.
  intros He Hne. unfold restore, set_interest. cbn. f_equal. apply map_eq. intros y.
  destruct (decide (efd = e2)) as [->|Hef].
  - destruct (decide (y = e2)) as [->|Hy].
    + rewrite lookup_insert_eq, lookup_alter_eq, lookup_insert_eq. cbn. by rewrite insert_insert_ne by auto.
    + by rewrite lookup_insert_ne, !lookup_alter_ne, lookup_insert_ne.
  - destruct (decide (y = efd)) as [->|Hy].
    + by rewrite lookup_insert_eq, lookup_alter_ne, lookup_insert_eq.
    + rewrite lookup_insert_ne by done. destruct (decide (y = e2)) as [->|Hy2].
      * by rewrite !lookup_alter_eq, lookup_insert_ne.
      * by rewrite !lookup_alter_ne, lookup_insert_ne.
Qed.

Lemma restore_ctl o e2 fd2 r2 efd op fd ev :
  op ≠ EPOLL_CTL_DEL → (efd = e2 → fd ≠ fd2) →
  epoll_ctl (restore o e2 fd2 r2) efd op fd ev =
    (restore (epoll_ctl o efd op fd ev).1 e2 fd2 r2, (epoll_ctl o efd op fd ev).2).
Proof.
  intros Hop Hne. unfold epoll_ctl. cbn [restore o_epolls o_fds].
  assert (alter (<[fd2 := r2]>) e2 (o_epolls o) !! efd =
    (λ regs, if decide (efd = e2) then <[fd2 := r2]> regs else regs) <$> (o_epolls o !! efd)) as ->.
  { destruct (decide (efd = e2)) as [->|Hef]; [by rewrite lookup_alter_eq|].
    rewrite lookup_alter_ne by done. by destruct (o_epolls o !! efd). }
  destruct (o_epolls o !! efd) as [regs|] eqn:E; cbn; [|done].
  destruct (decide (is_Some (o_fds o !! fd))); [|done].
  assert ((if decide (efd = e2) then <[fd2 := r2]> regs else regs) !! fd = regs !! fd) as ->.
  { destruct (decide (efd = e2)); [|done]. by rewrite lookup_insert_ne by (intros ->; by apply Hne). }
  pose proof (λ r, restore_set_interest o e2 fd2 r2 efd regs fd r E Hne) as Hs.
  destruct op, (regs !! fd); try done; cbn; by rewrite Hs.
Qed.

Lemma restore_close o e2 fd2 r2 fd :
  fd ≠ e2 → fd ≠ fd2 → (os_close (restore o e2 fd2 r2) fd).1 = restore (os_close o fd).1 e2 fd2 r2.
Proof.
  intros H1 H2. unfold os_close. cbn [restore o_fds].
  destruct (decide (is_Some (o_fds o !! fd))); [|done]. cbn. unfold restore. cbn. f_equal.
  apply map_eq. intros y. rewrite lookup_fmap. destruct (decide (y = fd)) as [->|Hy].
  - rewrite lookup_delete_eq, lookup_alter_ne, lookup_fmap, lookup_delete_eq by done. done.
  - rewrite lookup_delete_ne by done. destruct (decide (y = e2)) as [->|Hy2].
    + rewrite !lookup_alter_eq, lookup_fmap, lookup_delete_ne by done.
      destruct (o_epolls o !! e2); cbn; [|done]. by rewrite delete_insert_ne by auto.
    + by rewrite !lookup_alter_ne, lookup_fmap, lookup_delete_ne.
Qed.

Lemma restore_eventfd o e2 fd2 r2 fd n :
  eventfd (restore o e2 fd2 r2) fd n = restore (eventfd o fd n) e2 fd2 r2.
Proof. done. Qed.

Lemma restore_write o e2 fd2 r2 fd n :
  eventfd_write (restore o e2 fd2 r2) fd n = restore (eventfd_write o fd n) e2 fd2 r2.
Proof. unfold eventfd_write. cbn. by destruct (o_counters o !! fd). Qed.

Lemma restore_read o e2 fd2 r2 fd :
  (eventfd_read (restore o e2 fd2 r2) fd).1 = restore (eventfd_read o fd).1 e2 fd2 r2.
Proof. unfold eventfd_read. cbn. destruct (o_counters o !! fd) as [k|]; [|done]. by destruct (0 <? k). Qed.

(** ** Dispatching commutes with it *)

Definition with_entry (e2 fd2 : Z) (r2 : epoll_event) (lp : loops) : loops :=
  set_os lp (restore (lp_os lp) e2 fd2 r2).

(** What a branch concerns is neither the descriptor [fd2] nor the instance [e2]. *)
Definition client_clear (lp : loops) (p e2 fd2 : Z) : Prop :=
  ∀ c, conns (lp_server lp) !! p = Some c → client_fd c ≠ fd2 ∧ client_fd c ≠ e2.

Definition event_clear (lp : loops) (a e2 fd2 : Z) : Prop :=
  ∀ eo, lp_events lp !! a = Some eo → client_clear lp (ev_client (ie_event eo)) e2 fd2.

Definition worker_clear (lp : loops) (a e2 fd2 : Z) : Prop :=
  ∀ eo, lp_events lp !! a = Some eo →
    ie_io_event eo ≠ fd2 ∧ ie_io_event eo ≠ e2 ∧ request_typed (ev_payload (ie_event eo)).

Definition dispatch_clear (ep : epoll) (io : bool) (le : loop_env) (lp : loops) (e : epoll_event)
    (e2 fd2 : Z) : Prop :=
  data_fd (ev_data e) ≠ Config.run (sv_conf (lp_server lp)) →
  if io then
    data_fd (ev_data e) ∉ bus_fds ep →
    le_eventfd le ≠ fd2 ∧
    (ev_events e = EPOLLIN → client_clear lp (ev_data e) e2 fd2) ∧
    (ev_events e = EPOLLOUT → event_clear lp (ev_data e) e2 fd2)
  else
    data_fd (ev_data e) ≠ expirefd ep →
    event_clear lp (ev_data e) e2 fd2 ∧ worker_clear lp (ev_data e) e2 fd2.

Section Commute.
Context (e2 fd2 : Z) (r2 : epoll_event) (ep : epoll) (le : loop_env) (lp : loops).

Lemma io_in_commutes p :
  le_eventfd le ≠ fd2 → client_clear lp p e2 fd2 →
  io_in ep le (with_entry e2 fd2 r2 lp) p =
    (lp' ← io_in ep le lp p; mret (with_entry e2 fd2 r2 lp')).
Proof.
  intros Hev C.
  unfold io_in, with_entry. cbn [lp_server lp_os lp_events set_os]. unfold client_at.
  destruct (conns (lp_server lp) !! p) as [c|] eqn:Ec; [|done].
  destruct (C c Ec) as [H1 H2]. rewrite !res_bind_Ok_l.
  destruct (read_data _ _ _ _ _) as [r|]; [|done]. rewrite !res_bind_Ok_l.
  assert ((if rr_closed r then (os_close (restore (lp_os lp) e2 fd2 r2) (client_fd c)).1
           else restore (lp_os lp) e2 fd2 r2) =
          restore (if rr_closed r then (os_close (lp_os lp) (client_fd c)).1 else lp_os lp) e2 fd2 r2) as ->.
  { destruct (rr_closed r); [by apply restore_close|done]. }
  destruct (rr_rc r =? 0).
  - destruct (deref (rr_pkt r)) as [pkt|]; [|done]. rewrite !res_bind_Ok_l, restore_eventfd.
    unfold epoll_add. rewrite restore_ctl by done.
    destruct (epoll_ctl _ _ _ _ _) as [o rc]. cbn [fst snd]. rewrite restore_write.
    cbn. by rewrite Ec.
  - destruct (rr_rc r =? - ERRCLIENTDC).
    + rewrite restore_close by done. destruct (hashtable_get _ _) as [val|]; [|done]. rewrite !res_bind_Ok_l.
      destruct (hashtable_del _ _) as [[t rc]|]; [|done]. rewrite !res_bind_Ok_l. unfold event_at. cbn.
      by rewrite lookup_delete_eq.
    + cbn. by rewrite Ec.
Qed.

Lemma io_out_commutes a :
  event_clear lp a e2 fd2 →
  io_out ep le (with_entry e2 fd2 r2 lp) a =
    ('(lp', out) ← io_out ep le lp a; mret (with_entry e2 fd2 r2 lp', out)).
Proof.
  intros C.
  unfold io_out, with_entry, event_at. cbn [lp_server lp_os lp_events set_os].
  destruct (lp_events lp !! a) as [eo|] eqn:Ee; [|done]. rewrite !res_bind_Ok_l. unfold client_at.
  destruct (conns (lp_server lp) !! ev_client (ie_event eo)) as [c|] eqn:Ec; [|done].
  destruct (C eo Ee c Ec) as [H1 H2]. rewrite !res_bind_Ok_l.
  destruct (ev_reply (ie_event eo)) as [raw|]; [|done].
  destruct (send_bytes (le_out le) raw) as [[? bs] sent].
  assert ((if sent <? 0 then (os_close (restore (lp_os lp) e2 fd2 r2) (client_fd c)).1
           else restore (lp_os lp) e2 fd2 r2) =
          restore (if sent <? 0 then (os_close (lp_os lp) (client_fd c)).1 else lp_os lp) e2 fd2 r2) as ->.
  { destruct (sent <? 0); [by apply restore_close|done]. }
  unfold epoll_mod. rewrite restore_ctl by done. destruct (epoll_ctl _ _ _ _ _) as [o rc].
  cbn [fst snd]. by destruct (aget raw 0).
Qed.

Lemma worker_in_commutes a :
  event_clear lp a e2 fd2 → worker_clear lp a e2 fd2 →
  worker_in le (with_entry e2 fd2 r2 lp) a =
    (lp' ← worker_in le lp a; mret (with_entry e2 fd2 r2 lp')).
Proof.
  intros C W.
  unfold worker_in, worker_call, with_entry, event_at. cbn [lp_server lp_os lp_events set_os].
  destruct (lp_events lp !! a) as [eo|] eqn:Ee; [|done]. rewrite !res_bind_Ok_l.
  destruct (client_at (lp_server lp) (ev_client (ie_event eo))) as [c|] eqn:Ec; [|done].
  assert (conns (lp_server lp) !! ev_client (ie_event eo) = Some c) as Ec'.
  { unfold client_at in Ec. by destruct (conns (lp_server lp) !! _); simplify_eq. }
  destruct (C eo Ee c Ec') as [H1 H2], (W eo Ee) as (H3 & H4 & Ht).
  rewrite !res_bind_Ok_l. destruct (aget handlers _) as [[f|]|] eqn:Ef; [|done|done]. rewrite !res_bind_Ok_l.
  destruct (typed_call_outcome _ f (le_handler le) c (sv_triedb (lp_server lp)) (sv_info (lp_server lp))
    (sv_conf (lp_server lp)) Ht Ef) as (out & Hcall & Hcl).
  cbn [deref]. rewrite !res_bind_Ok_l, !Hcall by done. unfold on_triedb.
  destruct out as [[[[s c'] raw] rc]|]; [|done]. rewrite (Hcl s c' raw rc eq_refl). cbn -[eventfd_read].
  unfold client_at. cbn -[eventfd_read]. rewrite Ec'. cbn -[eventfd_read].
  rewrite restore_read. unfold epoll_mod. rewrite restore_ctl by done.
  destruct (epoll_ctl _ _ _ _ _) as [o rc']. unfold worker_after, event_at. cbn.
  rewrite lookup_insert_eq. cbn. by rewrite restore_close.
Qed.
(** Whole dispatches. *)
Lemma dispatch_commutes io e :
  ev_events e = EPOLLIN ∨ ev_events e = EPOLLOUT → dispatch_clear ep io le lp e e2 fd2 →
  dispatch ep io le (with_entry e2 fd2 r2 lp) e =
    ('(lp', out, v) ← dispatch ep io le lp e; mret (with_entry e2 fd2 r2 lp', out, v)).
Proof.
  intros He C. unfold dispatch_clear in C. unfold dispatch, io_dispatch, worker_dispatch.
  assert (EPOLL_ERR e = false) as -> by (unfold EPOLL_ERR; by destruct He as [->| ->]).
  change (lp_server (with_entry e2 fd2 r2 lp)) with (lp_server lp).
  destruct (Z.eqb_spec (data_fd (ev_data e)) (Config.run (sv_conf (lp_server lp)))) as [Er|Er].
  { change (lp_os (with_entry e2 fd2 r2 lp)) with (restore (lp_os lp) e2 fd2 r2).
    rewrite restore_read. by destruct io. }
  specialize (C Er). destruct io.
  - rewrite bus_test. destruct (bool_decide_reflect (data_fd (ev_data e) ∈ bus_fds ep)) as [Hb|Hb].
    { by destruct (bus_event _ _ _) as [[sv pkt]|]. }
    destruct (C Hb) as (C1 & C2 & C3).
    destruct He as [He|He]; rewrite !He.
    + change (negb (Z.land EPOLLIN EPOLLIN =? 0)) with true. cbv iota.
      rewrite io_in_commutes by auto. by destruct (io_in ep le lp (ev_data e)).
    + change (negb (Z.land EPOLLOUT EPOLLIN =? 0)) with false.
      change (negb (Z.land EPOLLOUT EPOLLOUT =? 0)) with true. cbv iota.
      rewrite io_out_commutes by auto. by destruct (io_out ep le lp (ev_data e)) as [[? ?]|].
  - destruct (Z.eqb_spec (data_fd (ev_data e)) (expirefd ep)) as [Ex|Ex].
    { by destruct (expire_keys _ _). }
    destruct (C Ex) as [C1 C2]. destruct (negb _); [|done].
    rewrite worker_in_commutes by done. by destruct (worker_in le lp (ev_data e)).
Qed.
End Commute.

(** ** What was taken *)

(** An entry without EPOLLONESHOT is still there. *)
Definition persistent (ep : epoll) (runfd : Z) (t : taken) : Prop :=
  tk_fd t ∈ expirefd ep :: runfd :: bus_fds ep.

#[export] Instance persistent_dec ep runfd t : Decision (persistent ep runfd t).
Proof. unfold persistent. apply _. Defined.

Definition rearm (ep : epoll) (runfd : Z) (t : taken) (lp : loops) : loops :=
  if decide (persistent ep runfd t) then lp
  else with_entry (instance_fd ep (tk_io t)) (tk_fd t)
         (armed (ev_events (tk_event t)) (ev_data (tk_event t))) lp.

Definition rearm_all (ep : epoll) (runfd : Z) (ts : list taken) (lp : loops) : loops :=
  foldr (rearm ep runfd) lp ts.

Definition keys (ep : epoll) (runfd : Z) (ts : list taken) : list (bool * Z) :=
  omap (λ t, if decide (persistent ep runfd t) then None else Some (tk_io t, tk_fd t)) ts.

Definition taken_ok (ep : epoll) (runfd : Z) (lp : loops) (t : taken) : Prop :=
  let e := tk_event t in
  let r := registered (lp_os lp) (instance_fd ep (tk_io t)) (tk_fd t) in
  if decide (persistent ep runfd t) then
    ev_events e = EPOLLIN ∧ data_fd (ev_data e) = tk_fd t ∧
    ∃ w, r = Some w ∧ watched w ∧ ev_data w = ev_data e
  else r = Some (disarmed (ev_data e)) ∧ (ev_events e = EPOLLIN ∨ ev_events e = EPOLLOUT).

(** The relation: the loops with the taken events armed again correspond to the server. *)
Record batched (ep : epoll) (lp : loops) (ts : list taken) (sv : server) : Prop := {
  bt_refines : refines ep (rearm_all ep (Config.run (sv_conf sv)) ts lp) sv;
  bt_taken : Forall (taken_ok ep (Config.run (sv_conf sv)) lp) ts;
  bt_keys : NoDup (keys ep (Config.run (sv_conf sv)) ts)
}.
Arguments bt_refines {_ _ _ _} _.
Arguments bt_taken {_ _ _ _} _.
Arguments bt_keys {_ _ _ _} _.

Section Rearm.
Context (ep : epoll) (runfd : Z).

Lemma rearm_all_same ts lp :
  lp_server (rearm_all ep runfd ts lp) = lp_server lp ∧
  lp_events (rearm_all ep runfd ts lp) = lp_events lp ∧
  o_fds (lp_os (rearm_all ep runfd ts lp)) = o_fds (lp_os lp) ∧
  o_counters (lp_os (rearm_all ep runfd ts lp)) = o_counters (lp_os lp) ∧
  ∀ e, is_Some (o_epolls (lp_os (rearm_all ep runfd ts lp)) !! e) ↔ is_Some (o_epolls (lp_os lp) !! e).
Proof.
  induction ts as [|t ts IH]; [done|]. cbn. unfold rearm at 1 3 5 7 9.
  destruct (decide (persistent ep runfd t)); [done|]. destruct IH as (H1 & H2 & H3 & H4 & H5).
  split_and!; [done..|]. intros e. rewrite <-H5. cbn.
  destruct (decide (e = instance_fd ep (tk_io t))) as [->|Hne].
  - rewrite lookup_alter_eq. by rewrite fmap_is_Some.
  - by rewrite lookup_alter_ne.
Qed.
Context (Hio : io_epollfd ep ≠ w_epollfd ep).

Lemma instance_fd_inj io io' : instance_fd ep io = instance_fd ep io' → io = io'.
Proof. destruct io, io'; cbn; intros; congruence. Qed.

Lemma keys_cons t ts :
  keys ep runfd (t :: ts) =
    if decide (persistent ep runfd t) then keys ep runfd ts
    else (tk_io t, tk_fd t) :: keys ep runfd ts.
Proof. unfold keys. cbn. by destruct (decide (persistent ep runfd t)). Qed.

Lemma elem_of_keys t ts :
  t ∈ ts → ¬ persistent ep runfd t → (tk_io t, tk_fd t) ∈ keys ep runfd ts.
Proof. intros Hin Hp. apply list_elem_of_omap. exists t. by rewrite decide_False. Qed.

(** Entries that were not taken. *)
Lemma rearm_all_other ts lp io fd :
  (∀ io, is_Some (o_epolls (lp_os lp) !! instance_fd ep io)) → (io, fd) ∉ keys ep runfd ts →
  registered (lp_os (rearm_all ep runfd ts lp)) (instance_fd ep io) fd =
    registered (lp_os lp) (instance_fd ep io) fd.
Proof.
  intros He. induction ts as [|t ts IH]; intros Hk; [done|]. rewrite keys_cons in Hk. cbn.
  unfold rearm. destruct (decide (persistent ep runfd t)); [auto|].
  apply not_elem_of_cons in Hk as [Hk1 Hk2]. cbn. rewrite registered_restore.
  - rewrite decide_False; [auto|]. intros [E ->]. apply instance_fd_inj in E as ->. done.
  - by apply (rearm_all_same ts lp).
Qed.

Lemma restore_comm o e1 fd1 r1 e2 fd2 r2 :
  e1 ≠ e2 ∨ fd1 ≠ fd2 →
  restore (restore o e2 fd2 r2) e1 fd1 r1 = restore (restore o e1 fd1 r1) e2 fd2 r2.
Proof.
  intros H. unfold restore. cbn. f_equal. destruct (decide (e1 = e2)) as [->|Hne].
  - rewrite !alter_alter_eq. apply alter_ext. intros m _. cbn. apply insert_insert_ne. naive_solver.
  - by rewrite alter_alter_ne.
Qed.

Lemma rearm_comm t1 t2 lp :
  ¬ persistent ep runfd t1 ∧ ¬ persistent ep runfd t2 → (tk_io t1, tk_fd t1) ≠ (tk_io t2, tk_fd t2) →
  rearm ep runfd t1 (rearm ep runfd t2 lp) = rearm ep runfd t2 (rearm ep runfd t1 lp).
Proof.
  intros [H1 H2] Hk. unfold rearm. rewrite !decide_False by done. unfold with_entry, set_os. cbn.
  f_equal. apply restore_comm. destruct (decide (tk_io t1 = tk_io t2)) as [E|E].
  - right. congruence.
  - left. intros ?%instance_fd_inj. done.
Qed.

(** The order does not matter, so an event can be taken to be the last one. *)
Lemma rearm_all_delete ts i t lp :
  NoDup (keys ep runfd ts) → ts !! i = Some t →
  rearm_all ep runfd ts lp = rearm ep runfd t (rearm_all ep runfd (delete i ts) lp).
Proof.
  revert i. induction ts as [|t' ts IH]; intros [|i] Hk Hi; [done|done|by injection Hi as ->|].
  change (ts !! i = Some t) in Hi. rewrite keys_cons in Hk.
  change (rearm ep runfd t' (rearm_all ep runfd ts lp) =
    rearm ep runfd t (rearm ep runfd t' (rearm_all ep runfd (delete i ts) lp))).
  assert (NoDup (keys ep runfd ts)) as Hk'.
  { destruct (decide (persistent ep runfd t')); [done|]. by apply NoDup_cons in Hk as [_ Hk]. }
  rewrite (IH i Hk' Hi).
  destruct (decide (persistent ep runfd t)) as [Hp|Hp].
  { unfold rearm at 2 3. by rewrite !decide_True. }
  destruct (decide (persistent ep runfd t')) as [Hp'|Hp'].
  { unfold rearm at 1 4. by rewrite !decide_True. }
  apply rearm_comm; [done|]. apply NoDup_cons in Hk as [Hn _]. intros E. apply Hn. rewrite E.
  apply elem_of_keys; [|done]. by eapply list_elem_of_lookup_2.
Qed.
End Rearm.

(** ** The configuration stays *)

Lemma step_conf sv l sv' o : server_inv sv → step sv l = Ok (sv', o) → sv_conf sv' = sv_conf sv.
Proof.
  intros Hi H. destruct l as [p now junk sock|p e|p out|now|junk d|fuel fd u now p]; cbn [step] in H.
  - destruct (phases sv !! p) as [[| | |]|]; try by injection H as <- _.
    apply res_bind_Ok in H as ([sv1 sock1] & H & E). injection E as <- _. unfold io_read in H.
    apply res_bind_Ok in H as (c & _ & H). apply res_bind_Ok in H as (r & _ & H).
    apply res_bind_Ok in H as ([sv2 ev] & H2 & H). destruct ev as [q|]; [|done].
    apply res_bind_Ok in H as (c' & _ & H). injection H as <- _. cbn.
    destruct (rr_rc r =? 0); [|destruct (rr_rc r =? - ERRCLIENTDC)].
    + apply res_bind_Ok in H2 as (pkt & _ & H2). by injection H2 as <- _.
    + apply res_bind_Ok in H2 as (val & _ & H2). apply res_bind_Ok in H2 as ([t ?] & _ & H2). done.
    + by injection H2 as <- _.
  - destruct (phases sv !! p) as [[|ev| |]|] eqn:E; try by injection H as <- _.
    destruct (Hi _ _ E) as (_ & _ & Ht). apply res_bind_Ok in H as (sv1 & H & E1). injection E1 as <- _.
    unfold worker_event in H. apply res_bind_Ok in H as (c & _ & H). apply res_bind_Ok in H as (fo & Hf & H).
    apply res_bind_Ok in H as (f & Hf' & H). destruct fo as [f'|]; [|done]. injection Hf' as ->.
    apply res_bind_Ok in H as ([[[sv1' c1] raw] rc] & Hcall & H). apply res_bind_Ok in H as (? & _ & H).
    injection H as <-. cbn.
    destruct (typed_call_outcome _ f e c (sv_triedb sv) (sv_info sv) (sv_conf sv) Ht Hf) as (out & Ho & _).
    rewrite Ho in Hcall by done. unfold on_triedb in Hcall.
    apply res_bind_Ok in Hcall as ([[[s ?] ?] ?] & _ & Hc). by injection Hc as <- _ _ _.
  - destruct (phases sv !! p) as [[| |ev|]|]; try by injection H as <- _.
    apply res_bind_Ok in H as ([[sv1 out1] bs] & H & E). injection E as <- _. unfold io_write in H.
    apply res_bind_Ok in H as (c & _ & H). destruct (ev_reply ev) as [raw|]; [|done].
    destruct (send_bytes out raw) as [[? ?] sent]. apply res_bind_Ok in H as (? & _ & H). by injection H as <- _ _.
  - apply res_bind_Ok in H as (s & _ & H). by injection H as <- _.
  - apply res_bind_Ok in H as ([sv1 pkt] & H1 & H). injection H as <- _.
    by apply bus_event_same in H1 as (buf & info & -> & _).
  - destruct (conns sv !! p); [by injection H as <- _|].
    apply res_bind_Ok in H as ([[s c] info] & _ & H). by injection H as <- _.
Qed.

Lemma run_server_conf sv ls sv' os :
  server_inv sv → run_server sv ls = Ok (sv', os) → sv_conf sv' = sv_conf sv.
Proof.
  revert sv os. induction ls as [|l ls IH]; intros sv os Hi H; cbn in H; [by injection H as <- _|].
  apply res_bind_Ok in H as ([sv1 o] & H1 & H). apply res_bind_Ok in H as ([sv2 os2] & H2 & H).
  injection H as <- _. rewrite (IH sv1 os2); [by eapply step_conf|by eapply step_server_inv|done].
Qed.

(** ** Whose event it is *)

Section Owners.
Context (ep : epoll) (lp : loops) (sv : server) (R : refines ep lp sv).

(** An armed entry belongs to a connection in one of the three phases. *)
Lemma entry_owner io fd e :
  (ev_events e = EPOLLIN ∨ ev_events e = EPOLLOUT) →
  registered (lp_os lp) (instance_fd ep io) fd = Some (armed (ev_events e) (ev_data e)) →
  (io = true ∧ ev_events e = EPOLLIN ∧
   ∃ c, phases sv !! ev_data e = Some Reading ∧ conns sv !! ev_data e = Some c ∧ client_fd c = fd) ∨
  (io = true ∧ ev_events e = EPOLLOUT ∧
   ∃ p c ev efd, phases sv !! p = Some (Writing ev) ∧ conns sv !! p = Some c ∧ client_fd c = fd ∧
     event_of ep sv lp (ev_data e) efd ev) ∨
  (io = false ∧ ev_events e = EPOLLIN ∧
   ∃ p c ev, phases sv !! p = Some (Working ev) ∧ conns sv !! p = Some c ∧
     event_of ep sv lp (ev_data e) fd ev).
Proof.
  intros Hev Hr. assert (¬ watched (armed (ev_events e) (ev_data e))) as Hnw.
  { unfold watched, armed. cbn. intros [E|E]; destruct Hev as [Hev|Hev]; rewrite Hev in E; discriminate E. }
  destruct io; cbn in Hr.
  - destruct (rf_io R fd _ Hr) as [(_ & _ & Hw)|[[d Hd]|(p & c & Hc & Hfd & Hp)]]; [done| |].
    { by apply armed_disarmed in Hd. }
    destruct Hp as [Hp|[ev Hp]].
    + destruct (rf_phase R p _ c Hp Hc) as (Hr' & _). rewrite Hfd, Hr in Hr'. injection Hr' as Ee Hd.
      left. rewrite Hd. destruct Hev as [Hev|Hev]; [by eauto 10|]. rewrite Hev in Ee. discriminate Ee.
    + destruct (rf_phase R p _ c Hp Hc) as (_ & _ & a & efd & Ha & Hr'). rewrite Hfd, Hr in Hr'.
      injection Hr' as Ee Hd. right. left. rewrite Hd.
      destruct Hev as [Hev|Hev]; [rewrite Hev in Ee; discriminate Ee|]. by eauto 10.
  - destruct (rf_w R fd _ Hr) as [(_ & _ & Hw)|[(_ & _ & Hw)|(p & ev & a & Hp & Ha & E)]]; [done|done|].
    injection E as Ee Hd. right. right. rewrite Hd. destruct (rf_inv R p _ Hp) as ([c Hc] & _).
    destruct Hev as [Hev|Hev]; [by eauto 10|]. rewrite Hev in Ee. discriminate Ee.
Qed.

(** Another entry that something waits for. *)
Definition waits (io2 : bool) (fd2 : Z) : Prop :=
  fd2 ∈ reserved ep sv ∨
  ∃ e, (ev_events e = EPOLLIN ∨ ev_events e = EPOLLOUT) ∧
    registered (lp_os lp) (instance_fd ep io2) fd2 = Some (armed (ev_events e) (ev_data e)).

Lemma instance_reserved io : instance_fd ep io ∈ reserved ep sv.
Proof. unfold reserved. destruct io; set_solver. Qed.

Lemma client_not_waits p c ph io2 fd2 :
  phases sv !! p = Some ph → conns sv !! p = Some c → ph ≠ Disarmed → waits io2 fd2 →
  (io2 = true → client_fd c ≠ fd2) → client_fd c ≠ fd2 ∧ client_fd c ≠ instance_fd ep io2.
Proof.
  intros Hp Hc Hd Hw Hne. destruct (phase_entry _ _ _ R p c ph Hp Hc Hd) as (r & _ & _ & Hcn & Hrs).
  split; [|intros E; apply Hrs; rewrite E; apply instance_reserved].
  destruct Hw as [Hw|(e & He & Hr)]; [intros E; apply Hrs; by rewrite E|]. destruct io2; [by apply Hne|]. intros <-.
  destruct (entry_owner false _ e He Hr) as [[? _]|[[? _]|(_ & _ & q & d & ev & Hq & _ & Hev)]]; [done|done|].
  destruct (eventfd_counter _ _ _ R q ev _ _ Hq Hev) as [Hcn' _]. congruence.
Qed.

Lemma eventfd_not_waits p ev a fd io2 fd2 :
  phases sv !! p = Some (Working ev) → event_of ep sv lp a fd ev → waits io2 fd2 →
  (io2 = false → fd ≠ fd2) → fd ≠ fd2 ∧ fd ≠ instance_fd ep io2.
Proof.
  intros Hp Ha Hw Hne. destruct (eventfd_counter _ _ _ R p ev a fd Hp Ha) as (Hcn & Hrs & _).
  split; [|intros E; apply Hrs; rewrite E; apply instance_reserved].
  destruct Hw as [Hw|(e & He & Hr)]; [by intros ->|]. destruct io2; [|by apply Hne]. intros <-.
  destruct (entry_owner true _ e He Hr)
    as [(_ & _ & c & Hq & Hc & Hfd)|[(_ & _ & q & c & ev' & efd & Hq & Hc & Hfd & _)|[? _]]]; [| |done].
  - destruct (phase_entry _ _ _ R _ c _ Hq Hc) as (r & _ & _ & Hcn' & _); [done|]. congruence.
  - destruct (phase_entry _ _ _ R _ c _ Hq Hc) as (r & _ & _ & Hcn' & _); [done|]. congruence.
Qed.

(** The client of a connection in the worker loop has no entry that is waited for. *)
Lemma working_client_not_waits p c ev fd2 :
  phases sv !! p = Some (Working ev) → conns sv !! p = Some c → waits true fd2 → client_fd c ≠ fd2.
Proof.
  intros Hp Hc [Hw|(e & He & Hr)].
  - destruct (phase_entry _ _ _ R p c _ Hp Hc) as (r & _ & _ & _ & Hrs); [done|].
    intros E. apply Hrs. by rewrite E.
  - intros <-. destruct (rf_phase R p _ c Hp Hc) as (Hr' & _). cbn in Hr. rewrite Hr' in Hr. injection Hr as E _.
    destruct He as [He|He]; rewrite He in E; discriminate E.
Qed.

(** So the dispatch of an event leaves the other entries alone. *)
Lemma taken_clear io fd e le io2 fd2 :
  (ev_events e = EPOLLIN ∨ ev_events e = EPOLLOUT) →
  registered (lp_os lp) (instance_fd ep io) fd = Some (armed (ev_events e) (ev_data e)) →
  waits io2 fd2 → (io = io2 → fd ≠ fd2) → (io = true → le_eventfd le ≠ fd2) →
  dispatch_clear ep io le lp e (instance_fd ep io2) fd2.
Proof.
  intros He Hr Hw Hne Hle _.
  assert (∀ p, client_clear lp p (instance_fd ep io2) fd2 ↔
    ∀ c, conns sv !! p = Some c → client_fd c ≠ fd2 ∧ client_fd c ≠ instance_fd ep io2) as Hcc.
  { intros p. unfold client_clear. by rewrite (rf_server R). }
  destruct (entry_owner io fd e He Hr)
    as [(-> & E & c & Hp & Hc & Hfd)|[(-> & E & p & c & ev & efd & Hp & Hc & Hfd & Ha & _)|
        (-> & E & p & c & ev & Hp & Hc & Ha)]]; [rewrite E|rewrite E|].
  - intros _. split_and!; [by apply Hle| |by intros]. intros _. apply Hcc. intros c' Hc'. rewrite Hc in Hc'. injection Hc' as <-.
    apply (client_not_waits (ev_data e) c Reading); try done. intros ->. rewrite Hfd. by apply Hne.
  - intros _. split_and!; [by apply Hle|by intros|]. intros _ eo Heo. rewrite Ha in Heo. injection Heo as <-. cbn.
    destruct (rf_inv R p _ Hp) as (_ & -> & _). apply Hcc. intros c' Hc'. rewrite Hc in Hc'. injection Hc' as <-.
    apply (client_not_waits p c (Writing ev)); try done. intros ->. rewrite Hfd. by apply Hne.
  - intros _. destruct (rf_inv R p _ Hp) as (_ & Hevp & Ht). split; intros eo Heo; destruct Ha as [Ha Hptr];
      rewrite Ha in Heo; injection Heo as <-; cbn.
    + rewrite Hevp. apply Hcc. intros c' Hc'. rewrite Hc in Hc'. injection Hc' as <-.
      apply (client_not_waits p c (Working ev)); try done. intros ->.
      by apply (working_client_not_waits p c ev).
    + destruct (eventfd_not_waits p ev (ev_data e) fd io2 fd2 Hp) as [H1 H2]; [by split|done|intros E2; apply Hne; by rewrite E2|].
      done.
Qed.
End Owners.

(** ** Taking an event *)

Lemma report_watched_same o efd fd ready o' e r :
  registered o efd fd = Some r → watched r → epoll_report o efd fd ready = Some (o', e) → o' = o.
Proof.
  intros (regs & He & Hr)%registered_regs Hw H. unfold epoll_report in H. rewrite He in H.
  cbn [mbind option_bind] in H. rewrite Hr in H. cbn [mbind option_bind] in H.
  destruct (_ =? 0); [done|].
  assert ((Z.land (ev_events r) EPOLLONESHOT =? 0) = true) as Hz by (by destruct Hw as [->| ->]).
  rewrite Hz in H. injection H as <- _. unfold set_interest. destruct o as [fds eps cs]. cbn in *.
  by rewrite (insert_id regs fd r Hr), (insert_id eps efd regs He).
Qed.

(** What a report gives: a persistent entry, which stays, or an armed one, which is
    disarmed. *)
Lemma report_cases ep lp sv io fd ready o e :
  refines ep lp sv → no_error ready →
  epoll_report (lp_os lp) (instance_fd ep io) fd ready = Some (o, e) →
  let runfd := Config.run (sv_conf sv) in
  (persistent ep runfd (mkTaken io fd e) ∧ o = lp_os lp ∧ ev_events e = EPOLLIN ∧
   data_fd (ev_data e) = fd ∧ ∃ w, registered (lp_os lp) (instance_fd ep io) fd = Some w ∧ watched w ∧
     ev_data w = ev_data e) ∨
  (¬ persistent ep runfd (mkTaken io fd e) ∧ (ev_events e = EPOLLIN ∨ ev_events e = EPOLLOUT) ∧
   registered (lp_os lp) (instance_fd ep io) fd = Some (armed (ev_events e) (ev_data e))).
Proof.
  intros R Hn H runfd. pose proof (epoll_report_spec _ _ _ _ _ _ H) as (r & Hr & _).
  assert (∀ (Hp : persistent ep runfd (mkTaken io fd e)) (Hd : data_fd (ev_data r) = fd) (Hw : watched r),
    persistent ep runfd (mkTaken io fd e) ∧ o = lp_os lp ∧ ev_events e = EPOLLIN ∧
    data_fd (ev_data e) = fd ∧ ∃ w, registered (lp_os lp) (instance_fd ep io) fd = Some w ∧ watched w ∧
      ev_data w = ev_data e) as Hpers.
  { intros Hp Hd Hw. destruct (report_watched _ _ _ _ _ _ _ Hr Hw Hn H) as (-> & _).
    split_and!; [done|by eapply report_watched_same|done|done|by exists r]. }
  assert (∀ k d (Hk : k = 0 ∨ k = 2) (Hr' : r = armed (2 ^ k) d) (Hp : fd ∉ reserved ep sv),
    ¬ persistent ep runfd (mkTaken io fd e) ∧ (ev_events e = EPOLLIN ∨ ev_events e = EPOLLOUT) ∧
    registered (lp_os lp) (instance_fd ep io) fd = Some (armed (ev_events e) (ev_data e))) as Harm.
  { intros k d Hk -> Hp.
    destruct (report_armed _ _ _ ready o e k d Hr) as (-> & _); [by destruct Hk as [->| ->]..|done|done|].
    split_and!; [|by destruct Hk as [->| ->]; [left|right]|done].
    intros E. apply Hp. by do 2 right. }
  destruct io; cbn in Hr.
  - destruct (rf_io R fd r Hr) as [(Hin & Hd & Hw)|[[d ->]|(p & c & Hc & <- & Hp)]].
    + left. apply Hpers; [by right|done|done].
    + by rewrite (report_disarmed _ _ _ _ _ Hr) in H.
    + right. assert (∃ ph, phases sv !! p = Some ph ∧ ph ≠ Disarmed) as (ph & Hph & Hd).
      { destruct Hp as [Hp|[ev Hp]]; by eexists. }
      destruct (phase_entry _ _ _ R p c ph Hph Hc Hd) as (_ & _ & _ & _ & Hrs).
      destruct Hp as [Hp|[ev Hp]].
      * destruct (rf_phase R p _ c Hp Hc) as (Hr' & _). rewrite Hr in Hr'. injection Hr' as ->.
        by apply (Harm 0 p); [left|..].
      * destruct (rf_phase R p _ c Hp Hc) as (_ & _ & a & efd & _ & Hr'). rewrite Hr in Hr'.
        injection Hr' as ->. by apply (Harm 2 a); [right|..].
  - destruct (rf_w R fd r Hr) as [(-> & Hd & Hw)|[(-> & Hd & Hw)|(p & ev & a & Hp & Ha & ->)]].
    + left. apply Hpers; [by right; left|done|done].
    + left. apply Hpers; [by left|done|done].
    + right. destruct (eventfd_counter _ _ _ R p ev a fd Hp Ha) as (_ & Hrs & _).
      by apply (Harm 0 a); [left|..].
Qed.

Lemma report_transfer o1 o2 efd fd ready o1' e :
  registered o1 efd fd = registered o2 efd fd → epoll_report o1 efd fd ready = Some (o1', e) →
  ∃ o2', epoll_report o2 efd fd ready = Some (o2', e).
Proof.
  intros Hr H. pose proof (epoll_report_spec _ _ _ _ _ _ H) as (r & Hr1 & He & Hn & Hd & _).
  rewrite Hr in Hr1. apply registered_regs in Hr1 as (regs & He2 & Hr2). unfold epoll_report.
  rewrite He2. cbn [mbind option_bind]. rewrite Hr2. cbn [mbind option_bind]. rewrite <-He.
  rewrite (proj2 (Z.eqb_neq _ _) Hn), <-Hd. destruct e. by eexists.
Qed.

Section Take.
Context (ep : epoll) (lp : loops) (ts : list taken) (sv : server) (B : batched ep lp ts sv).
Local Abbreviation runfd := (Config.run (sv_conf sv)).

Lemma batched_epolls io : is_Some (o_epolls (lp_os lp) !! instance_fd ep io).
Proof.
  apply (rearm_all_same ep runfd ts lp), (rf_epolls (bt_refines B)). destruct io; auto.
Qed.

Lemma batched_two : io_epollfd ep ≠ w_epollfd ep.
Proof. apply (rf_two (bt_refines B)). Qed.

(** An entry that is reported was not taken before. *)
Lemma reported_not_taken io fd ready o e :
  epoll_report (lp_os lp) (instance_fd ep io) fd ready = Some (o, e) → (io, fd) ∉ keys ep runfd ts.
Proof.
  intros H Hin. apply list_elem_of_omap in Hin as (t & Ht & Hk).
  destruct (decide (persistent ep runfd t)) as [|Hp]; [done|]. injection Hk as Hio Hfd.
  pose proof (proj1 (Forall_forall _ _) (bt_taken B) t Ht) as Hok. unfold taken_ok in Hok.
  rewrite decide_False in Hok by done. destruct Hok as [Hr _]. rewrite Hio, Hfd in Hr.
  by rewrite (report_disarmed _ _ _ _ _ Hr) in H.
Qed.

(** The other events that were taken do not mind. *)
Lemma taken_ok_frame o t :
  taken_ok ep runfd lp t →
  registered o (instance_fd ep (tk_io t)) (tk_fd t) =
    registered (lp_os lp) (instance_fd ep (tk_io t)) (tk_fd t) →
  taken_ok ep runfd (set_os lp o) t.
Proof. unfold taken_ok. cbn. by intros H ->. Qed.

Lemma take_batched io fd ready o e :
  no_error ready → epoll_report (lp_os lp) (instance_fd ep io) fd ready = Some (o, e) →
  batched ep (set_os lp o) (ts ++ [mkTaken io fd e]) sv.
Proof.
  intros Hn H. pose proof (reported_not_taken _ _ _ _ _ H) as Hk.
  pose proof (rearm_all_other ep runfd batched_two ts lp io fd batched_epolls Hk) as Hsame.
  destruct (report_transfer _ (lp_os (rearm_all ep runfd ts lp)) _ _ _ _ _ (eq_sym Hsame) H) as [oR HR].
  pose proof (report_cases ep _ sv io fd ready oR e (bt_refines B) Hn HR) as Hcase. cbv zeta in Hcase.
  rewrite Hsame in Hcase.
  assert (rearm ep runfd (mkTaken io fd e) (set_os lp o) = lp) as Hundo.
  { unfold rearm. destruct Hcase as [(Hp & _ & _ & _ & w & Hw & Hww & _)|(Hp & _ & Hr)].
    - rewrite decide_True by done. rewrite (report_watched_same _ _ _ _ _ _ _ Hw Hww H). by destruct lp.
    - rewrite decide_False by done. unfold with_entry. cbn.
      rewrite (restore_report _ _ _ _ _ _ _ Hr H). by destruct lp. }
  pose proof (epoll_report_spec _ _ _ _ _ _ H) as (r & Hr & _ & _ & _ & _ & _ & _ & Hreg).
  split.
  - unfold rearm_all. rewrite foldr_app. cbn. rewrite Hundo. apply B.
  - apply Forall_app. split.
    + eapply Forall_impl; [apply (bt_taken B)|]. intros t Ht. apply taken_ok_frame; [done|].
      rewrite Hreg. destruct (decide _) as [[E1 E2]|]; [|done]. apply (instance_fd_inj _ batched_two) in E1.
      destruct Hcase as [(_ & _ & _ & _ & w & Hw & Hww & _)|(Hp & He & Hr')].
      * rewrite E1, E2, Hr. rewrite Hr in Hw. injection Hw as ->.
        assert ((Z.land (ev_events w) EPOLLONESHOT =? 0) = true) as -> by (by destruct Hww as [->| ->]). done.
      * exfalso. unfold taken_ok in Ht. rewrite decide_False, E1, E2, Hr' in Ht.
        { destruct Ht as [Ht _]. injection Ht as E. destruct He as [He|He]; rewrite He in E; discriminate E. }
        intros Hp'. apply Hp. unfold persistent in *. cbn. by rewrite <-E2.
    + apply Forall_singleton. unfold taken_ok. cbn.
      destruct Hcase as [(Hp & _ & He & Hd & w & Hw & Hww & Hdw)|(Hp & He & Hr')].
      * rewrite decide_True by done. rewrite (report_watched_same _ _ _ _ _ _ _ Hw Hww H).
        split_and!; [done|done|by exists w].
      * rewrite decide_False by done. split; [|done]. rewrite Hreg, decide_True by done.
        rewrite Hr in Hr'. injection Hr' as ->. f_equal.
        by destruct He as [->| ->].
  - unfold keys. rewrite omap_app. cbn. destruct (decide _) as [|Hp]; [rewrite app_nil_r; apply B|].
    apply NoDup_app. split_and!; [apply B| |apply NoDup_singleton].
    intros x Hx ->%list_elem_of_singleton. by apply Hk.
Qed.
End Take.

(** ** Dispatching an event *)

Lemma report_watched_ready o efd fd w :
  registered o efd fd = Some w → watched w →
  epoll_report o efd fd EPOLLIN = Some (o, mkEpollEvent EPOLLIN (ev_data w)).
Proof.
  intros Hr Hw. assert (∃ o' e, epoll_report o efd fd EPOLLIN = Some (o', e)) as (o' & e & H).
  { apply registered_regs in Hr as (regs & He & Hr). unfold epoll_report. rewrite He. cbn [mbind option_bind].
    rewrite Hr. cbn [mbind option_bind].
    assert (Z.land (ev_events w) (Z.land EPOLLIN (Z.lnot FLAGS)) = EPOLLIN) as ->
      by (by destruct Hw as [->| ->]). by eexists _, _. }
  rewrite H, (report_watched_same _ _ _ _ _ _ _ Hr Hw H).
  by destruct (report_watched _ _ _ EPOLLIN _ _ _ Hr Hw eq_refl H) as (-> & _).
Qed.

Lemma with_entry_id e2 fd2 r2 lp :
  registered (lp_os lp) e2 fd2 = Some r2 → with_entry e2 fd2 r2 lp = lp.
Proof.
  intros (regs & He & Hr)%registered_regs. unfold with_entry, restore, set_os. destruct lp as [sv es [fds eps cs]].
  cbn in *. do 2 f_equal. apply map_eq. intros y. destruct (decide (y = e2)) as [->|Hy].
  - rewrite lookup_alter_eq, He. cbn. by rewrite insert_id.
  - by rewrite lookup_alter_ne.
Qed.

Section Keys.
Context (ep : epoll) (runfd : Z) (ts : list taken) (i : nat) (t : taken).
Context (Hk : NoDup (keys ep runfd ts)) (Hi : ts !! i = Some t).

Lemma keys_delete :
  keys ep runfd ts ≡ₚ
    (if decide (persistent ep runfd t) then [] else [(tk_io t, tk_fd t)]) ++ keys ep runfd (delete i ts).
Proof.
  transitivity (keys ep runfd (t :: delete i ts)).
  - unfold keys. by rewrite (delete_Permutation ts i t Hi) at 1.
  - rewrite keys_cons. by destruct (decide (persistent ep runfd t)).
Qed.

Lemma keys_delete_NoDup : NoDup (keys ep runfd (delete i ts)).
Proof. rewrite keys_delete in Hk. by apply NoDup_app in Hk as (_ & _ & ?). Qed.

Lemma key_not_in_rest : (tk_io t, tk_fd t) ∉ keys ep runfd (delete i ts).
Proof.
  intros Hin. destruct (decide (persistent ep runfd t)) as [Hp|Hp] eqn:E.
  - apply list_elem_of_omap in Hin as (t2 & _ & Hk2). destruct (decide (persistent ep runfd t2)) as [|Hn]; [done|].
    injection Hk2 as _ Hfd. apply Hn. unfold persistent in *. by rewrite Hfd.
  - rewrite keys_delete, E in Hk. cbn in Hk. by apply NoDup_cons in Hk as [? _].
Qed.
End Keys.

(** Dispatching is the same whether or not the other events are armed again. *)
Lemma rearm_dispatch ep runfd ts lp io le e :
  (ev_events e = EPOLLIN ∨ ev_events e = EPOLLOUT) →
  (∀ t2, t2 ∈ ts → dispatch_clear ep io le lp e (instance_fd ep (tk_io t2)) (tk_fd t2)) →
  dispatch ep io le (rearm_all ep runfd ts lp) e =
    ('(lp', out, v) ← dispatch ep io le lp e; mret (rearm_all ep runfd ts lp', out, v)).
Proof.
  intros He. induction ts as [|t2 ts IH]; intros Hc.
  - cbn. by destruct (dispatch ep io le lp e) as [[[? ?] ?]|].
  - specialize (IH ltac:(intros; apply Hc; by right)).
    assert (∀ l, rearm_all ep runfd (t2 :: ts) l = rearm ep runfd t2 (rearm_all ep runfd ts l)) as Hcons by done.
    rewrite Hcons. unfold rearm at 1. destruct (decide (persistent ep runfd t2)) as [Hp|Hp].
    + rewrite IH. destruct (dispatch ep io le lp e) as [[[lp' ?] ?]|]; [|done].
      rewrite !res_bind_Ok_l, Hcons. unfold rearm. by rewrite decide_True.
    + rewrite dispatch_commutes; [|done|].
      * rewrite IH. destruct (dispatch ep io le lp e) as [[[lp' ?] ?]|]; [|done].
        rewrite !res_bind_Ok_l, Hcons. unfold rearm. by rewrite decide_False.
      * destruct (rearm_all_same ep runfd ts lp) as (H1 & H2 & _).
        pose proof (Hc t2 ltac:(by left)) as C. unfold dispatch_clear, event_clear, worker_clear, client_clear in *.
        by rewrite H1, H2.
Qed.

Section Given.
Context (ep : epoll) (lp : loops) (ts : list taken) (sv : server) (B : batched ep lp ts sv).
Context (i : nat) (t : taken) (Hi : ts !! i = Some t).
Local Abbreviation runfd := (Config.run (sv_conf sv)).
Local Abbreviation rest := (delete i ts).
Local Abbreviation full := (rearm_all ep runfd ts lp).

Lemma given_ok : taken_ok ep runfd lp t.
Proof. apply (proj1 (Forall_forall _ _) (bt_taken B)). by eapply list_elem_of_lookup_2. Qed.

Lemma given_events : ev_events (tk_event t) = EPOLLIN ∨ ev_events (tk_event t) = EPOLLOUT.
Proof.
  pose proof given_ok as H. unfold taken_ok in H. destruct (decide _); [left; apply H|apply H].
Qed.

Lemma given_full : full = rearm ep runfd t (rearm_all ep runfd rest lp).
Proof. apply (rearm_all_delete ep runfd (batched_two _ _ _ _ B)); [apply B|done]. Qed.

Lemma given_rest_entry :
  registered (lp_os (rearm_all ep runfd rest lp)) (instance_fd ep (tk_io t)) (tk_fd t) =
    registered (lp_os lp) (instance_fd ep (tk_io t)) (tk_fd t).
Proof.
  apply (rearm_all_other ep runfd (batched_two _ _ _ _ B)); [apply (batched_epolls _ _ _ _ B)|].
  apply key_not_in_rest; [apply B|done].
Qed.

(** It is what the entry, armed again, gives when it is ready. *)
Lemma given_report :
  epoll_report (lp_os full) (instance_fd ep (tk_io t)) (tk_fd t) (ev_events (tk_event t)) =
    Some (lp_os (rearm_all ep runfd rest lp), tk_event t).
Proof.
  rewrite given_full. pose proof given_ok as H. pose proof given_rest_entry as He. unfold taken_ok in H.
  unfold rearm. destruct (decide (persistent ep runfd t)) as [Hp|Hp].
  - destruct H as (Hev & _ & w & Hw & Hww & Hd). rewrite Hw in He.
    rewrite Hev, (report_watched_ready _ _ _ _ He Hww), Hd. destruct (tk_event t). cbn in Hev. by rewrite Hev.
  - destruct H as [Hr Hev]. rewrite Hr in He. unfold with_entry. cbn.
    destruct (tk_event t) as [evs d]. cbn in *.
    destruct Hev as [->| ->]; [apply (report_restore _ _ _ 0)|apply (report_restore _ _ _ 2)]; done.
Qed.

Lemma given_armed :
  ¬ persistent ep runfd t →
  registered (lp_os full) (instance_fd ep (tk_io t)) (tk_fd t) =
    Some (armed (ev_events (tk_event t)) (ev_data (tk_event t))).
Proof.
  intros Hp. rewrite given_full. unfold rearm. rewrite decide_False by done. cbn.
  rewrite registered_restore, decide_True by
    (done || apply (rearm_all_same ep runfd rest lp), (batched_epolls _ _ _ _ B)). done.
Qed.
End Given.

Section Dispatched.
Context (ep : epoll) (lp : loops) (ts : list taken) (sv : server) (B : batched ep lp ts sv).
Context (i : nat) (t : taken) (Hi : ts !! i = Some t) (le : loop_env).
Local Abbreviation runfd := (Config.run (sv_conf sv)).
Local Abbreviation rest := (delete i ts).
Local Abbreviation full := (rearm_all ep runfd ts lp).

Lemma rest_given t2 : t2 ∈ rest → ∃ j, ts !! j = Some t2.
Proof.
  intros H. apply list_elem_of_lookup_1. rewrite (delete_Permutation ts i t Hi). by right.
Qed.

(** What was taken is waited for. *)
Lemma taken_waits j t2 : ts !! j = Some t2 → waits ep full sv (tk_io t2) (tk_fd t2).
Proof.
  intros Hj. destruct (decide (persistent ep runfd t2)) as [Hp|Hp].
  - left. by do 2 right.
  - right. exists (tk_event t2). split; [by apply (given_events ep lp ts sv B j)|].
    by apply (given_armed ep lp ts sv B j).
Qed.

Lemma persistent_watched :
  persistent ep runfd t →
  ∃ w, registered (lp_os full) (instance_fd ep (tk_io t)) (tk_fd t) = Some w ∧ watched w.
Proof.
  intros Hp. pose proof (given_ok ep lp ts sv B i t Hi) as H. unfold taken_ok in H.
  rewrite decide_True in H by done. destruct H as (_ & _ & w & Hw & Hww & _). exists w. split; [|done].
  rewrite <-(given_rest_entry ep lp ts sv B i t Hi) in Hw.
  rewrite (given_full ep lp ts sv B i t Hi). unfold rearm. by rewrite decide_True.
Qed.

(** A persistent entry of the I/O loop is that of [conf->run] or that of the bus. *)
Lemma persistent_run : persistent ep runfd t → tk_io t = true → tk_fd t ∈ runfd :: bus_fds ep.
Proof.
  intros Hp Hio. pose proof (persistent_watched Hp) as (w & Hf & Hww). rewrite Hio in Hf.
  destruct (rf_io (bt_refines B) _ _ Hf) as [(E & _)|[[d ->]|(p & c & Hc & Hfd & Hph)]]; [done| |].
  - destruct Hww as [E|E]; discriminate E.
  - assert (∃ ph, phases sv !! p = Some ph ∧ ph ≠ Disarmed) as (ph & Hp' & Hd).
    { destruct Hph as [Hph|[ev Hph]]; by eexists. }
    destruct (phase_entry _ _ _ (bt_refines B) p c ph Hp' Hc Hd) as (_ & _ & _ & _ & Hrs).
    exfalso. apply Hrs. rewrite Hfd. by do 2 right.
Qed.

(** One of the worker loop is not that of the bus. *)
Lemma persistent_worker :
  persistent ep runfd t → tk_io t = false → tk_fd t = runfd ∨ tk_fd t = expirefd ep.
Proof.
  intros Hp Hio. pose proof (persistent_watched Hp) as (w & Hf & Hww). rewrite Hio in Hf.
  destruct (rf_w (bt_refines B) _ _ Hf) as [(E & _)|[(E & _)|(p & ev & a & Hph & Ha & ->)]]; [by left|by right|].
  destruct (eventfd_counter _ _ _ (bt_refines B) p ev a _ Hph Ha) as (_ & Hrs & _).
  exfalso. apply Hrs. by do 2 right.
Qed.

Lemma rest_clear t2 :
  (tk_io t = true → o_fds (lp_os lp) !! le_eventfd le = None) → t2 ∈ rest →
  dispatch_clear ep (tk_io t) le lp (tk_event t) (instance_fd ep (tk_io t2)) (tk_fd t2).
Proof.
  intros Hle H2. destruct (rest_given t2 H2) as [j Hj].
  destruct (rearm_all_same ep runfd ts lp) as (H1 & H3 & Hfds & _).
  destruct (decide (persistent ep runfd t)) as [Hp|Hp].
  - pose proof (given_ok ep lp ts sv B i t Hi) as H. unfold taken_ok in H. rewrite decide_True in H by done.
    destruct H as (_ & Hd & _). intros Hne. rewrite Hd in *. rewrite <-H1, (rf_server (bt_refines B)) in Hne.
    change (tk_fd t ≠ runfd) in Hne. destruct (tk_io t) eqn:Hio.
    + intros Hb. by pose proof (persistent_run Hp Hio) as [|]%elem_of_cons.
    + intros Hx. exfalso. apply persistent_worker in Hp as [|]; done.
  - assert (dispatch_clear ep (tk_io t) le full (tk_event t) (instance_fd ep (tk_io t2)) (tk_fd t2)) as C.
    + apply (taken_clear ep full sv (bt_refines B) _ (tk_fd t)).
      * by apply (given_events ep lp ts sv B i).
      * by apply (given_armed ep lp ts sv B i).
      * by apply (taken_waits j).
      * intros Hio Hfd. destruct (decide (persistent ep runfd t2)) as [Hp2|Hp2].
        { apply Hp. unfold persistent in *. by rewrite Hfd. }
        apply (key_not_in_rest ep runfd ts i t (bt_keys B) Hi). rewrite Hio, Hfd. by apply elem_of_keys.
      * intros Hio E. specialize (Hle Hio). rewrite E, <-Hfds in Hle.
        destruct (taken_waits j t2 Hj) as [Hw|(e & _ & Hr)].
        { destruct (rf_open (bt_refines B) _ Hw) as [x Hx]. by rewrite Hx in Hle. }
        by rewrite (fresh_registered _ _ _ (rf_wf (bt_refines B)) Hle) in Hr.
    + unfold dispatch_clear, event_clear, worker_clear, client_clear in *. by rewrite H1, H3 in C.
Qed.
(** What the surroundings may not do, as for [calm_report]. *)
Definition calm_dispatch : Prop :=
  tk_io t = true →
  reads_well lp le ∧ o_fds (lp_os lp) !! le_eventfd le = None ∧ lp_events lp !! le_event le = None ∧
  ptr_ok ep (lp_server lp) (le_event le).

(** The dispatch of the event when the entries of the others are armed again. *)
Lemma dispatch_armed :
  calm_dispatch →
  ∃ x, concerns ep lp sv (tk_io t) (tk_fd t) x ∧ agree (step_agrees ep)
    (dispatch ep (tk_io t) le (rearm_all ep runfd rest lp) (tk_event t)) (run_server sv (target_labels le x)).
Proof.
  intros Hc. destruct (rearm_all_same ep runfd ts lp) as (H1 & H2 & H3 & _).
  pose proof (given_report ep lp ts sv B i t Hi) as Hrep.
  assert (set_os full (lp_os (rearm_all ep runfd rest lp)) = rearm_all ep runfd rest lp) as Hset.
  { rewrite (given_full ep lp ts sv B i t Hi). unfold rearm, with_entry.
    destruct (decide _); by destruct (rearm_all ep runfd rest lp). }
  assert (no_error (ev_events (tk_event t))) as Hn.
  { by destruct (given_events ep lp ts sv B i t Hi) as [->| ->]. }
  assert (∀ io fd x, concerns ep full sv io fd x → concerns ep lp sv io fd x) as Hcon.
  { intros io fd [p|p|p| | |]; cbn; unfold event_of; by rewrite ?H2. }
  unfold calm_dispatch in Hc. destruct (tk_io t) eqn:Hio; cbn [instance_fd] in Hrep.
  - destruct (Hc eq_refl) as (C1 & C2 & C3 & C4).
    destruct (io_step_refines ep full sv (tk_fd t) (ev_events (tk_event t)) le (bt_refines B)) as (ls & Hdr & Hls).
    { unfold calm_report, reads_well. rewrite H1, H2, H3. done. }
    unfold report_labels in Hdr. rewrite Hrep in Hdr. destruct Hdr as (x & Hx & ->).
    exists x. split; [by apply Hcon|]. cbn [loop_step] in Hls. by rewrite Hrep, Hset in Hls.
  - destruct (worker_step_refines ep full sv (tk_fd t) (ev_events (tk_event t)) le (bt_refines B) Hn)
      as (ls & Hdr & Hls).
    unfold report_labels in Hdr. rewrite Hrep in Hdr. destruct Hdr as (x & Hx & ->).
    exists x. split; [by apply Hcon|]. cbn [loop_step] in Hls. by rewrite Hrep, Hset in Hls.
Qed.

(** The other events that were taken keep their entries. *)
Lemma rest_kept t2 lp' out v :
  (tk_io t = true → o_fds (lp_os lp) !! le_eventfd le = None) → t2 ∈ rest →
  dispatch ep (tk_io t) le lp (tk_event t) = Ok (lp', out, v) →
  (∀ io, is_Some (o_epolls (lp_os lp') !! instance_fd ep io)) →
  taken_ok ep runfd lp t2 → taken_ok ep runfd lp' t2.
Proof.
  intros Hle H2 H He Hok. pose proof (rest_clear t2 Hle H2) as C.
  assert (∃ r, registered (lp_os lp) (instance_fd ep (tk_io t2)) (tk_fd t2) = Some r) as [r Hr].
  { unfold taken_ok in Hok. destruct (decide _); [destruct Hok as (_ & _ & w & -> & _); eauto|].
    destruct Hok as [-> _]. eauto. }
  pose proof (dispatch_commutes _ _ r ep le lp (tk_io t) _ (given_events ep lp ts sv B i t Hi) C) as Hd.
  rewrite (with_entry_id _ _ _ _ Hr), H, res_bind_Ok_l in Hd. injection Hd as Hd.
  assert (registered (lp_os lp') (instance_fd ep (tk_io t2)) (tk_fd t2) = Some r) as Hr'.
  { rewrite Hd. cbn. by rewrite registered_restore, decide_True. }
  unfold taken_ok in *. by rewrite Hr, <-Hr' in Hok.
Qed.

Lemma dispatch_batched :
  calm_dispatch →
  ∃ x, concerns ep lp sv (tk_io t) (tk_fd t) x ∧
    agree (λ x y, y.2 = option_list x.1.2 ∧ batched ep x.1.1 rest y.1)
      (dispatch ep (tk_io t) le lp (tk_event t)) (run_server sv (target_labels le x)).
Proof.
  intros Hc. destruct (dispatch_armed Hc) as (x & Hx & Hls). exists x. split; [done|].
  remember (target_labels le x) as ls.
  assert (tk_io t = true → o_fds (lp_os lp) !! le_eventfd le = None) as Hle by (intros; by apply Hc).
  rewrite rearm_dispatch in Hls; [|by apply (given_events ep lp ts sv B i)|intros; by apply rest_clear].
  destruct (dispatch ep (tk_io t) le lp (tk_event t)) as [[[lp' out] v]|f] eqn:Hd; [|exact Hls].
  rewrite res_bind_Ok_l in Hls. destruct (run_server sv ls) as [[sv' os]|] eqn:Hr; [|done].
  destruct Hls as [Ho R']. cbn in Ho, R' |- *. split; [done|].
  pose proof (run_server_conf _ _ _ _ (rf_inv (bt_refines B)) Hr) as Hcf. split; rewrite Hcf.
  - done.
  - apply Forall_forall. intros t2 H2. eapply rest_kept; [done..| |].
    + intros io. apply (rearm_all_same ep runfd rest lp'), (rf_epolls R'). destruct io; auto.
    + destruct (rest_given t2 H2) as [j Hj]. by apply (given_ok ep lp ts sv B j).
  - by apply (keys_delete_NoDup _ _ _ _ t); [apply B|].
Qed.
End Dispatched.

(** ** Schedules *)

Definition calm_action (ep : epoll) (lp : loops) (ts : list taken) (x : action) : Prop :=
  match x with
  | Take _ _ ready => no_error ready
  | Dispatch i le => match ts !! i with Some t => calm_dispatch ep lp t le | None => True end
  end.

Fixpoint calm_schedule (ep : epoll) (lp : loops) (ts : list taken) (xs : list action) : Prop :=
  match xs with
  | [] => True
  | x :: xs => calm_action ep lp ts x ∧
      match act ep lp ts x with
      | Ok (lp', ts', _) => calm_schedule ep lp' ts' xs
      | Err _ => True
      end
  end.

(** The passes of a schedule. *)
Definition action_envs (x : action) : list loop_env :=
  match x with Take _ _ _ => [] | Dispatch _ le => [le] end.

(** The labels of a step: those of what the dispatched event is for. *)
Definition action_labels (ep : epoll) (lp : loops) (ts : list taken) (sv : server) (x : action)
    (ls : list label) : Prop :=
  match x with
  | Take _ _ _ => ls = []
  | Dispatch i le =>
      match ts !! i with
      | Some t => ∃ y, concerns ep lp sv (tk_io t) (tk_fd t) y ∧ ls = target_labels le y
      | None => ls = []
      end
  end.

Lemma action_drawn ep lp ts sv x ls : action_labels ep lp ts sv x ls → drawn (action_envs x) ls.
Proof.
  destruct x as [io fd ready|i le]; cbn; [intros ->; constructor|].
  destruct (ts !! i) as [t|]; [|intros ->; apply drawn_none]. intros (y & _ & ->). apply target_drawn.
Qed.

Lemma act_batched ep lp ts sv x :
  batched ep lp ts sv → calm_action ep lp ts x →
  ∃ ls, action_labels ep lp ts sv x ls ∧
    agree (λ a b, b.2 = option_list a.2 ∧ batched ep a.1.1 a.1.2 b.1) (act ep lp ts x) (run_server sv ls).
Proof.
  intros B Hc. destruct x as [io fd ready|i le]; cbn [act calm_action] in *.
  - exists []. split; [done|]. destruct (epoll_report _ _ _ _) as [[o e]|] eqn:E; [|by split].
    split; [done|]. by eapply take_batched.
  - unfold action_labels. destruct (ts !! i) as [t|] eqn:Hi; [|by exists []].
    destruct (dispatch_batched ep lp ts sv B i t Hi le Hc) as (y & Hy & Hls). exists (target_labels le y).
    split; [by exists y|]. destruct (dispatch _ _ _ _ _) as [[[lp' out] v]|f]; [|done].
    rewrite res_bind_Ok_l. by destruct (run_server sv (target_labels le y)) as [[sv' os]|].
Qed.

(** C2 Whatever the two epoll instances report, in batches of any size, and in whatever order
    the threads of the two loops go through their batches, without errors and hang-ups: the
    loops do what the transition system of the connections does, with the same bytes on the
    wires and the same faults.  So the one-shot entries, the eventfds and the io_events that
    the loops pass to each other keep each connection in one phase at a time, also while
    events wait in a batch of some thread. *)
Theorem schedules_refine_server ep lp ts sv xs :
  batched ep lp ts sv → calm_schedule ep lp ts xs →
  ∃ ls, drawn (xs ≫= action_envs) ls ∧
    agree (λ x y, x.2 = y.2 ∧ batched ep x.1.1 x.1.2 y.1) (run_schedule ep lp ts xs) (run_server sv ls).
Proof.
  revert lp ts sv. induction xs as [|x xs IH]; intros lp ts sv B Hc.
  { exists []. split; [constructor|by split]. }
  destruct Hc as [Hc Hcs]. cbn [run_schedule]. destruct (act_batched ep lp ts sv x B Hc) as (ls & Hdr%action_drawn & Hls).
  destruct (act ep lp ts x) as [[[lp1 ts1] out]|f].
  2:{ exists (ls ++ []). split; [by apply drawn_app; [|apply drawn_skips]|]. rewrite app_nil_r.
      destruct (run_server sv ls); done. }
  destruct (run_server sv ls) as [[sv1 os1]|] eqn:E1; [|done]. destruct Hls as [Ho B1]. cbn in Ho, B1. subst os1.
  destruct (IH lp1 ts1 sv1 B1 Hcs) as (ls' & Hdr' & Hls'). exists (ls ++ ls'). split; [by apply drawn_app|].
  rewrite run_server_app, E1, !res_bind_Ok_l.
  eapply agree_map; [exact Hls'|]. intros [[lp2 ts2] outs] [sv2 outs'] _ _ [H1 H2]. cbn in *. subst. by split.
Qed.

(** At the start nothing was taken. *)
Lemma nothing_batched ep lp sv : refines ep lp sv → batched ep lp [] sv.
Proof. intros R. split; [exact R|constructor|constructor]. Qed.

(** A request, its handler and its reply, with the timer in the batch of another thread. *)
Definition demo_schedule : list action :=
  [Take true 20 EPOLLIN; Take false (expirefd demo_ep) EPOLLIN; Dispatch 0 (demo_le 2048);
   Take false 21 EPOLLIN; Dispatch 1 (demo_le 2048); Take true 20 EPOLLOUT;
   Dispatch 0 (demo_le 4096); Dispatch 0 (demo_le 4096)].

Lemma schedules_refine_server_witness :
  ∃ lp sv lp' sv' ls,
    run_schedule demo_ep lp [] demo_schedule = Ok (lp', [], [(1024, ack_nok)]) ∧
    run_server sv ls = Ok (sv', [(1024, ack_nok)]) ∧ batched demo_ep lp' [] sv'.
Proof.
  destruct demo_accepted as (s & lp & sv & Hs & Hlp & R & _).
  assert (on_accepted (λ lp, calm_schedule demo_ep lp [] demo_schedule)) as Hcalm.
  { calm_eval. }
  pose proof (on_accepted_ok _ s lp Hcalm Hs Hlp) as Hc. cbv beta in Hc. clear Hcalm.
  assert (on_accepted (λ lp, (λ x, (x.1.2, x.2)) <$> (match run_schedule demo_ep lp [] demo_schedule with
    Ok x => Some x | Err _ => None end) = Some ([], [(1024, ack_nok)]))) as Hout by (vm_compute; reflexivity).
  pose proof (on_accepted_ok _ s lp Hout Hs Hlp) as Ho. cbv beta in Ho. clear Hout.
  destruct (schedules_refine_server demo_ep lp [] sv demo_schedule (nothing_batched _ _ _ R) Hc)
    as (ls & _ & Hls).
  destruct (run_schedule demo_ep lp [] demo_schedule) as [[[lp' ts'] outs]|] eqn:El; [|discriminate Ho].
  injection Ho as -> ->. destruct (run_server sv ls) as [[sv' outs']|] eqn:E; [|destruct Hls].
  destruct Hls as [Ho B']. exists lp, sv, lp', sv', ls. split_and!; [exact El| |exact B'].
  rewrite E. cbn in Ho. by rewrite <-Ho.
Defined.
