(* ===== verification/Refine.v ===== *)
(** * The whole server: connections, event loops and database against a map

    The specification of the server that clients reach over their sockets: a
    finite map, and for each connection whether a request or a reply is
    outstanding.  For every interleaving of the steps of any number of
    connections and of the timer, the bytes that the event loops of Worker.v put
    on the wires are those of the specification.  The requests
    are PUT, on a key or on a prefix, GET and DEL: no other command of the database
    passes the unpacking. *)

From S2P Require Import Prelude Util Config Store Bst Vec Trie Pack Db Protocol Network Hashtable.
From S2P Require Import Server Commands Worker.

(** ** Specification *)

Inductive request :=
| NPut (k v : list Z) (t : Z)
| NGet (k : list Z)
| NDel (k : list Z)
| NPutAll (k v : list Z) (t : Z).    (* the key is a prefix *)

(** The packet that a client sends. *)
Definition request_packet (r : request) : list Z :=
  match r with
  | NPut k v t => packet 16 (put_body t k v)
  | NGet k => packet 32 k
  | NDel k => packet 48 k
  | NPutAll k v t => packet 24 (put_body t k v)
  end.

(** Bodies of up to 127 bytes; that of a key alone has at least five.  The time to live is
    an int. *)
Definition request_ok (r : request) : Prop :=
  match r with
  | NPut k v t | NPutAll k v t => cstr k ∧ cstr v ∧ strlen k + strlen v <= 121 ∧ -2 ^ 31 <= t < 2 ^ 31
  | NGet k | NDel k => cstr k ∧ 5 <= strlen k <= 127
  end.
#[export] Instance request_ok_dec r : Decision (request_ok r).
Proof. destruct r; cbn; apply _. Defined.

Definition command_of (ptr : Z) (r : request) : command :=
  match r with
  | NPut k v t => CmdPut k v t ptr
  | NGet k => CmdGet k
  | NDel k => CmdDel k
  | NPutAll k v t => CmdPutAll k v t
  end.

(** The request as it is unpacked. *)
Definition request_of (r : request) : triedb_request :=
  match r with
  | NPut k v t => RPut (mkPut 16 t (strlen k) (k ++ [0]) (v ++ [0]))
  | NGet k => RGet (mkGet 32 (k ++ [0]))
  | NDel k => RGet (mkGet 48 (k ++ [0]))
  | NPutAll k v t => RPut (mkPut 24 t (strlen k) (k ++ [0]) (v ++ [0]))
  end.

Inductive sphase :=
| SIdle
| SRequested (r : request)
| SReplied (raw : list Z).

Record sstate := mkSState {
  s_map : gmap (list Z) db_item;
  s_count : Z;
  s_phases : gmap Z sphase
}.

Inductive slabel :=
| SRead (p : Z) (r : request)
| SWork (p now1 now ptr : Z)
| SWrite (p : Z) (n : nat)
| STick
| SBus
| SConnect (p : Z).

Definition set_sphase (st : sstate) (p : Z) (ph : sphase) : sstate :=
  mkSState (s_map st) (s_count st) (<[p := ph]> (s_phases st)).

Definition sstep (st : sstate) (l : slabel) : res (sstate * option (Z * list Z)) :=
  match l with
  | SRead p r =>
      match s_phases st !! p with
      | Some SIdle => Ok (set_sphase st p (SRequested r), None)
      | _ => Ok (st, None)
      end
  | SWork p now1 now ptr =>
      match s_phases st !! p with
      | Some (SRequested r) =>
          '(m, d, raw) ← spec_command now1 now (s_map st) (command_of ptr r);
          mret (mkSState m (s_count st + d) (<[p := SReplied raw]> (s_phases st)), None)
      | _ => Ok (st, None)
      end
  | SWrite p n =>
      match s_phases st !! p with
      | Some (SReplied raw) => Ok (set_sphase st p SIdle, Some (p, take n raw))
      | _ => Ok (st, None)
      end
  | STick | SBus => Ok (st, None)
  | SConnect p =>
      match s_phases st !! p with
      | None => Ok (set_sphase st p SIdle, None)
      | Some _ => Ok (st, None)
      end
  end.

Fixpoint srun (st : sstate) (ls : list slabel) : res (sstate * list (Z * list Z)) :=
  match ls with
  | [] => Ok (st, [])
  | l :: ls =>
      '(st, o) ← sstep st l;
      '(st, os) ← srun st ls;
      mret (st, match o with Some o => o :: os | None => os end)
  end.

(** ** The relation *)

(** A step of the server and the step of the specification: the request has
    arrived whole, in any pieces; a handler reads the clock twice; the socket accepts [n]
    bytes of the reply; a datagram is that of a node that joins. *)
Definition label_refines (l : label) (sl : slabel) : Prop :=
  match l, sl with
  | LRead p now junk sock, SRead p' r =>
      p = p' ∧ request_ok r ∧ ∃ s, arrives sock (request_packet r) s
  | LWork p e, SWork p' now1 now ptr =>
      p = p' ∧ e_now1 e = now1 ∧ e_now e = now ∧ e_ptr e = ptr
  | LWrite p out, SWrite p' n =>
      p = p' ∧ ∃ ns s, out = (Accept <$> ns) ++ WAgain :: s ∧ n = sum_list ns
  | LTick _, STick => True
  | LBus _ d, SBus => ∃ h rc, d = [h; 1; rc] ∧ is_byte rc ∧ 13 <= bits_opcode h <= 15
  | LAccept _ _ _ _ p, SConnect p' => p = p'
  | _, _ => False
  end.

Definition phase_refines (p : Z) (ph : phase) (sp : sphase) : Prop :=
  match ph, sp with
  | Reading, SIdle => True
  | Working ev, SRequested r => ev = mkEvent p None (request_of r) ∧ request_ok r
  | Writing ev, SReplied raw => ev_client ev = p ∧ ev_reply ev = Some raw ∧ raw ≠ []
  | _, _ => False
  end.

(** All connections use the database at [a]; there are no expiring keys. *)
Record srv_refines (a : Z) (sv : server) (st : sstate) : Prop := {
  sr_db : at_db (sv_triedb sv) a (s_map st) (s_count st);
  sr_noexp : vsize (expiring_keys (sv_triedb sv)) = 0;
  sr_phases : map_Forall2 phase_refines (phases sv) (s_phases st);
  sr_conns : ∀ p, is_Some (phases sv !! p) → ∃ c, conns sv !! p = Some c ∧ client_db c = a;
  sr_live : ∀ p, is_Some (conns sv !! p) → is_Some (phases sv !! p);
  sr_db0 : hashtable_get (dbs (sv_triedb sv)) db0 = Ok (Some a);
  sr_buffer : 129 <= Z.of_nat (length (sv_buffer sv));
  sr_max : 127 <= max_request_size (sv_conf sv)
}.

(** ** Reading *)

Lemma read_request junk max sock s r buf info :
  request_ok r → arrives sock (request_packet r) s → 127 <= max → 129 <= Z.of_nat (length buf) →
  ∃ buf' info', read_data junk max sock buf info =
      Ok (mkRequestRead 0 (Some (request_of r)) s false buf' info') ∧ length buf' = length buf.
Proof.
  intros Hr Ha Hm Hb. destruct r as [k v t|k|k|k v t]; cbn in Hr, Ha.
  - destruct Hr as (_ & _ & Hl & Ht). pose proof (put_body_length t k v).
    eexists _, _. split; [by eapply read_put_spec; (done || lia)|].
    apply buffer_after_length. lia.
  - destruct Hr as (_ & Hl). unfold strlen in *. eexists _, _.
    split; [by eapply (read_get_spec _ _ 32 GET); (done || lia || left)|].
    apply buffer_after_length. lia.
  - destruct Hr as (_ & Hl). unfold strlen in *. eexists _, _.
    split; [by eapply (read_get_spec _ _ 48 DEL); (done || lia || right)|].
    apply buffer_after_length. lia.
  - destruct Hr as (_ & _ & Hl & Ht). pose proof (put_body_length t k v).
    eexists _, _. split; [by eapply read_put_spec; (done || lia)|].
    apply buffer_after_length. lia.
Qed.

(** ** Steps *)

Definition refines (a : Z) (o : res (server * option (Z * list Z)))
    (r : res (sstate * option (Z * list Z))) : Prop :=
  match r with
  | Ok (st, out) => ∃ sv, o = Ok (sv, out) ∧ srv_refines a sv st
  | Err f => o = Err f
  end.

Lemma phase_at a sv st p :
  srv_refines a sv st →
  option_Forall2 (phase_refines p) (phases sv !! p) (s_phases st !! p).
Proof. intros H. exact (sr_phases _ _ _ H p). Qed.

(** A phase changes on both sides, and the rest is related. *)
Lemma phase_changes a sv st p ph sp db n m :
  srv_refines a sv st → is_Some (phases sv !! p) → phase_refines p ph sp →
  ∀ sv', at_db (sv_triedb sv') a m n → vsize (expiring_keys (sv_triedb sv')) = 0 →
  dbs (sv_triedb sv') = dbs (sv_triedb sv) →
  sv_conf sv' = sv_conf sv → length (sv_buffer sv') = db → db = length (sv_buffer sv) →
  phases sv' = <[p := ph]> (phases sv) →
  (∀ q, option_Forall2 (λ c c', client_db c' = client_db c) (conns sv !! q) (conns sv' !! q)) →
  srv_refines a sv' (mkSState m n (<[p := sp]> (s_phases st))).
Proof.
  intros [Hdb Hne Hph Hc Hlv Hd0 Hb Hm] Hp Hr sv' Hdb' Hne' Hdbs Hconf Hl -> Hph' Hc'.
  split; cbn; rewrite ?Hconf, ?Hl, ?Hph', ?Hdbs; try done.
  - by apply map_Forall2_insert_2.
  - intros q Hq. assert (is_Some (phases sv !! q)) as Hq'.
    { destruct (decide (q = p)) as [->|]; [done|]. by rewrite lookup_insert_ne in Hq. }
    destruct (Hc q Hq') as (c & Hcq & <-). specialize (Hc' q). rewrite Hcq in Hc'.
    inversion Hc' as [? c' ? Ec Ec'|]; subst. by exists c'.
  - intros q Hq. apply insert_keeps, Hlv. specialize (Hc' q). destruct Hc'; [done|by destruct Hq].
Qed.

Lemma request_command_ok ptr r : request_ok r → command_ok (command_of ptr r).
Proof.
  destruct r as [k v t|k|k|k v t]; cbn; unfold short_key; intros H;
    pose proof (strlen_nonneg k); try pose proof (strlen_nonneg v); repeat split; try tauto; lia.
Qed.

Lemma spec_reply_nonempty now1 now m ptr r m' d raw :
  spec_command now1 now m (command_of ptr r) = Ok (m', d, raw) → raw ≠ [].
Proof.
  destruct r as [k v t|k|k|k v t]; cbn [command_of spec_command]; intros H.
  - by injection H as _ _ <-.
  - destruct (m !! k) as [[t [v|] ct lt ia]|]; [|by injection H as _ _ <-..].
    destruct (expired _ _); [by injection H as _ _ <-|]. destruct (late _ _); [by injection H as _ _ <-|].
    case_decide; [by injection H as _ _ <-|done].
  - case_decide; by injection H as _ _ <-.
  - by injection H as _ _ <-.
Qed.

Lemma leak_dbs s old : dbs (leak s old) = dbs s.
Proof. unfold leak. by repeat case_match. Qed.

(** A request does not change the table of databases. *)
Lemma serve_dbs junk buf now1 now s c ptr r s' c' raw rc :
  serve junk buf now1 now s c (command_of ptr r) = Ok (s', c', raw, rc) → dbs s' = dbs s.
Proof.
  destruct r as [k v t|k|k|k v t]; cbn [command_of serve]; intros H.
  - unfold put_handler, reply_ack in H. peel H; injection H as <- _ _ _; [done|exact (leak_dbs (set_database s _ _) _)].
  - unfold get_handler, reply_ack in H. apply res_bind_Ok in H as (db & _ & H).
    apply res_bind_Ok in H as (key & _ & H). change (bits_prefix (get_header _) =? 0) with true in H.
    cbv iota in H. apply res_bind_Ok in H as ([item|] & _ & H); [|by (peel H; injection H as <- _ _ _)].
    destruct (negb _ && _); [|by (peel H; injection H as <- _ _ _)].
    apply res_bind_Ok in H as (s1 & H1 & H). peel H. injection H as <- _ _ _.
    unfold get_expired in H1. peel H1. by injection H1 as <-.
  - unfold del_handler, reply_ack in H. peel H; by injection H as <- _ _ _.
  - unfold put_handler, reply_ack in H. peel H; injection H as <- _ _ _; [done|exact (leak_dbs (set_database s _ _) _)].
Qed.

(** The worker calls the handler of the command. *)
Lemma worker_serves e sv p r :
  worker_event e sv (mkEvent p None (request_of r)) =
    (c ← client_at sv p;
     '(sv, c, reply, _) ← on_triedb sv (serve (e_junk e) (e_buf e) (e_now1 e) (e_now e) (sv_triedb sv) c
                                          (command_of (e_ptr e) r));
     _ ← client_at sv p;
     mret (set_phase (set_conns sv (<[p := c]> (conns sv))) p
             (Writing (mkEvent p reply (request_of r))))).
Proof. by destruct r. Qed.

Lemma same_clients (cs : gmap Z client) q :
  option_Forall2 (λ d d', client_db d' = client_db d) (cs !! q) (cs !! q).
Proof. destruct (cs !! q); by constructor. Qed.

Lemma touch_keeps (cs : gmap Z client) p c c' :
  cs !! p = Some c → client_db c' = client_db c →
  ∀ q, option_Forall2 (λ d d', client_db d' = client_db d) (cs !! q) (<[p := c']> cs !! q).
Proof.
  intros Hp Hd q. destruct (decide (q = p)) as [->|].
  - rewrite lookup_insert_eq, Hp. by constructor.
  - rewrite lookup_insert_ne by done. by apply same_clients.
Qed.

Lemma read_refines a sv st p r now junk sock s :
  srv_refines a sv st → request_ok r → arrives sock (request_packet r) s →
  refines a (step sv (LRead p now junk sock)) (sstep st (SRead p r)).
Proof.
  intros Hsr Hr Ha. pose proof (phase_at _ _ _ p Hsr) as Hp. cbn [step sstep].
  destruct (phases sv !! p) as [ph|] eqn:Eph, (s_phases st !! p) as [sp|] eqn:Esp; try by inversion Hp.
  2:{ by exists sv. }
  assert (phase_refines p ph sp) as Hps by by inversion Hp.
  destruct ph, sp; try done; try (by exists sv).
  destruct (sr_conns _ _ _ Hsr p) as (c & Hc & Hca); [by eexists|].
  unfold io_read, client_at. rewrite Hc, res_bind_Ok_l.
  destruct (read_request junk (max_request_size (sv_conf sv)) sock s r (sv_buffer sv) (sv_info sv))
    as (buf' & info' & -> & Hl); [done|done|apply Hsr|apply Hsr|].
  rewrite res_bind_Ok_l. cbn [rr_info rr_buf rr_rc rr_pkt rr_sock deref].
  change (0 =? 0) with true. cbv iota. rewrite !res_bind_Ok_l. unfold client_at.
  cbn [conns set_phase set_buffer set_info]. rewrite Hc, !res_bind_Ok_l.
  eexists. split; [done|]. destruct st as [m n sps]. cbn [set_sphase s_map s_count s_phases] in *.
  refine (phase_changes a sv (mkSState m n sps) p _ _ _ n m Hsr _ _ _ _ _ _ _ eq_refl _ _ _);
    [by rewrite Eph| |apply Hsr|apply Hsr|done|done|done|done|by apply touch_keeps with c].
  by split.
Qed.

Lemma work_refines a sv st p now1 now ptr e :
  srv_refines a sv st → e_now1 e = now1 → e_now e = now → e_ptr e = ptr →
  refines a (step sv (LWork p e)) (sstep st (SWork p now1 now ptr)).
Proof.
  intros Hsr He1 He Hptr. pose proof (phase_at _ _ _ p Hsr) as Hp. cbn [step sstep].
  destruct (phases sv !! p) as [ph|] eqn:Eph, (s_phases st !! p) as [sp|] eqn:Esp; try by inversion Hp.
  2:{ by exists sv. }
  assert (phase_refines p ph sp) as Hps by by inversion Hp.
  destruct ph as [|ev|ev|], sp as [|r|raw]; try done; try (by exists sv). destruct Hps as [-> Hr].
  destruct (sr_conns _ _ _ Hsr p) as (c & Hc & Hca); [by eexists|].
  assert (client_at sv p = Ok c) as Hcl by (unfold client_at; by rewrite Hc).
  rewrite worker_serves, Hcl, !res_bind_Ok_l, Hptr, He, He1.
  pose proof (serve_refines (e_junk e) (e_buf e) (sv_triedb sv) c a (s_count st) (s_map st) Hca
    (sr_db _ _ _ Hsr) (sr_noexp _ _ _ Hsr) now1 now (command_of ptr r) (request_command_ok ptr r Hr)) as Hstep.
  destruct (spec_command now1 now (s_map st) (command_of ptr r)) as [[[m d] raw]|f] eqn:Espec; cbn [step_refines] in Hstep.
  2:{ by rewrite Hstep. }
  destruct Hstep as (s' & Hsv & Hat & Hex). pose proof (serve_dbs _ _ _ _ _ _ _ _ _ _ _ _ Hsv) as Hdbs.
  rewrite Hsv. unfold on_triedb. rewrite !res_bind_Ok_l.
  change (client_at (set_triedb sv s') p) with (client_at sv p).
  rewrite Hcl, !res_bind_Ok_l. eexists. split; [done|].
  refine (phase_changes a sv st p _ _ _ _ m Hsr _ _ _ _ _ _ _ eq_refl _ _ _);
    [by rewrite Eph| |done| |done|done|done|done|by apply touch_keeps with c].
  - split_and!; [done|done|by eapply spec_reply_nonempty].
  - cbn. rewrite Hex. apply Hsr.
Qed.

Lemma write_refines a sv st p ns s :
  srv_refines a sv st →
  refines a (step sv (LWrite p ((Accept <$> ns) ++ WAgain :: s))) (sstep st (SWrite p (sum_list ns))).
Proof.
  intros Hsr. pose proof (phase_at _ _ _ p Hsr) as Hp. cbn [step sstep].
  destruct (phases sv !! p) as [ph|] eqn:Eph, (s_phases st !! p) as [sp|] eqn:Esp; try by inversion Hp.
  2:{ by exists sv. }
  assert (phase_refines p ph sp) as Hps by by inversion Hp.
  destruct ph as [|ev|ev|], sp as [|r|raw]; try done; try (by exists sv).
  destruct Hps as (Hev & Hrep & Hraw).
  destruct (sr_conns _ _ _ Hsr p) as (c & Hc & Hca); [by eexists|].
  unfold io_write, client_at. rewrite Hev, Hc, res_bind_Ok_l, Hrep.
  destruct (send_bytes_take ns s raw) as (out' & ->).
  destruct raw as [|b raw]; [done|]. change (aget (b :: raw) 0) with (Ok b).
  rewrite !res_bind_Ok_l.
  destruct (Z.ltb_spec (Z.of_nat (Nat.min (sum_list ns) (length (b :: raw)))) 0); [lia|].
  eexists. split; [done|]. destruct st as [m n sps]. cbn [set_sphase s_map s_count s_phases] in *.
  refine (phase_changes a sv (mkSState m n sps) p _ _ _ n m Hsr _ _ _ _ _ _ _ eq_refl _ _ _);
    [by rewrite Eph| |apply Hsr|apply Hsr|done|done|done|done|]; [done|]. intros q. apply same_clients.
Qed.

Lemma bus_refines a sv st junk h rc :
  srv_refines a sv st → is_byte rc → 13 <= bits_opcode h <= 15 →
  refines a (step sv (LBus junk [h; 1; rc])) (sstep st SBus).
Proof.
  intros Hsr Hrc Ho. pose proof (sr_buffer _ _ _ Hsr) as Hb. cbn [step sstep].
  destruct (sv_buffer sv) as [|b0 [|b1 [|b2 [|b3 rest]]]] eqn:E; try (cbn in Hb; lia).
  rewrite (bus_join junk sv h rc b0 b1 b2 b3 rest) by done. rewrite res_bind_Ok_l.
  eexists. split; [done|]. destruct Hsr as [Hdb Hne Hph Hc Hlv Hd0 _ Hm]. by split.
Qed.

(** The table of clients takes a new connection: [hashtable_put] need not return. *)
Definition accepts (sv : server) (l : label) : Prop :=
  match l with LAccept _ _ _ _ _ => ∃ x, step sv l = Ok x | _ => True end.

Lemma accept_client_same fuel fd u now p s info s' c info' a :
  accept_client fuel fd u now p s info = Ok (s', c, info') → hashtable_get (dbs s) db0 = Ok (Some a) →
  databases s' = databases s ∧ leaked s' = leaked s ∧ expiring_keys s' = expiring_keys s ∧
  dbs s' = dbs s ∧ keyspace_size s' = keyspace_size s ∧ client_db c = a.
Proof.
  unfold accept_client. intros H Hd. rewrite Hd, res_bind_Ok_l in H.
  apply res_bind_Ok in H as (t & _ & H). injection H as <- <- _. by split_and!.
Qed.

Lemma connect_refines a sv st fuel fd u now p :
  srv_refines a sv st → accepts sv (LAccept fuel fd u now p) →
  refines a (step sv (LAccept fuel fd u now p)) (sstep st (SConnect p)).
Proof.
  intros Hsr [x Hx]. pose proof (phase_at _ _ _ p Hsr) as Hp. cbn [step sstep] in *.
  destruct (conns sv !! p) as [c|] eqn:Ec.
  - destruct (sr_live _ _ _ Hsr p) as [ph Eph]; [by eexists|]. rewrite Eph in Hp.
    inversion Hp as [? sp ? E1 E2|]. by exists sv.
  - assert (phases sv !! p = None) as Eph.
    { destruct (phases sv !! p) as [ph|] eqn:E; [|done].
      destruct (sr_conns _ _ _ Hsr p) as (c & ? & _); [by eexists|]. congruence. }
    rewrite Eph in Hp. inversion Hp as [|E1 E2].
    destruct (accept_client _ _ _ _ _ _ _) as [[[s' c] info']|] eqn:Ea; [|done]. clear Hx x.
    destruct (accept_client_same _ _ _ _ _ _ _ _ _ _ a Ea (sr_db0 _ _ _ Hsr)) as (H1 & H2 & H3 & H4 & H5 & H6).
    eexists. split; [done|]. destruct Hsr as [Hdb Hne Hph Hc Hlv Hd0 Hb Hm].
    split; cbn [set_phase set_conns set_info set_triedb sv_triedb conns phases sv_buffer sv_conf
      set_sphase s_map s_count s_phases]; rewrite ?H3, ?H4; [|exact Hne| | | |exact Hd0|exact Hb|exact Hm].
    + unfold at_db in *. by rewrite H1, H5.
    + by apply map_Forall2_insert_2.
    + intros q Hq. destruct (decide (q = p)) as [->|Hqp]; [rewrite lookup_insert_eq; by exists c|].
      rewrite lookup_insert_ne by done. apply Hc. by rewrite lookup_insert_ne in Hq.
    + intros q Hq. destruct (decide (q = p)) as [->|Hqp]; [rewrite lookup_insert_eq; by eexists|].
      rewrite lookup_insert_ne by done. apply Hlv. by rewrite lookup_insert_ne in Hq.
Qed.

Lemma step_refines_spec a sv st l sl :
  srv_refines a sv st → accepts sv l → label_refines l sl → refines a (step sv l) (sstep st sl).
Proof.
  intros Hsr Hacc Hl. destruct l as [p now junk sock|p e|p out|now|junk d|fuel fd u now p], sl as [p' r|p' now1 now' ptr|p' n| | |p'];
    cbn in Hl; try done.
  - destruct Hl as (<- & Hr & s & Ha). by eapply read_refines.
  - destruct Hl as (<- & ? & ? & ?). by apply work_refines.
  - destruct Hl as (<- & ns & s & -> & ->). by apply write_refines.
  - exists sv. split; [|done]. cbn [step]. unfold expire_keys, vector_size.
    rewrite (sr_noexp _ _ _ Hsr). change (0 =? 0) with true. cbv iota. rewrite res_bind_Ok_l.
    by destruct sv.
  - destruct Hl as (h & rc & -> & Hrc & Ho). by apply bus_refines.
  - subst p'. by apply connect_refines.
Qed.

Fixpoint all_accepts (sv : server) (ls : list label) : Prop :=
  match ls with
  | [] => True
  | l :: ls => accepts sv l ∧ match step sv l with Ok (sv', _) => all_accepts sv' ls | Err _ => True end
  end.

Lemma no_accepts sv ls :
  Forall (λ l, match l with LAccept _ _ _ _ _ => False | _ => True end) ls → all_accepts sv ls.
Proof.
  intros H. revert sv. induction H as [|l ls Hl _ IH]; intros sv; [done|]. split; [by destruct l|].
  destruct (step sv l) as [[sv' o]|]; [apply IH|done].
Qed.

(** The server refines its specification: for every interleaving of the steps of
    any number of connections, old and new, and of the timer, with requests arriving in any
    pieces and sockets accepting any part of a reply, the bytes on each wire are those that
    a finite map determines, one reply for each request and in its order, and the
    server faults exactly where the specification does. *)
Theorem server_refines_map a sv st ls sls :
  srv_refines a sv st → all_accepts sv ls → Forall2 label_refines ls sls →
  match srun st sls with
  | Ok (st', os) => ∃ sv', run_server sv ls = Ok (sv', os) ∧ srv_refines a sv' st'
  | Err f => run_server sv ls = Err f
  end.
Proof.
  intros Hsr Hacc Hls. revert sv st Hsr Hacc. induction Hls as [|l sl ls sls Hl _ IH]; intros sv st Hsr Hacc;
    cbn [run_server srun]; [by exists sv|]. destruct Hacc as [Ha Hacc].
  pose proof (step_refines_spec a sv st l sl Hsr Ha Hl) as Hst.
  destruct (sstep st sl) as [[st1 o]|f]; cbn [refines] in Hst; [|by rewrite Hst].
  destruct Hst as (sv1 & Hst & Hsr1). rewrite Hst in Hacc |- *. rewrite !res_bind_Ok_l.
  specialize (IH sv1 st1 Hsr1 Hacc).
  destruct (srun st1 sls) as [[st2 os]|f]; [|by rewrite IH].
  destruct IH as (sv2 & -> & Hsr2). rewrite !res_bind_Ok_l. by exists sv2.
Qed.

(** *** Two connections *)

Definition demo_two (s : triedb) : server :=
  mkServer s demo_infos demo_conf
    (<[1 := mkClient 5 0 (str "u1") 16]> (<[2 := mkClient 6 0 (str "u2") 16]> ∅))
    (<[1 := Reading]> (<[2 := Reading]> ∅)) (replicate 200 7).

Definition demo_spec : sstate := mkSState ∅ 0 (<[1 := SIdle]> (<[2 := SIdle]> ∅)).

Definition demo_labels : list (label * slabel) :=
  [(LRead 1 100 0 [Data (take 3 (packet 16 (put_body (-1) (str "hello") (str "42"))));
                   Data (drop 3 (packet 16 (put_body (-1) (str "hello") (str "42")))); Again],
    SRead 1 (NPut (str "hello") (str "42") (-1)));
   (LRead 2 100 0 [Data (packet 32 (str "hello")); Again], SRead 2 (NGet (str "hello")));
   (LWork 1 (mkEnv 100 100 64 0 [] 0), SWork 1 100 100 64);
   (LTick 100, STick);
   (LWork 2 (mkEnv 100 100 0 0 [] 0), SWork 2 100 100 0);
   (LWrite 2 [Accept 4; Accept 200; WAgain], SWrite 2 204);
   (LWrite 1 [Accept 2; WAgain], SWrite 1 2)].

Lemma demo_two_refines s : init_triedb 16 = Ok s → srv_refines 16 (demo_two s) demo_spec.
Proof.
  intros Hs. destruct (init_triedb_spec 16) as (s0 & E & Hd & _ & _ & He & Hg & Hk).
  rewrite E in Hs. injection Hs as <-. split; cbn [demo_two sv_triedb demo_spec s_map s_count].
  - split_and!; [|done|by rewrite Hk]. rewrite Hd.
    eexists. split; [apply lookup_singleton_eq|apply database_init_repr].
  - by rewrite He.
  - do 2 (apply map_Forall2_insert_2; [done|]). apply map_Forall2_empty.
  - intros p Hp. cbn in Hp |- *. rewrite !lookup_insert_is_Some' in Hp.
    destruct Hp as [<-|[<-|[]%lookup_empty_is_Some]].
    + rewrite lookup_insert_eq. eexists. split; reflexivity.
    + rewrite lookup_insert_ne, lookup_insert_eq by done. eexists. split; reflexivity.
  - clear Hg. intros p Hp. cbn in Hp |- *. rewrite !lookup_insert_is_Some' in Hp.
    rewrite !lookup_insert_is_Some'. destruct Hp as [?|[?|[]%lookup_empty_is_Some]]; auto.
  - exact Hg.
  - by vm_compute.
  - by vm_compute.
Qed.

Lemma server_refines_map_witness :
  ∃ s sv', init_triedb 16 = Ok s ∧
    run_server (demo_two s) demo_labels.*1 =
      Ok (sv', [(2, packet 32 (items_bytes (single_items (mkTuple (-1) 5 (str "hello") (str "42")))));
                (1, [0; 1])]).
Proof.
  destruct (init_triedb_spec 16) as (s & Hs & _).
  pose proof (server_refines_map 16 (demo_two s) demo_spec demo_labels.*1 demo_labels.*2
    (demo_two_refines s Hs)) as H.
  destruct (srun demo_spec demo_labels.*2) as [[st' os]|f] eqn:E; [|vm_compute in E; discriminate E].
  destruct H as (sv' & H & _).
  - apply no_accepts. repeat constructor.
  - repeat (apply Forall2_cons; split); try apply Forall2_nil; cbn [fst snd demo_labels label_refines].
    + split; [reflexivity|]. split; [apply (bool_decide_unpack _); vm_compute; exact I|]. exists [].
      eexists [_; _]. split_and!; cycle 2; [reflexivity| |reflexivity].
      repeat (constructor; [discriminate|]). constructor.
    + split; [reflexivity|]. split; [apply (bool_decide_unpack _); vm_compute; exact I|]. exists [].
      eexists [_]. split_and!; cycle 2; [reflexivity| |reflexivity].
      repeat (constructor; [discriminate|]). constructor.
    + split_and!; reflexivity.
    + exact I.
    + split_and!; reflexivity.
    + split; [reflexivity|]. exists [4%nat; 200%nat], []. split; reflexivity.
    + split; [reflexivity|]. exists [2%nat], []. split; reflexivity.
    + exact I.
  - exists s, sv'. split; [exact Hs|]. rewrite H. vm_compute in E. injection E as _ <-. reflexivity.
Defined.
