(* ===== verification/System.v ===== *)
(** * The whole system: new connections and the batches of both loops

    The main thread runs [accept_loop] while the threads of the pools go through their
    batches.  A step is a report of the listening socket or one of the steps of Batch, in
    any order.  The transition system of Worker, with its label for new connections, is
    what the system does, step by step; Reference says what the clients see of it. *)

From S2P Require Import Prelude Util Config Store Bst Vec Trie Pack Db Protocol Network Hashtable.
From S2P Require Import Os Sockets Server Commands Worker Refine Loop Accept Events Batch.

(** ** Data *)

Inductive occurrence :=
| Pools (x : action)                              (* the threads of the pools *)
| Arrive (ready : Z) (ars : list arriving).       (* the listening socket *)

(** ** Operations *)

(** [acc] is the epoll instance of [accept_loop]. *)
Definition system_step (ep : epoll) (acc : Z) (lp : loops) (ts : list taken) (x : occurrence)
  : res (loops * list taken * option (Z * list Z)) :=
  match x with
  | Pools x => act ep lp ts x
  | Arrive ready ars =>
      match epoll_report (lp_os lp) acc (serverfd ep) ready with
      | Some (o, e) =>
          '(lp, _) ← accept_dispatch ep acc (set_os lp o) ars e;
          mret (lp, ts, None)
      | None => mret (lp, ts, None)
      end
  end.

Fixpoint run_system (ep : epoll) (acc : Z) (lp : loops) (ts : list taken) (xs : list occurrence)
  : res (loops * list taken * list (Z * list Z)) :=
  match xs with
  | [] => Ok (lp, ts, [])
  | x :: xs =>
      '(lp, ts, out) ← system_step ep acc lp ts x;
      '(lp, ts, outs) ← run_system ep acc lp ts xs;
      mret (lp, ts, option_list out ++ outs)
  end.

(** ** Entries that a dispatch does not concern *)

(** What a step leaves of an entry of an instance. *)
Definition same (e2 fd2 : Z) (o o' : os) : Prop := registered o' e2 fd2 = registered o e2 fd2.

#[export] Instance same_preorder e2 fd2 : PreOrder (same e2 fd2).
Proof. unfold same. split; [done|intros o1 o2 o3 H1 H2; congruence]. Qed.

Create HintDb same.

Lemma same_epolls e2 fd2 o o' : o_epolls o' = o_epolls o → same e2 fd2 o o'.
Proof. unfold same, registered. by intros ->. Qed.

Lemma same_close e2 fd2 o fd : fd ≠ fd2 → fd ≠ e2 → same e2 fd2 o (os_close o fd).1.
Proof.
  intros H1 H2. destruct (decide (is_Some (o_fds o !! fd))) as [Hfd|Hfd].
  - destruct (os_close_spec o fd Hfd) as (o' & -> & _ & _ & _ & Hr). unfold same. cbn.
    by rewrite Hr, decide_False by naive_solver.
  - unfold os_close. by rewrite decide_False.
Qed.

Lemma same_ctl e2 fd2 o efd op fd ev : efd ≠ e2 ∨ fd ≠ fd2 → same e2 fd2 o (epoll_ctl o efd op fd ev).1.
Proof.
  intros Hne. unfold epoll_ctl. destruct (o_epolls o !! efd) as [regs|] eqn:E; [|done].
  destruct (decide _); [|done].
  assert (∀ regs', regs' !! fd2 = regs !! fd2 ∨ efd ≠ e2 → same e2 fd2 o (set_interest o efd regs')) as Hs.
  { intros regs' H. unfold same, registered, set_interest. cbn. destruct (decide (efd = e2)) as [->|].
    - rewrite lookup_insert_eq, E. cbn. by destruct H.
    - by rewrite lookup_insert_ne. }
  destruct op, (regs !! fd); try done; apply Hs; destruct Hne as [?|?];
    (by right) || (left; by rewrite ?lookup_insert_ne, ?lookup_delete_ne).
Qed.

Lemma same_write e2 fd2 o fd n : same e2 fd2 o (eventfd_write o fd n).
Proof. apply same_epolls. unfold eventfd_write. by destruct (o_counters o !! fd). Qed.

Lemma same_read e2 fd2 o fd : same e2 fd2 o (eventfd_read o fd).1.
Proof. apply same_epolls. unfold eventfd_read. destruct (o_counters o !! fd) as [k|]; [|done]. by destruct (0 <? k). Qed.

Lemma same_if e2 fd2 (b : bool) o o' : same e2 fd2 o o' → same e2 fd2 o (if b then o' else o).
Proof. by destruct b. Qed.
#[export] Hint Resolve same_close same_write same_read same_if : same.

Lemma same_report e2 fd2 o efd fd ready o' e :
  efd ≠ e2 ∨ fd ≠ fd2 → epoll_report o efd fd ready = Some (o', e) → same e2 fd2 o o'.
Proof.
  intros Hne H. pose proof (epoll_report_spec _ _ _ _ _ _ H) as (? & _ & _ & _ & _ & _ & _ & _ & Hr).
  unfold same. rewrite Hr. by rewrite decide_False by naive_solver.
Qed.

Section Same.
Context (ep : epoll) (le : loop_env) (e2 fd2 : Z).

Lemma client_at_conns sv p c : client_at sv p = Ok c → conns sv !! p = Some c.
Proof. unfold client_at. destruct (conns sv !! p); [by intros [= ->]|done]. Qed.

Lemma event_at_events lp a eo : event_at lp a = Ok eo → lp_events lp !! a = Some eo.
Proof. unfold event_at. destruct (lp_events lp !! a); [by intros [= ->]|done]. Qed.

Lemma io_in_same lp p lp' :
  le_eventfd le ≠ fd2 → client_clear lp p e2 fd2 → io_in ep le lp p = Ok lp' → same e2 fd2 (lp_os lp) (lp_os lp').
Proof.
  intros Hev C. unfold io_in. intros H. apply res_bind_Ok in H as (c & Hc%client_at_conns & H).
  destruct (C c Hc) as [C1 C2]. apply res_bind_Ok in H as (r & _ & H).
  assert (same e2 fd2 (lp_os lp) (if rr_closed r then (os_close (lp_os lp) (client_fd c)).1 else lp_os lp)) as Hs
    by auto with same.
  destruct (rr_rc r =? 0).
  - apply res_bind_Ok in H as (pkt & _ & H). destruct (epoll_add _ _ _ _ _ _) as [o rc] eqn:E.
    apply res_bind_Ok in H as (c' & _ & H). injection H as <-. cbn.
    etransitivity; [exact Hs|]. etransitivity; [|apply same_write].
    change o with ((o, rc).1). rewrite <-E. unfold epoll_add.
    etransitivity; [|apply same_ctl; by right]. by apply same_epolls.
  - destruct (rr_rc r =? _).
    + apply res_bind_Ok in H as (v & _ & H). apply res_bind_Ok in H as ([t rc] & _ & H).
      apply res_bind_Ok in H as (? & _ & H). injection H as <-. cbn.
      etransitivity; [exact Hs|by apply same_close].
    + apply res_bind_Ok in H as (c' & _ & H). by injection H as <-.
Qed.

Lemma io_out_same lp a lp' out :
  event_clear lp a e2 fd2 → io_out ep le lp a = Ok (lp', out) → same e2 fd2 (lp_os lp) (lp_os lp').
Proof.
  intros C. unfold io_out. intros H. apply res_bind_Ok in H as (eo & He%event_at_events & H).
  apply res_bind_Ok in H as (c & Hc%client_at_conns & H). destruct (C eo He c Hc) as [C1 C2].
  destruct (ev_reply (ie_event eo)) as [raw|]; [|done]. destruct (send_bytes _ _) as [[? bs] sent].
  destruct (epoll_mod _ _ _ _ _ _) as [o rc] eqn:E. apply res_bind_Ok in H as (? & _ & H). injection H as <- _.
  cbn. change o with ((o, rc).1). rewrite <-E. unfold epoll_mod.
  etransitivity; [|apply same_ctl; by right]. auto with same.
Qed.

Lemma worker_in_same lp a lp' :
  event_clear lp a e2 fd2 → worker_clear lp a e2 fd2 → worker_in le lp a = Ok lp' →
  same e2 fd2 (lp_os lp) (lp_os lp').
Proof.
  intros C W H. unfold worker_in in H. apply res_bind_Ok in H as (lp1 & H1 & H).
  unfold worker_call in H1. apply res_bind_Ok in H1 as (eo & He%event_at_events & H1).
  apply res_bind_Ok in H1 as (c & Hc%client_at_conns & H1). destruct (C eo He c Hc) as [C1 C2].
  destruct (W eo He) as (W1 & W2 & Ht). apply res_bind_Ok in H1 as (fo & Hf & H1).
  apply res_bind_Ok in H1 as (f & Hf' & H1). destruct fo as [f'|]; [|done]. injection Hf' as ->.
  destruct (typed_call_outcome _ f (le_handler le) c (sv_triedb (lp_server lp)) (sv_info (lp_server lp))
    (sv_conf (lp_server lp)) Ht Hf) as (out & Hcall & Hcl).
  rewrite Hcall in H1 by done. unfold on_triedb in H1. rewrite res_bind_assoc in H1.
  apply res_bind_Ok in H1 as ([[[s c'] raw] rc] & Hout & H1). apply Hcl in Hout as ->.
  rewrite res_bind_mret_l in H1. apply res_bind_Ok in H1 as (? & _ & H1).
  destruct (epoll_mod _ _ _ _ _ _) as [o rc'] eqn:E. injection H1 as <-.
  unfold worker_after, event_at in H. cbn in H. rewrite lookup_insert_eq in H. injection H as <-. cbn.
  etransitivity; [|by apply same_close]. change o with ((o, rc').1). rewrite <-E.
  unfold epoll_mod. etransitivity; [apply same_read|]. apply same_ctl. by right.
Qed.

Lemma dispatch_same io lp e lp' out v :
  (ev_events e = EPOLLIN ∨ ev_events e = EPOLLOUT) → dispatch_clear ep io le lp e e2 fd2 →
  dispatch ep io le lp e = Ok (lp', out, v) → same e2 fd2 (lp_os lp) (lp_os lp').
Proof.
  intros He C. unfold dispatch_clear in C. unfold dispatch, io_dispatch, worker_dispatch.
  assert (EPOLL_ERR e = false) as -> by (unfold EPOLL_ERR; by destruct He as [->| ->]).
  destruct (Z.eqb_spec (data_fd (ev_data e)) (Config.run (sv_conf (lp_server lp)))) as [Er|Er].
  { destruct io; intros [= <- _ _]; apply same_read. }
  specialize (C Er). destruct io.
  - rewrite bus_test. destruct (bool_decide_reflect (data_fd (ev_data e) ∈ bus_fds ep)) as [Hb|Hb].
    { intros H. by apply res_bind_Ok in H as ([sv pkt] & _ & [= <- _ _]). }
    destruct (C Hb) as (C1 & C2 & C3). destruct He as [He|He]; rewrite !He.
    + intros H. apply res_bind_Ok in H as (lp1 & H & [= <- _ _]). eapply io_in_same; [done|by apply C2|done].
    + intros H. apply res_bind_Ok in H as ([lp1 out1] & H & [= <- _ _]). eapply io_out_same; [by apply C3|done].
  - destruct (Z.eqb_spec (data_fd (ev_data e)) (expirefd ep)) as [Ex|Ex].
    { intros H. by apply res_bind_Ok in H as (s & _ & [= <- _ _]). }
    destruct (C Ex) as [C1 C2]. destruct (negb _); [|by intros [= <- _ _]].
    intros H. apply res_bind_Ok in H as (lp1 & H & [= <- _ _]). by eapply worker_in_same.
Qed.
End Same.

(** ** Accepting while events are taken *)

Lemma report_restored o e2 fd2 r2 efd fd ready :
  efd ≠ e2 →
  epoll_report (restore o e2 fd2 r2) efd fd ready =
    (λ oe, (restore oe.1 e2 fd2 r2, oe.2)) <$> epoll_report o efd fd ready.
Proof.
  intros Hne. unfold epoll_report. cbn [restore o_epolls]. rewrite lookup_alter_ne by done.
  destruct (o_epolls o !! efd) as [regs|]; cbn; [|done]. destruct (regs !! fd) as [r|]; cbn; [|done].
  destruct (_ =? 0); [done|]. cbn. do 2 f_equal. unfold restore, set_interest. cbn. f_equal.
  by rewrite alter_insert_ne.
Qed.

Lemma accept_connection_restored an o family fd e2 fd2 r2 :
  accept_connection an (restore o e2 fd2 r2) family (Some fd) =
    (restore (accept_connection an o family (Some fd)).1 e2 fd2 r2, fd) ∧
  (accept_connection an o family (Some fd)).2 = fd.
Proof.
  unfold accept_connection, set_nonblocking, set_tcp_nodelay.
  by destruct (an_getfl an), (an_setfl an), (family =? INET).
Qed.

Lemma accept_all_commutes e2 fd2 r2 ep acc lp ars :
  e2 ≠ acc → fd2 ∉ ar_fd <$> ars →
  accept_all ep acc (with_entry e2 fd2 r2 lp) ars =
    (lp' ← accept_all ep acc lp ars; mret (with_entry e2 fd2 r2 lp')).
Proof.
  intros Hne. revert lp. induction ars as [|ar ars IH]; intros lp Hars; [done|].
  cbn in Hars. apply not_elem_of_cons in Hars as [Hfd Hars].
  cbn [accept_all]. change (lp_server (with_entry e2 fd2 r2 lp)) with (lp_server lp).
  change (lp_os (with_entry e2 fd2 r2 lp)) with (restore (lp_os lp) e2 fd2 r2).
  change (lp_events (with_entry e2 fd2 r2 lp)) with (lp_events lp).
  destruct (accept_connection_restored (ar_answers ar) (lp_os lp) (socket_family (sv_conf (lp_server lp)))
    (ar_fd ar) e2 fd2 r2) as [-> E].
  destruct (accept_connection _ (lp_os lp) _ _) as [o1 fd]. cbn in E. subst fd. cbn [fst].
  destruct (ar_fd ar <? 0); [done|].
  destruct (accept_client _ _ _ _ _ _ _) as [[[s c] info]|]; [|done]. rewrite !res_bind_Ok_l.
  unfold epoll_add, epoll_mod. rewrite restore_ctl by done.
  destruct (epoll_ctl o1 _ _ _ _) as [o2 rc2]. cbn [fst snd]. rewrite restore_ctl by done.
  destruct (epoll_ctl o2 _ _ _ _) as [o3 rc3]. cbn [fst snd]. apply (IH (mkLoops _ _ o3) Hars).
Qed.

(** The same with all entries that were taken. *)
Section Together.
Context (ep : epoll) (runfd acc : Z) (Hio : io_epollfd ep ≠ acc) (Hw : w_epollfd ep ≠ acc).

Lemma instance_not_acc io : instance_fd ep io ≠ acc.
Proof. by destruct io. Qed.

Lemma rearm_all_report ts lp fd ready o e :
  epoll_report (lp_os lp) acc fd ready = Some (o, e) →
  epoll_report (lp_os (rearm_all ep runfd ts lp)) acc fd ready =
    Some (lp_os (rearm_all ep runfd ts (set_os lp o)), e).
Proof.
  intros H. induction ts as [|t ts IH]; [done|].
  assert (∀ l, rearm_all ep runfd (t :: ts) l = rearm ep runfd t (rearm_all ep runfd ts l)) as Hcons by done.
  rewrite !Hcons. unfold rearm. destruct (decide (persistent ep runfd t)); [done|].
  change (lp_os (with_entry ?e ?f ?r ?l)) with (restore (lp_os l) e f r).
  rewrite report_restored, IH by (apply not_eq_sym, instance_not_acc). done.
Qed.

Lemma rearm_all_accept ts lp ars :
  Forall (λ t, tk_fd t ∉ ar_fd <$> ars) ts →
  accept_all ep acc (rearm_all ep runfd ts lp) ars =
    (lp' ← accept_all ep acc lp ars; mret (rearm_all ep runfd ts lp')).
Proof.
  intros Hts. induction Hts as [|t ts Ht Hts IH]; [cbn; by destruct (accept_all ep acc lp ars)|].
  assert (∀ l, rearm_all ep runfd (t :: ts) l = rearm ep runfd t (rearm_all ep runfd ts l)) as Hcons by done.
  rewrite Hcons. unfold rearm at 1. destruct (decide (persistent ep runfd t)) as [Hp|Hp].
  - rewrite IH. destruct (accept_all ep acc lp ars); [|done]. rewrite !res_bind_Ok_l, Hcons.
    unfold rearm. by rewrite decide_True.
  - rewrite accept_all_commutes, IH by (done || apply instance_not_acc).
    destruct (accept_all ep acc lp ars); [|done]. rewrite !res_bind_Ok_l, Hcons.
    unfold rearm. by rewrite decide_False.
Qed.

Lemma rearm_all_acc ts lp fd :
  registered (lp_os (rearm_all ep runfd ts lp)) acc fd = registered (lp_os lp) acc fd.
Proof.
  induction ts as [|t ts IH]; [done|].
  change (rearm_all ep runfd (t :: ts) lp) with (rearm ep runfd t (rearm_all ep runfd ts lp)).
  unfold rearm. destruct (decide _); [done|]. rewrite <-IH. unfold registered. cbn.
  by rewrite lookup_alter_ne by apply instance_not_acc.
Qed.
End Together.

(** ** The relation *)

(** The entry of the listening socket: armed, or waiting for [epoll_mod]. *)
Definition listens (ep : epoll) (acc : Z) (b : bool) (o : os) : Prop :=
  ∃ d, registered o acc (serverfd ep) = Some (if b then armed EPOLLIN d else disarmed d) ∧
    data_fd d = serverfd ep.

Record sys_ok (ep : epoll) (acc : Z) (lp : loops) (ts : list taken) (sv : server) : Prop := {
  so_batched : batched ep lp ts sv;
  so_io : io_epollfd ep ≠ acc;
  so_w : w_epollfd ep ≠ acc;
  so_server : 0 <= serverfd ep < 2 ^ 31;
  so_run : serverfd ep ≠ Config.run (sv_conf sv)
}.
Arguments so_batched {_ _ _ _ _} _.
Arguments so_io {_ _ _ _ _} _.
Arguments so_w {_ _ _ _ _} _.
Arguments so_server {_ _ _ _ _} _.
Arguments so_run {_ _ _ _ _} _.

(** ** One step *)

Lemma pools_step ep acc lp ts sv x :
  sys_ok ep acc lp ts sv → calm_action ep lp ts x →
  ∃ ls, action_labels ep lp ts sv x ls ∧
    agree (λ a b, b.2 = option_list a.2 ∧ sys_ok ep acc a.1.1 a.1.2 b.1) (act ep lp ts x) (run_server sv ls).
Proof.
  intros S Hc. destruct (act_batched ep lp ts sv x (so_batched S) Hc) as (ls & Hdr & Hls).
  exists ls. split; [done|].
  destruct (act ep lp ts x) as [[[lp' ts'] out]|] eqn:E, (run_server sv ls) as [[sv' os]|] eqn:Er; try done.
  destruct Hls as [Ho B']. cbn in Ho, B' |- *. split; [done|].
  pose proof (run_server_conf _ _ _ _ (rf_inv (bt_refines (so_batched S))) Er) as Hcf.
  split; [done|apply S|apply S|apply S|rewrite Hcf; apply S].
Qed.

(** Whether a connection was accepted, so that the socket has been armed again. *)
Definition some_arrive (ars : list arriving) : bool := match ars with [] => false | _ :: _ => true end.

Section Arrive.
Context (ep : epoll) (acc : Z) (lp : loops) (ts : list taken) (sv : server) (S : sys_ok ep acc lp ts sv).
Context (o : os) (d : Z) (ars : list arriving).
Context (Hrep : reported (lp_os lp) o acc (serverfd ep) d) (Hd : data_fd d = serverfd ep).
Context (Hfr : fresh_arrivals ep (lp_server lp) (lp_os lp) ars).
Local Abbreviation runfd := (Config.run (sv_conf sv)).
Local Abbreviation full := (rearm_all ep runfd ts (set_os lp o)).
Local Abbreviation B := (so_batched S).

Lemma taken_not_arriving : Forall (λ t, tk_fd t ∉ ar_fd <$> ars) ts.
Proof.
  apply Forall_forall. intros t [i Hi]%list_elem_of_lookup_1 Hin.
  apply list_elem_of_fmap in Hin as (ar & E & Har). destruct Hfr as (_ & _ & Hall).
  destruct (proj1 (Forall_forall _ _) Hall ar Har) as (_ & Hfd & _).
  destruct (rearm_all_same ep runfd ts lp) as (_ & _ & Hf & _). rewrite <-E, <-Hf in Hfd.
  destruct (taken_waits ep lp ts sv B i t Hi) as [Hw|(e & _ & Hr)].
  - destruct (rf_open (bt_refines B) _ Hw) as [? Hx]. congruence.
  - by rewrite (fresh_registered _ _ _ (rf_wf (bt_refines B)) Hfd) in Hr.
Qed.

Lemma set_os_fresh : fresh_arrivals ep sv (lp_os full) ars.
Proof.
  destruct Hfr as (F1 & F2 & F3). split_and!; [done|done|].
  destruct (rearm_all_same ep runfd ts (set_os lp o)) as (_ & _ & -> & _). cbn.
  destruct Hrep as (-> & _). destruct (rearm_all_same ep runfd ts lp) as (Hs & _).
  rewrite (rf_server (bt_refines B)) in Hs. by rewrite <-Hs in F3.
Qed.

(** The entries of the events that were taken are not concerned. *)
Lemma arrive_taken lp' :
  accept_all ep acc (set_os lp o) ars = Ok lp' →
  (∀ io, is_Some (o_epolls (lp_os lp') !! instance_fd ep io)) → Forall (taken_ok ep runfd lp') ts.
Proof.
  intros H He. apply Forall_forall. intros t Ht.
  pose proof (proj1 (Forall_forall _ _) (bt_taken B) t Ht) as Hok.
  pose proof (proj1 (Forall_forall _ _) taken_not_arriving t Ht) as Hars. cbv beta in Hars.
  assert (∃ r, registered (lp_os lp) (instance_fd ep (tk_io t)) (tk_fd t) = Some r) as [r Hr].
  { unfold taken_ok in Hok. destruct (decide _); [destruct Hok as (_ & _ & w & -> & _); eauto|].
    destruct Hok as [-> _]. eauto. }
  assert (registered o (instance_fd ep (tk_io t)) (tk_fd t) = Some r) as Hr1.
  { destruct Hrep as (_ & _ & _ & ->). rewrite decide_False; [done|].
    intros [E _]. by apply (instance_not_acc ep acc (so_io S) (so_w S) (tk_io t)). }
  pose proof (accept_all_commutes _ _ r ep acc (set_os lp o) ars
    (instance_not_acc ep acc (so_io S) (so_w S) (tk_io t)) Hars) as Hc.
  rewrite (with_entry_id _ _ _ (set_os lp o) Hr1), H, res_bind_Ok_l in Hc. injection Hc as Hc.
  assert (registered (lp_os lp') (instance_fd ep (tk_io t)) (tk_fd t) = Some r) as Hr'.
  { rewrite Hc. cbn. by rewrite registered_restore, decide_True. }
  unfold taken_ok in *. by rewrite Hr, <-Hr' in Hok.
Qed.

Lemma arrive_batched :
  refines ep full sv →
  agree (λ lp' y, y.2 = [] ∧ sys_ok ep acc lp' ts y.1 ∧ listens ep acc (some_arrive ars) (lp_os lp'))
    (accept_all ep acc (set_os lp o) ars) (run_server sv (accept_label <$> ars)).
Proof.
  intros R.
  assert (registered (lp_os (set_os lp o)) acc (serverfd ep) = Some (disarmed d)) as Hdis.
  { destruct Hrep as (_ & _ & _ & H). cbn. by rewrite H, decide_True. }
  assert (acceptor ep acc (lp_os full)) as A.
  { split; [apply not_eq_sym, S|apply not_eq_sym, S|].
    rewrite (rearm_all_acc ep runfd acc (so_io S) (so_w S)), Hdis. by eexists. }
  pose proof (accept_all_refines ep acc full sv ars R A set_os_fresh) as H.
  rewrite (rearm_all_accept ep runfd acc (so_io S) (so_w S) _ _ _ taken_not_arriving) in H.
  destruct (accept_all ep acc (set_os lp o) ars) as [lp'|f] eqn:Ha; [rewrite res_bind_Ok_l in H|done].
  destruct (run_server sv _) as [[sv' os]|] eqn:Er; [|done]. destruct H as [Hos [R' _ _ Hsock]]. cbn in Hos, R' |- *.
  pose proof (run_server_conf _ _ _ _ (rf_inv R) Er) as Hcf. split; [done|].
  split; [split; [|apply S|apply S|apply S|rewrite Hcf; apply S]|].
  - split; rewrite Hcf; [done| |apply B]. eapply arrive_taken; [done|]. intros io.
    apply (rearm_all_same ep runfd ts lp'), (rf_epolls R'). destruct io; auto.
  - destruct ars as [|ar ars'].
    + injection Ha as <-. by exists d.
    + destruct Hsock as [junk Hsock]. rewrite (rearm_all_acc ep runfd acc (so_io S) (so_w S)) in Hsock.
      eexists. split; [exact Hsock|]. apply data_fd_data. pose proof (so_server S). lia.
Qed.
End Arrive.

(** A report of the listening socket, when its entry is armed. *)
Lemma arrive_step ep acc lp ts sv b ready ars :
  sys_ok ep acc lp ts sv → listens ep acc b (lp_os lp) → no_error ready →
  fresh_arrivals ep (lp_server lp) (lp_os lp) ars →
  if b && negb (Z.land EPOLLIN ready =? 0) then
    ∃ o d, reported (lp_os lp) o acc (serverfd ep) d ∧
      system_step ep acc lp ts (Arrive ready ars) =
        (lp' ← accept_all ep acc (set_os lp o) ars; mret (lp', ts, None)) ∧
      agree (λ lp' y, y.2 = [] ∧ sys_ok ep acc lp' ts y.1 ∧ listens ep acc (some_arrive ars) (lp_os lp'))
        (accept_all ep acc (set_os lp o) ars) (run_server sv (accept_label <$> ars))
  else system_step ep acc lp ts (Arrive ready ars) = Ok (lp, ts, None).
Proof.
  intros S (d & Hr & Hd) Hn Hfr. cbn [system_step]. destruct b; cbn [andb].
  2:{ by rewrite (report_disarmed _ _ _ _ _ Hr). }
  pose proof (report_armed_iff (lp_os lp) acc (serverfd ep) ready 0 d Hr eq_refl Hn) as Hiff.
  change (2 ^ 0) with EPOLLIN in Hiff.
  destruct (epoll_report (lp_os lp) acc (serverfd ep) ready) as [[o e]|] eqn:E; rewrite <-Hiff; [|done].
  destruct (report_armed _ _ _ ready o e 0 d Hr) as (-> & Hrep); [done..|].
  exists o, d. split; [done|].
  unfold accept_dispatch. rewrite EPOLL_ERR_in by done. cbn [ev_data]. rewrite Hd.
  pose proof (bt_refines (so_batched S)) as R.
  destruct (rearm_all_same ep (Config.run (sv_conf sv)) ts lp) as (Hs & He & Hf & _).
  rewrite (rf_server R) in Hs. change (lp_server (set_os lp o)) with (lp_server lp). rewrite <-Hs.
  change (sv_conf (erase sv)) with (sv_conf sv).
  rewrite (proj2 (Z.eqb_neq _ _) (so_run S)), Z.eqb_refl, !res_bind_assoc.
  assert (refines ep (rearm_all ep (Config.run (sv_conf sv)) ts (set_os lp o)) sv) as R1.
  { pose proof (rearm_all_report ep (Config.run (sv_conf sv)) acc (so_io S) (so_w S) ts lp _ _ _ _ E) as ER.
    assert (registered (lp_os (rearm_all ep (Config.run (sv_conf sv)) ts lp)) acc (serverfd ep)
      = Some (armed EPOLLIN d)) as HrR by (by rewrite (rearm_all_acc ep _ acc (so_io S) (so_w S))).
    destruct (report_armed _ _ _ ready _ _ 0 d HrR ltac:(done) eq_refl eq_refl Hn ER) as (_ & HrepR).
    eapply (accept_report_refines ep acc _ sv) in HrepR;
      [|exact R|apply not_eq_sym, S|apply not_eq_sym, S|by eapply (wf_regs _ (rf_wf R))].
    destruct (rearm_all_same ep (Config.run (sv_conf sv)) ts (set_os lp o)) as (Hs' & He' & _).
    destruct (rearm_all ep (Config.run (sv_conf sv)) ts (set_os lp o)) as [sv1 es1 o1]. cbn in *.
    unfold set_os in HrepR. by rewrite (rf_server R), Hs, He, <-Hs', <-He' in HrepR. }
  split; [by destruct (accept_all ep acc (set_os lp o) ars)|].
  exact (arrive_batched ep acc lp ts sv S o d ars Hrep Hd Hfr R1).
Qed.
