(* ===== verification/Reference.v ===== *)
(** * The reference: what the clients of the server see

    A machine that computes, from what happens outside the server, the bytes that go out on
    every connection: which events epoll_wait returns, which of them the threads
    go through next, which requests arrive, which sockets are accepted, what the clock says,
    how much of a reply a socket accepts.  Its state is a finite map, the phase of each connection and the
    events that wait in the batches; it has no tries, no buffers and no epoll
    instances, and it is a function.  The system of System does what this
    machine does, step by step. *)

From S2P Require Import Prelude Util Config Store Bst Vec Trie Pack Db Protocol Network Hashtable.
From S2P Require Import Os Sockets Server Commands Worker Refine Loop Accept Events Batch System.

(** ** Data *)

(** What the surroundings choose when an event is dispatched: the request that has arrived,
    the number of the new eventfd, the two times that a handler reads, the address of new
    memory, how many bytes the socket accepts. *)
Record chosen := mkChosen {
  ch_request : request;
  ch_eventfd : Z;
  ch_now1 : Z;
  ch_now : Z;
  ch_ptr : Z;
  ch_written : nat
}.

Inductive happening :=
| HTake (io : bool) (fd ready : Z)           (* [fd] is ready for a thread of a pool *)
| HDispatch (i : nat) (d : chosen)           (* the event [i] of the batches is next *)
| HArrive (ready : Z) (cs : list (Z * Z)).   (* new connections: descriptor and client *)

Record rstate := mkRState {
  r_spec : sstate;                (* the map and the phases *)
  r_socks : gmap Z Z;             (* the client of a socket *)
  r_events : gmap Z Z;            (* the client of an eventfd *)
  r_taken : list (bool * Z);      (* the batches *)
  r_listens : bool
}.

Definition r_start : rstate := mkRState (mkSState ∅ 0 ∅) ∅ ∅ [] true.

(** ** Operations *)

(** What a descriptor is waited for, in the I/O pool or in the worker pool. *)
Definition waits_for (ep : epoll) (runfd : Z) (R : rstate) (io : bool) (fd : Z) : option target :=
  if decide (fd = runfd) then Some TStop
  else if io then
    if decide (fd ∈ bus_fds ep) then Some TBus
    else
      match r_socks R !! fd with
      | Some p =>
          match s_phases (r_spec R) !! p with
          | Some SIdle => Some (TRead p)
          | Some (SReplied _) => Some (TWrite p)
          | _ => None
          end
      | None => None
      end
  else if decide (fd = expirefd ep) then Some TTick
  else TWork <$> r_events R !! fd.

(** An event of a connection is returned once. *)
Definition one_shot (x : target) : bool :=
  match x with TRead _ | TWrite _ | TWork _ => true | TTick | TBus | TStop => false end.

Definition is_ready (bit ready : Z) : bool := negb (Z.land bit ready =? 0).

(** Whether epoll_wait returns an event of a descriptor on which [ready] is ready. *)
Definition returned (ep : epoll) (runfd : Z) (R : rstate) (io : bool) (fd ready : Z) : bool :=
  match waits_for ep runfd R io fd with
  | Some x => is_ready (target_bit x) ready && (negb (one_shot x) || bool_decide ((io, fd) ∉ r_taken R))
  | None => false
  end.

(** The step of the specification for an event. *)
Definition target_slabels (d : chosen) (x : target) : list slabel :=
  match x with
  | TRead p => [SRead p (ch_request d)]
  | TWrite p => [SWrite p (ch_written d)]
  | TWork p => [SWork p (ch_now1 d) (ch_now d) (ch_ptr d)]
  | TTick => [STick]
  | TBus => [SBus]
  | TStop => []
  end.

Definition events_after (d : chosen) (fd : Z) (x : target) (es : gmap Z Z) : gmap Z Z :=
  match x with
  | TRead p => <[ch_eventfd d := p]> es
  | TWork _ => delete fd es
  | _ => es
  end.

Definition rstep (ep : epoll) (runfd : Z) (R : rstate) (h : happening) : res (rstate * list (Z * list Z)) :=
  match h with
  | HTake io fd ready =>
      mret (mkRState (r_spec R) (r_socks R) (r_events R)
              (if returned ep runfd R io fd ready then r_taken R ++ [(io, fd)] else r_taken R)
              (r_listens R), [])
  | HDispatch i d =>
      match r_taken R !! i with
      | Some (io, fd) =>
          match waits_for ep runfd R io fd with
          | Some x =>
              '(st, outs) ← srun (r_spec R) (target_slabels d x);
              mret (mkRState st (r_socks R) (events_after d fd x (r_events R)) (delete i (r_taken R))
                      (r_listens R), outs)
          | None => mret (R, [])
          end
      | None => mret (R, [])
      end
  | HArrive ready cs =>
      if r_listens R && is_ready EPOLLIN ready then
        '(st, outs) ← srun (r_spec R) (SConnect <$> cs.*2);
        mret (mkRState st (list_to_map cs ∪ r_socks R) (r_events R) (r_taken R)
                (match cs with [] => false | _ :: _ => true end), outs)
      else mret (R, [])
  end.

Fixpoint rrun (ep : epoll) (runfd : Z) (R : rstate) (hs : list happening) : res (rstate * list (Z * list Z)) :=
  match hs with
  | [] => Ok (R, [])
  | h :: hs =>
      '(R, outs) ← rstep ep runfd R h;
      '(R, outs') ← rrun ep runfd R hs;
      mret (R, outs ++ outs')
  end.

(** ** What happens, and the steps of the system *)

(** A whole request has arrived, in any pieces, and nothing after it; the socket accepts a
    number of bytes, in any pieces, and then would block; a datagram is that of a
    node that joins. *)
Record chosen_by (le : loop_env) (d : chosen) : Prop := {
  cb_ok : request_ok (ch_request d);
  cb_request : ∃ s, arrives (le_sock le) (request_packet (ch_request d)) s;
  cb_eventfd : le_eventfd le = ch_eventfd d;
  cb_now1 : e_now1 (le_handler le) = ch_now1 d;
  cb_now : e_now (le_handler le) = ch_now d;
  cb_ptr : e_ptr (le_handler le) = ch_ptr d;
  cb_out : ∃ ns s, le_out le = (Network.Accept <$> ns) ++ WAgain :: s ∧ ch_written d = sum_list ns;
  cb_dgram : ∃ h rc, le_dgram le = [h; 1; rc] ∧ is_byte rc ∧ 13 <= bits_opcode h <= 15
}.

Definition occurs (x : occurrence) (h : happening) : Prop :=
  match x, h with
  | Pools (Take io fd ready), HTake io' fd' ready' => io = io' ∧ fd = fd' ∧ ready = ready'
  | Pools (Dispatch i le), HDispatch i' d => i = i' ∧ chosen_by le d
  | Arrive ready ars, HArrive ready' cs => ready = ready' ∧ cs = (λ ar, (ar_fd ar, ar_ptr ar)) <$> ars
  | _, _ => False
  end.

(** New descriptors and new memory are not in use, no descriptor reports an error or a
    hang-up, and the table of clients takes new connections. *)
Definition fair_occurrence (ep : epoll) (acc : Z) (lp : loops) (x : occurrence) : Prop :=
  match x with
  | Pools (Take _ _ ready) => no_error ready
  | Pools (Dispatch _ le) =>
      o_fds (lp_os lp) !! le_eventfd le = None ∧ lp_events lp !! le_event le = None ∧
      ptr_ok ep (lp_server lp) (le_event le)
  | Arrive ready ars =>
      no_error ready ∧ fresh_arrivals ep (lp_server lp) (lp_os lp) ars ∧
      ∀ ts, ∃ x, system_step ep acc lp ts (Arrive ready ars) = Ok x
  end.

Fixpoint fair_system (ep : epoll) (acc : Z) (lp : loops) (ts : list taken) (xs : list occurrence) : Prop :=
  match xs with
  | [] => True
  | x :: xs => fair_occurrence ep acc lp x ∧
      match system_step ep acc lp ts x with
      | Ok (lp', ts', _) => fair_system ep acc lp' ts' xs
      | Err _ => True
      end
  end.

(** It can be decided along a run. *)
#[export] Instance ptr_ok_dec ep sv x : Decision (ptr_ok ep sv x).
Proof. unfold ptr_ok. apply _. Defined.

#[export] Instance fresh_arrivals_dec ep sv o ars : Decision (fresh_arrivals ep sv o ars).
Proof. unfold fresh_arrivals. apply _. Defined.

Definition fair_test (ep : epoll) (acc : Z) (lp : loops) (x : occurrence) : bool :=
  match x with
  | Pools (Take _ _ ready) => Z.land ready ALWAYS =? 0
  | Pools (Dispatch _ le) =>
      bool_decide (o_fds (lp_os lp) !! le_eventfd le = None) &&
      bool_decide (lp_events lp !! le_event le = None) && bool_decide (ptr_ok ep (lp_server lp) (le_event le))
  | Arrive ready ars =>
      (Z.land ready ALWAYS =? 0) && bool_decide (fresh_arrivals ep (lp_server lp) (lp_os lp) ars) &&
      match system_step ep acc lp [] (Arrive ready ars) with Ok _ => true | Err _ => false end
  end.

Fixpoint fair_run (ep : epoll) (acc : Z) (lp : loops) (ts : list taken) (xs : list occurrence) : bool :=
  match xs with
  | [] => true
  | x :: xs => fair_test ep acc lp x &&
      match system_step ep acc lp ts x with
      | Ok (lp', ts', _) => fair_run ep acc lp' ts' xs
      | Err _ => true
      end
  end.

Lemma fair_run_ok ep acc lp ts xs : fair_run ep acc lp ts xs = true → fair_system ep acc lp ts xs.
Proof.
  revert lp ts. induction xs as [|x xs IH]; intros lp ts H; [done|]. cbn [fair_run fair_system] in *.
  apply andb_true_iff in H as [Ht H]. split.
  - destruct x as [[io fd ready|i le]|ready ars]; cbn [fair_test fair_occurrence] in *.
    + by apply Z.eqb_eq.
    + rewrite !andb_true_iff, !bool_decide_eq_true in Ht. destruct Ht as [[? ?] ?]. by split_and!.
    + rewrite !andb_true_iff, bool_decide_eq_true in Ht. destruct Ht as [[Hn Hfr] Hok].
      split_and!; [by apply Z.eqb_eq|done|]. intros ts'. cbn [system_step] in *.
      destruct (epoll_report _ _ _ _) as [[o e]|]; [|by eexists].
      destruct (accept_dispatch _ _ _ _ _) as [[lp' v]|]; [by eexists|done].
  - destruct (system_step ep acc lp ts x) as [[[lp' ts'] out]|]; auto.
Qed.

(** ** The relation *)

(** The descriptors that are watched from the start. *)
Definition fixture (ep : epoll) (runfd : Z) (io : bool) (fd : Z) : Prop :=
  fd = runfd ∨ if io then fd ∈ bus_fds ep else fd = expirefd ep.

(** A descriptor that is not the listening socket nor the instance of [accept_loop]. *)
Definition apart (ep : epoll) (acc fd : Z) : Prop := fd ≠ serverfd ep ∧ fd ≠ acc.

Record related (ep : epoll) (acc a : Z) (lp : loops) (ts : list taken) (sv : server) (R : rstate) : Prop := {
  rl_sys : sys_ok ep acc lp ts sv;
  rl_spec : srv_refines a sv (r_spec R);
  rl_taken : (λ t, (tk_io t, tk_fd t)) <$> ts = r_taken R;
  rl_socks fd p : r_socks R !! fd = Some p ↔ ∃ c, conns sv !! p = Some c ∧ client_fd c = fd;
  rl_events fd p : r_events R !! fd = Some p ↔
    ∃ x eo q, lp_events lp !! x = Some eo ∧ ie_io_event eo = fd ∧ ev_client (ie_event eo) = p ∧
      s_phases (r_spec R) !! p = Some (SRequested q);
  rl_listens : listens ep acc (r_listens R) (lp_os lp);
  rl_fixed io fd : fixture ep (Config.run (sv_conf sv)) io fd →
    ∃ w, registered (lp_os lp) (instance_fd ep io) fd = Some w ∧ watched w;
  rl_socks_apart fd p : r_socks R !! fd = Some p → apart ep acc fd;
  rl_events_apart x eo : lp_events lp !! x = Some eo → apart ep acc (ie_io_event eo)
}.
Arguments rl_sys {_ _ _ _ _ _ _} _.
Arguments rl_spec {_ _ _ _ _ _ _} _.
Arguments rl_taken {_ _ _ _ _ _ _} _.
Arguments rl_socks {_ _ _ _ _ _ _} _.
Arguments rl_events {_ _ _ _ _ _ _} _.
Arguments rl_listens {_ _ _ _ _ _ _} _.
Arguments rl_fixed {_ _ _ _ _ _ _} _.
Arguments rl_socks_apart {_ _ _ _ _ _ _} _.
Arguments rl_events_apart {_ _ _ _ _ _ _} _.

(** ** What is waited for *)

Section Waiting.
Context (ep : epoll) (acc a : Z) (lp : loops) (ts : list taken) (sv : server) (R : rstate).
Context (L : related ep acc a lp ts sv R).
Local Abbreviation runfd := (Config.run (sv_conf sv)).
Local Abbreviation full := (rearm_all ep runfd ts lp).

Lemma full_refines : refines ep full sv.
Proof. apply (bt_refines (so_batched (rl_sys L))). Qed.

Lemma full_events : lp_events full = lp_events lp.
Proof. apply rearm_all_same. Qed.

Lemma spec_phase p : option_Forall2 (phase_refines p) (phases sv !! p) (s_phases (r_spec R) !! p).
Proof. apply (phase_at a sv), L. Qed.

Lemma no_disarmed p : phases sv !! p ≠ Some Disarmed.
Proof. intros E. pose proof (spec_phase p) as H. rewrite E in H. inversion H as [? sp Hr|]. by destruct sp. Qed.

(** A connection has a phase, and its socket is open and not one of the others. *)
Lemma conn_phase p c :
  conns sv !! p = Some c →
  ∃ ph, phases sv !! p = Some ph ∧ is_Some (o_fds (lp_os lp) !! client_fd c) ∧ client_fd c ∉ reserved ep sv.
Proof.
  intros Hc. destruct (sr_live _ _ _ (rl_spec L) p) as [ph Hp]; [by eexists|].
  destruct (phase_entry _ _ _ full_refines p c ph Hp Hc) as (r & Hr & _ & _ & Hrs).
  { intros ->. by apply (no_disarmed p). }
  exists ph. split_and!; [done| |done]. apply (wf_regs _ (rf_wf full_refines)) in Hr.
  destruct (rearm_all_same ep runfd ts lp) as (_ & _ & E & _). by rewrite E in Hr.
Qed.

(** The [io_event] of a request that waits for its handler. *)
Lemma working_event p q x eo :
  s_phases (r_spec R) !! p = Some (SRequested q) → lp_events lp !! x = Some eo → ev_client (ie_event eo) = p →
  phases sv !! p = Some (Working (ie_event eo)) ∧ event_of ep sv full x (ie_io_event eo) (ie_event eo).
Proof.
  intros Hq Hx Hp. pose proof (spec_phase p) as H. rewrite Hq in H.
  inversion H as [ph ? Hr Eph|]. destruct ph as [|ev|ev|]; try done. symmetry in Eph.
  destruct (rf_inv full_refines p _ Eph) as ([c Hc] & Hev & _).
  destruct (rf_phase full_refines p _ c Eph Hc) as (_ & _ & _ & x' & efd & [Hx' Hptr] & _).
  rewrite <-full_events in Hx.
  assert (x = x') as <- by (eapply (rf_unique full_refines); [exact Hx|exact Hx'|]; cbn; congruence).
  rewrite Hx in Hx'. injection Hx' as ->. split; [done|by split].
Qed.

Lemma waits_concerns io fd x : waits_for ep runfd R io fd = Some x → concerns ep full sv io fd x.
Proof.
  unfold waits_for. destruct (decide (fd = runfd)) as [->|Hr]; [by intros [= <-]|]. destruct io.
  - destruct (decide (fd ∈ bus_fds ep)); [by intros [= <-]|].
    destruct (r_socks R !! fd) as [p|] eqn:Es; [|done]. apply (rl_socks L) in Es.
    pose proof (spec_phase p) as H. destruct (s_phases (r_spec R) !! p) as [sp|]; [|done].
    inversion H as [ph ? Hps Eph|]. destruct sp, ph; try done; intros [= <-]; cbn; eauto 10.
  - destruct (decide (fd = expirefd ep)) as [->|Hx]; [by intros [= <-]|].
    destruct (r_events R !! fd) as [p|] eqn:Ee; [|done]. intros [= <-].
    apply (rl_events L) in Ee as (x & eo & q & Hx' & <- & Hp & Hq).
    destruct (working_event p q x eo Hq Hx' Hp) as [H1 H2]. cbn. eauto 10.
Qed.

Lemma concerns_waits io fd x : concerns ep full sv io fd x → waits_for ep runfd R io fd = Some x.
Proof.
  unfold waits_for. destruct x as [p|p|p| | |]; cbn [concerns].
  - intros (-> & Hp & c & Hc & Hfd). destruct (conn_phase p c Hc) as (_ & _ & _ & Hrs). rewrite Hfd in Hrs.
    unfold reserved in Hrs. rewrite !not_elem_of_cons in Hrs. rewrite !decide_False by tauto.
    rewrite (proj2 (rl_socks L fd p)) by eauto. pose proof (spec_phase p) as H. rewrite Hp in H.
    inversion H as [? sp Hps|]. by destruct sp.
  - intros (-> & [ev Hp] & c & Hc & Hfd). destruct (conn_phase p c Hc) as (_ & _ & _ & Hrs). rewrite Hfd in Hrs.
    unfold reserved in Hrs. rewrite !not_elem_of_cons in Hrs. rewrite !decide_False by tauto.
    rewrite (proj2 (rl_socks L fd p)) by eauto. pose proof (spec_phase p) as H. rewrite Hp in H.
    inversion H as [? sp Hps|]. by destruct sp.
  - intros (-> & ev & x & Hp & Hx). destruct (eventfd_counter _ _ _ full_refines p ev x fd Hp Hx) as (_ & Hrs & _).
    unfold reserved in Hrs. rewrite !not_elem_of_cons in Hrs. rewrite !decide_False by tauto.
    rewrite (proj2 (rl_events L fd p)); [done|]. destruct Hx as [Hx _]. rewrite full_events in Hx.
    pose proof (spec_phase p) as H. rewrite Hp in H. inversion H as [? sp Hps|]. destruct sp as [|q|]; [done| |done].
    destruct (rf_inv full_refines p _ Hp) as (_ & Hev & _). by eexists x, _, q.
  - intros [-> ->]. rewrite decide_False by (apply not_eq_sym, (rf_run full_refines)). by rewrite decide_True.
  - intros [-> Hb]. rewrite decide_False; [by rewrite decide_True|]. intros ->. by apply (rf_bus full_refines).
  - intros ->. by rewrite decide_True.
Qed.

(** ** Which events are returned *)

Lemma persistent_waits io fd x e :
  waits_for ep runfd R io fd = Some x → one_shot x = true → ¬ persistent ep runfd (mkTaken io fd e).
Proof.
  intros Hx%waits_concerns H1 Hp. unfold persistent in Hp. cbn [tk_fd] in Hp.
  assert (fd ∈ reserved ep sv) as Hin by (by do 2 right).
  destruct x as [p|p|p| | |]; try done; cbn [concerns] in Hx.
  - destruct Hx as (_ & _ & c & Hc & <-). by destruct (conn_phase p c Hc) as (_ & _ & _ & ?).
  - destruct Hx as (_ & _ & c & Hc & <-). by destruct (conn_phase p c Hc) as (_ & _ & _ & ?).
  - destruct Hx as (_ & ev & x & Hw & Hx). by destruct (eventfd_counter _ _ _ full_refines p ev x fd Hw Hx) as (_ & ? & _).
Qed.

(** What was taken: the one-shot events and the others. *)
Lemma keys_taken io fd : (io, fd) ∈ keys ep runfd ts → (io, fd) ∈ r_taken R.
Proof.
  intros (t & Ht & E)%list_elem_of_omap. destruct (decide _); [done|]. injection E as <- <-.
  rewrite <-(rl_taken L). by apply (list_elem_of_fmap_2 (λ t, (tk_io t, tk_fd t))).
Qed.

Lemma taken_keys io fd x :
  waits_for ep runfd R io fd = Some x → one_shot x = true → (io, fd) ∈ r_taken R → (io, fd) ∈ keys ep runfd ts.
Proof.
  intros Hx H1 Hin. rewrite <-(rl_taken L) in Hin. apply list_elem_of_fmap in Hin as (t & [= -> ->] & Ht).
  apply elem_of_keys; [done|]. pose proof (persistent_waits _ _ x (tk_event t) Hx H1) as H. by destruct t.
Qed.

Lemma fixture_not_key io io' fd : fixture ep runfd io fd → (io', fd) ∉ keys ep runfd ts.
Proof.
  intros Hf (t & _ & E)%list_elem_of_omap. destruct (decide _) as [|Hp]; [done|]. injection E as _ E. apply Hp.
  unfold persistent. rewrite E. destruct Hf as [->|Hf]; [by right; left|]. destruct io; [by do 2 right|rewrite Hf; by left].
Qed.

(** The entry of a descriptor that is waited for. *)
Lemma target_entry io fd x :
  concerns ep full sv io fd x →
  ∃ r, registered (lp_os full) (instance_fd ep io) fd = Some r ∧
    if one_shot x then ∃ d, r = armed (target_bit x) d else watched r.
Proof.
  assert (∀ io fd, fixture ep runfd io fd →
    ∃ r, registered (lp_os full) (instance_fd ep io) fd = Some r ∧ watched r) as Hfix.
  { intros io' fd' Hf. destruct (rl_fixed L io' fd' Hf) as (w & Hw & Hww). exists w. split; [|done].
    rewrite <-Hw. pose proof (so_batched (rl_sys L)) as B.
    apply (rearm_all_other ep runfd (batched_two _ _ _ _ B)); [apply (batched_epolls _ _ _ _ B)|].
    by apply (fixture_not_key io'). }
  destruct x as [p|p|p| | |]; cbn [concerns one_shot target_bit].
  - intros (-> & Hp & c & Hc & <-). destruct (rf_phase full_refines p _ c Hp Hc) as (Hr & _). eauto.
  - intros (-> & [ev Hp] & c & Hc & <-). destruct (rf_phase full_refines p _ c Hp Hc) as (_ & _ & x & efd & _ & Hr). eauto.
  - intros (-> & ev & x & Hp & Hx). destruct (eventfd_counter _ _ _ full_refines p ev x fd Hp Hx) as (_ & _ & Hr). eauto.
  - intros [-> ->]. apply Hfix. by right.
  - intros [-> Hb]. apply Hfix. by right.
  - intros ->. apply Hfix. by left.
Qed.

Lemma entry_target io fd r :
  registered (lp_os full) (instance_fd ep io) fd = Some r →
  (∃ d, r = disarmed d) ∨ ∃ x, concerns ep full sv io fd x.
Proof.
  destruct io; cbn [instance_fd]; intros Hr.
  - destruct (rf_io full_refines fd r Hr) as [([->|Hb]%elem_of_cons & _)|[?|(p & c & Hc & Hfd & [Hp|Hp])]];
      [right; by exists TStop|right; by exists TBus|by left|right; exists (TRead p)|right; exists (TWrite p)]; cbn; eauto 10.
  - destruct (rf_w full_refines fd r Hr) as [(-> & _)|[(-> & _)|(p & ev & x & Hp & Hx & _)]];
      right; [by exists TStop|by exists TTick|exists (TWork p); cbn; eauto 10].
Qed.

Lemma take_returned io fd ready :
  no_error ready →
  bool_decide (is_Some (epoll_report (lp_os lp) (instance_fd ep io) fd ready)) = returned ep runfd R io fd ready.
Proof.
  intros Hn. pose proof (so_batched (rl_sys L)) as B. unfold returned.
  destruct (decide ((io, fd) ∈ keys ep runfd ts)) as [Hk|Hk].
  { rewrite bool_decide_false.
    - destruct (waits_for ep runfd R io fd) as [x|] eqn:E; [|done].
      rewrite (bool_decide_false ((io, fd) ∉ r_taken R)) by (intros H; by apply H, keys_taken).
      destruct (one_shot x) eqn:E1; [by rewrite andb_false_r|]. exfalso. apply waits_concerns in E.
      apply (fixture_not_key io io fd); [|done]. destruct x; try done; cbn [concerns] in E.
      + right. by destruct E as [-> ->].
      + right. by destruct E as [-> ?].
      + by left.
    - intros [[o e] H]. by apply (reported_not_taken _ _ _ _ B _ _ _ _ _ H). }
  pose proof (rearm_all_other ep runfd (batched_two _ _ _ _ B) ts lp io fd (batched_epolls _ _ _ _ B) Hk) as Hsame.
  destruct (registered (lp_os lp) (instance_fd ep io) fd) as [r|] eqn:Hr.
  - destruct (waits_for ep runfd R io fd) as [x|] eqn:E.
    + destruct (target_entry io fd x (waits_concerns _ _ _ E)) as (r' & Hr' & Hx). rewrite Hsame in Hr'. injection Hr' as <-.
      destruct (one_shot x) eqn:E1; cbn [negb orb].
      * rewrite (bool_decide_true ((io, fd) ∉ r_taken R)) by (intros H; by apply Hk, (taken_keys _ _ x)).
        rewrite andb_true_r. destruct Hx as [d ->].
        assert (∃ k, target_bit x = 2 ^ k ∧ Z.land (2 ^ k) FLAGS = 0) as (k & Ek & Hf).
        { destruct x; [by exists 0|by exists 2|by exists 0..]. }
        unfold is_ready. rewrite Ek in Hr |- *. by apply (report_armed_iff _ _ _ _ _ d).
      * rewrite andb_true_r. assert (target_bit x = EPOLLIN) as -> by (by destruct x).
        by apply (report_watched_iff _ _ _ _ r).
    + destruct (entry_target io fd r Hsame) as [[d ->]|[x Hx%concerns_waits]]; [|congruence].
      by rewrite (report_disarmed _ _ _ _ _ Hr).
  - rewrite bool_decide_false.
    + destruct (waits_for ep runfd R io fd) as [x|] eqn:E; [|done].
      destruct (target_entry io fd x (waits_concerns _ _ _ E)) as (r' & Hr' & _). congruence.
    + intros [[o e] (r & Hr' & _)%epoll_report_spec]. congruence.
Qed.
End Waiting.

(** ** What a dispatch leaves *)

(** The sockets of the connections stay. *)
Definition same_socks (lp lp' : loops) : Prop :=
  ∀ p, client_fd <$> conns (lp_server lp') !! p = client_fd <$> conns (lp_server lp) !! p.

Lemma touch_same_socks (cs : gmap Z client) p c c' q :
  cs !! p = Some c → client_fd c' = client_fd c →
  client_fd <$> <[p := c']> cs !! q = client_fd <$> cs !! q.
Proof.
  intros Hp Hc. destruct (decide (q = p)) as [->|Hne]; [|by rewrite lookup_insert_ne].
  rewrite lookup_insert_eq, Hp. cbn. by rewrite Hc.
Qed.

Lemma io_in_effect ep le lp p lp' :
  io_in ep le lp p = Ok lp' →
  same_socks lp lp' ∧
  (lp_events lp' = lp_events lp ∨
   ∃ pkt, lp_events lp' =
     <[le_event le := mkEventObj (io_epollfd ep) (le_eventfd le) (mkEvent p None pkt)]> (lp_events lp)).
Proof.
  unfold io_in. intros H. apply res_bind_Ok in H as (c & Hc%client_at_conns & H).
  apply res_bind_Ok in H as (r & _ & H). destruct (rr_rc r =? 0).
  - apply res_bind_Ok in H as (pkt & _ & H). destruct (epoll_add _ _ _ _ _ _) as [o rc].
    apply res_bind_Ok in H as (c' & Hc'%client_at_conns & H). injection H as <-. split; [|right; by exists pkt].
    intros q. by apply (touch_same_socks _ _ c').
  - destruct (rr_rc r =? _).
    + apply res_bind_Ok in H as (v & _ & H). apply res_bind_Ok in H as ([t rc] & _ & H).
      apply res_bind_Ok in H as (eo & He & H). unfold event_at in He. cbn in He. by rewrite lookup_delete_eq in He.
    + apply res_bind_Ok in H as (c' & Hc'%client_at_conns & H). injection H as <-. split; [|by left].
      intros q. by apply (touch_same_socks _ _ c').
Qed.

Lemma io_out_effect ep le lp x lp' out :
  io_out ep le lp x = Ok (lp', out) → same_socks lp lp' ∧ lp_events lp' = delete x (lp_events lp).
Proof.
  unfold io_out. intros H. apply res_bind_Ok in H as (eo & _ & H). apply res_bind_Ok in H as (c & _ & H).
  destruct (ev_reply (ie_event eo)) as [raw|]; [|done]. destruct (send_bytes _ _) as [[? bs] sent].
  destruct (epoll_mod _ _ _ _ _ _) as [o rc]. apply res_bind_Ok in H as (? & _ & H). by injection H as <- _.
Qed.

Lemma worker_in_effect le lp x eo lp' :
  lp_events lp !! x = Some eo → request_typed (ev_payload (ie_event eo)) → worker_in le lp x = Ok lp' →
  same_socks lp lp' ∧
  ∃ raw, lp_events lp' =
    <[x := mkEventObj (ie_epollfd eo) (ie_io_event eo)
             (mkEvent (ev_client (ie_event eo)) raw (ev_payload (ie_event eo)))]> (lp_events lp).
Proof.
  intros Hx Ht H. unfold worker_in, worker_call, event_at in H. rewrite Hx, res_bind_Ok_l in H.
  apply res_bind_Ok in H as (lp1 & H1 & H).
  apply res_bind_Ok in H1 as (c & Hc%client_at_conns & H1). apply res_bind_Ok in H1 as (fo & Hf & H1).
  apply res_bind_Ok in H1 as (f & Hf' & H1). destruct fo as [f'|]; [|done]. injection Hf' as ->.
  destruct (typed_call_outcome _ f (le_handler le) c (sv_triedb (lp_server lp)) (sv_info (lp_server lp))
    (sv_conf (lp_server lp)) Ht Hf) as (out & Hcall & Hcl).
  rewrite Hcall in H1 by done. unfold on_triedb in H1. rewrite res_bind_assoc in H1.
  apply res_bind_Ok in H1 as ([[[s c'] raw] rc] & Hout & H1). apply Hcl in Hout as ->.
  rewrite res_bind_mret_l in H1. apply res_bind_Ok in H1 as (? & _ & H1).
  destruct (epoll_mod _ _ _ _ _ _) as [o rc']. injection H1 as <-.
  unfold worker_after, event_at in H. cbn in H. rewrite lookup_insert_eq in H. injection H as <-. cbn.
  split; [|by exists raw]. intros q. cbn. by apply (touch_same_socks _ _ c).
Qed.

(** The events of the descriptors that are watched from the start. *)
Lemma fixture_effect ep le io lp e lp' out v :
  ev_events e = EPOLLIN → fixture ep (Config.run (sv_conf (lp_server lp))) io (data_fd (ev_data e)) →
  dispatch ep io le lp e = Ok (lp', out, v) → same_socks lp lp' ∧ lp_events lp' = lp_events lp.
Proof.
  intros He Hf. unfold dispatch, io_dispatch, worker_dispatch. rewrite EPOLL_ERR_in by done.
  destruct (Z.eqb_spec (data_fd (ev_data e)) (Config.run (sv_conf (lp_server lp)))) as [Er|Er].
  { destruct io; by intros [= <- _ _]. }
  destruct Hf as [?|Hf]; [done|]. destruct io.
  - rewrite bus_test, bool_decide_true by done. intros H.
    apply res_bind_Ok in H as ([sv pkt] & H1 & [= <- _ _]). apply bus_event_same in H1 as (buf & info & -> & _). done.
  - rewrite Hf, Z.eqb_refl. intros H. by apply res_bind_Ok in H as (s & _ & [= <- _ _]).
Qed.

(** Those of the connections. *)
Section Branches.
Context (ep : epoll) (le : loop_env) (lp : loops) (sv : server) (Hs : lp_server lp = erase sv).
Context (e : epoll_event) (Hp : ptr_ok ep sv (ev_data e)).

Lemma dispatch_in :
  ev_events e = EPOLLIN →
  dispatch ep true le lp e = (lp ← io_in ep le lp (ev_data e); mret (lp, None, Continue)).
Proof.
  intros He. destruct Hp as (H1 & H2 & H3). unfold dispatch, io_dispatch.
  rewrite EPOLL_ERR_in, Hs, bus_test, bool_decide_false, He by done.
  change (sv_conf (erase sv)) with (sv_conf sv). by rewrite (proj2 (Z.eqb_neq _ _) H1).
Qed.

Lemma dispatch_out :
  ev_events e = EPOLLOUT →
  dispatch ep true le lp e = ('(lp, out) ← io_out ep le lp (ev_data e); mret (lp, Some out, Continue)).
Proof.
  intros He. destruct Hp as (H1 & H2 & H3). unfold dispatch, io_dispatch.
  assert (EPOLL_ERR e = false) as -> by (unfold EPOLL_ERR; by rewrite He).
  rewrite Hs, bus_test, bool_decide_false, He by done.
  change (sv_conf (erase sv)) with (sv_conf sv). by rewrite (proj2 (Z.eqb_neq _ _) H1).
Qed.

Lemma dispatch_work :
  ev_events e = EPOLLIN →
  dispatch ep false le lp e = (lp ← worker_in le lp (ev_data e); mret (lp, None, Continue)).
Proof.
  intros He. destruct Hp as (H1 & H2 & H3). unfold dispatch, worker_dispatch.
  rewrite EPOLL_ERR_in, Hs, He by done. change (sv_conf (erase sv)) with (sv_conf sv).
  by rewrite (proj2 (Z.eqb_neq _ _) H1), (proj2 (Z.eqb_neq _ _) H2).
Qed.
End Branches.

(** The [io_event]s after the dispatch of an event of the descriptor [fd]. *)
Definition events_effect (ep : epoll) (le : loop_env) (fd : Z) (x : target) (es es' : gmap Z event_obj) : Prop :=
  match x with
  | TRead p =>
      es' = es ∨
      ∃ pkt, es' = <[le_event le := mkEventObj (io_epollfd ep) (le_eventfd le) (mkEvent p None pkt)]> es
  | TWrite p => ∃ y eo, es !! y = Some eo ∧ ev_client (ie_event eo) = p ∧ es' = delete y es
  | TWork p =>
      ∃ y eo raw, es !! y = Some eo ∧ ev_client (ie_event eo) = p ∧ ie_io_event eo = fd ∧
        es' = <[y := mkEventObj (ie_epollfd eo) fd (mkEvent p raw (ev_payload (ie_event eo)))]> es
  | TTick | TBus | TStop => es' = es
  end.

Section Dispatching.
Context (ep : epoll) (acc a : Z) (lp : loops) (ts : list taken) (sv : server) (R : rstate).
Context (L : related ep acc a lp ts sv R) (i : nat) (t : taken) (Hi : ts !! i = Some t) (le : loop_env).
Context (Hle : o_fds (lp_os lp) !! le_eventfd le = None).
Local Abbreviation runfd := (Config.run (sv_conf sv)).
Local Abbreviation full := (rearm_all ep runfd ts lp).
Local Abbreviation B := (so_batched (rl_sys L)).
Local Abbreviation FR := (full_refines ep acc a lp ts sv R L).

Lemma lp_erased : lp_server lp = erase sv.
Proof. rewrite <-(rf_server FR). symmetry. apply rearm_all_same. Qed.

Lemma dispatch_effect x lp' out v :
  concerns ep full sv (tk_io t) (tk_fd t) x → dispatch ep (tk_io t) le lp (tk_event t) = Ok (lp', out, v) →
  same_socks lp lp' ∧ events_effect ep le (tk_fd t) x (lp_events lp) (lp_events lp').
Proof.
  intros Hx Hd. pose proof (concerns_waits ep acc a lp ts sv R L _ _ _ Hx) as Hw.
  destruct (decide (persistent ep runfd t)) as [Hp|Hp].
  - pose proof (given_ok ep lp ts sv B i t Hi) as H. unfold taken_ok in H. rewrite decide_True in H by done.
    destruct H as (Hev & Hdf & _).
    assert (same_socks lp lp' ∧ lp_events lp' = lp_events lp) as [H1 H2].
    { eapply (fixture_effect ep le); [exact Hev| |exact Hd]. rewrite lp_erased, Hdf. unfold fixture.
      destruct (tk_io t) eqn:Hio.
      - by pose proof (persistent_run ep lp ts sv B i t Hi Hp Hio) as [|]%elem_of_cons; [left|right].
      - exact (persistent_worker ep lp ts sv B i t Hi Hp Hio). }
    split; [done|]. destruct (one_shot x) eqn:E1; [|by destruct x].
    exfalso. pose proof (persistent_waits ep acc a lp ts sv R L _ _ x (tk_event t) Hw E1) as Hn. by destruct t.
  - pose proof (given_events ep lp ts sv B i t Hi) as He.
    pose proof (given_armed ep lp ts sv B i t Hi Hp) as Ha.
    assert (∀ x', concerns ep full sv (tk_io t) (tk_fd t) x' → x = x') as Hun.
    { intros x' Hx'. apply (concerns_waits ep acc a lp ts sv R L) in Hx'. congruence. }
    destruct (entry_owner ep full sv FR _ _ _ He Ha)
      as [(Hio & E & c & Hph & Hc & Hfd)|[(Hio & E & p & c & ev & efd & Hph & Hc & Hfd & Hev)|
          (Hio & E & p & c & ev & Hph & Hc & Hev)]]; rewrite Hio in Hd, Hun.
    + rewrite (Hun (TRead (ev_data (tk_event t)))) by (cbn; eauto 10).
      rewrite (dispatch_in ep le lp sv lp_erased) in Hd by (done || by eapply (rf_ptr FR)).
      apply res_bind_Ok in Hd as (lp1 & Hd & [= <- _ _]). by apply io_in_effect in Hd.
    + rewrite (Hun (TWrite p)) by (cbn; eauto 10). destruct Hev as [Hev Hptr].
      rewrite (dispatch_out ep le lp sv lp_erased) in Hd by done.
      apply res_bind_Ok in Hd as ([lp1 out1] & Hd & [= <- _ _]). apply io_out_effect in Hd as [H1 H2]. split; [done|].
      destruct (rf_inv FR p _ Hph) as (_ & Hevp & _). rewrite (full_events ep lp ts sv) in Hev. by eexists _, _.
    + rewrite (Hun (TWork p)) by (cbn; eauto 10). destruct Hev as [Hev Hptr].
      rewrite (full_events ep lp ts sv) in Hev. destruct (rf_inv FR p _ Hph) as (_ & Hevp & Ht).
      rewrite (dispatch_work ep le lp sv lp_erased) in Hd by done.
      apply res_bind_Ok in Hd as (lp1 & Hd & [= <- _ _]). apply (worker_in_effect _ _ _ _ _ Hev) in Hd as [H1 [raw H2]];
        [|done]. split; [done|]. exists (ev_data (tk_event t)), (mkEventObj (io_epollfd ep) (tk_fd t) ev), raw.
      cbn in H2 |- *. rewrite Hevp in H2. by split_and!.
Qed.

(** The entries that the dispatch does not concern. *)
Lemma fixture_clear io2 fd2 :
  fixture ep runfd io2 fd2 → dispatch_clear ep (tk_io t) le lp (tk_event t) (instance_fd ep io2) fd2.
Proof.
  intros Hf. destruct (rearm_all_same ep runfd ts lp) as (H1 & H3 & Hfds & _).
  assert (fd2 ∈ expirefd ep :: runfd :: bus_fds ep) as Hpers.
  { destruct Hf as [->|Hf]; [by right; left|]. destruct io2; [by do 2 right|rewrite Hf; by left]. }
  assert (fd2 ∈ reserved ep sv) as Hres by (by do 2 right).
  destruct (decide (persistent ep runfd t)) as [Hp|Hp].
  - pose proof (given_ok ep lp ts sv B i t Hi) as H. unfold taken_ok in H. rewrite decide_True in H by done.
    destruct H as (_ & Hd & _). intros Hne. rewrite Hd, lp_erased in *.
    change (tk_fd t ≠ runfd) in Hne. destruct (tk_io t) eqn:Hio.
    + intros Hb. by pose proof (persistent_run ep lp ts sv B i t Hi Hp Hio) as [|]%elem_of_cons.
    + intros Hx. exfalso. apply (persistent_worker ep lp ts sv B i t Hi) in Hp as [|]; done.
  - assert (dispatch_clear ep (tk_io t) le full (tk_event t) (instance_fd ep io2) fd2) as C.
    + apply (taken_clear ep full sv FR _ (tk_fd t)).
      * by apply (given_events ep lp ts sv B i).
      * by apply (given_armed ep lp ts sv B i).
      * by left.
      * intros _ E. apply Hp. unfold persistent. by rewrite E.
      * intros _ E. destruct (rf_open FR _ Hres) as [y Hy]. rewrite <-E, Hfds in Hy. congruence.
    + unfold dispatch_clear, event_clear, worker_clear, client_clear in *. by rewrite H1, H3 in C.
Qed.

Lemma server_open : is_Some (o_fds (lp_os lp) !! serverfd ep) ∧ is_Some (o_fds (lp_os lp) !! acc).
Proof.
  destruct (rl_listens L) as (d & Hr & _). destruct (rearm_all_same ep runfd ts lp) as (_ & _ & Hf & _ & He).
  rewrite <-(rearm_all_acc ep runfd acc (so_io (rl_sys L)) (so_w (rl_sys L)) ts) in Hr. rewrite <-Hf.
  split; [by eapply (wf_regs _ (rf_wf FR))|].
  apply registered_regs in Hr as (regs & Hr & _). by eapply (wf_epolls _ (rf_wf FR)).
Qed.

Lemma listen_clear : dispatch_clear ep (tk_io t) le lp (tk_event t) acc (serverfd ep).
Proof.
  assert (∀ p, client_clear lp p acc (serverfd ep)) as Hc.
  { intros p c Hc. rewrite lp_erased in Hc. apply (rl_socks_apart L (client_fd c) p). apply (rl_socks L). by exists c. }
  assert (∀ y, event_clear lp y acc (serverfd ep)) as He by (intros y eo _; apply Hc).
  intros _. destruct (tk_io t).
  - intros _. split_and!; [|by intros..]. intros E. destruct server_open as [[y Hy] _]. congruence.
  - intros _. split; [done|]. intros eo Heo. destruct (rl_events_apart L _ eo Heo) as [H1 H2].
    split_and!; [done|done|]. rewrite <-(full_events ep lp ts sv) in Heo.
    destruct (rf_events FR _ _ Heo) as [H|H]; by destruct (rf_inv FR _ _ H) as (_ & _ & ?).
Qed.
End Dispatching.

(** ** The steps of the specification *)

Lemma target_refines le d x :
  chosen_by le d → Forall2 label_refines (target_labels le x) (target_slabels d x).
Proof.
  intros [C1 C2 C3 C4 C5 C6 C7 C8]. destruct x; repeat constructor; cbn; done.
Qed.

(** The phases after the step of an event that is waited for. *)
Definition phases_after (d : chosen) (x : target) (phs phs' : gmap Z sphase) : Prop :=
  match x with
  | TRead p => phs' = <[p := SRequested (ch_request d)]> phs
  | TWrite p => phs' = <[p := SIdle]> phs
  | TWork p => ∃ raw, phs' = <[p := SReplied raw]> phs
  | TTick | TBus | TStop => phs' = phs
  end.

Section Stepping.
Context (ep : epoll) (acc a : Z) (lp : loops) (ts : list taken) (sv : server) (R : rstate).
Context (L : related ep acc a lp ts sv R).
Local Abbreviation runfd := (Config.run (sv_conf sv)).
Local Abbreviation full := (rearm_all ep runfd ts lp).

Lemma waits_phase io fd x :
  waits_for ep runfd R io fd = Some x →
  match x with
  | TRead p => s_phases (r_spec R) !! p = Some SIdle
  | TWrite p => ∃ raw, s_phases (r_spec R) !! p = Some (SReplied raw)
  | TWork p => r_events R !! fd = Some p ∧ ∃ q, s_phases (r_spec R) !! p = Some (SRequested q)
  | TTick | TBus | TStop => True
  end.
Proof.
  unfold waits_for. destruct (decide (fd = runfd)); [by intros [= <-]|]. destruct io.
  - destruct (decide (fd ∈ bus_fds ep)); [by intros [= <-]|]. destruct (r_socks R !! fd) as [p|]; [|done].
    destruct (s_phases (r_spec R) !! p) as [[| |]|] eqn:E; intros [= <-]; eauto.
  - destruct (decide (fd = expirefd ep)); [by intros [= <-]|].
    destruct (r_events R !! fd) as [p|] eqn:E; [|done]. intros [= <-]. split; [done|].
    apply (rl_events L) in E as (_ & _ & q & _ & _ & _ & Hq). eauto.
Qed.

Lemma srun_phases io fd d x st' outs :
  waits_for ep runfd R io fd = Some x → srun (r_spec R) (target_slabels d x) = Ok (st', outs) →
  phases_after d x (s_phases (r_spec R)) (s_phases st').
Proof.
  intros Hx%waits_phase H. destruct x as [p|p|p| | |]; cbn [target_slabels srun] in H; try by injection H as <- _.
  - cbn [sstep] in H. rewrite Hx in H. by injection H as <- _.
  - destruct Hx as [raw Hx]. cbn [sstep] in H. rewrite Hx in H. by injection H as <- _.
  - destruct Hx as (_ & q & Hx). cbn [sstep] in H. rewrite Hx in H.
    apply res_bind_Ok in H as ([st1 o1] & H1 & H). injection H as <- _.
    apply res_bind_Ok in H1 as ([[m n] raw] & _ & H1). injection H1 as <- _. by exists raw.
Qed.

(** The eventfds of the requests that wait for their handlers. *)
Definition events_match (es : gmap Z Z) (os : gmap Z event_obj) (phs : gmap Z sphase) : Prop :=
  ∀ fd q, es !! fd = Some q ↔
    ∃ y eo r, os !! y = Some eo ∧ ie_io_event eo = fd ∧ ev_client (ie_event eo) = q ∧
      phs !! q = Some (SRequested r).

Lemma events_read fd p le d pkt :
  waits_for ep runfd R true fd = Some (TRead p) → le_eventfd le = ch_eventfd d →
  o_fds (lp_os lp) !! le_eventfd le = None → lp_events lp !! le_event le = None →
  events_match (<[ch_eventfd d := p]> (r_events R))
    (<[le_event le := mkEventObj (io_epollfd ep) (le_eventfd le) (mkEvent p None pkt)]> (lp_events lp))
    (<[p := SRequested (ch_request d)]> (s_phases (r_spec R))).
Proof.
  intros Hx Hfd Hop Hev fd' q. pose proof (full_refines ep acc a lp ts sv R L) as FR.
  assert (∀ y eo, lp_events lp !! y = Some eo → ev_client (ie_event eo) ≠ p) as Hno.
  { intros y eo Hy E. destruct (waits_concerns ep acc a lp ts sv R L _ _ _ Hx) as (_ & Hp & _).
    rewrite <-(full_events ep lp ts sv) in Hy.
    destruct (rf_events FR _ _ Hy) as [H|H]; rewrite E in H; congruence. }
  destruct (decide (fd' = ch_eventfd d)) as [->|Hne].
  - rewrite lookup_insert_eq. split.
    + intros [= <-]. exists (le_event le). rewrite !lookup_insert_eq. eauto 10.
    + intros (y & eo & r & Hy & Hio & Hq & Hr). destruct (decide (y = le_event le)) as [->|Hy'].
      { rewrite lookup_insert_eq in Hy. injection Hy as <-. by cbn in Hq; subst. }
      rewrite lookup_insert_ne in Hy by done. pose proof (Hno y eo Hy) as Hqp. rewrite Hq in Hqp.
      rewrite lookup_insert_ne in Hr by done.
      destruct (working_event ep acc a lp ts sv R L q r y eo Hr Hy Hq) as [Hw He].
      destruct (eventfd_counter _ _ _ FR q _ y _ Hw He) as (_ & _ & Hreg).
      apply (wf_regs _ (rf_wf FR)) in Hreg. destruct (rearm_all_same ep runfd ts lp) as (_ & _ & E & _).
      rewrite E, Hio, <-Hfd, Hop in Hreg. by destruct Hreg.
  - rewrite lookup_insert_ne by done. rewrite (rl_events L). split.
    + intros (y & eo & r & Hy & Hio & Hq & Hr). exists y, eo, r. pose proof (Hno y eo Hy) as Hqp. rewrite Hq in Hqp.
      rewrite !lookup_insert_ne by (done || intros E; congruence). done.
    + intros (y & eo & r & Hy & Hio & Hq & Hr). destruct (decide (y = le_event le)) as [->|Hy'].
      { rewrite lookup_insert_eq in Hy. injection Hy as <-. cbn in Hio. congruence. }
      rewrite lookup_insert_ne in Hy by done. pose proof (Hno y eo Hy) as Hqp. rewrite Hq in Hqp.
      rewrite lookup_insert_ne in Hr by done. eauto 10.
Qed.

Lemma events_write io fd p y0 eo0 :
  waits_for ep runfd R io fd = Some (TWrite p) → lp_events lp !! y0 = Some eo0 →
  ev_client (ie_event eo0) = p →
  events_match (r_events R) (delete y0 (lp_events lp)) (<[p := SIdle]> (s_phases (r_spec R))).
Proof.
  intros [raw Hraw]%waits_phase Hy0 Hp0 fd' q. rewrite (rl_events L). split.
  - intros (y & eo & r & Hy & Hio & Hq & Hr). exists y, eo, r.
    assert (q ≠ p) as Hqp by (intros ->; congruence).
    rewrite lookup_insert_ne by done. rewrite lookup_delete_ne; [done|]. intros <-. congruence.
  - intros (y & eo & r & [Hne Hy]%lookup_delete_Some & Hio & Hq & Hr).
    destruct (decide (q = p)) as [->|Hqp]; [by rewrite lookup_insert_eq in Hr|].
    rewrite lookup_insert_ne in Hr by done. eauto 10.
Qed.

Lemma events_work io fd p y0 eo0 eo1 raw :
  waits_for ep runfd R io fd = Some (TWork p) → lp_events lp !! y0 = Some eo0 →
  ev_client (ie_event eo0) = p → ie_io_event eo0 = fd → ev_client (ie_event eo1) = p →
  events_match (delete fd (r_events R)) (<[y0 := eo1]> (lp_events lp)) (<[p := SReplied raw]> (s_phases (r_spec R))).
Proof.
  intros [Hfp [r0 Hr0]]%waits_phase Hy0 Hp0 Hio0 Hp1 fd' q. pose proof (full_refines ep acc a lp ts sv R L) as FR.
  rewrite lookup_delete_Some, (rl_events L). split.
  - intros (Hne & y & eo & r & Hy & Hio & Hq & Hr). exists y, eo, r.
    assert (q ≠ p) as Hqp.
    { intros ->. pose proof (rf_unique FR y y0 eo eo0) as Hun. rewrite (full_events ep lp ts sv) in Hun.
      assert (y = y0) as -> by (apply Hun; [done..|congruence]). congruence. }
    rewrite !lookup_insert_ne by (done || intros E; congruence). done.
  - intros (y & eo & r & Hy & Hio & Hq & Hr).
    destruct (decide (q = p)) as [->|Hqp]; [by rewrite lookup_insert_eq in Hr|].
    rewrite lookup_insert_ne in Hr by done. destruct (decide (y = y0)) as [->|Hyy].
    { rewrite lookup_insert_eq in Hy. injection Hy as <-. congruence. }
    rewrite lookup_insert_ne in Hy by done. split; [|eauto 10]. intros <-.
    assert (r_events R !! fd = Some q) by (apply (rl_events L); eauto 10). congruence.
Qed.

(** The eventfds after a dispatch; a request that was read has an [io_event]. *)
Lemma events_related io fd le d x es' phs' :
  waits_for ep runfd R io fd = Some x → le_eventfd le = ch_eventfd d →
  o_fds (lp_os lp) !! le_eventfd le = None → lp_events lp !! le_event le = None →
  events_effect ep le fd x (lp_events lp) es' → phases_after d x (s_phases (r_spec R)) phs' →
  (∀ p, x = TRead p → es' ≠ lp_events lp) →
  events_match (events_after d fd x (r_events R)) es' phs'.
Proof.
  intros Hx Hfd Hop Hev Hes Hph Hread.
  destruct x as [p|p|p| | |]; cbn [events_effect phases_after events_after] in *.
  - destruct Hes as [?|[pkt ->]]; [by destruct (Hread p)|]. subst phs'.
    destruct (waits_concerns ep acc a lp ts sv R L _ _ _ Hx) as (-> & _). by apply (events_read fd).
  - destruct Hes as (y0 & eo0 & Hy0 & Hp0 & ->). subst phs'. by apply (events_write io fd p y0 eo0).
  - destruct Hes as (y0 & eo0 & raw0 & Hy0 & Hp0 & Hio0 & ->), Hph as [raw ->]. by eapply (events_work io fd p y0 eo0).
  - subst es' phs'. exact (rl_events L).
  - subst es' phs'. exact (rl_events L).
  - subst es' phs'. exact (rl_events L).
Qed.
End Stepping.

(** ** Steps *)

Lemma fmap_delete_at {A B} (f : A → B) (l : list A) i : f <$> delete i l = delete i (f <$> l).
Proof. revert i. induction l as [|x l IH]; intros [|i]; [done..|]. cbn. f_equal. apply IH. Qed.

Lemma related_erased ep acc lp ts sv : sys_ok ep acc lp ts sv → lp_server lp = erase sv.
Proof.
  intros S. rewrite <-(rf_server (bt_refines (so_batched S))). symmetry. apply rearm_all_same.
Qed.

Lemma listens_same ep acc b o o' : same acc (serverfd ep) o o' → listens ep acc b o → listens ep acc b o'.
Proof. unfold same, listens. by intros ->. Qed.

Section Dispatched.
Context (ep : epoll) (acc a : Z) (lp : loops) (ts : list taken) (sv : server) (R : rstate).
Context (L : related ep acc a lp ts sv R) (i : nat) (t : taken) (Hi : ts !! i = Some t) (le : loop_env).
Context (Hle : o_fds (lp_os lp) !! le_eventfd le = None) (Hea : lp_events lp !! le_event le = None).
Context (d : chosen) (Hfd : le_eventfd le = ch_eventfd d) (x : target).
Context (Hx : waits_for ep (Config.run (sv_conf sv)) R (tk_io t) (tk_fd t) = Some x).
Context (lp' : loops) (out : option (Z * list Z)) (v : verdict) (sv' : server) (st' : sstate).
Context (Hd : dispatch ep (tk_io t) le lp (tk_event t) = Ok (lp', out, v)).
Context (S' : sys_ok ep acc lp' (delete i ts) sv') (Hsr : srv_refines a sv' st').
Context (Hcf : sv_conf sv' = sv_conf sv) (Hph : phases_after d x (s_phases (r_spec R)) (s_phases st')).
Local Abbreviation runfd := (Config.run (sv_conf sv)).

Lemma dispatched_effect :
  same_socks lp lp' ∧ events_effect ep le (tk_fd t) x (lp_events lp) (lp_events lp').
Proof. eapply (dispatch_effect ep acc a lp ts sv R L i t Hi le); [|exact Hd]. by apply (waits_concerns ep acc a lp ts sv R L). Qed.

(** The request that was read has an [io_event]. *)
Lemma read_has_event p : x = TRead p → lp_events lp' ≠ lp_events lp.
Proof.
  intros -> E. cbn in Hph. pose proof (phase_at a sv' st' p Hsr) as H. rewrite Hph, lookup_insert_eq in H.
  inversion H as [ph ? Hps Eph|]. destruct ph as [|ev|ev|]; try done. symmetry in Eph.
  pose proof (bt_refines (so_batched S')) as R'. destruct (rf_inv R' p _ Eph) as ([c Hc] & Hev & _).
  destruct (rf_phase R' p _ c Eph Hc) as (_ & _ & _ & z & efd & [Hy _] & _).
  rewrite (proj1 (proj2 (rearm_all_same _ _ _ _))), E, <-(full_events ep lp ts sv) in Hy.
  destruct (waits_concerns ep acc a lp ts sv R L _ _ _ Hx) as (_ & Hp & _).
  destruct (rf_events (full_refines ep acc a lp ts sv R L) _ _ Hy) as [Hh|Hh]; cbn in Hh; rewrite Hev in Hh; congruence.
Qed.

Lemma events_apart_after y eo : lp_events lp' !! y = Some eo → apart ep acc (ie_io_event eo).
Proof.
  destruct dispatched_effect as [_ He]. pose proof (rl_events_apart L) as Ha.
  destruct x as [p|p|p| | |]; cbn [events_effect] in He.
  - destruct He as [->|[pkt ->]]; [apply Ha|]. destruct (decide (y = le_event le)) as [->|Hne].
    + rewrite lookup_insert_eq. intros [= <-]. cbn.
      destruct (server_open ep acc a lp ts sv R L) as [[? H1] [? H2]]. split; congruence.
    + rewrite lookup_insert_ne by done. apply Ha.
  - destruct He as (y0 & eo0 & _ & _ & ->). intros [_ H]%lookup_delete_Some. by eapply Ha.
  - destruct He as (y0 & eo0 & raw & Hy0 & _ & Hio & ->). destruct (decide (y = y0)) as [->|Hne].
    + rewrite lookup_insert_eq. intros [= <-]. cbn. rewrite <-Hio. by eapply Ha.
    + rewrite lookup_insert_ne by done. apply Ha.
  - rewrite He. apply Ha.
  - rewrite He. apply Ha.
  - rewrite He. apply Ha.
Qed.

Lemma dispatch_related :
  related ep acc a lp' (delete i ts) sv'
    (mkRState st' (r_socks R) (events_after d (tk_fd t) x (r_events R)) (delete i (r_taken R)) (r_listens R)).
Proof.
  destruct dispatched_effect as [Hso He]. pose proof (given_events ep lp ts sv (so_batched (rl_sys L)) i t Hi) as Hev.
  split; cbn [r_spec r_socks r_events r_taken r_listens].
  - done.
  - done.
  - by rewrite fmap_delete_at, (rl_taken L).
  - intros fd p. rewrite (rl_socks L). specialize (Hso p).
    rewrite (related_erased _ _ _ _ _ S'), (related_erased _ _ _ _ _ (rl_sys L)) in Hso. cbn in Hso.
    split; intros (c & Hc & Hcf'); rewrite Hc in Hso; cbn in Hso.
    + destruct (conns sv' !! p) as [c'|]; [|done]. injection Hso as E. exists c'. split; [done|congruence].
    + destruct (conns sv !! p) as [c'|]; [|done]. injection Hso as E. exists c'. split; [done|congruence].
  - exact (events_related ep acc a lp ts sv R L _ _ le d x _ _ Hx Hfd Hle Hea He Hph read_has_event).
  - eapply listens_same; [|apply (rl_listens L)].
    eapply (dispatch_same ep le); [exact Hev|by apply (listen_clear ep acc a lp ts sv R L)|exact Hd].
  - intros io2 fd2 Hf. rewrite Hcf in Hf. destruct (rl_fixed L io2 fd2 Hf) as (w & Hw & Hww). exists w. split; [|done].
    rewrite <-Hw. eapply (dispatch_same ep le); [exact Hev| |exact Hd].
    by apply (fixture_clear ep acc a lp ts sv R L i t Hi le Hle).
  - apply (rl_socks_apart L).
  - apply events_apart_after.
Qed.
End Dispatched.

Lemma take_related ep acc a lp ts sv R io fd ready o e :
  related ep acc a lp ts sv R → no_error ready →
  epoll_report (lp_os lp) (instance_fd ep io) fd ready = Some (o, e) →
  related ep acc a (set_os lp o) (ts ++ [mkTaken io fd e]) sv
    (mkRState (r_spec R) (r_socks R) (r_events R) (r_taken R ++ [(io, fd)]) (r_listens R)).
Proof.
  intros L Hn H. pose proof (rl_sys L) as S. split; cbn [r_spec r_socks r_events r_taken r_listens].
  - split; [|apply S..]. by apply (take_batched ep lp ts sv (so_batched S) io fd ready).
  - apply L.
  - by rewrite fmap_app, (rl_taken L).
  - apply L.
  - apply L.
  - eapply listens_same; [|apply (rl_listens L)]. eapply same_report; [|exact H]. left.
    apply (instance_not_acc ep acc (so_io S) (so_w S)).
  - intros io2 fd2 Hf. destruct (rl_fixed L io2 fd2 Hf) as (w & Hw & Hww). exists w. split; [|done]. cbn.
    destruct (decide (instance_fd ep io = instance_fd ep io2 ∧ fd = fd2)) as [[E <-]|Hne].
    + rewrite <-E in Hw |- *. by rewrite (report_watched_same _ _ _ _ _ _ _ Hw Hww H).
    + rewrite <-Hw. eapply same_report; [|exact H]. apply not_and_r in Hne. done.
  - apply (rl_socks_apart L).
  - apply (rl_events_apart L).
Qed.

(** *** New connections *)

Definition pairs (ars : list arriving) : list (Z * Z) := (λ ar, (ar_fd ar, ar_ptr ar)) <$> ars.

Lemma accept_all_events ep acc lp ars lp' :
  Forall (λ ar, 0 <= ar_fd ar) ars → accept_all ep acc lp ars = Ok lp' → lp_events lp' = lp_events lp.
Proof.
  intros Hf. revert lp. induction Hf as [|ar ars H0 _ IH]; intros lp H; [by injection H as <-|].
  cbn [accept_all] in H. destruct (accept_connection _ _ _ _) as [o fd]. destruct (fd <? 0); [by injection H as <-|].
  apply res_bind_Ok in H as ([[s c] info] & _ & H). destruct (epoll_add _ _ _ _ _ _), (epoll_mod _ _ _ _ _ _).
  by apply IH in H.
Qed.

Lemma accept_conns sv ars sv' outs :
  NoDup (ar_ptr <$> ars) → Forall (λ ar, conns sv !! ar_ptr ar = None) ars →
  run_server sv (accept_label <$> ars) = Ok (sv', outs) →
  ∀ fd p, (∃ c, conns sv' !! p = Some c ∧ client_fd c = fd) ↔
    (fd, p) ∈ pairs ars ∨ ∃ c, conns sv !! p = Some c ∧ client_fd c = fd.
Proof.
  intros Hnd Hf. revert sv outs Hf. induction ars as [|ar ars IH]; intros sv outs Hf H fd p.
  { injection H as <- _. unfold pairs. cbn. rewrite elem_of_nil. tauto. }
  cbn in Hnd. apply NoDup_cons in Hnd as [Hn Hnd]. apply Forall_cons in Hf as [Hp Hf].
  cbn [fmap list_fmap run_server accept_label step] in H. rewrite Hp in H.
  apply res_bind_Ok in H as ([sv1 o1] & H1 & H). apply res_bind_Ok in H1 as ([[s c] info] & Hc & H1).
  injection H1 as <- _. apply accept_client_fd in Hc. apply res_bind_Ok in H as ([sv2 os2] & H2 & H).
  injection H as <- _. apply (IH Hnd) with (fd := fd) (p := p) in H2.
  2:{ cbn. apply Forall_forall. intros ar' Hin. rewrite lookup_insert_ne.
      - exact (proj1 (Forall_forall _ _) Hf ar' Hin).
      - intros E. apply Hn. rewrite E. by apply list_elem_of_fmap_2. }
  rewrite H2. cbn [conns set_phase set_conns set_info set_triedb].
  unfold pairs. cbn [fmap list_fmap]. rewrite elem_of_cons. destruct (decide (p = ar_ptr ar)) as [->|Hne].
  - rewrite lookup_insert_eq, Hp. split.
    + intros [?|(c' & [= <-] & <-)]; [tauto|left; left; congruence].
    + intros [[[= ->]|?]|(? & ? & _)]; [right; by exists c|tauto|done].
  - rewrite lookup_insert_ne by done. split; [tauto|]. intros [[[= -> ?]|?]|?]; tauto.
Qed.

Lemma connect_phases st ps st' outs :
  srun st (SConnect <$> ps) = Ok (st', outs) →
  ∀ q r, s_phases st' !! q = Some (SRequested r) ↔ s_phases st !! q = Some (SRequested r).
Proof.
  revert st outs. induction ps as [|p ps IH]; intros st outs H q r; [by injection H as <- _|].
  cbn [fmap list_fmap srun sstep] in H.
  destruct (s_phases st !! p) as [ph|] eqn:E; rewrite res_bind_Ok_l in H;
    apply res_bind_Ok in H as ([st2 os2] & H2 & H); injection H as <- _; rewrite (IH _ _ H2); [done|].
  cbn. destruct (decide (q = p)) as [->|Hne]; [by rewrite lookup_insert_eq, E|by rewrite lookup_insert_ne].
Qed.

Lemma accept_all_same ep acc lp ars lp' e2 fd2 r :
  e2 ≠ acc → fd2 ∉ ar_fd <$> ars → accept_all ep acc lp ars = Ok lp' →
  is_Some (o_epolls (lp_os lp') !! e2) → registered (lp_os lp) e2 fd2 = Some r →
  registered (lp_os lp') e2 fd2 = Some r.
Proof.
  intros Hne Hars H He Hr. pose proof (accept_all_commutes _ _ r ep acc lp ars Hne Hars) as Hc.
  rewrite (with_entry_id _ _ _ lp Hr), H, res_bind_Ok_l in Hc. injection Hc as Hc.
  rewrite Hc. cbn. by rewrite registered_restore, decide_True.
Qed.

Section Arriving.
Context (ep : epoll) (acc a : Z) (lp : loops) (ts : list taken) (sv : server) (R : rstate).
Context (L : related ep acc a lp ts sv R) (ars : list arriving).
Context (Hfr : fresh_arrivals ep (lp_server lp) (lp_os lp) ars).
Local Abbreviation runfd := (Config.run (sv_conf sv)).

Lemma arriving_fresh fd p : (fd, p) ∈ pairs ars → 0 <= fd ∧ o_fds (lp_os lp) !! fd = None ∧ conns sv !! p = None.
Proof.
  intros (ar & [= -> ->] & Har)%list_elem_of_fmap. destruct Hfr as (_ & _ & Hall).
  destruct (proj1 (Forall_forall _ _) Hall ar Har) as (H1 & H2 & H3 & _).
  by rewrite (related_erased _ _ _ _ _ (rl_sys L)) in H3.
Qed.

Lemma arriving_socks fd p :
  (list_to_map (pairs ars) ∪ r_socks R) !! fd = Some p ↔ (fd, p) ∈ pairs ars ∨ r_socks R !! fd = Some p.
Proof.
  assert (NoDup (pairs ars).*1) as Hnd.
  { unfold pairs. rewrite <-list_fmap_compose. apply Hfr. }
  rewrite lookup_union_Some_raw, <-(elem_of_list_to_map (M := gmap Z)) by done. split; [tauto|].
  intros [H|H]; [by left|]. destruct (list_to_map (pairs ars) !! fd) as [p'|] eqn:E; [|by right].
  apply elem_of_list_to_map in E; [|done]. destruct (arriving_fresh fd p' E) as (_ & Hop & _).
  apply (rl_socks L) in H as (c & Hc & <-). destruct (conn_phase ep acc a lp ts sv R L p c Hc) as (_ & _ & [? Ho] & _).
  congruence.
Qed.

Lemma reserved_not_arriving fd : fd ∈ reserved ep sv → fd ∉ ar_fd <$> ars.
Proof.
  intros Hin (ar & -> & Har)%list_elem_of_fmap. destruct Hfr as (_ & _ & Hall).
  destruct (proj1 (Forall_forall _ _) Hall ar Har) as (_ & H2 & _).
  destruct (rf_open (full_refines ep acc a lp ts sv R L) _ Hin) as [? Ho].
  rewrite (proj1 (proj2 (proj2 (rearm_all_same _ _ _ _)))) in Ho. congruence.
Qed.

Lemma arrive_related o d lp' sv' st' outs outs' :
  reported (lp_os lp) o acc (serverfd ep) d → accept_all ep acc (set_os lp o) ars = Ok lp' →
  run_server sv (accept_label <$> ars) = Ok (sv', outs) →
  sys_ok ep acc lp' ts sv' → listens ep acc (some_arrive ars) (lp_os lp') →
  srun (r_spec R) (SConnect <$> (pairs ars).*2) = Ok (st', outs') → srv_refines a sv' st' →
  related ep acc a lp' ts sv'
    (mkRState st' (list_to_map (pairs ars) ∪ r_socks R) (r_events R) (r_taken R)
       (match pairs ars with [] => false | _ :: _ => true end)).
Proof.
  intros (Hr1 & Hr2 & Hr3 & Hr4) Ha Hrun S' Hl Hst Hsr.
  pose proof (full_refines ep acc a lp ts sv R L) as FR.
  pose proof (run_server_conf _ _ _ _ (rf_inv FR) Hrun) as Hcf.
  assert (lp_events lp' = lp_events lp) as Hev.
  { apply (accept_all_events ep acc (set_os lp o) ars); [|done]. destruct Hfr as (_ & _ & Hall).
    eapply Forall_impl; [exact Hall|]. by intros ar (? & _). }
  split; cbn [r_spec r_socks r_events r_taken r_listens].
  - done.
  - done.
  - apply L.
  - intros fd p. rewrite arriving_socks, (rl_socks L). symmetry. eapply accept_conns; [apply Hfr| |exact Hrun].
    destruct Hfr as (_ & _ & Hall). eapply Forall_impl; [exact Hall|]. intros ar (_ & _ & H & _).
    by rewrite (related_erased _ _ _ _ _ (rl_sys L)) in H.
  - intros fd p. rewrite Hev, (rl_events L). by setoid_rewrite (connect_phases _ _ _ _ Hst).
  - by destruct ars.
  - intros io fd Hf. rewrite Hcf in Hf. destruct (rl_fixed L io fd Hf) as (w & Hw & Hww). exists w. split; [|done].
    pose proof (instance_not_acc ep acc (so_io (rl_sys L)) (so_w (rl_sys L)) io) as Hne.
    eapply (accept_all_same ep acc (set_os lp o) ars); [exact Hne| |exact Ha| |].
    + apply reserved_not_arriving. destruct Hf as [->|Hf]; [by do 3 right; left|].
      destruct io; [by do 4 right|rewrite Hf; by do 2 right; left].
    + apply (batched_epolls _ _ _ _ (so_batched S')).
    + cbn. rewrite Hr4, decide_False; [done|]. by intros [? _].
  - intros fd p [H|H]%arriving_socks; [|by eapply (rl_socks_apart L)].
    destruct (arriving_fresh fd p H) as (_ & Hop & _).
    destruct (server_open ep acc a lp ts sv R L) as [[? H1] [? H2]]. split; congruence.
  - intros y eo. rewrite Hev. apply (rl_events_apart L).
Qed.
End Arriving.

(** *** Whole steps *)

Lemma chosen_reads a sv st lp le d :
  srv_refines a sv st → lp_server lp = erase sv → chosen_by le d → reads_well lp le.
Proof.
  intros Hsr Hs C r Hr Hc. destruct (cb_request _ _ C) as [s Ha]. rewrite Hs in Hr.
  destruct (read_request (le_junk le) (max_request_size (sv_conf sv)) (le_sock le) s (ch_request d) (sv_buffer sv)
    (sv_info sv) (cb_ok _ _ C) Ha (sr_max _ _ _ Hsr) (sr_buffer _ _ _ Hsr)) as (b & i & E & _).
  change (sv_conf (erase sv)) with (sv_conf sv) in Hr. change (sv_buffer (erase sv)) with (sv_buffer sv) in Hr.
  change (sv_info (erase sv)) with (sv_info sv) in Hr. rewrite E in Hr. injection Hr as <-. done.
Qed.

Lemma run_ok_accepts sv ls x : run_server sv ls = Ok x → all_accepts sv ls.
Proof.
  revert sv x. induction ls as [|l ls IH]; intros sv x H; [done|]. cbn [run_server all_accepts] in *.
  apply res_bind_Ok in H as ([sv1 o] & H1 & H). rewrite H1. split; [unfold accepts; destruct l; by eauto|].
  apply res_bind_Ok in H as (y & H2 & _). by eapply IH.
Qed.

Lemma concerns_full ep lp ts sv runfd io fd x :
  concerns ep lp sv io fd x → concerns ep (rearm_all ep runfd ts lp) sv io fd x.
Proof.
  destruct (rearm_all_same ep runfd ts lp) as (_ & H & _).
  destruct x as [p|p|p| | |]; cbn; unfold event_of; by rewrite ?H.
Qed.

(** What a step of the system and a step of the reference have in common. *)
Definition steps_agree (ep : epoll) (acc a : Z) (sv : server) (o : res (loops * list taken * option (Z * list Z)))
    (r : res (rstate * list (Z * list Z))) : Prop :=
  match r with
  | Ok (R', outs) => ∃ lp' ts' out sv', o = Ok (lp', ts', out) ∧ outs = option_list out ∧
      related ep acc a lp' ts' sv' R' ∧ sv_conf sv' = sv_conf sv
  | Err f => o = Err f
  end.

Section Steps.
Context (ep : epoll) (acc a : Z) (lp : loops) (ts : list taken) (sv : server) (R : rstate).
Context (L : related ep acc a lp ts sv R).
Local Abbreviation runfd := (Config.run (sv_conf sv)).

Lemma nothing_agrees o : o = Ok (lp, ts, None) → steps_agree ep acc a sv o (Ok (R, [])).
Proof. intros ->. by exists lp, ts, None, sv. Qed.

Lemma take_agrees io fd ready :
  no_error ready →
  steps_agree ep acc a sv (system_step ep acc lp ts (Pools (Take io fd ready))) (rstep ep runfd R (HTake io fd ready)).
Proof.
  intros Hn. cbn [rstep system_step act]. rewrite <-(take_returned ep acc a lp ts sv R L io fd ready Hn).
  destruct (epoll_report (lp_os lp) (instance_fd ep io) fd ready) as [[o e]|] eqn:E.
  - exists (set_os lp o), (ts ++ [mkTaken io fd e]), None, sv. split_and!; try done. by eapply take_related.
  - rewrite bool_decide_false by (by intros []).
    assert (∀ y, y = R → steps_agree ep acc a sv (Ok (lp, ts, None)) (Ok (y, []))) as H
      by (intros y ->; by apply nothing_agrees). apply H. by destruct R.
Qed.

Lemma dispatch_agrees i le d :
  fair_occurrence ep acc lp (Pools (Dispatch i le)) → chosen_by le d →
  steps_agree ep acc a sv (system_step ep acc lp ts (Pools (Dispatch i le))) (rstep ep runfd R (HDispatch i d)).
Proof.
  intros (Hle & Hea & Hptr) C. cbn [rstep system_step]. rewrite <-(rl_taken L), list_lookup_fmap.
  destruct (pools_step ep acc lp ts sv (Dispatch i le) (rl_sys L)) as (ls & Hls & Hag).
  { cbn. destruct (ts !! i) as [t|]; [|done]. intros _. split_and!; try done.
    eapply chosen_reads; [apply (rl_spec L)|by eapply related_erased, L|done]. }
  cbn [act action_labels] in *. destruct (ts !! i) as [t|] eqn:Hi; cbn [fmap option_fmap option_map]; [|by apply nothing_agrees].
  destruct Hls as (x & Hx & ->).
  apply (concerns_full ep lp ts sv runfd), (concerns_waits ep acc a lp ts sv R L) in Hx. rewrite Hx.
  pose proof (server_refines_map a sv (r_spec R) (target_labels le x) (target_slabels d x) (rl_spec L)) as Hmap.
  specialize (Hmap ltac:(apply no_accepts; destruct x; repeat constructor) (target_refines le d x C)).
  destruct (srun (r_spec R) (target_slabels d x)) as [[st' outs]|f] eqn:Es.
  2:{ rewrite Hmap in Hag. destruct (dispatch ep (tk_io t) le lp (tk_event t)) as [[[lp' out] v]|f']; [done|].
      cbn in Hag |- *. congruence. }
  destruct Hmap as (sv' & Hrun & Hsr). rewrite Hrun in Hag.
  destruct (dispatch ep (tk_io t) le lp (tk_event t)) as [[[lp' out] v]|f'] eqn:Hd; [|done].
  cbn in Hag |- *. destruct Hag as [-> S'].
  pose proof (run_server_conf _ _ _ _ (rf_inv (full_refines ep acc a lp ts sv R L)) Hrun) as Hcf.
  exists lp', (delete i ts), out, sv'. split_and!; [done|done| |done]. rewrite (rl_taken L).
  eapply (dispatch_related ep acc a lp ts sv R L i t Hi le Hle Hea d (cb_eventfd _ _ C) x Hx lp' out v sv' st' Hd S' Hsr Hcf).
  by eapply (srun_phases ep acc a lp ts sv R L).
Qed.

Lemma arrive_agrees ready ars :
  fair_occurrence ep acc lp (Arrive ready ars) →
  steps_agree ep acc a sv (system_step ep acc lp ts (Arrive ready ars)) (rstep ep runfd R (HArrive ready (pairs ars))).
Proof.
  intros (Hn & Hfr & Hok). destruct (Hok ts) as [y Hy].
  pose proof (arrive_step ep acc lp ts sv (r_listens R) ready ars (rl_sys L) (rl_listens L) Hn Hfr) as H.
  cbn [rstep]. unfold is_ready. destruct (r_listens R && negb (Z.land EPOLLIN ready =? 0)); [|by apply nothing_agrees].
  destruct H as (o & d & Hrep & Hst & Hag). rewrite Hst in Hy |- *.
  destruct (accept_all ep acc (set_os lp o) ars) as [lp'|f] eqn:Ha; [|done]. clear Hy Hok.
  destruct (run_server sv (accept_label <$> ars)) as [[sv' os]|f] eqn:Hrun; [|done].
  destruct Hag as (Hos & S' & Hl). cbn in Hos, S'. subst os.
  pose proof (server_refines_map a sv (r_spec R) (accept_label <$> ars) (SConnect <$> (pairs ars).*2) (rl_spec L)
    (run_ok_accepts _ _ _ Hrun)) as Hmap.
  assert (Forall2 label_refines (accept_label <$> ars) (SConnect <$> (pairs ars).*2)) as Hlr.
  { unfold pairs. rewrite <-!list_fmap_compose. apply Forall2_fmap, Forall_Forall2_diag, Forall_forall. done. }
  specialize (Hmap Hlr). destruct (srun (r_spec R) _) as [[st' outs]|f] eqn:Es; [|congruence].
  destruct Hmap as (sv2 & Hrun2 & Hsr). rewrite Hrun in Hrun2. injection Hrun2 as <- <-.
  exists lp', ts, None, sv'. split_and!; [done|done| |].
  - by eapply (arrive_related ep acc a lp ts sv R L ars Hfr o d).
  - exact (run_server_conf _ _ _ _ (rf_inv (full_refines ep acc a lp ts sv R L)) Hrun).
Qed.

Lemma step_agrees_reference x h :
  fair_occurrence ep acc lp x → occurs x h →
  steps_agree ep acc a sv (system_step ep acc lp ts x) (rstep ep runfd R h).
Proof.
  intros Hf Ho. destruct x as [[io fd ready|i le]|ready ars], h as [io' fd' ready'|i' d|ready' cs]; try done; cbn in Ho.
  - destruct Ho as (<- & <- & <-). by apply take_agrees.
  - destruct Ho as [<- C]. by apply dispatch_agrees.
  - destruct Ho as [<- ->]. by apply arrive_agrees.
Qed.
End Steps.

(** The system is the reference: for all that can happen, in every order, it puts the same
    bytes on the same wires in the same order, and it faults where the reference does. *)
Theorem system_refines_reference ep acc a lp ts sv R xs hs :
  related ep acc a lp ts sv R → fair_system ep acc lp ts xs → Forall2 occurs xs hs →
  match rrun ep (Config.run (sv_conf sv)) R hs with
  | Ok (_, outs) => ∃ lp' ts', run_system ep acc lp ts xs = Ok (lp', ts', outs)
  | Err f => run_system ep acc lp ts xs = Err f
  end.
Proof.
  intros L Hf Ho. revert lp ts sv R L Hf. induction Ho as [|x h xs hs Hx _ IH]; intros lp ts sv R L Hf.
  { by exists lp, ts. }
  destruct Hf as [Hf Hfs]. cbn [rrun run_system].
  pose proof (step_agrees_reference ep acc a lp ts sv R L x h Hf Hx) as Hst. unfold steps_agree in Hst.
  destruct (rstep ep (Config.run (sv_conf sv)) R h) as [[R' outs]|f]; [|by rewrite Hst].
  destruct Hst as (lp' & ts' & out & sv' & Hst & -> & L' & Hcf). rewrite Hst in Hfs |- *. rewrite !res_bind_Ok_l.
  specialize (IH lp' ts' sv' R' L' Hfs). rewrite Hcf in IH.
  destruct (rrun ep (Config.run (sv_conf sv)) R' hs) as [[R2 outs2]|f]; [|by rewrite IH].
  destruct IH as (lp2 & ts2 & ->). rewrite !res_bind_Ok_l. by exists lp2, ts2.
Qed.
