(* ===== verification/Race.v ===== *)
(** * Two workers at once: the critical sections of the handlers of src/server.c

    The worker pool has two threads.  A handler holds the spin lock for parts of its
    run only, so that the sections of one handler interleave with those of another.  A
    thread is the handler of a request on a single key, cut where the code releases the
    lock: PUT is one section, GET looks up the item under the lock and uses it after,
    DEL removes the key under the lock and adjusts the counter after.  A section is one
    step; the steps of the threads interleave in any order. *)

From S2P Require Import Prelude Util Config Store Bst Vec Trie Pack Db Protocol Network Hashtable.
From S2P Require Import Server Commands Expire Worker.

(** ** Data *)

Inductive job :=
| JPut (p : put)
| JGet (g : get)
| JDel (g : get).

Inductive thread :=
| Ready (j : job)                   (* the event has been taken *)
| Found (g : get) (item : Z)        (* GET has looked up the item and released the lock *)
| Removed                           (* DEL has removed the key and released the lock *)
| Replied (raw : list Z).           (* the handler has set the reply *)

(** The threads with their clients. *)
Record machine := mkMachine {
  m_triedb : triedb;
  m_threads : list (client * thread)
}.

(** ** Operations *)

Definition replied (o : res outcome) : res (triedb * thread) :=
  '(s, _, raw, _) ← o; raw ← deref raw; mret (s, Replied raw).

(** GET up to the release of the lock, for a single key. *)
Definition get_search (e : env) (s : triedb) (c : client) (g : get) : res (triedb * thread) :=
  db ← the_db s (client_db c);
  key ← cstring_at (get_key g);
  found ← database_search db key (e_now1 e);
  match found with
  | None => replied (reply_ack s c NOK)
  | Some item => mret (s, Found g (iaddr item))
  end.

(** The rest of GET: the item is read through the pointer. *)
Definition get_use (e : env) (s : triedb) (c : client) (g : get) (p : Z) : res (triedb * thread) :=
  key ← cstring_at (get_key g);
  item ← load_item s p;
  if negb (ttl item =? -1) && (delta item (e_now e) <=? 0) then
    s ← get_expired s c key p;
    replied (reply_ack s c NOK)
  else
    val ← deref (idata item);
    let t := {| tu_ttl := ttl item; tu_keylen := u16 (strlen key);
                tu_key := key; tu_val := val |} in
    response ← get_response (get_header g) (inr t);
    raw ← pack_response (e_junk e) response (bits_opcode (get_header g));
    mret (s, Replied raw).

(** DEL up to the release of the lock, for a single key. *)
Definition del_remove (s : triedb) (c : client) (g : get) : res (triedb * thread) :=
  db ← the_db s (client_db c);
  key ← cstring_at (get_key g);
  '(db, found) ← database_remove db key;
  let s := set_database s (client_db c) db in
  if (found : bool) then mret (s, Removed) else replied (reply_ack s c NOK).

(** The next section of a thread. *)
Definition section (e : env) (s : triedb) (c : client) (t : thread) : res (triedb * thread) :=
  match t with
  | Ready (JPut p) => replied (put_handler (e_now e) (e_ptr e) s c p)
  | Ready (JGet g) => get_search e s c g
  | Found g p => get_use e s c g p
  | Ready (JDel g) => del_remove s c g
  | Removed => replied (reply_ack (add_keyspace s (-1)) c OK)
  | Replied raw => mret (s, Replied raw)
  end.

Definition machine_step (m : machine) (i : nat) (e : env) : res machine :=
  match m_threads m !! i with
  | None => mret m
  | Some (c, t) =>
      '(s, t) ← section e (m_triedb m) c t;
      mret (mkMachine s (<[i := (c, t)]> (m_threads m)))
  end.

Fixpoint run_machine (m : machine) (sched : list (nat * env)) : res machine :=
  match sched with
  | [] => Ok m
  | (i, e) :: sched => m ← machine_step m i e; run_machine m sched
  end.

(** The handler of a job, run as a whole. *)
Definition handle (e : env) (s : triedb) (c : client) (j : job) : res outcome :=
  match j with
  | JPut p => put_handler (e_now e) (e_ptr e) s c p
  | JGet g => get_handler (e_junk e) (e_buf e) (e_now1 e) (e_now e) s c g
  | JDel g => del_handler s c g
  end.

(** Handlers one after the other, in the order [hist], with their replies. *)
Fixpoint run_handlers (s : triedb) (jobs : list (client * job)) (hist : list (nat * env))
  : res (triedb * list (nat * list Z)) :=
  match hist with
  | [] => Ok (s, [])
  | (i, e) :: hist =>
      match jobs !! i with
      | None => Err BadArgument
      | Some (c, j) =>
          '(s, _, raw, _) ← handle e s c j;
          raw ← deref raw;
          '(s, rs) ← run_handlers s jobs hist;
          mret (s, (i, raw) :: rs)
      end
  end.

(** ** The sections of one handler *)

Lemma found_item s M c key now db item :
  srv_repr s M → addr_unique M → the_db s (client_db c) = Ok db →
  database_search db key now = Ok (Some item) →
  ∃ m, M !! client_db c = Some m ∧ m !! key = Some item ∧ load_item s (iaddr item) = Ok item.
Proof.
  intros Hs Hu Hdb Hf. destruct (the_db_map s M (client_db c) db Hs Hdb) as (m & Hm).
  destruct (srv_repr_db s M _ m Hs Hm) as (db' & Hdb' & Hr). rewrite Hdb in Hdb'. injection Hdb' as <-.
  rewrite (database_search_spec db m) in Hf by done. exists m. split; [done|].
  destruct (m !! key) as [it|] eqn:Hk; [|done]. cbn in Hf.
  destruct (expired now it); [done|]. injection Hf as ->. split; [done|].
  apply (load_live s M (client_db c) key item); [done|done|]. by exists m.
Qed.

(** Single keys. *)
Definition single_key (j : job) : Prop :=
  match j with
  | JPut p => bits_prefix (put_header p) = 0
  | JGet g | JDel g => bits_prefix (get_header g) = 0
  end.

(** Without another thread in between, the sections are the handler. *)
Theorem sections_are_handler e s M c j :
  srv_repr s M → addr_unique M → single_key j →
  run_machine (mkMachine s [(c, Ready j)]) [(0%nat, e); (0%nat, e)] =
    ('(s, _, raw, _) ← handle e s c j; raw ← deref raw; mret (mkMachine s [(c, Replied raw)])).
Proof.
  intros Hs Hu Hj. destruct j as [p|g|g]; cbn [handle single_key] in *;
    cbn [run_machine machine_step m_threads m_triedb lookup list_lookup section].
  - unfold replied. destruct (put_handler _ _ s c p) as [[[[s' c'] raw] rc]|]; [|done].
    cbn. by destruct raw.
  - unfold get_search, get_handler. destruct (the_db s (client_db c)) as [db|] eqn:Hdb; [|done].
    rewrite !res_bind_Ok_l. destruct (cstring_at (get_key g)) as [key|] eqn:Hkey; [|done].
    rewrite !res_bind_Ok_l, Hj. change (0 =? 0) with true. cbv iota.
    destruct (database_search db key (e_now1 e)) as [[item|]|] eqn:Hf; [|done|done].
    destruct (found_item _ _ _ _ _ _ _ Hs Hu Hdb Hf) as (m & _ & _ & Hl).
    rewrite !res_bind_Ok_l.
    cbn [machine_step m_threads m_triedb insert list_insert lookup list_lookup section].
    unfold get_use. rewrite Hkey, res_bind_Ok_l, Hl, res_bind_Ok_l.
    destruct (negb _ && _).
    + destruct (get_expired s c key (iaddr item)) as [s'|]; done.
    + destruct (deref (idata item)) as [v|]; [|done]. rewrite !res_bind_Ok_l.
      destruct (get_response _ _) as [r|]; [|done]. rewrite !res_bind_Ok_l.
      by destruct (pack_response _ _ _).
  - unfold del_remove, del_handler. destruct (the_db s (client_db c)) as [db|]; [|done].
    rewrite !res_bind_Ok_l. destruct (cstring_at (get_key g)) as [key|]; [|done].
    rewrite !res_bind_Ok_l, Hj. change (0 =? 1) with false. cbv iota.
    destruct (database_remove db key) as [[db' [|]]|]; done.
Qed.

(** ** GET and DEL of the same key *)

Lemma del_remove_spec s c M m k h :
  srv_repr s M → M !! client_db c = Some m → cstr k → k ≠ [] → is_Some (m !! k) →
  ∃ db, del_remove s c (mkGet h (k ++ [0])) = Ok (set_database s (client_db c) db, Removed) ∧
    db_repr db (delete k m).
Proof.
  intros Hs Ha Hk Hk0 Hkm. destruct (srv_repr_db s M _ m Hs Ha) as (db & Hdb & [Htr Hd]).
  unfold del_remove. rewrite Hdb, res_bind_Ok_l. cbn [get_key].
  rewrite cstring_at_nul, res_bind_Ok_l by done. unfold database_remove.
  destruct (trie_delete_tree (db_data db) m k _ Htr Hd _ Hk0) as (t & -> & Htr' & Hd' & _).
  rewrite res_bind_Ok_l, res_bind_mret_l, bool_decide_true by done.
  exists (with_data db t). split; [done|]. split; [done|cbn; congruence].
Qed.

Lemma get_search_spec e s M c m k it h :
  srv_repr s M → M !! client_db c = Some m → cstr k → m !! k = Some it →
  expired (e_now1 e) it = false →
  get_search e s c (mkGet h (k ++ [0])) = Ok (s, Found (mkGet h (k ++ [0])) (iaddr it)).
Proof.
  intros Hs Ha Hk Hkm Hex. destruct (srv_repr_db s M _ m Hs Ha) as (db & Hdb & Hr).
  unfold get_search. rewrite Hdb, res_bind_Ok_l. cbn [get_key].
  rewrite cstring_at_nul, res_bind_Ok_l by done.
  rewrite (database_search_spec db m), res_bind_Ok_l, Hkm by done. cbn. by rewrite Hex.
Qed.

(** The item of a key is released with the key. *)
Lemma deleted_free M a m k it :
  addr_unique M → M !! a = Some m → m !! k = Some it → addr_free (upd M a (delete k)) (iaddr it).
Proof.
  intros Hu Ha Hk a' k' it' [Hne Hh]%holds_delete Hp.
  destruct (Hu a' k' it' a k it Hh) as [-> ->]; [by exists m|done|tauto].
Qed.

(** C33 GET releases the lock before it uses the item that it has found.  When a worker
    has looked up a key and the other one then removes that key, the first one reads the
    released item: the handlers are not atomic although each of their accesses to the
    trie is locked. *)
Theorem get_del_race s M m c1 c2 k it h1 h2 e1 e2 e3 :
  srv_repr s M → addr_unique M → leaked s !! iaddr it = None →
  client_db c1 = client_db c2 → M !! client_db c1 = Some m → m !! k = Some it →
  expired (e_now1 e1) it = false → cstr k → k ≠ [] → bits_prefix h1 = 0 → bits_prefix h2 = 0 →
  run_machine
    (mkMachine s [(c1, Ready (JGet (mkGet h1 (k ++ [0])))); (c2, Ready (JDel (mkGet h2 (k ++ [0]))))])
    [(0%nat, e1); (1%nat, e2); (0%nat, e3)] = Err UseAfterFree.
Proof.
  intros Hs Hu Hl Hc Ha Hk Hex Hcs Hk0 _ _.
  cbn [run_machine machine_step m_threads m_triedb lookup list_lookup section].
  rewrite (get_search_spec e1 s M c1 m k it) by done. rewrite !res_bind_Ok_l.
  destruct (del_remove_spec s c2 M m k h2) as (db & Hdel & Hr); [done|by rewrite <-Hc|done..|].
  cbn [machine_step m_threads m_triedb lookup list_lookup insert list_insert section].
  rewrite Hdel, !res_bind_Ok_l.
  cbn [machine_step m_threads m_triedb lookup list_lookup insert list_insert section].
  unfold get_use. cbn [get_key]. rewrite cstring_at_nul, res_bind_Ok_l by done.
  rewrite <-Hc in *.
  rewrite (load_dead _ (upd M (client_db c1) (delete k))).
  - cbn [leaked set_database]. by rewrite Hl.
  - by apply srv_repr_upd with m.
  - by eapply deleted_free.
Qed.

Lemma get_del_race_witness :
  ∃ s, demo_put = Ok s ∧
    run_machine
      (mkMachine s [(demo_client, Ready (JGet (mkGet 32 (str "k" ++ [0]))));
                    (demo_client, Ready (JDel (mkGet 48 (str "k" ++ [0]))))])
      [(0%nat, mkEnv 100 100 0 0 [] 0); (1%nat, mkEnv 100 100 0 0 [] 0); (0%nat, mkEnv 100 100 0 0 [] 0)]
      = Err UseAfterFree.
Proof.
  destruct demo_put_inv as (s & Hs & [Hr Hu _ _ _ _] & _). exists s. split; [exact Hs|].
  assert (leaked s = ∅) as Hl.
  { assert ((leaked <$> (match demo_put with Ok s => Some s | Err _ => None end)) = Some ∅) as Hk
      by (vm_compute; reflexivity).
    rewrite Hs in Hk. by injection Hk. }
  apply (get_del_race s (demo_map (-1)) {[str "k" := demo_item (-1)]} demo_client demo_client
    (str "k") (demo_item (-1)) 32 48 (mkEnv 100 100 0 0 [] 0) (mkEnv 100 100 0 0 [] 0)
    (mkEnv 100 100 0 0 [] 0)).
  - exact Hr.
  - exact Hu.
  - rewrite Hl. apply lookup_empty.
  - reflexivity.
  - apply lookup_singleton_eq.
  - apply lookup_singleton_eq.
  - reflexivity.
  - apply demo_cstr. left. reflexivity.
  - discriminate.
  - reflexivity.
  - reflexivity.
Defined.

(** ** GET and PUT *)

(** Items without a time to live, keys and values whose response fits its block. *)
Definition plain_item (it : db_item) (v : list Z) : Prop :=
  ttl it = -1 ∧ idata it = Some v ∧ strlen v <= 60.

Definition plain_job (j : job) : Prop :=
  match j with
  | JPut p => ∃ k v, put_key p = k ++ [0] ∧ put_val p = v ++ [0] ∧ cstr k ∧ cstr v ∧
                strlen v <= 60 ∧ put_ttl p = -1 ∧ bits_prefix (put_header p) = 0
  | JGet g => ∃ k, get_key g = k ++ [0] ∧ cstr k ∧ strlen k <= 60 ∧ is_byte (get_header g) ∧
                bits_prefix (get_header g) = 0 ∧ bits_opcode (get_header g) = opcode_val GET
  | JDel _ => False
  end.

Definition get_reply (g : get) (k v : list Z) : list Z :=
  packet (get_header g) (items_bytes (single_items (mkTuple (-1) (strlen k) k v))).

(** The response of a GET for an item, however the handler got to it. *)
Lemma get_response_plain junk g k v :
  is_byte (get_header g) → bits_prefix (get_header g) = 0 →
  bits_opcode (get_header g) = opcode_val GET → strlen k <= 60 → strlen v <= 60 →
  (response ← get_response (get_header g) (inr (mkTuple (-1) (u16 (strlen k)) k v));
   pack_response junk response (bits_opcode (get_header g))) = Ok (get_reply g k v).
Proof.
  intros Hb Hp Ho Hk Hv. pose proof (strlen_nonneg k). pose proof (strlen_nonneg v).
  rewrite u16_small by lia. unfold get_response. rewrite u8_small, Hp by done.
  change (0 =? 1) with false. cbv iota. rewrite res_bind_mret_l, Ho.
  set (tu := mkTuple (-1) (strlen k) k v).
  change (pack_response junk (GetRes (get_header g) tu) (opcode_val GET))
    with (pack_response_get junk (GetRes (get_header g) tu)).
  assert (tuple_ok tu) as Htu by (split; cbn; (done || lia)).
  rewrite pack_single_spec, packet_block by done.
  pose proof (single_items_length tu Htu) as Hl. cbn [tu_keylen tu_val tu] in Hl.
  by rewrite decide_True by lia.
Qed.

Lemma get_use_plain e s c g k p it v :
  get_key g = k ++ [0] → cstr k → strlen k <= 60 → is_byte (get_header g) →
  bits_prefix (get_header g) = 0 → bits_opcode (get_header g) = opcode_val GET →
  load_item s p = Ok it → plain_item it v →
  get_use e s c g p = Ok (s, Replied (get_reply g k v)).
Proof.
  intros Hg Hk Hkl Hb Hp Ho Hl (Ht & Hd & Hv). unfold get_use.
  rewrite Hg, cstring_at_nul, res_bind_Ok_l, Hl, res_bind_Ok_l, Ht by done.
  change (negb (-1 =? -1)) with false. cbn [andb]. rewrite Hd. cbn [deref].
  rewrite res_bind_Ok_l, <-res_bind_assoc, get_response_plain by done. done.
Qed.

(** The databases hold plain items at distinct addresses. *)
Record calm (s : triedb) (M : gmap Z (gmap (list Z) db_item)) : Prop := {
  cm_repr : srv_repr s M;
  cm_unique : addr_unique M;
  cm_plain a k it : holds_item M a k it → ∃ v, plain_item it v
}.

(** What PUT leaves: the database with the new item, and the old one still readable. *)
Lemma put_calm e s M c p :
  calm s M → is_Some (M !! client_db c) → plain_job (JPut p) →
  load_item s (e_ptr e) = Err UseAfterFree →
  ∃ s' M', handle e s c (JPut p) = Ok (s', c, Some ack_ok, 0) ∧ calm s' M' ∧
    (∀ a, is_Some (M !! a) → is_Some (M' !! a)) ∧
    (∀ q it, load_item s q = Ok it → load_item s' q = Ok it).
Proof.
  intros [Hs Hu Hpl] [m Hm] (k & v & Hk & Hv & Hck & Hcv & Hvl & Ht & Hp) Hfr.
  destruct p as [h t kl key val]; cbn in Hk, Hv, Ht, Hp; subst key val t.
  destruct (put_spec (e_now e) (e_ptr e) s c M m k v (-1) h kl Hs Hm Hck Hcv Hp) as (db & Hput & Hr).
  change (s16 (-1)) with (-1) in Hr. set (new := mkItem (-1) (Some v) (e_now e) (e_now e) (e_ptr e)) in *.
  set (M' := upd M (client_db c) (<[k := new]>)).
  assert (addr_free M (e_ptr e)) as Hfree.
  { destruct (load_cases s M (e_ptr e) Hs) as [(a & k' & it & _ & _ & Hl)|[Hf _]]; [congruence|done]. }
  assert (addr_unique M') as Hu' by (by apply unique_fresh).
  set (s' := add_keyspace (leak (set_database s (client_db c) db) (m !! k)) 1) in Hput.
  assert (srv_repr s' M') as Hs'.
  { unfold s'. change (srv_repr (leak (set_database s (client_db c) db) (m !! k)) M').
    apply srv_repr_leak. by apply srv_repr_upd with m. }
  exists s', M'. split_and!; [exact Hput| | |].
  - split; [done|done|]. intros a k' it [(_ & _ & -> & _)|[_ Hh]]%holds_insert; [|by eapply Hpl].
    exists v. by split_and!.
  - intros a Ha. unfold M', upd. destruct (decide (a = client_db c)) as [->|].
    + rewrite lookup_alter_eq, Hm. by eexists.
    + by rewrite lookup_alter_ne.
  - intros q it Hq. assert (q ≠ e_ptr e) as Hqe by congruence.
    destruct (load_cases s M q Hs) as [(a & k' & it' & Hh & Ha & Hl)|[Hf Hl]].
    + rewrite Hq in Hl. injection Hl as <-.
      destruct (decide (a = client_db c ∧ k' = k)) as [[-> ->]|Hne].
      * destruct Hh as (m' & Hm' & Hk'). rewrite Hm in Hm'. injection Hm' as <-.
        rewrite (load_dead s' M'); [|done|].
        { unfold s'. rewrite Hk'. cbn. by rewrite Ha, lookup_insert_eq. }
        intros a2 k2 it2 [(_ & _ & -> & _)|[Hne Hh2]]%holds_insert; [by cbn|]. intros Ha2.
        destruct (Hu a2 k2 it2 (client_db c) k it Hh2) as [-> ->]; [by exists m|congruence|tauto].
      * rewrite <-Ha. apply (load_live s' M' a k'); [done|done|]. apply holds_insert.
        right. split; [|done]. destruct (decide (a = client_db c)); [right|left; done]. naive_solver.
    + rewrite (load_dead s' M'); [|done|].
      * rewrite Hq in Hl. unfold s'. destruct (m !! k) as [old|] eqn:Hold; cbn; [|by rewrite <-Hl].
        rewrite lookup_insert_ne; [by rewrite <-Hl|]. intros Ho. apply (Hf (client_db c) k old); [|done].
        by exists m.
      * intros a2 k2 it2 [(_ & _ & -> & _)|[_ Hh2]]%holds_insert; [by cbn|]. by eapply Hf.
Qed.

(** The first section of GET is where it takes effect. *)
Lemma get_calm e s M c g k :
  calm s M → is_Some (M !! client_db c) → plain_job (JGet g) → get_key g = k ++ [0] →
  ∃ t raw, get_search e s c g = Ok (s, t) ∧ handle e s c (JGet g) = Ok (s, c, Some raw, 0) ∧
    (t = Replied raw ∨
     ∃ it v, t = Found g (iaddr it) ∧ load_item s (iaddr it) = Ok it ∧ plain_item it v ∧
       raw = get_reply g k v).
Proof.
  intros [Hs Hu Hpl] [m Hm] (k' & Hk' & Hck & Hkl & Hb & Hp & Ho) Hk.
  rewrite Hk in Hk'. apply app_inj_tail in Hk' as [<- _].
  destruct (srv_repr_db s M _ m Hs Hm) as (db & Hdb & Hr).
  cbn [handle]. unfold get_search, get_handler. rewrite Hdb, !res_bind_Ok_l, Hk.
  rewrite cstring_at_nul, !res_bind_Ok_l, Hp by done. change (0 =? 0) with true. cbv iota.
  rewrite !(database_search_spec db m), !res_bind_Ok_l by done.
  destruct (m !! k) as [it|] eqn:Hkm; cbn [mbind option_bind].
  2:{ eexists _, ack_nok. split_and!; [reflexivity|reflexivity|by left]. }
  assert (holds_item M (client_db c) k it) as Hh by (by exists m).
  destruct (Hpl _ _ _ Hh) as (v & Ht & Hd & Hv).
  assert (expired (e_now1 e) it = false) as -> by (unfold expired; by rewrite Ht).
  rewrite Ht. change (negb (-1 =? -1)) with false. cbn [andb]. rewrite Hd. cbn [deref].
  rewrite res_bind_Ok_l. eexists _, (get_reply g k v). split_and!; [reflexivity| |].
  - pose proof (get_response_plain (e_junk e) g k v Hb Hp Ho Hkl Hv) as Hg.
    destruct (get_response _ _) as [r|]; [|done].
    rewrite res_bind_Ok_l in Hg. rewrite res_bind_Ok_l. by rewrite Hg.
  - right. exists it, v. split_and!; [done|by eapply load_live|by split_and!|done].
Qed.

(** What is known of thread [i], with [rs] the replies so far. *)
Definition thread_ok (s : triedb) (jobs : list (client * job)) (rs : list (nat * list Z)) (i : nat)
    (ct : client * thread) : Prop :=
  ∃ j, jobs !! i = Some (ct.1, j) ∧
  match ct.2 with
  | Ready j' => j' = j ∧ i ∉ rs.*1
  | Found g p => j = JGet g ∧ ∃ k it v, get_key g = k ++ [0] ∧ load_item s p = Ok it ∧
                   plain_item it v ∧ (i, get_reply g k v) ∈ rs
  | Removed => False
  | Replied raw => (i, raw) ∈ rs
  end.

(** The machine is where the handlers of [hist], run one after the other, have left the
    server, and every reply that is there or is under way is theirs. *)
Definition linearized (jobs : list (client * job)) (s0 : triedb) (hist : list (nat * env))
    (m : machine) (rs : list (nat * list Z)) : Prop :=
  (∃ M, calm (m_triedb m) M ∧ ∀ i c j, jobs !! i = Some (c, j) → is_Some (M !! client_db c)) ∧
  run_handlers s0 jobs hist = Ok (m_triedb m, rs) ∧ rs.*1 = hist.*1 ∧ NoDup hist.*1 ∧
  ∀ i ct, m_threads m !! i = Some ct → thread_ok (m_triedb m) jobs rs i ct.

Lemma run_handlers_snoc s jobs hist i e c j s1 rs s2 c' raw rc :
  run_handlers s jobs hist = Ok (s1, rs) → jobs !! i = Some (c, j) →
  handle e s1 c j = Ok (s2, c', Some raw, rc) →
  run_handlers s jobs (hist ++ [(i, e)]) = Ok (s2, rs ++ [(i, raw)]).
Proof.
  intros Hr Hj Hh. revert s rs Hr. induction hist as [|[i' e'] hist IH]; intros s rs Hr.
  - injection Hr as -> <-. cbn. rewrite Hj, Hh. done.
  - cbn [run_handlers app] in *. destruct (jobs !! i') as [[c1 j1]|]; [|done].
    destruct (handle e' s c1 j1) as [[[[s' c''] raw'] rc']|]; [|done]. rewrite res_bind_Ok_l in *.
    destruct (deref raw') as [r|]; [|done]. rewrite res_bind_Ok_l in *.
    destruct (run_handlers s' jobs hist) as [[s3 rs3]|] eqn:E; [|done]. rewrite res_bind_Ok_l in Hr.
    injection Hr as -> <-. rewrite (IH s' rs3 E). done.
Qed.

(** The other threads after a step: those that have found an item still can read it. *)
Lemma thread_ok_mono s s' jobs rs rs' i ct :
  (∀ q it, load_item s q = Ok it → load_item s' q = Ok it) → rs ⊆ rs' → (i ∈ rs'.*1 → i ∈ rs.*1) →
  thread_ok s jobs rs i ct → thread_ok s' jobs rs' i ct.
Proof.
  intros Hl Hsub Hi (j & Hj & Ht). exists j. split; [done|]. destruct ct as [c [j'|g p| |raw]]; cbn in *.
  - naive_solver.
  - destruct Ht as (Hg & k & it & v & Hk & Hp & Hpl & Hin). split; [done|]. exists k, it, v.
    split_and!; auto.
  - done.
  - auto.
Qed.

Lemma linearized_append jobs s0 hist m rs i e c j s' M' t' raw :
  linearized jobs s0 hist m rs → jobs !! i = Some (c, j) → i ∉ rs.*1 →
  handle e (m_triedb m) c j = Ok (s', c, Some raw, 0) → calm s' M' →
  (∀ i c j, jobs !! i = Some (c, j) → is_Some (M' !! client_db c)) →
  (∀ q it, load_item (m_triedb m) q = Ok it → load_item s' q = Ok it) →
  thread_ok s' jobs (rs ++ [(i, raw)]) i (c, t') →
  linearized jobs s0 (hist ++ [(i, e)]) (mkMachine s' (<[i := (c, t')]> (m_threads m)))
    (rs ++ [(i, raw)]).
Proof.
  intros (_ & Hrun & Hrs & Hnd & Hth) Hj Hi Hh Hc Hdb Hl Ht. split_and!.
  - by exists M'.
  - by eapply run_handlers_snoc.
  - by rewrite !fmap_app, Hrs.
  - rewrite fmap_app. apply NoDup_app. split_and!; [done| |apply NoDup_singleton].
    intros x Hx ->%list_elem_of_singleton. by rewrite <-Hrs in Hx.
  - intros i' ct' Hi'. cbn in Hi'. destruct (decide (i' = i)) as [->|Hne].
    + apply list_lookup_insert_Some in Hi' as [(_ & <- & _)|[? _]]; done.
    + rewrite list_lookup_insert_ne in Hi' by done. eapply thread_ok_mono; [exact Hl| | |by apply Hth].
      * intros x Hx. apply elem_of_app. by left.
      * rewrite fmap_app, elem_of_app. intros [Hx| ->%list_elem_of_singleton]; done.
Qed.

Lemma linearized_step jobs s0 hist m rs i e :
  Forall (λ cj, plain_job cj.2) jobs → linearized jobs s0 hist m rs →
  load_item (m_triedb m) (e_ptr e) = Err UseAfterFree →
  ∃ m' rs', machine_step m i e = Ok m' ∧
    (linearized jobs s0 hist m' rs' ∨ linearized jobs s0 (hist ++ [(i, e)]) m' rs').
Proof.
  intros Hjobs Hlin Hfr. pose proof Hlin as ((M & Hc & Hdb) & Hrun & Hrs & Hnd & Hth).
  unfold machine_step. destruct (m_threads m !! i) as [[c t]|] eqn:Hi.
  2:{ exists m, rs. split; [done|by left]. }
  destruct (Hth _ _ Hi) as (j & Hj & Ht). cbn in Hj, Ht.
  pose proof (proj1 (Forall_lookup _ _) Hjobs _ _ Hj) as Hpj. cbn in Hpj.
  destruct t as [j'|g p| |raw]; cbn [section].
  - destruct Ht as [-> Hni]. destruct j as [p|g|g]; [| |done].
    + destruct (put_calm e _ M c p Hc (Hdb _ _ _ Hj) Hpj Hfr) as (s' & M' & Hh & Hc' & Hdb' & Hl).
      cbn [handle] in Hh. rewrite Hh. eexists _, (rs ++ [(i, ack_ok)]). split; [done|]. right.
      apply (linearized_append _ _ _ _ _ _ _ _ (JPut p) _ M'); eauto.
      exists (JPut p). split; [done|]. apply elem_of_app. right. by left.
    + destruct (Hpj) as (k & Hk & _).
      destruct (get_calm e _ M c g k Hc (Hdb _ _ _ Hj) Hpj Hk) as (t' & raw & Hgs & Hh & Ht').
      rewrite Hgs. eexists _, (rs ++ [(i, raw)]). split; [done|]. right.
      apply (linearized_append _ _ _ _ _ _ _ _ (JGet g) _ M); eauto.
      exists (JGet g). split; [done|].
      assert ((i, raw) ∈ rs ++ [(i, raw)]) as Hin by (apply elem_of_app; right; by left).
      destruct Ht' as [->|(it & v & -> & Hl & Hpl & ->)]; [done|]. split; [done|]. by exists k, it, v.
  - destruct Ht as (-> & k & it & v & Hk & Hl & Hpl & Hin).
    destruct (Hpj) as (k' & Hk' & Hck & Hkl & Hb & Hp & Ho). rewrite Hk in Hk'.
    apply app_inj_tail in Hk' as [<- _]. rewrite (get_use_plain e _ c g k p it v) by done.
    eexists _, rs. split; [done|]. left. split_and!; [by exists M|done|done|done|].
    intros i' ct' Hi'. cbn in Hi'. destruct (decide (i' = i)) as [->|Hne].
    + apply list_lookup_insert_Some in Hi' as [(_ & <- & _)|[? _]]; [|done]. by exists (JGet g).
    + rewrite list_lookup_insert_ne in Hi' by done. by apply Hth.
  - done.
  - eexists _, rs. split; [done|]. left. rewrite list_insert_id by done. by destruct m.
Qed.

(** [malloc] returns an address that is not in use, in every step of a run. *)
Fixpoint fresh_run (m : machine) (sched : list (nat * env)) : Prop :=
  match sched with
  | [] => True
  | (i, e) :: sched =>
      load_item (m_triedb m) (e_ptr e) = Err UseAfterFree ∧
      ∀ m', machine_step m i e = Ok m' → fresh_run m' sched
  end.

Lemma linearized_run jobs s0 sched m hist rs :
  Forall (λ cj, plain_job cj.2) jobs → linearized jobs s0 hist m rs → fresh_run m sched →
  ∃ m' hist' rs', run_machine m sched = Ok m' ∧ linearized jobs s0 (hist ++ hist') m' rs' ∧
    hist' `sublist_of` sched.
Proof.
  intros Hjobs. revert m hist rs. induction sched as [|[i e] sched IH]; intros m hist rs Hlin Hfr.
  { exists m, [], rs. rewrite app_nil_r. by split_and!. }
  destruct Hfr as [Hf Hfr].
  destruct (linearized_step _ _ _ _ _ i e Hjobs Hlin Hf) as (m1 & rs1 & Hs & Hl1).
  cbn [run_machine]. rewrite Hs, res_bind_Ok_l. specialize (Hfr m1 Hs). destruct Hl1 as [Hl1|Hl1].
  - destruct (IH _ _ _ Hl1 Hfr) as (m' & h' & rs' & Hr & Hl' & Hsub). exists m', h', rs'.
    split_and!; [done|done|by apply sublist_cons].
  - destruct (IH _ _ _ Hl1 Hfr) as (m' & h' & rs' & Hr & Hl' & Hsub).
    exists m', ((i, e) :: h'), rs'. rewrite <-(assoc_L (++)) in Hl'.
    split_and!; [done|done|by apply sublist_skip].
Qed.

Lemma linearized_start s M jobs :
  calm s M → Forall (λ cj, plain_job cj.2) jobs → Forall (λ cj, is_Some (M !! client_db cj.1)) jobs →
  linearized jobs s [] (mkMachine s ((λ cj, (cj.1, Ready cj.2)) <$> jobs)) [].
Proof.
  intros Hc Hpj Hdb. split_and!; [|done|done|constructor|].
  - exists M. split; [done|]. intros i c j Hj. by apply (proj1 (Forall_lookup _ _) Hdb i (c, j)).
  - intros i ct Hi. cbn in Hi. rewrite list_lookup_fmap in Hi.
    destruct (jobs !! i) as [[c j]|] eqn:Hj; [|done]. injection Hi as <-. exists j.
    split; [done|]. split; [done|apply not_elem_of_nil].
Qed.

(** Workers that run PUT and GET of single keys without times to live at once, in any
    interleaving of their critical sections: no step faults, and the replies and the
    state are those of the handlers run one after the other, in an order in which each
    one takes effect at one of its own steps. *)
Theorem put_get_linearizable s M jobs sched :
  calm s M → Forall (λ cj, plain_job cj.2 ∧ is_Some (M !! client_db cj.1)) jobs →
  fresh_run (mkMachine s ((λ cj, (cj.1, Ready cj.2)) <$> jobs)) sched →
  ∃ m hist rs,
    run_machine (mkMachine s ((λ cj, (cj.1, Ready cj.2)) <$> jobs)) sched = Ok m ∧
    run_handlers s jobs hist = Ok (m_triedb m, rs) ∧
    hist `sublist_of` sched ∧ NoDup hist.*1 ∧
    ∀ i c raw, m_threads m !! i = Some (c, Replied raw) → (i, raw) ∈ rs.
Proof.
  intros Hc Hjobs Hfr. apply Forall_and in Hjobs as [Hpj Hdb].
  destruct (linearized_run jobs s sched (mkMachine s ((λ cj, (cj.1, Ready cj.2)) <$> jobs)) [] [])
    as (m & hist & rs & Hr & (_ & Hh & _ & Hnd & Hth) & Hsub); [done|by apply (linearized_start s M)|done|].
  exists m, hist, rs. split_and!; try done. intros i c raw Hi.
  by destruct (Hth _ _ Hi) as (j & _ & Ht).
Qed.

(** *** A GET with a PUT of the same key between its two sections *)

Definition demo_jobs : list (client * job) :=
  [(demo_client, JGet (mkGet 32 (str "k" ++ [0])));
   (demo_client, JPut (mkPut 16 (-1) 1 (str "k" ++ [0]) (str "w" ++ [0])))].
Definition demo_sched : list (nat * env) :=
  [(0%nat, mkEnv 100 100 128 0 [] 0); (1%nat, mkEnv 100 100 128 0 [] 0);
   (0%nat, mkEnv 100 100 192 0 [] 0)].

Lemma demo_fresh_run s :
  demo_put = Ok s → fresh_run (mkMachine s ((λ cj, (cj.1, Ready cj.2)) <$> demo_jobs)) demo_sched.
Proof.
  intros Hs. vm_compute in Hs. injection Hs as <-.
  repeat (split; [vm_compute; reflexivity|]; intros m Hm; vm_compute in Hm; injection Hm as <-).
  exact I.
Qed.

Lemma demo_put_calm s : expire_inv s (demo_map (-1)) [] → calm s (demo_map (-1)).
Proof.
  intros [Hr Hu _ _ _ _]. split; [exact Hr|exact Hu|]. intros a k it (m & Hm & Hk).
  unfold demo_map in Hm. apply lookup_singleton_Some in Hm as [_ <-]. apply lookup_singleton_Some in Hk as [_ <-].
  exists (str "v"). split_and!; [reflexivity|reflexivity|vm_compute; discriminate].
Qed.

Lemma demo_jobs_plain :
  Forall (λ cj, plain_job cj.2 ∧ is_Some (demo_map (-1) !! client_db cj.1)) demo_jobs.
Proof.
  assert (cstr (str "w")) as Hw by (apply (bool_decide_unpack _); vm_compute; exact I).
  assert (is_Some (demo_map (-1) !! 16)) as Hm by (eexists; apply lookup_singleton_eq).
  repeat (apply Forall_cons; split); [| |by apply Forall_nil_2]; (split; [|exact Hm]).
  - exists (str "k"). split_and!; try reflexivity;
      [apply demo_cstr; by left|vm_compute; discriminate|cbn; unfold is_byte; lia].
  - exists (str "k"), (str "w"). split_and!; try reflexivity; [apply demo_cstr; by left|exact Hw|].
    vm_compute. discriminate.
Qed.

Lemma put_get_linearizable_witness :
  ∃ s m hist rs, demo_put = Ok s ∧
    run_machine (mkMachine s ((λ cj, (cj.1, Ready cj.2)) <$> demo_jobs)) demo_sched = Ok m ∧
    run_handlers s demo_jobs hist = Ok (m_triedb m, rs) ∧
    hist `sublist_of` demo_sched ∧ NoDup hist.*1 ∧
    ∀ i c raw, m_threads m !! i = Some (c, Replied raw) → (i, raw) ∈ rs.
Proof.
  destruct demo_put_inv as (s & Hs & Hi & _). exists s.
  destruct (put_get_linearizable s (demo_map (-1)) demo_jobs demo_sched) as (m & hist & rs & H).
  - exact (demo_put_calm s Hi).
  - exact demo_jobs_plain.
  - exact (demo_fresh_run s Hs).
  - exists m, hist, rs. split; [exact Hs|exact H].
Defined.
