(* ===== verification/Spin.v ===== *)
(** * The workers and the spin lock

    The handlers that a worker runs and the run of the timer, with the calls of
    pthread_spin_lock and pthread_spin_unlock where the code has them: a handler is a tree
    of accesses to the state of the server.  [triedb.keyspace_size] is updated by a load
    and a store, the items that GET has found are read in several accesses, the loops over
    vectors have one access for each round.  The steps of the threads interleave in any
    order; a thread that waits for the lock goes round.

    Requests other than PUT, GET, DEL and INFO do not get to a handler
    ([worker_events_typed] of Worker). *)

From S2P Require Import Prelude Util Config Store Bst Vec Trie Pack Db Protocol Network Hashtable.
From S2P Require Import Server Commands Expire Worker Race.

(** ** Data *)

Inductive code :=
| Access (f : env → triedb → res (triedb * code))
| Lock (k : code)                    (* pthread_spin_lock *)
| Unlock (k : code)                  (* pthread_spin_unlock *)
| Done (raw : option (list Z)).      (* the reply of the event *)

(** What a worker has taken: a request, a request for information, the timer. *)
Inductive task :=
| Request (c : client) (j : job)
| Informing (c : client) (conf : config) (i : informations)
| Timer.

(** A thread holds the lock from its call of pthread_spin_lock, once it has returned, to its
    call of pthread_spin_unlock. *)
Record spinner := mkSpinner {
  holding : bool;
  next : code
}.

Record spin := mkSpin {
  sp_lock : bool;
  sp_triedb : triedb;
  sp_threads : list spinner
}.

(** ** Operations *)

Definition set_counter (s : triedb) (n : Z) : triedb :=
  mkTriedb (databases s) (leaked s) (clients s) (expiring_keys s) (dbs s) n.

(** [triedb.keyspace_size += n] *)
Definition add_counter (n : Z) (k : code) : code :=
  Access (λ _ s, let size := keyspace_size s in
    mret (s, Access (λ _ s, mret (set_counter s (u64 (size + n)), k)))).

(** [event->reply = ack_replies[rc]] *)
Definition answer (rc : Z) : code :=
  Access (λ _ s, raw ← ack_replies rc; mret (s, Done (Some raw))).

(** What PUT does under the lock, but for the counter. *)
Definition put_access (c : client) (packet : put) (e : env) (s : triedb) : res (triedb * code) :=
  db ← the_db s (client_db c);
  key ← cstring_at (put_key packet);
  val ← cstring_at (put_val packet);
  if bits_prefix (put_header packet) =? 1 then
    db ← database_prefix_set db key val (put_ttl packet) (e_now e);
    mret (set_database s (client_db c) db, Unlock (answer OK))
  else
    old ← trie_find (db_data db) key;
    db ← database_insert db key (Some val) (put_ttl packet) (e_now e) (e_ptr e);
    mret (leak (set_database s (client_db c) db) old, add_counter 1 (Unlock (answer OK))).

Definition put_code (c : client) (packet : put) : code := Lock (Access (put_access c packet)).

(** The removal of an item past its time, in both branches of GET. *)
Definition expired_code (c : client) (key : list Z) (p : Z) (k : code) : code :=
  Lock (Access (λ _ s,
    db ← the_db s (client_db c);
    '(db, _) ← database_remove db key;
    let s := set_database s (client_db c) db in
    v ← drop_expiring (Z.to_nat (vector_size (expiring_keys s))) (expiring_keys s) 0 p;
    mret (set_expiring s v, add_counter (-1) (Unlock k)))).

(** The response for an item that has been found, and its packing. *)
Definition respond_access (packet : get) (key : list Z) (p : Z) (e : env) (s : triedb)
  : res (triedb * code) :=
  item ← load_item s p;
  val ← deref (idata item);
  let t := {| tu_ttl := ttl item; tu_keylen := u16 (strlen key);
              tu_key := key; tu_val := val |} in
  response ← get_response (get_header packet) (inr t);
  raw ← pack_response (e_junk e) response (bits_opcode (get_header packet));
  mret (s, Done (Some raw)).

(** The test of an item that has been found. *)
Definition found_access (c : client) (packet : get) (key : list Z) (p : Z) (e : env) (s : triedb)
  : res (triedb * code) :=
  item ← load_item s p;
  if negb (ttl item =? -1) && (delta item (e_now e) <=? 0) then
    mret (s, expired_code c key p (answer NOK))
  else mret (s, Access (respond_access packet key p)).

Definition found_code (c : client) (packet : get) (key : list Z) (p : Z) : code :=
  Access (found_access c packet key p).

(** The response for a prefix. *)
Definition respond_prefix (packet : get) (v : Vector (kv_obj db_item)) : code :=
  Access (λ e s,
    its ← reload s (items v);
    response ← get_response (get_header packet) (inl (mkVector its (maxsize v) (vsize v)));
    raw ← pack_response (e_junk e) response (bits_opcode (get_header packet));
    mret (s, Done (Some raw))).

Fixpoint scan_code (fuel : nat) (now : Z) (c : client) (packet : get) (key : list Z)
    (v : Vector (kv_obj db_item)) (i : Z) : code :=
  if i <? vector_size v then
    match fuel with
    | O => Access (λ _ _, Err OutOfFuel)
    | S fuel => Access (λ _ s,
        x ← vector_get v i;
        cur ← deref x;
        item ← load_item s (iaddr (kv_data cur));
        if negb (ttl item =? -1) && (delta item now <=? 0) then
          mret (s, expired_code c key (iaddr item) (Access (λ _ s,
            v ← vector_delete v i;
            mret (s, scan_code fuel now c packet key v (i + 1)))))
        else mret (s, scan_code fuel now c packet key v (i + 1)))
    end
  else respond_prefix packet v.

(** What GET of a single key does under the lock. *)
Definition search_access (c : client) (packet : get) (e : env) (s : triedb) : res (triedb * code) :=
  db ← the_db s (client_db c);
  key ← cstring_at (get_key packet);
  found ← database_search db key (e_now1 e);
  mret (s, Unlock match found with
                  | None => answer NOK
                  | Some item => found_code c packet key (iaddr item)
                  end).

Definition get_code (c : client) (packet : get) : code :=
  if bits_prefix (get_header packet) =? 0 then Lock (Access (search_access c packet))
  else
    Lock (Access (λ e s,
      db ← the_db s (client_db c);
      key ← cstring_at (get_key packet);
      v ← database_prefix_search (e_buf e) db key;
      mret (s, Unlock (Access (λ e s,
        v ← deref v;
        mret (s, scan_code (Z.to_nat (vector_size v)) (e_now e) c packet key v 0)))))).

(** What DEL of a single key does under the lock. *)
Definition remove_access (c : client) (packet : get) (e : env) (s : triedb) : res (triedb * code) :=
  db ← the_db s (client_db c);
  key ← cstring_at (get_key packet);
  '(db, found) ← database_remove db key;
  mret (set_database s (client_db c) db,
        Unlock (if (found : bool) then add_counter (-1) (answer OK) else answer NOK)).

Definition del_code (c : client) (packet : get) : code :=
  if bits_prefix (get_header packet) =? 1 then
    Access (λ _ s,
      db ← the_db s (client_db c);
      let currsize := database_size db in
      mret (s, Lock (Access (λ _ s,
        db ← the_db s (client_db c);
        key ← cstring_at (get_key packet);
        db ← database_prefix_remove db key;
        mret (set_database s (client_db c) db, Unlock (Access (λ _ s,
          db ← the_db s (client_db c);
          mret (s, add_counter (- u64 (currsize - database_size db)) (answer OK)))))))))
  else Lock (Access (remove_access c packet)).

Fixpoint sweep_code (fuel : nat) (now i : Z) : code :=
  Access (λ _ s,
    if i <? vector_size (expiring_keys s) then
      match fuel with
      | O => Err OutOfFuel
      | S fuel =>
          x ← vector_get (expiring_keys s) i;
          ek ← deref x;
          item ← load_item s (ek_item ek);
          if delta item now >? 0 then mret (s, Unlock (Done None))
          else
            db ← the_db s (data_ptr ek);
            '(t, _) ← trie_delete (db_data db) (ek_key ek);
            let s := set_database s (data_ptr ek) (with_data db t) in
            v ← vector_delete (expiring_keys s) i;
            mret (set_expiring s v, add_counter (-1) (sweep_code fuel now (i + 1)))
      end
    else mret (s, Unlock (Done None))).

(** The fuel is taken under the lock, where the vector does not grow. *)
Definition expire_code : code :=
  Access (λ e s,
    if vector_size (expiring_keys s) =? 0 then mret (s, Done None)
    else mret (s, Lock (Access (λ _ s,
      mret (s, sweep_code (Z.to_nat (vector_size (expiring_keys s))) (e_now e) 0))))).

Definition task_code (t : task) : code :=
  match t with
  | Request c (JPut p) => put_code c p
  | Request c (JGet g) => get_code c g
  | Request c (JDel g) => del_code c g
  | Informing c conf i => Access (λ e s,
      '(s, _, raw, _) ← info_handler (e_ptr e) conf i s c; mret (s, Done raw))
  | Timer => expire_code
  end.

Definition spin_step (m : spin) (i : nat) (e : env) : res spin :=
  match sp_threads m !! i with
  | None => mret m
  | Some t =>
      let set t := <[i := t]> (sp_threads m) in
      match next t with
      | Access f =>
          '(s, k) ← f e (sp_triedb m);
          mret (mkSpin (sp_lock m) s (set (mkSpinner (holding t) k)))
      | Lock k =>
          if sp_lock m then mret m
          else mret (mkSpin true (sp_triedb m) (set (mkSpinner true k)))
      | Unlock k => mret (mkSpin false (sp_triedb m) (set (mkSpinner false k)))
      | Done _ => mret m
      end
  end.

Fixpoint run_spin (m : spin) (sched : list (nat * env)) : res spin :=
  match sched with
  | [] => Ok m
  | (i, e) :: sched => m ← spin_step m i e; run_spin m sched
  end.

Definition spin_start (s : triedb) (ts : list task) : spin :=
  mkSpin false s ((λ t, mkSpinner false (task_code t)) <$> ts).

(** ** The lock discipline *)

(** What the lock protects: the databases and the vector of expiring keys. *)
Definition shared (s : triedb) : gmap Z database * gmap Z db_item * Vector expiring_key :=
  (databases s, leaked s, expiring_keys s).

(** The calls of the lock are balanced, and nothing that is shared changes outside. *)
Inductive guarded : bool → code → Prop :=
| guarded_inside f :
    (∀ e s s' k, f e s = Ok (s', k) → guarded true k) → guarded true (Access f)
| guarded_outside f :
    (∀ e s s' k, f e s = Ok (s', k) → shared s' = shared s) →
    (∀ e s s' k, f e s = Ok (s', k) → guarded false k) → guarded false (Access f)
| guarded_lock k : guarded true k → guarded false (Lock k)
| guarded_unlock k : guarded false k → guarded true (Unlock k)
| guarded_done raw : guarded false (Done raw).

Create HintDb guarded.
#[export] Hint Constructors guarded : guarded.

(** The values that an access goes through, one by one. *)
Ltac access_cases :=
  repeat match goal with
  | H : mret _ = Ok _ |- _ => injection H as <- <-
  | H : Ok _ = Ok _ |- _ => injection H as <- <-
  | H : Err _ = Ok _ |- _ => discriminate H
  | H : (let '(_, _) := ?x in _) = Ok _ |- _ => destruct x
  | H : mbind _ ?m = Ok _ |- _ =>
      let E := fresh "E" in
      destruct m eqn:E; [rewrite res_bind_Ok_l in H|discriminate H]
  | H : (if ?b then _ else _) = Ok _ |- _ => let E := fresh "E" in destruct b eqn:E
  end.

(** An access in the code of a thread. *)
Ltac access :=
  lazymatch goal with
  | |- guarded true (Access _) => apply guarded_inside; intros ? ? ? ? ?; access_cases
  | |- guarded false (Access _) => apply guarded_outside; intros ? ? ? ? ?; access_cases; try reflexivity
  end.

Lemma guarded_counter b n k : guarded b k → guarded b (add_counter n k).
Proof. intros Hk. unfold add_counter. destruct b; do 2 access; done. Qed.
#[export] Hint Resolve guarded_counter : guarded.

Lemma guarded_answer rc : guarded false (answer rc).
Proof. unfold answer. access; eauto with guarded. Qed.
#[export] Hint Resolve guarded_answer : guarded.

Lemma guarded_expired c key p k : guarded false k → guarded false (expired_code c key p k).
Proof. intros Hk. unfold expired_code. apply guarded_lock. access. eauto with guarded. Qed.
#[export] Hint Resolve guarded_expired : guarded.

Lemma guarded_found c g key p : guarded false (found_code c g key p).
Proof.
  unfold found_code, found_access. access; [eauto with guarded|]. unfold respond_access. access. eauto with guarded.
Qed.
#[export] Hint Resolve guarded_found : guarded.

Lemma guarded_scan fuel now c g key v i : guarded false (scan_code fuel now c g key v i).
Proof.
  revert v i. induction fuel as [|fuel IH]; intros v i; cbn [scan_code]; destruct (i <? vector_size v).
  1: by access.
  1,3: unfold respond_prefix; access; eauto with guarded.
  access; [|done]. apply guarded_expired. by access.
Qed.
#[export] Hint Resolve guarded_scan : guarded.

Lemma guarded_sweep fuel now i : guarded true (sweep_code fuel now i).
Proof.
  revert i. induction fuel as [|fuel IH]; intros i; cbn [sweep_code]; access; eauto with guarded.
Qed.
#[export] Hint Resolve guarded_sweep : guarded.

Lemma guarded_task t : guarded false (task_code t).
Proof.
  destruct t as [c [p|g|g]|c conf i|]; cbn [task_code].
  - unfold put_code, put_access. apply guarded_lock. access; eauto with guarded.
  - unfold get_code, search_access. destruct (bits_prefix _ =? 0); apply guarded_lock; access; apply guarded_unlock.
    + destruct a1; eauto with guarded.
    + access. eauto with guarded.
  - unfold del_code, remove_access. destruct (bits_prefix _ =? 1).
    + access. apply guarded_lock. access. apply guarded_unlock. access. eauto with guarded.
    + apply guarded_lock. access. apply guarded_unlock. destruct b; eauto with guarded.
  - unfold info_handler. access. eauto with guarded.
  - unfold expire_code. access; [eauto with guarded|]. apply guarded_lock. access. eauto with guarded.
Qed.

(** ** Mutual exclusion *)

Record disciplined (m : spin) : Prop := {
  ds_guarded i t : sp_threads m !! i = Some t → guarded (holding t) (next t);
  ds_unique i j t u : sp_threads m !! i = Some t → sp_threads m !! j = Some u →
    holding t = true → holding u = true → i = j;
  ds_lock : sp_lock m = true ↔ ∃ i t, sp_threads m !! i = Some t ∧ holding t = true
}.

Lemma disciplined_start s ts : disciplined (spin_start s ts).
Proof.
  assert (∀ i t, sp_threads (spin_start s ts) !! i = Some t → holding t = false ∧ guarded false (next t)) as H.
  { intros i t Hi. cbn in Hi. rewrite list_lookup_fmap in Hi. destruct (ts !! i); [|done].
    injection Hi as <-. split; [done|apply guarded_task]. }
  split.
  - intros i t Hi. destruct (H i t Hi) as [-> Hg]. done.
  - intros i j t u Hi _ Ht. destruct (H i t Hi). congruence.
  - split; [done|]. intros (i & t & Hi & Ht). destruct (H i t Hi). congruence.
Qed.

Lemma thread_cases (ts : list spinner) i j t u :
  is_Some (ts !! i) → <[i := t]> ts !! j = Some u → (j = i ∧ u = t) ∨ (j ≠ i ∧ ts !! j = Some u).
Proof.
  intros Hi Hj. destruct (decide (j = i)) as [->|Hne].
  - rewrite list_lookup_insert_eq in Hj by (by apply lookup_lt_is_Some). left. by injection Hj as <-.
  - rewrite list_lookup_insert_ne in Hj by done. by right.
Qed.

(** A thread goes on and keeps its share of the lock. *)
Lemma disciplined_keep m i t s k :
  disciplined m → sp_threads m !! i = Some t → guarded (holding t) k →
  disciplined (mkSpin (sp_lock m) s (<[i := mkSpinner (holding t) k]> (sp_threads m))).
Proof.
  intros [Hg Hu Hl] Hi Hk. assert (is_Some (sp_threads m !! i)) as Hs by eauto. split; cbn.
  - intros j u [[-> ->]|[_ Hj]]%thread_cases; [done|by eapply Hg|done].
  - intros j1 j2 u1 u2 [[-> ->]|[_ H1]]%thread_cases [[-> ->]|[_ H2]]%thread_cases; cbn; try done; eauto.
  - rewrite Hl. split.
    + intros (j & u & Hj & Hh). destruct (decide (j = i)) as [->|Hne].
      * exists i, (mkSpinner (holding t) k). rewrite list_lookup_insert_eq by (by apply lookup_lt_is_Some).
        split; [done|]. cbn. congruence.
      * exists j, u. by rewrite list_lookup_insert_ne.
    + intros (j & u & [[-> ->]|[_ Hj]]%thread_cases & Hh); [|by exists j, u|done]. by exists i, t.
Qed.

Lemma disciplined_step m i e m' : disciplined m → spin_step m i e = Ok m' → disciplined m'.
Proof.
  intros D Hs. unfold spin_step in Hs. destruct (sp_threads m !! i) as [[h k]|] eqn:Hi; [|by injection Hs as <-].
  pose proof (ds_guarded _ D _ _ Hi) as Hg. cbn [next holding] in *.
  assert (is_Some (sp_threads m !! i)) as Hsi by eauto. destruct k as [f|k|k|raw].
  - destruct (f e (sp_triedb m)) as [[s' k]|] eqn:Hf; [|done]. injection Hs as <-.
    apply (disciplined_keep m i (mkSpinner h (Access f))); [done|done|]. inversion Hg; subst; eauto.
  - destruct (sp_lock m) eqn:Hl; [by injection Hs as <-|]. injection Hs as <-.
    assert (∀ j u, sp_threads m !! j = Some u → holding u = false) as Hno.
    { intros j u Hj. apply not_true_iff_false. intros Hu. assert (sp_lock m = true); [|congruence].
      apply (ds_lock _ D). eauto. }
    inversion Hg as [| |k' Hk| |]; subst. split; cbn.
    + intros j u [[-> ->]|[_ Hj]]%thread_cases; [done| |done]. by apply (ds_guarded _ D j).
    + intros j1 j2 u1 u2 [[-> ->]|[_ H1]]%thread_cases [[-> ->]|[_ H2]]%thread_cases;
        rewrite ?(Hno _ _ H1), ?(Hno _ _ H2); done.
    + split; [|done]. intros _. eexists i, _. by rewrite list_lookup_insert_eq by (by apply lookup_lt_is_Some).
  - injection Hs as <-. inversion Hg as [| | |k' Hk|]; subst.
    assert (∀ j u, j ≠ i → sp_threads m !! j = Some u → holding u = false) as Hno.
    { intros j u Hne Hj. apply not_true_iff_false. intros Hu. apply Hne.
      by apply (ds_unique _ D _ _ _ _ Hj Hi). }
    split; cbn.
    + intros j u [[-> ->]|[_ Hj]]%thread_cases; [done| |done]. by apply (ds_guarded _ D j).
    + intros j1 j2 u1 u2 [[-> ->]|[N1 H1]]%thread_cases [[-> ->]|[N2 H2]]%thread_cases;
        rewrite ?(Hno _ _ N1 H1), ?(Hno _ _ N2 H2); done.
    + split; [done|]. intros (j & u & [[-> ->]|[Hne Hj]]%thread_cases & Hh); [done| |done].
      by rewrite (Hno j u) in Hh.
  - by injection Hs as <-.
Qed.

Lemma disciplined_run sched m m' : disciplined m → run_spin m sched = Ok m' → disciplined m'.
Proof.
  revert m. induction sched as [|[i e] sched IH]; intros m D Hr; [by injection Hr as <-|].
  cbn [run_spin] in Hr. apply res_bind_Ok in Hr as (m1 & Hs & Hr). eauto using disciplined_step.
Qed.

(** C8 The spin lock in every interleaving of the handlers of a worker and the timer, for
    requests of any kind: at most one thread is between its call of pthread_spin_lock and
    that of pthread_spin_unlock, the lock is set exactly when one is, a step of a
    thread that does not hold it leaves the tries and the expiring keys as they are, and
    as long as a thread has not finished there is one that need not wait. *)
Theorem mutual_exclusion ts s sched m :
  run_spin (spin_start s ts) sched = Ok m →
  (∀ i j t u, sp_threads m !! i = Some t → sp_threads m !! j = Some u →
    holding t = true → holding u = true → i = j) ∧
  (sp_lock m = true ↔ ∃ i t, sp_threads m !! i = Some t ∧ holding t = true) ∧
  (∀ i t e m', sp_threads m !! i = Some t → holding t = false → spin_step m i e = Ok m' →
    shared (sp_triedb m') = shared (sp_triedb m)) ∧
  (∀ i t, sp_threads m !! i = Some t → (∀ raw, next t ≠ Done raw) →
    ∃ j u, sp_threads m !! j = Some u ∧ (∀ raw, next u ≠ Done raw) ∧
      (∀ k, next u = Lock k → sp_lock m = false)).
Proof.
  intros Hr. pose proof (disciplined_run _ _ _ (disciplined_start s ts) Hr) as [Hg Hu Hl].
  split_and!; [done|done| |].
  - intros i [h k] e m' Hi Hh Hs. cbn in Hh. subst h. unfold spin_step in Hs. rewrite Hi in Hs. cbn [next] in Hs.
    pose proof (Hg _ _ Hi) as Hk. cbn [holding next] in Hk. destruct k as [f|k|k|raw].
    + destruct (f e (sp_triedb m)) as [[s' k]|] eqn:Hf; [|done]. injection Hs as <-.
      inversion Hk; subst. cbn. eauto.
    + destruct (sp_lock m); by injection Hs as <-.
    + by injection Hs as <-.
    + by injection Hs as <-.
  - intros i t Hi Ht. destruct (sp_lock m) eqn:E; [|by exists i, t].
    destruct (proj1 Hl eq_refl) as (j & u & Hj & Hh). exists j, u. split; [done|].
    pose proof (Hg _ _ Hj) as Hk. rewrite Hh in Hk. by destruct (next u); inversion Hk.
Qed.

(** ** A thread alone *)

(** The handler or the timer as a whole. *)
Definition run_task (e : env) (s : triedb) (t : task) : res (triedb * option (list Z)) :=
  match t with
  | Request c j => '(s, _, raw, _) ← handle e s c j; mret (s, raw)
  | Informing c conf i => '(s, _, raw, _) ← info_handler (e_ptr e) conf i s c; mret (s, raw)
  | Timer => s ← expire_keys (e_now e) s; mret (s, None)
  end.

Definition finished (r : res (triedb * option (list Z))) : res spin :=
  '(s, raw) ← r; mret (mkSpin false s [mkSpinner false (Done raw)]).

(** [k] ends with [r] when it is the only thread. *)
Definition ends (e : env) (b : bool) (s : triedb) (k : code) (r : res (triedb * option (list Z))) : Prop :=
  ∃ n, run_spin (mkSpin b s [mkSpinner b k]) (replicate n (0%nat, e)) = finished r.

Section Ends.
Context (e : env).

Lemma ends_access b s f r :
  match f e s with Ok (s', k) => ends e b s' k r | Err x => r = Err x end → ends e b s (Access f) r.
Proof.
  intros H. destruct (f e s) as [[s' k]|x] eqn:E.
  - destruct H as [n Hn]. exists (S n). cbn. by rewrite E.
  - subst r. exists 1%nat. cbn. by rewrite E.
Qed.

Lemma ends_lock s k r : ends e true s k r → ends e false s (Lock k) r.
Proof. intros [n Hn]. by exists (S n). Qed.

Lemma ends_unlock s k r : ends e false s k r → ends e true s (Unlock k) r.
Proof. intros [n Hn]. by exists (S n). Qed.

Lemma ends_done s raw : ends e false s (Done raw) (Ok (s, raw)).
Proof. by exists 0%nat. Qed.

Lemma ends_counter b s n k r : ends e b (add_keyspace s n) k r → ends e b s (add_counter n k) r.
Proof. intros H. apply ends_access. cbn. by apply ends_access. Qed.

Lemma ends_answer s (c : client) rc :
  ends e false s (answer rc) ('(s, _, raw, _) ← reply_ack s c rc; mret (s, raw)).
Proof.
  apply ends_access. unfold reply_ack. destruct (ack_replies rc) as [raw|]; [|done]. apply ends_done.
Qed.

Lemma ends_expired c key s p k r :
  match get_expired s c key p with Ok s' => ends e false s' k r | Err x => r = Err x end →
  ends e false s (expired_code c key p k) r.
Proof.
  intros H. apply ends_lock, ends_access. unfold get_expired in H.
  destruct (the_db s (client_db c)) as [db|]; [|done]. cbn [mbind res_bind] in H |- *.
  destruct (database_remove db key) as [[db' b]|]; [|done]. cbn [mbind res_bind] in H |- *.
  destruct (drop_expiring _ _ _ _) as [v|]; [|done]. cbn [mbind res_bind] in H |- *.
  by apply ends_counter, ends_unlock.
Qed.

Lemma ends_scan c g key fuel : ∀ s v i,
  ends e false s (scan_code fuel (e_now e) c g key v i)
    ('(s, v) ← get_prefix_loop fuel (e_now e) s c key v i;
     its ← reload s (items v);
     response ← get_response (get_header g) (inl (mkVector its (maxsize v) (vsize v)));
     raw ← pack_response (e_junk e) response (bits_opcode (get_header g));
     mret (s, Some raw)).
Proof.
  assert (∀ s v, ends e false s (respond_prefix g v)
    (its ← reload s (items v);
     response ← get_response (get_header g) (inl (mkVector its (maxsize v) (vsize v)));
     raw ← pack_response (e_junk e) response (bits_opcode (get_header g));
     mret (s, Some raw))) as Hrp.
  { intros s v. apply ends_access. destruct (reload s (items v)) as [its|]; [|done]. rewrite !res_bind_Ok_l.
    destruct (get_response _ _) as [resp|]; [|done]. rewrite !res_bind_Ok_l.
    destruct (pack_response _ _ _) as [raw|]; [|done]. apply ends_done. }
  induction fuel as [|fuel IH]; intros s v i; cbn [scan_code get_prefix_loop]; destruct (i <? vector_size v).
  1: by apply ends_access.
  1,3: apply Hrp.
  apply ends_access. destruct (vector_get v i) as [x|]; [|done]. rewrite !res_bind_Ok_l.
  destruct (deref x) as [cur|]; [|done]. rewrite !res_bind_Ok_l.
  destruct (load_item s _) as [item|]; [|done]. rewrite !res_bind_Ok_l.
  destruct (negb _ && _); [|apply IH]. apply ends_expired.
  destruct (get_expired s c key (iaddr item)) as [s'|]; [|done]. rewrite res_bind_Ok_l.
  apply ends_access. destruct (vector_delete v i) as [v'|]; [|done]. rewrite !res_bind_Ok_l. apply IH.
Qed.

Lemma ends_sweep fuel : ∀ s i,
  ends e true s (sweep_code fuel (e_now e) i) (s ← expire_loop fuel (e_now e) s i; mret (s, None)).
Proof.
  induction fuel as [|fuel IH]; intros s i; cbn [sweep_code expire_loop]; apply ends_access;
    destruct (i <? vector_size (expiring_keys s)).
  1: done.
  1,3: apply ends_unlock, ends_done.
  destruct (vector_get (expiring_keys s) i) as [x|]; [|done]. rewrite !res_bind_Ok_l.
  destruct (deref x) as [ek|]; [|done]. rewrite !res_bind_Ok_l.
  destruct (load_item s _) as [item|]; [|done]. rewrite !res_bind_Ok_l.
  destruct (delta item (e_now e) >? 0); [apply ends_unlock, ends_done|].
  destruct (the_db s _) as [db|]; [|done]. rewrite !res_bind_Ok_l.
  destruct (trie_delete _ _) as [[t b]|]; [|done]. rewrite !res_bind_Ok_l.
  destruct (vector_delete _ _) as [v|]; [|done]. rewrite !res_bind_Ok_l.
  apply ends_counter, IH.
Qed.
End Ends.

Lemma ends_put e s c p :
  ends e false s (put_code c p) ('(s, _, raw, _) ← put_handler (e_now e) (e_ptr e) s c p; mret (s, raw)).
Proof.
  apply ends_lock, ends_access. unfold put_handler, put_access.
  destruct (the_db s (client_db c)) as [db|]; [|done]. rewrite !res_bind_Ok_l.
  destruct (cstring_at (put_key p)) as [key|]; [|done]. rewrite !res_bind_Ok_l.
  destruct (cstring_at (put_val p)) as [val|]; [|done]. rewrite !res_bind_Ok_l.
  destruct (bits_prefix (put_header p) =? 1).
  - destruct (database_prefix_set db key val (put_ttl p) (e_now e)) as [db'|]; [|done].
    rewrite !res_bind_Ok_l. apply ends_unlock, ends_answer.
  - destruct (trie_find (db_data db) key) as [old|]; [|done]. rewrite !res_bind_Ok_l.
    destruct (database_insert _ _ _ _ _ _) as [db'|]; [|done]. rewrite !res_bind_Ok_l.
    apply ends_counter, ends_unlock, ends_answer.
Qed.

Lemma ends_get e s M c g :
  srv_repr s M → addr_unique M →
  ends e false s (get_code c g) ('(s, _, raw, _) ← handle e s c (JGet g); mret (s, raw)).
Proof.
  intros Hs Hu. unfold get_code, search_access. cbn [handle]. unfold get_handler.
  destruct (bits_prefix (get_header g) =? 0); apply ends_lock, ends_access;
    (destruct (the_db s (client_db c)) as [db|] eqn:Hdb; [|done]); rewrite !res_bind_Ok_l;
    (destruct (cstring_at (get_key g)) as [key|]; [|done]); rewrite !res_bind_Ok_l.
  - destruct (database_search db key (e_now1 e)) as [[item|]|] eqn:Hf; [| |done]; rewrite !res_bind_Ok_l;
      apply ends_unlock; [|apply ends_answer].
    destruct (found_item _ _ _ _ _ _ _ Hs Hu Hdb Hf) as (m & _ & _ & Hl).
    apply ends_access. unfold found_access. rewrite Hl, res_bind_Ok_l. destruct (negb _ && _).
    + apply ends_expired. destruct (get_expired s c key (iaddr item)) as [s'|]; [|done]. apply ends_answer.
    + apply ends_access. unfold respond_access. rewrite Hl, res_bind_Ok_l.
      destruct (deref (idata item)) as [v|]; [|done]. rewrite !res_bind_Ok_l. cbv zeta.
      destruct (get_response _ _) as [resp|]; [|done]. rewrite !res_bind_Ok_l.
      destruct (pack_response _ _ _) as [raw|]; [|done]. apply ends_done.
  - destruct (database_prefix_search (e_buf e) db key) as [v|]; [|done]. rewrite !res_bind_Ok_l.
    apply ends_unlock, ends_access. destruct (deref v) as [v'|]; [|done]. rewrite !res_bind_Ok_l.
    pose proof (ends_scan e c g key (Z.to_nat (vector_size v')) s v' 0) as H.
    destruct (get_prefix_loop _ _ s c key v' 0) as [[s' w]|]; [|exact H]. cbn [mbind res_bind] in H |- *.
    destruct (reload s' (items w)) as [its|]; [|exact H]. cbn [mbind res_bind] in H |- *.
    destruct (get_response _ _) as [resp|]; [|exact H]. cbn [mbind res_bind] in H |- *.
    destruct (pack_response _ _ _) as [raw|]; exact H.
Qed.

Lemma ends_del e s c g :
  ends e false s (del_code c g) ('(s, _, raw, _) ← del_handler s c g; mret (s, raw)).
Proof.
  unfold del_code, remove_access, del_handler. destruct (bits_prefix (get_header g) =? 1).
  - apply ends_access. destruct (the_db s (client_db c)) as [db|] eqn:Hdb; [|done]. rewrite !res_bind_Ok_l.
    apply ends_lock, ends_access. rewrite Hdb, res_bind_Ok_l.
    destruct (cstring_at (get_key g)) as [key|]; [|done]. rewrite !res_bind_Ok_l.
    destruct (database_prefix_remove db key) as [db'|]; [|done]. rewrite !res_bind_Ok_l.
    apply ends_unlock, ends_access. unfold the_db. cbn [databases set_database].
    rewrite lookup_insert_eq, res_bind_Ok_l. apply ends_counter, ends_answer.
  - apply ends_lock, ends_access. destruct (the_db s (client_db c)) as [db|]; [|done]. rewrite !res_bind_Ok_l.
    destruct (cstring_at (get_key g)) as [key|]; [|done]. rewrite !res_bind_Ok_l.
    destruct (database_remove db key) as [[db' [|]]|]; [| |done]; rewrite !res_bind_Ok_l; apply ends_unlock.
    + apply ends_counter, ends_answer.
    + apply ends_answer.
Qed.

(** A thread that runs alone does what the handler of Server does as a whole, on every
    branch and with the same faults. *)
Theorem task_alone e s M t :
  srv_repr s M → addr_unique M →
  ∃ n, run_spin (spin_start s [t]) (replicate n (0%nat, e)) = finished (run_task e s t).
Proof.
  intros Hs Hu. change (ends e false s (task_code t) (run_task e s t)).
  destruct t as [c [p|g|g]|c conf i|]; cbn [task_code run_task].
  - apply ends_put.
  - by apply (ends_get e s M).
  - apply ends_del.
  - apply ends_access. unfold info_handler. destruct (pack_info _ _ _ _) as [[m [a raw]]|]; [|done].
    apply ends_done.
  - unfold expire_keys. apply ends_access. destruct (vector_size (expiring_keys s) =? 0).
    + apply ends_done.
    + apply ends_lock, ends_access, ends_sweep.
Qed.

(** ** The accesses and the sections of Race *)

Lemma put_parts e s c p s2 c2 raw rc :
  put_handler (e_now e) (e_ptr e) s c p = Ok (s2, c2, raw, rc) → bits_prefix (put_header p) ≠ 1 →
  ∃ s1, put_access c p e s = Ok (s1, add_counter 1 (Unlock (answer OK))) ∧
    s2 = add_keyspace s1 1 ∧ raw = Some ack_ok ∧ keyspace_size s1 = keyspace_size s.
Proof.
  unfold put_handler, put_access. intros H Hp. apply Z.eqb_neq in Hp. rewrite Hp in *.
  destruct (the_db s (client_db c)) as [db|]; [|done]. cbn [mbind res_bind] in H |- *.
  destruct (cstring_at (put_key p)) as [key|]; [|done]. cbn [mbind res_bind] in H |- *.
  destruct (cstring_at (put_val p)) as [val|]; [|done]. cbn [mbind res_bind] in H |- *.
  destruct (trie_find (db_data db) key) as [old|]; [|done]. cbn [mbind res_bind] in H |- *.
  destruct (database_insert _ _ _ _ _ _) as [db'|]; [|done]. cbn [mbind res_bind] in H |- *.
  rewrite reply_ack_spec in H by (by left). injection H as <- <- <- <-.
  eexists. split_and!; [reflexivity|done|done|]. by destruct old.
Qed.

Lemma search_parts e s c g s' t :
  get_search e s c g = Ok (s', t) →
  s' = s ∧
  ((t = Replied ack_nok ∧ search_access c g e s = Ok (s, Unlock (answer NOK))) ∨
   ∃ key p, t = Found g p ∧ cstring_at (get_key g) = Ok key ∧
     search_access c g e s = Ok (s, Unlock (found_code c g key p))).
Proof.
  unfold get_search, search_access. intros H.
  destruct (the_db s (client_db c)) as [db|]; [|done]. cbn [mbind res_bind] in H |- *.
  destruct (cstring_at (get_key g)) as [key|]; [|done]. cbn [mbind res_bind] in H |- *.
  destruct (database_search db key (e_now1 e)) as [[item|]|]; [| |done]; cbn [mbind res_bind] in H |- *.
  - injection H as <- <-. split; [done|]. right. by exists key, (iaddr item).
  - unfold replied in H. rewrite reply_ack_spec in H by (by right). injection H as <- <-.
    split; [done|]. by left.
Qed.

Lemma remove_parts e s c g s' :
  del_remove s c g = Ok (s', Removed) →
  remove_access c g e s = Ok (s', Unlock (add_counter (-1) (answer OK))).
Proof.
  unfold del_remove, remove_access. intros H.
  destruct (the_db s (client_db c)) as [db|]; [|done]. cbn [mbind res_bind] in H |- *.
  destruct (cstring_at (get_key g)) as [key|]; [|done]. cbn [mbind res_bind] in H |- *.
  destruct (database_remove db key) as [[db' [|]]|]; [| |done]; cbn [mbind res_bind] in H |- *.
  - by injection H as <-.
  - unfold replied in H. rewrite reply_ack_spec in H by (by right). done.
Qed.

(** ** PUT and GET against the sections of Race *)

(** Where a thread stands, as a thread of Race: whether it holds the lock, and whether
    its store of the counter is still to come. *)
Inductive stage (c : client) (s : triedb) : bool → bool → thread → code → Prop :=
| stage_put p : stage c s false false (Ready (JPut p)) (put_code c p)
| stage_insert p : stage c s true false (Ready (JPut p)) (Access (put_access c p))
| stage_load : stage c s true true (Replied ack_ok) (add_counter 1 (Unlock (answer OK)))
| stage_store n : n = keyspace_size s →
    stage c s true true (Replied ack_ok)
      (Access (λ _ s, mret (set_counter s (u64 (n + 1)), Unlock (answer OK))))
| stage_unlock rc raw : ack_replies rc = Ok raw → stage c s true false (Replied raw) (Unlock (answer rc))
| stage_answer rc raw : ack_replies rc = Ok raw → stage c s false false (Replied raw) (answer rc)
| stage_done raw : stage c s false false (Replied raw) (Done (Some raw))
| stage_get g : bits_prefix (get_header g) = 0 → stage c s false false (Ready (JGet g)) (get_code c g)
| stage_search g : stage c s true false (Ready (JGet g)) (Access (search_access c g))
| stage_found_inside g key p : cstring_at (get_key g) = Ok key →
    stage c s true false (Found g p) (Unlock (found_code c g key p))
| stage_found g key p : cstring_at (get_key g) = Ok key →
    stage c s false false (Found g p) (found_code c g key p)
| stage_respond g key p : cstring_at (get_key g) = Ok key →
    stage c s false false (Found g p) (Access (respond_access g key p)).

Lemma stage_free c s s' b th k : stage c s false b th k → stage c s' false b th k.
Proof. inversion 1; subst; by constructor. Qed.

Record sim (m : spin) (M : machine) (pend : bool) : Prop := {
  sim_disciplined : disciplined m;
  sim_state : m_triedb M = if pend then add_keyspace (sp_triedb m) 1 else sp_triedb m;
  sim_free : sp_lock m = false → pend = false;
  sim_threads i t : sp_threads m !! i = Some t → ∃ c th, m_threads M !! i = Some (c, th) ∧
    stage c (sp_triedb m) (holding t) (holding t && pend) th (next t)
}.

(** A step of thread [i]: the others do not see it. *)
Lemma sim_update m M pend i t c th e lock' s' t' S' th' (pend' : bool) :
  sim m M pend → sp_threads m !! i = Some t → m_threads M !! i = Some (c, th) →
  spin_step m i e = Ok (mkSpin lock' s' (<[i := t']> (sp_threads m))) →
  S' = (if pend' then add_keyspace s' 1 else s') → (lock' = false → pend' = false) →
  stage c s' (holding t') (holding t' && pend') th' (next t') →
  holding t = true ∨ sp_lock m = false ∨ (s' = sp_triedb m ∧ pend' = pend) →
  sim (mkSpin lock' s' (<[i := t']> (sp_threads m)))
    (mkMachine S' (<[i := (c, th')]> (m_threads M))) pend'.
Proof.
  intros [D Hst Hfr Hth] Hi HMi Hs HS Hlk Hstage Hown.
  split; [by eapply disciplined_step|done|done|]. cbn [sp_threads sp_triedb m_threads].
  assert (is_Some (sp_threads m !! i)) as Hsi by eauto.
  assert (is_Some (m_threads M !! i)) as HsM by eauto.
  intros j u [[-> ->]|[Hne Hj]]%thread_cases; [| |done].
  - exists c, th'. by rewrite list_lookup_insert_eq by (by apply lookup_lt_is_Some).
  - destruct (Hth j u Hj) as (c' & thj & HMj & Hsg). exists c', thj.
    rewrite list_lookup_insert_ne by done. split; [done|]. destruct (holding u) eqn:Hu.
    + destruct Hown as [Ht|[Hl|[-> ->]]]; [|..|done].
      * destruct Hne. by apply (ds_unique _ D j i u t).
      * assert (sp_lock m = true); [|congruence]. apply (ds_lock _ D). eauto.
    + by eapply stage_free.
Qed.

(** A plain item that GET has found. *)
Lemma respond_plain e s c g key k p it v :
  cstring_at (get_key g) = Ok key → get_key g = k ++ [0] → plain_job (JGet g) →
  load_item s p = Ok it → plain_item it v →
  key = k ∧ found_access c g key p e s = Ok (s, Access (respond_access g key p)) ∧
  respond_access g key p e s = Ok (s, Done (Some (get_reply g k v))).
Proof.
  intros Hkey Hk (k' & Hk' & Hck & Hkl & Hb & Hp & Ho) Hl (Ht & Hd & Hv).
  rewrite Hk in Hk'. apply app_inj_tail in Hk' as [<- _].
  rewrite Hk, cstring_at_nul in Hkey by done. injection Hkey as <-. unfold found_access, respond_access.
  rewrite Hl, !res_bind_Ok_l, Hd, Ht. split_and!; [done|done|]. cbn [deref]. rewrite res_bind_Ok_l. cbv zeta.
  rewrite <-res_bind_assoc, get_response_plain by done. done.
Qed.

(** A step that is not one of Race. *)
Lemma sim_stutter m M pend i t c th e lock' s' t' (pend' : bool) :
  sim m M pend → sp_threads m !! i = Some t → m_threads M !! i = Some (c, th) →
  spin_step m i e = Ok (mkSpin lock' s' (<[i := t']> (sp_threads m))) →
  m_triedb M = (if pend' then add_keyspace s' 1 else s') → (lock' = false → pend' = false) →
  stage c s' (holding t') (holding t' && pend') th (next t') →
  holding t = true ∨ sp_lock m = false ∨ (s' = sp_triedb m ∧ pend' = pend) →
  sim (mkSpin lock' s' (<[i := t']> (sp_threads m))) M pend'.
Proof.
  intros S Hi HMi Hs HS Hl Hst Hown. destruct M as [S' ths]. cbn [m_triedb m_threads] in *.
  replace ths with (<[i := (c, th)]> ths) by (by apply list_insert_id).
  by eapply (sim_update m (mkMachine S' ths)).
Qed.

Section Steps.
Context (m : spin) (i : nat) (e : env) (t : spinner) (Hi : sp_threads m !! i = Some t).

Lemma step_access f s' k :
  next t = Access f → f e (sp_triedb m) = Ok (s', k) →
  spin_step m i e = Ok (mkSpin (sp_lock m) s' (<[i := mkSpinner (holding t) k]> (sp_threads m))).
Proof. intros Hn Hf. unfold spin_step. by rewrite Hi, Hn, Hf. Qed.

Lemma step_lock k :
  next t = Lock k → sp_lock m = false →
  spin_step m i e = Ok (mkSpin true (sp_triedb m) (<[i := mkSpinner true k]> (sp_threads m))).
Proof. intros Hn Hl. unfold spin_step. by rewrite Hi, Hn, Hl. Qed.

Lemma step_wait k : next t = Lock k → sp_lock m = true → spin_step m i e = Ok m.
Proof. intros Hn Hl. unfold spin_step. by rewrite Hi, Hn, Hl. Qed.

Lemma step_unlock k :
  next t = Unlock k →
  spin_step m i e = Ok (mkSpin false (sp_triedb m) (<[i := mkSpinner false k]> (sp_threads m))).
Proof. intros Hn. unfold spin_step. by rewrite Hi, Hn. Qed.
End Steps.

(** A step that is one of Race takes the thread on in the same way. *)
Lemma machine_step_section M i e c th M' :
  m_threads M !! i = Some (c, th) → machine_step M i e = Ok M' →
  ∃ s' th', section e (m_triedb M) c th = Ok (s', th') ∧
    M' = mkMachine s' (<[i := (c, th')]> (m_threads M)).
Proof.
  intros Hi Hs. unfold machine_step in Hs. rewrite Hi in Hs.
  apply res_bind_Ok in Hs as ([s' th'] & Hsec & [= <-]). by exists s', th'.
Qed.

Lemma pend_shared (pend : bool) s p :
  load_item (if pend then add_keyspace s 1 else s) p = load_item s p.
Proof. by destruct pend. Qed.

Section Linear.
Context (jobs : list (client * job)) (s0 : triedb) (Hjobs : Forall (λ cj, plain_job cj.2) jobs).

(** What a step leaves: the same handlers have taken effect, or one more. *)
Definition goes_on (m : spin) (hist : list (nat * env)) (i : nat) (e : env) : Prop :=
  ∃ m' M' pend' rs' hist', spin_step m i e = Ok m' ∧ sim m' M' pend' ∧
    linearized jobs s0 (hist ++ hist') M' rs' ∧ hist' `sublist_of` [(i, e)].

Lemma goes_on_stutter m M hist rs i e m' pend' :
  linearized jobs s0 hist M rs → spin_step m i e = Ok m' → sim m' M pend' →
  goes_on m hist i e.
Proof.
  intros Hlin Hs S. exists m', M, pend', rs, []. rewrite app_nil_r. split_and!; try done. apply sublist_nil_l.
Qed.

Lemma goes_on_section m M pend hist rs i e t c th f :
  sim m M pend → linearized jobs s0 hist M rs →
  load_item (sp_triedb m) (e_ptr e) = Err UseAfterFree →
  sp_threads m !! i = Some t → m_threads M !! i = Some (c, th) → next t = Access f →
  (∀ s' th', section e (m_triedb M) c th = Ok (s', th') →
    ∃ s1 k (pend' : bool), f e (sp_triedb m) = Ok (s1, k) ∧ s' = (if pend' then add_keyspace s1 1 else s1) ∧
      (sp_lock m = false → pend' = false) ∧ stage c s1 (holding t) (holding t && pend') th' k ∧
      (holding t = true ∨ (s1 = sp_triedb m ∧ pend' = pend))) →
  goes_on m hist i e.
Proof.
  intros S Hlin Hfr Hi HMi Hn Hf. rewrite <-(pend_shared pend), <-(sim_state _ _ _ S) in Hfr.
  destruct (linearized_step jobs s0 hist M rs i e Hjobs Hlin Hfr) as (M' & rs' & HM & Hl).
  destruct (machine_step_section M i e c th M' HMi HM) as (s' & th' & Hsec & ->).
  destruct (Hf s' th' Hsec) as (s1 & k & pend' & Hfe & Hs' & Hlk & Hst & Hown).
  pose proof (step_access m i e t Hi f s1 k Hn Hfe) as Hstep.
  assert (sim (mkSpin (sp_lock m) s1 (<[i := mkSpinner (holding t) k]> (sp_threads m)))
    (mkMachine s' (<[i := (c, th')]> (m_threads M))) pend') as S'.
  { eapply (sim_update m M pend i t c th e); try done. destruct Hown; auto. }
  destruct Hl as [Hl|Hl].
  - eexists _, _, pend', rs', []. rewrite app_nil_r. split_and!; [exact Hstep|done|done|apply sublist_nil_l].
  - by eexists _, _, pend', rs', [(i, e)].
Qed.
Lemma sim_lock m M pend hist rs i e t c th k :
  sim m M pend → linearized jobs s0 hist M rs → sp_threads m !! i = Some t →
  m_threads M !! i = Some (c, th) → next t = Lock k →
  stage c (sp_triedb m) true false th k → goes_on m hist i e.
Proof.
  intros S Hlin Hi HMi Hn Hst. destruct (sp_lock m) eqn:Hl.
  - eapply goes_on_stutter; [done|by eapply step_wait|done].
  - assert (pend = false) as -> by (by apply S).
    pose proof (step_lock m i e t Hi k Hn Hl) as Hs. eapply goes_on_stutter; [done|exact Hs|].
    eapply sim_stutter; try done; [apply S|by right; left].
Qed.

Lemma sim_unlock m M pend hist rs i e t c th k :
  sim m M pend → linearized jobs s0 hist M rs → sp_threads m !! i = Some t →
  m_threads M !! i = Some (c, th) → next t = Unlock k → holding t = true → pend = false →
  stage c (sp_triedb m) false false th k → goes_on m hist i e.
Proof.
  intros S Hlin Hi HMi Hn Hh -> Hst.
  pose proof (step_unlock m i e t Hi k Hn) as Hs. eapply goes_on_stutter; [done|exact Hs|].
  eapply sim_stutter; try done; [apply S|by left].
Qed.

(** An access that only reads. *)
Lemma sim_read m M pend hist rs i e t c th f k :
  sim m M pend → linearized jobs s0 hist M rs → sp_threads m !! i = Some t →
  m_threads M !! i = Some (c, th) → next t = Access f → f e (sp_triedb m) = Ok (sp_triedb m, k) →
  stage c (sp_triedb m) (holding t) (holding t && pend) th k → goes_on m hist i e.
Proof.
  intros S Hlin Hi HMi Hn Hf Hst.
  pose proof (step_access m i e t Hi f _ k Hn Hf) as Hs. eapply goes_on_stutter; [done|exact Hs|].
  apply (sim_stutter m M pend i t c th e _ _ _ pend); try done; [apply S|apply S|by right; right].
Qed.

Lemma sim_step m M pend hist rs i e :
  sim m M pend → linearized jobs s0 hist M rs →
  load_item (sp_triedb m) (e_ptr e) = Err UseAfterFree → goes_on m hist i e.
Proof.
  intros S Hlin Hfr. destruct (sp_threads m !! i) as [[h kk]|] eqn:Hi.
  2:{ eapply goes_on_stutter; [done| |done]. unfold spin_step. by rewrite Hi. }
  destruct (sim_threads _ _ _ S i _ Hi) as (c & th & HMi & Hst). cbn [holding next] in Hst.
  destruct (Hlin) as (_ & _ & _ & _ & Hth). destruct (Hth _ _ HMi) as (j & Hj & Ht). cbn in Hj, Ht.
  pose proof (proj1 (Forall_lookup _ _) Hjobs _ _ Hj) as Hpj. cbn in Hpj.
  pose proof (sim_state _ _ _ S) as HS.
  inversion Hst as [p|p| |n Hn|rc raw Hrc|rc raw Hrc|raw|g Hg|g|g key p Hkey|g key p Hkey|g key p Hkey];
    subst h th kk; cbn [andb] in *.
  - eapply sim_lock; try done. constructor.
  - subst pend. destruct Ht as [<- _]. eapply (goes_on_section m M false); try done.
    cbn [section]. intros s' th' Hsec. rewrite HS in Hsec. unfold replied in Hsec.
    destruct (put_handler _ _ _ _ _) as [[[[s2 c2] raw] rc]|] eqn:Hput; [|done].
    destruct Hpj as (k & v & _ & _ & _ & _ & _ & _ & Hpre).
    destruct (put_parts e _ c p _ _ _ _ Hput) as (s1 & Hacc & -> & -> & _); [lia|].
    injection Hsec as <- <-. exists s1, (add_counter 1 (Unlock (answer OK))), true. split_and!; try done.
    + intros Hl. assert (sp_lock m = true); [|congruence]. apply (ds_lock _ (sim_disciplined _ _ _ S)). eauto.
    + constructor.
    + by left.
  - subst pend. eapply sim_read; try done. by constructor.
  - subst pend n. eapply goes_on_stutter; [done|eapply step_access; done|].
    eapply (sim_stutter m M true i _ c _ e _ _ _ false); try done; [by eapply step_access|by constructor|by left].
  - subst pend. eapply sim_unlock; try done. by constructor.
  - eapply (sim_read m M pend _ _ i e _ c _ _ (Done (Some raw))); try done; [|by constructor]. cbv beta. by rewrite Hrc.
  - eapply goes_on_stutter; [done| |done]. unfold spin_step. by rewrite Hi.
  - unfold get_code in Hi. rewrite Hg in Hi. cbn in Hi. eapply sim_lock; try done. constructor.
  - subst pend. destruct Ht as [<- _]. eapply (goes_on_section m M false); try done.
    cbn [section]. intros s' th' Hsec. rewrite HS in Hsec.
    destruct (search_parts e _ c g s' th' Hsec) as [-> [[-> Hacc]|(key & p & -> & Hkey & Hacc)]];
      eexists _, _, false; (split_and!; [exact Hacc|done|done|by constructor|by left]).
  - subst pend. eapply sim_unlock; try done. by constructor.
  - destruct Ht as (-> & k & it & v & Hk & Hl & Hpl & _). rewrite HS, pend_shared in Hl.
    destruct (respond_plain e _ c g key k p it v Hkey Hk Hpj Hl Hpl) as (-> & Hf & _).
    eapply sim_read; try done. by constructor.
  - destruct Ht as (-> & k & it & v & Hk & Hl & Hpl & _). 
    destruct (Hpj) as (k' & Hk' & Hck & Hkl & Hb & Hp & Ho). rewrite Hk in Hk'. apply app_inj_tail in Hk' as [<- _].
    eapply (goes_on_section m M pend); try done. cbn [section]. intros s' th' Hsec.
    rewrite (get_use_plain e _ c g k p it v) in Hsec by done. injection Hsec as <- <-.
    rewrite HS, pend_shared in Hl.
    destruct (respond_plain e _ c g key k p it v Hkey Hk Hpj Hl Hpl) as (-> & _ & Hf).
    eexists _, _, pend. split_and!; [exact Hf|done|apply S|constructor|by right].
Qed.
End Linear.

(** [malloc] returns an address that is not in use, in every step of a run. *)
Fixpoint fresh_spin (m : spin) (sched : list (nat * env)) : Prop :=
  match sched with
  | [] => True
  | (i, e) :: sched =>
      load_item (sp_triedb m) (e_ptr e) = Err UseAfterFree ∧
      ∀ m', spin_step m i e = Ok m' → fresh_spin m' sched
  end.

Lemma sim_run jobs s0 sched m M pend hist rs :
  Forall (λ cj, plain_job cj.2) jobs → sim m M pend → linearized jobs s0 hist M rs → fresh_spin m sched →
  ∃ m' M' pend' rs' hist', run_spin m sched = Ok m' ∧ sim m' M' pend' ∧
    linearized jobs s0 (hist ++ hist') M' rs' ∧ hist' `sublist_of` sched.
Proof.
  intros Hjobs. revert m M pend hist rs. induction sched as [|[i e] sched IH]; intros m M pend hist rs S Hlin Hfr.
  { exists m, M, pend, rs, []. rewrite app_nil_r. by split_and!. }
  destruct Hfr as [Hf Hfr].
  destruct (sim_step jobs s0 Hjobs _ _ _ _ _ i e S Hlin Hf) as (m1 & M1 & p1 & rs1 & h1 & Hs & S1 & Hl1 & Hsub1).
  destruct (IH _ _ _ _ _ S1 Hl1 (Hfr m1 Hs)) as (m' & M' & p' & rs' & h' & Hr & S' & Hl' & Hsub).
  exists m', M', p', rs', (h1 ++ h'). cbn [run_spin]. rewrite Hs, res_bind_Ok_l. split_and!; try done.
  - by rewrite (assoc_L (++)).
  - by apply (sublist_app _ [(i, e)]).
Qed.

Definition requests (jobs : list (client * job)) : list task := (λ cj, Request cj.1 cj.2) <$> jobs.

Lemma sim_start s jobs :
  Forall (λ cj, plain_job cj.2) jobs →
  sim (spin_start s (requests jobs)) (mkMachine s ((λ cj, (cj.1, Ready cj.2)) <$> jobs)) false.
Proof.
  intros Hjobs. split; [apply disciplined_start|done|done|]. intros i t Hi.
  cbn in Hi |- *. unfold requests in Hi. rewrite !list_lookup_fmap in *.
  destruct (jobs !! i) as [[c j]|] eqn:Hj; [|done]. injection Hi as <-. exists c, (Ready j). split; [done|].
  pose proof (proj1 (Forall_lookup _ _) Hjobs _ _ Hj) as Hp. cbn in Hp |- *.
  destruct j as [p|g|g]; [constructor|constructor|done]. by destruct Hp as (k & _ & _ & _ & _ & Hg & _).
Qed.

(** C7 PUT and GET of single keys by any number of workers, in every
    interleaving of their accesses and of the calls of the spin lock, for values of at most 60 bytes
    without times to live, those in the database before included, and keys of at most 60
    bytes for GET, so that each reply fits its block (see pack_response_prefix for what
    happens from a body of 128 bytes on): no access faults, the replies are those of the handlers run one after the other, in an order in which
    each one takes effect at one of its own steps, and so is the state whenever the
    lock is free. *)
Theorem workers_linearizable s M jobs sched :
  calm s M → Forall (λ cj, plain_job cj.2 ∧ is_Some (M !! client_db cj.1)) jobs →
  fresh_spin (spin_start s (requests jobs)) sched →
  ∃ m s' hist rs,
    run_spin (spin_start s (requests jobs)) sched = Ok m ∧
    run_handlers s jobs hist = Ok (s', rs) ∧
    hist `sublist_of` sched ∧ NoDup hist.*1 ∧
    (∀ i t raw, sp_threads m !! i = Some t → next t = Done raw → ∃ r, raw = Some r ∧ (i, r) ∈ rs) ∧
    (sp_lock m = false → sp_triedb m = s').
Proof.
  intros Hc Hjobs Hfr. apply Forall_and in Hjobs as [Hpj Hdb].
  destruct (sim_run jobs s sched _ _ false [] [] Hpj (sim_start s jobs Hpj))
    as (m & M' & pend & rs & hist & Hr & S & (_ & Hh & _ & Hnd & Hth) & Hsub);
    [by apply (linearized_start s M)|done|].
  exists m, (m_triedb M'), hist, rs. split_and!; try done.
  - intros i t raw Hi Hn. destruct (sim_threads _ _ _ S i t Hi) as (c & th & HMi & Hst).
    rewrite Hn in Hst. inversion Hst as [| | | | | |r|g Hg| | | |]; subst.
    + destruct (Hth _ _ HMi) as (j & _ & Ht). by exists r.
    + match goal with E : get_code _ _ = _ |- _ => unfold get_code in E; by rewrite Hg in E end.
  - intros Hl. rewrite (sim_state _ _ _ S). by rewrite (sim_free _ _ _ S Hl).
Qed.

(** ** The counter of keys *)

(** DEL takes the counter off after it has released the lock: between its load and its
    store the other thread runs a PUT from its lock to its unlock. *)
Definition lost_sched (e : env) : list (nat * env) :=
  (., e) <$> [1; 1; 1; 1; 0; 0; 0; 0; 0; 1; 1; 0]%nat.

Lemma lost_run e s f g s1 s2 :
  f e s = Ok (s1, Unlock (add_counter (-1) (answer OK))) →
  g e s1 = Ok (s2, add_counter 1 (Unlock (answer OK))) →
  run_spin (mkSpin false s [mkSpinner false (Lock (Access g)); mkSpinner false (Lock (Access f))]) (lost_sched e) =
    Ok (mkSpin false (set_counter s2 (u64 (keyspace_size s1 - 1)))
          [mkSpinner false (Done (Some ack_ok)); mkSpinner false (Done (Some ack_ok))]).
Proof.
  intros Hf Hg. unfold lost_sched. cbn [fmap list_fmap run_spin spin_step sp_threads lookup list_lookup].
  cbn. rewrite Hf. cbn. rewrite Hg. reflexivity.
Qed.

Lemma upd_lookup M a m f : M !! a = Some m → upd M a f !! a = Some (f m).
Proof. intros H. unfold upd. by rewrite lookup_alter_eq, H. Qed.

(** PUT and DEL of a key that is there, one after the other. *)
Lemma put_del_counter e s M m c1 c2 p h1 t kl k1 v h2 k2 hist :
  p = mkPut h1 t kl (k1 ++ [0]) (v ++ [0]) →
  srv_repr s M → client_db c1 = client_db c2 → M !! client_db c1 = Some m →
  cstr k1 → cstr v → bits_prefix h1 = 0 → cstr k2 → k2 ≠ [] → bits_prefix h2 = 0 → is_Some (m !! k2) →
  hist = [(0%nat, e); (1%nat, e)] ∨ hist = [(1%nat, e); (0%nat, e)] →
  ∃ s' rs, run_handlers s [(c1, JPut p); (c2, JDel (mkGet h2 (k2 ++ [0])))] hist = Ok (s', rs) ∧
    keyspace_size s' = u64 (keyspace_size s).
Proof.
  intros -> Hs Hc Hm Hk1 Hv Hh1 Hk2 Hk20 Hh2 Hin [->| ->]; cbn [run_handlers lookup list_lookup handle].
  - destruct (put_spec (e_now e) (e_ptr e) s c1 M m k1 v t h1 kl Hs Hm Hk1 Hv Hh1) as (db & -> & Hr).
    set (it := mkItem _ _ _ _ _) in Hr. set (s1 := add_keyspace _ 1). rewrite res_bind_Ok_l. cbn [deref].
    destruct (del_spec s1 c2 (upd M (client_db c1) (<[k1 := it]>)) (<[k1 := it]> m) k2 h2) as (db' & -> & _); try done.
    { change (srv_repr (leak (set_database s (client_db c1) db) (m !! k1)) (upd M (client_db c1) (<[k1 := it]>))).
      apply srv_repr_leak. by apply srv_repr_upd with m. }
    { rewrite <-Hc. by apply (upd_lookup M _ m (<[k1 := it]>)). }
    rewrite decide_True by (by apply lookup_insert_is_Some'; right).
    eexists _, _. split; [reflexivity|]. cbn. replace (keyspace_size (leak _ _)) with (keyspace_size s) by (by destruct (m !! k1)).
    rewrite u64_add_idemp_l. f_equal. lia.
  - destruct (del_spec s c2 M m k2 h2) as (db & -> & Hr); [done|by rewrite <-Hc|done..|].
    rewrite decide_True by done. set (s1 := add_keyspace _ (-1)). rewrite res_bind_Ok_l. cbn [deref].
    destruct (put_spec (e_now e) (e_ptr e) s1 c1 (upd M (client_db c2) (delete k2)) (delete k2 m) k1 v t h1 kl)
      as (db' & -> & _); try done.
    { change (srv_repr (set_database s (client_db c2) db) (upd M (client_db c2) (delete k2))).
      apply srv_repr_upd with m; [done|by rewrite <-Hc|done]. }
    { rewrite Hc. apply (upd_lookup M _ m (delete k2)). by rewrite <-Hc. }
    eexists _, _. split; [reflexivity|]. cbn.
    replace (keyspace_size (leak _ _)) with (u64 (keyspace_size s + -1)) by (by destruct (delete k2 m !! k1)).
    rewrite u64_add_idemp_l. f_equal. lia.
Qed.

(** [triedb.keyspace_size] is not protected: DEL decrements it after it has
    released the lock.  When a PUT of another worker falls between the load and the store of
    that decrement its increment is lost, so that the counter is one less than after the two
    requests one after the other, in either order. *)
Theorem keyspace_lost_update e s M m c1 c2 p h1 t kl k1 v h2 k2 :
  p = mkPut h1 t kl (k1 ++ [0]) (v ++ [0]) →
  srv_repr s M → client_db c1 = client_db c2 → M !! client_db c1 = Some m →
  cstr k1 → cstr v → bits_prefix h1 = 0 → cstr k2 → k2 ≠ [] → bits_prefix h2 = 0 → is_Some (m !! k2) →
  let jobs := [(c1, JPut p); (c2, JDel (mkGet h2 (k2 ++ [0])))] in
  (∃ s', run_spin (spin_start s (requests jobs)) (lost_sched e) =
     Ok (mkSpin false s' [mkSpinner false (Done (Some ack_ok)); mkSpinner false (Done (Some ack_ok))]) ∧
     keyspace_size s' = u64 (keyspace_size s - 1)) ∧
  ∀ hist, hist = [(0%nat, e); (1%nat, e)] ∨ hist = [(1%nat, e); (0%nat, e)] →
    ∃ s' rs, run_handlers s jobs hist = Ok (s', rs) ∧ keyspace_size s' = u64 (keyspace_size s).
Proof.
  intros Hp Hs Hc Hm Hk1 Hv Hh1 Hk2 Hk20 Hh2 Hin jobs. split.
  2:{ intros hist Hh. exact (put_del_counter e s M m c1 c2 p h1 t kl k1 v h2 k2 hist Hp Hs Hc Hm Hk1 Hv Hh1 Hk2 Hk20 Hh2 Hin Hh). }
  destruct (del_remove_spec s c2 M m k2 h2) as (db & Hdel & Hr); [done|by rewrite <-Hc|done..|].
  apply (remove_parts e) in Hdel. set (s1 := set_database s (client_db c2) db) in *.
  destruct (put_spec (e_now e) (e_ptr e) s1 c1 (upd M (client_db c2) (delete k2)) (delete k2 m) k1 v t h1 kl)
    as (db' & Hput & _); try done.
  { apply srv_repr_upd with m; [done|by rewrite <-Hc|done]. }
  { rewrite Hc. apply (upd_lookup M _ m (delete k2)). by rewrite <-Hc. }
  destruct (put_parts e _ _ _ _ _ _ _ Hput) as (s2 & Hacc & _); [cbn; lia|].
  exists (set_counter s2 (u64 (keyspace_size s1 - 1))). split; [|done].
  assert (del_code c2 (mkGet h2 (k2 ++ [0])) = Lock (Access (remove_access c2 (mkGet h2 (k2 ++ [0]))))) as Hd.
  { unfold del_code. cbn [get_header]. by rewrite Hh2. }
  change (spin_start s (requests jobs)) with
    (mkSpin false s [mkSpinner false (put_code c1 p); mkSpinner false (del_code c2 (mkGet h2 (k2 ++ [0])))]).
  rewrite Hd. subst p. by apply (lost_run e s _ _ s1 s2).
Qed.

(** *** Examples *)

Definition demo_env : env := mkEnv 100 100 128 0 (replicate 32 0) 0.

(** A PUT, a GET on a prefix, a DEL and the timer. *)
Definition demo_tasks : list task :=
  [Request demo_client (JPut (mkPut 16 (-1) 1 (str "x" ++ [0]) (str "w" ++ [0])));
   Request demo_client (JGet (mkGet 40 (str "k" ++ [0])));
   Request demo_client (JDel (mkGet 48 (str "k" ++ [0]))); Timer].

(** The PUT is inside and the others are there to wait for it. *)
Definition demo_spin : list (nat * env) :=
  (., demo_env) <$> [1; 1; 0; 1; 0; 0; 2; 1; 3; 0; 2; 1; 3; 2]%nat.

Definition spins (ts : list task) (sched : list (nat * env)) (P : spin → bool) : bool :=
  match demo_put with
  | Ok s => match run_spin (spin_start s ts) sched with Ok m => P m | Err _ => false end
  | Err _ => false
  end.

Lemma spins_ok ts sched P s :
  spins ts sched P = true → demo_put = Ok s →
  ∃ m, run_spin (spin_start s ts) sched = Ok m ∧ P m = true.
Proof.
  unfold spins. intros H Hs. rewrite Hs in H. clear Hs.
  destruct (run_spin _ _) as [m|]; [|discriminate H]. exists m. split; [reflexivity|exact H].
Qed.

Lemma demo_spins :
  spins demo_tasks demo_spin (λ m, sp_lock m && bool_decide (holding <$> sp_threads m = [true; false; false; false])) = true.
Proof. vm_compute. reflexivity. Qed.

Lemma mutual_exclusion_witness :
  ∃ s m, demo_put = Ok s ∧ run_spin (spin_start s demo_tasks) demo_spin = Ok m ∧ sp_lock m = true ∧
    (∃ i t, sp_threads m !! i = Some t ∧ holding t = true) ∧
    ∀ i j t u, sp_threads m !! i = Some t → sp_threads m !! j = Some u →
      holding t = true → holding u = true → i = j.
Proof.
  destruct demo_put_inv as (s & Hs & _). exists s.
  destruct (spins_ok _ _ _ s demo_spins Hs) as (m & Hr & Hm). exists m.
  destruct (mutual_exclusion demo_tasks s demo_spin m Hr) as (Hu & Hl & _).
  apply andb_true_iff in Hm as [Hlk _].
  split_and!; [exact Hs|exact Hr|exact Hlk|apply Hl; exact Hlk|exact Hu].
Defined.

(** A new address in every step. *)
Definition demo_steps (l : list nat) : list (nat * env) :=
  imap (λ n i, (i, mkEnv 100 100 (128 + 64 * Z.of_nat n) 0 [] 0)) l.

(** The GET finds the old item, the PUT writes over it, the GET responds. *)
Definition demo_order : list (nat * env) := demo_steps [0; 0; 1; 0; 1; 1; 0; 1; 1; 1; 0; 1]%nat.

Fixpoint fresh_test (m : spin) (sched : list (nat * env)) : bool :=
  match sched with
  | [] => true
  | (i, e) :: sched =>
      match load_item (sp_triedb m) (e_ptr e) with Err UseAfterFree => true | _ => false end &&
      match spin_step m i e with Ok m' => fresh_test m' sched | Err _ => true end
  end.

Lemma fresh_test_ok sched m : fresh_test m sched = true → fresh_spin m sched.
Proof.
  revert m. induction sched as [|[i e] sched IH]; intros m H; [exact I|]. cbn [fresh_test fresh_spin] in *.
  apply andb_true_iff in H as [Hl Hs]. split.
  - destruct (load_item _ _) as [|[]]; try discriminate Hl. reflexivity.
  - intros m' Hm. rewrite Hm in Hs. by apply IH.
Qed.

Lemma demo_order_fresh s : demo_put = Ok s → fresh_spin (spin_start s (requests demo_jobs)) demo_order.
Proof.
  intros Hs. apply fresh_test_ok.
  assert (match demo_put with Ok s => fresh_test (spin_start s (requests demo_jobs)) demo_order | Err _ => false end = true)
    as H by (vm_compute; reflexivity).
  rewrite Hs in H. exact H.
Qed.

Lemma demo_order_ends :
  spins (requests demo_jobs) demo_order (λ m, negb (sp_lock m) &&
    forallb (λ t, match next t with Done _ => true | _ => false end) (sp_threads m)) = true.
Proof. vm_compute. reflexivity. Qed.

Lemma workers_linearizable_witness :
  ∃ s m s' hist rs, demo_put = Ok s ∧
    run_spin (spin_start s (requests demo_jobs)) demo_order = Ok m ∧
    run_handlers s demo_jobs hist = Ok (s', rs) ∧ sp_triedb m = s' ∧
    ∀ i, (i < 2)%nat → ∃ r, (i, r) ∈ rs.
Proof.
  destruct demo_put_inv as (s & Hs & Hi & _). exists s.
  destruct (workers_linearizable s (demo_map (-1)) demo_jobs demo_order) as (m & s' & hist & rs & Hr & Hh & _ & _ & Hd & Hl).
  - exact (demo_put_calm s Hi).
  - exact demo_jobs_plain.
  - exact (demo_order_fresh s Hs).
  - destruct (spins_ok _ _ _ s demo_order_ends Hs) as (m' & Hr' & Hm).
    assert (length (sp_threads m') = 2%nat) as Hlen.
    { assert (spins (requests demo_jobs) demo_order (λ m, bool_decide (length (sp_threads m) = 2%nat)) = true)
        as Hb by (vm_compute; reflexivity).
      destruct (spins_ok _ _ _ s Hb Hs) as (m2 & Hr2 & Hb2). rewrite Hr' in Hr2. injection Hr2 as <-.
      exact (bool_decide_eq_true_1 _ Hb2). }
    rewrite Hr in Hr'. injection Hr' as <-. apply andb_true_iff in Hm as [Hlk Hf].
    exists m, s', hist, rs. split_and!; [exact Hs|exact Hr|exact Hh|apply Hl; by apply negb_true_iff|].
    clear Hs Hr Hh. intros i Hlt. rewrite <-Hlen in Hlt. apply lookup_lt_is_Some in Hlt as [t Ht].
    pose proof (proj1 (forallb_True _ _) (Is_true_true_2 _ Hf)) as Hall.
    pose proof (proj1 (Forall_lookup _ _) Hall i t Ht) as Hdone.
    cbv beta in Hdone. destruct (next t) as [f|k|k|raw] eqn:Hn; [destruct Hdone..|].
    destruct (Hd i t raw Ht Hn) as (r & _ & Hin). by exists r.
Defined.

Lemma keyspace_lost_update_witness :
  ∃ s s', demo_put = Ok s ∧ keyspace_size s = 1 ∧
    run_spin (spin_start s (requests
      [(demo_client, JPut (mkPut 16 (-1) 1 (str "v" ++ [0]) (str "v" ++ [0])));
       (demo_client, JDel (mkGet 48 (str "k" ++ [0])))])) (lost_sched demo_env) =
      Ok (mkSpin false s' [mkSpinner false (Done (Some ack_ok)); mkSpinner false (Done (Some ack_ok))]) ∧
    keyspace_size s' = 0.
Proof.
  destruct demo_put_inv as (s & Hs & [Hr _ _ _ _ _] & _). exists s.
  assert (keyspace_size s = 1) as Hk.
  { assert (match demo_put with Ok s => keyspace_size s | Err _ => 0 end = 1) as H by (vm_compute; reflexivity).
    rewrite Hs in H. exact H. }
  destruct (keyspace_lost_update demo_env s (demo_map (-1)) {[str "k" := demo_item (-1)]} demo_client demo_client
    (mkPut 16 (-1) 1 (str "v" ++ [0]) (str "v" ++ [0])) 16 (-1) 1 (str "v") (str "v") 48 (str "k"))
    as [(s' & Hrun & Hks) _].
  - reflexivity.
  - exact Hr.
  - reflexivity.
  - apply lookup_singleton_eq.
  - apply demo_cstr. right. reflexivity.
  - apply demo_cstr. right. reflexivity.
  - reflexivity.
  - apply demo_cstr. left. reflexivity.
  - discriminate.
  - reflexivity.
  - eexists. apply lookup_singleton_eq.
  - exists s'. rewrite Hk in Hks. split_and!; [exact Hs|exact Hk|exact Hrun|exact Hks].
Defined.
