(* ===== verification/Stop.v ===== *)
(** * Termination of the threads: sigint_handler of src/triedb.c and the branches for
    conf->run in accept_loop, io_worker and worker of src/server.c

    Every loop has the eventfd [conf->run] in its epoll instance, edge triggered; the
    two workers share one instance.  A write makes the eventfd ready in every instance.
    A thread in [epoll_wait] takes it from the list of ready descriptors and looks at the
    counter again: on zero it goes on waiting, otherwise the thread leaves its loop and
    reads the counter on the way, which sets it to zero.  The signal handler runs in one
    of the threads, so that thread is not waiting meanwhile. *)

From S2P Require Import Prelude.
From Stdlib Require Wf_nat.

(** ** Data *)

Definition IOPOOLSIZE : nat := 1.
Definition WORKERPOOLSIZE : nat := 2.

(** An epoll instance: whether the eventfd is in its list of ready descriptors, the
    threads in [epoll_wait], and those that have got the event but have not read the
    counter yet. *)
Record instance := mkInst {
  i_ready : bool;
  i_waiting : nat;
  i_leaving : nat
}.

Record stopping := mkStop {
  run_counter : Z;
  instances : list instance
}.

(** The instances of [accept_loop], [io_worker] and [worker]. *)
Definition threads_started : stopping :=
  mkStop 0 [mkInst false 1 0; mkInst false IOPOOLSIZE 0; mkInst false WORKERPOOLSIZE 0].

(** ** Operations *)

Definition set_ready (i : instance) : instance := mkInst true (i_waiting i) (i_leaving i).

(** [eventfd_write(conf->run, 1)]. *)
Definition run_write (s : stopping) : stopping :=
  mkStop (run_counter s + 1) (set_ready <$> instances s).

(** What a thread of the instance does: it gets the event, it finds that the counter has
    been read, it reads the counter and ends. *)
Inductive move := Deliver (i : nat) | Spurious (i : nat) | Leave (i : nat).

Definition instance_of (m : move) : nat :=
  match m with Deliver i | Spurious i | Leave i => i end.

Definition stop_step (s : stopping) (m : move) : option stopping :=
  k ← instances s !! instance_of m;
  let set c k' := Some (mkStop c (<[instance_of m := k']> (instances s))) in
  match m with
  | Deliver _ =>
      if i_ready k && (0 <? run_counter s) then
        match i_waiting k with
        | S n => set (run_counter s) (mkInst false n (S (i_leaving k)))
        | O => None
        end
      else None
  | Spurious _ =>
      if i_ready k && (run_counter s =? 0) && negb (i_waiting k =? 0)%nat
      then set (run_counter s) (mkInst false (i_waiting k) (i_leaving k)) else None
  | Leave _ =>
      match i_leaving k with
      | S n => set 0 (mkInst (i_ready k) (i_waiting k) n)
      | O => None
      end
  end.

Definition internal (s s' : stopping) : Prop := ∃ m, stop_step s m = Some s'.
Definition quiescent (s : stopping) : Prop := ∀ m, stop_step s m = None.

(** The rounds of the loop of [sigint_handler]: a write and a pause, in which the threads
    make any number of moves.  [ps] are the states at the ends of the pauses. *)
Inductive rounds : list stopping → stopping → stopping → Prop :=
| rounds_nil s : rounds [] s s
| rounds_cons ps s s1 s2 :
    rtc internal (run_write s) s1 → rounds ps s1 s2 → rounds (s1 :: ps) s s2.

(** The thread that the signal interrupts, one of instance [j]. *)
Definition on_instance (j : nat) (f : instance → instance) (s : stopping) : stopping :=
  match instances s !! j with
  | Some k => mkStop (run_counter s) (<[j := f k]> (instances s))
  | None => s
  end.
Definition interrupt (j : nat) : stopping → stopping :=
  on_instance j (λ k, mkInst (i_ready k) (pred (i_waiting k)) (i_leaving k)).
Definition resume (j : nat) : stopping → stopping :=
  on_instance j (λ k, mkInst (i_ready k) (S (i_waiting k)) (i_leaving k)).

Definition sigint_handler (j : nat) (s : stopping) (ps : list stopping) (s' : stopping) : Prop :=
  length ps = (IOPOOLSIZE + WORKERPOOLSIZE + 1)%nat ∧
  ∃ s1, rounds ps (interrupt j s) s1 ∧ s' = resume j s1.

(** ** Specification *)

Definition alive (s : stopping) : nat :=
  sum_list_with (λ k, i_waiting k + i_leaving k)%nat (instances s).

Definition ended (s : stopping) : Prop :=
  Forall (λ k, i_waiting k = 0%nat ∧ i_leaving k = 0%nat) (instances s).

(** ** The moves end *)

Definition measure (s : stopping) : nat :=
  sum_list_with (λ k, 2 * i_waiting k + i_leaving k + (if i_ready k then 1 else 0))%nat (instances s).

Lemma sum_list_with_insert {A} (f : A → nat) l i x y :
  l !! i = Some x → (sum_list_with f (<[i := y]> l) + f x = sum_list_with f l + f y)%nat.
Proof.
  revert i. induction l as [|z l IH]; intros [|i] Hi; simplify_eq/=; [lia|].
  specialize (IH i Hi). lia.
Qed.

(** The three moves, by what they change. *)
Lemma stop_step_cases s m s' :
  stop_step s m = Some s' →
  ∃ k k', instances s !! instance_of m = Some k ∧
    instances s' = <[instance_of m := k']> (instances s) ∧
    ((i_ready k = true ∧ 0 < run_counter s ∧ i_waiting k = S (i_waiting k') ∧
      i_leaving k' = S (i_leaving k) ∧ i_ready k' = false ∧ run_counter s' = run_counter s) ∨
     (i_ready k = true ∧ run_counter s = 0 ∧ i_waiting k' = i_waiting k ∧
      i_leaving k' = i_leaving k ∧ i_ready k' = false ∧ run_counter s' = run_counter s ∧
      (0 < i_waiting k)%nat) ∨
     (i_leaving k = S (i_leaving k') ∧ i_waiting k' = i_waiting k ∧ i_ready k' = i_ready k ∧
      run_counter s' = 0)).
Proof.
  unfold stop_step. destruct (instances s !! instance_of m) as [k|] eqn:Hk; [|done]. cbn.
  intros H. exists k. destruct m as [i|i|i]; cbn in *.
  - destruct (i_ready k) eqn:Er; [|done]. destruct (Z.ltb_spec 0 (run_counter s)); [|done]. cbn in H.
    destruct (i_waiting k) as [|n] eqn:Ew; [done|]. simplify_eq.
    eexists. split_and!; [done|done|]. left. by split_and!.
  - destruct (i_ready k) eqn:Er; [|done]. destruct (Z.eqb_spec (run_counter s) 0); [|done]. cbn in H.
    destruct (Nat.eqb_spec (i_waiting k) 0); [done|]. simplify_eq/=.
    eexists. split_and!; [done|done|]. right. left. split_and!; (done || lia).
  - destruct (i_leaving k) as [|n] eqn:El; [done|]. simplify_eq.
    eexists. split_and!; [done|done|]. right. right. by split_and!.
Qed.

Lemma internal_measure s s' : internal s s' → (measure s' < measure s)%nat.
Proof.
  intros [m (k & k' & Hk & Hi & Hc)%stop_step_cases]. unfold measure. rewrite Hi.
  pose proof (sum_list_with_insert
    (λ k, 2 * i_waiting k + i_leaving k + (if i_ready k then 1 else 0))%nat _ _ _ k' Hk) as Hs.
  cbn beta in Hs.
  destruct Hc as [(Hr & _ & Hw & Hl & Hr' & _)|[(Hr & _ & Hw & Hl & Hr' & _ & _)|(Hl & Hw & Hr & _)]];
    rewrite Hr, ?Hr', Hw, Hl in Hs; destruct (i_ready k'); lia.
Qed.

Lemma internal_wf : well_founded (flip internal).
Proof.
  apply (Wf_nat.well_founded_lt_compat _ measure). intros s' s H. by apply internal_measure.
Qed.

(** A move that a thread can make is one of finitely many. *)
Lemma quiescent_or_move s : quiescent s ∨ ∃ s', internal s s'.
Proof.
  set (ms := seq 0 (length (instances s)) ≫= λ i, [Deliver i; Spurious i; Leave i]).
  destruct (decide (Exists (λ m, is_Some (stop_step s m)) ms)) as [He|Hn].
  - right. apply Exists_exists in He as (m & _ & s' & Hs). by exists s', m.
  - left. intros m. destruct (stop_step s m) as [s'|] eqn:E; [|done]. exfalso. apply Hn, Exists_exists.
    exists m. split; [|by rewrite E]. apply list_elem_of_bind. exists (instance_of m).
    apply stop_step_cases in E as (k & _ & Hk & _). split; [by destruct m; set_solver|].
    apply elem_of_seq. apply lookup_lt_Some in Hk. lia.
Qed.

Lemma quiesce s : ∃ s', rtc internal s s' ∧ quiescent s'.
Proof.
  induction s as [s IH] using (well_founded_induction internal_wf).
  destruct (quiescent_or_move s) as [Hq|[s1 H1]]; [by exists s|].
  destruct (IH s1 H1) as (s' & H' & Hq). exists s'. split; [by eapply rtc_l|done].
Qed.

Lemma rounds_exist n s : ∃ ps s', rounds ps s s' ∧ length ps = n ∧ Forall quiescent ps.
Proof.
  revert s. induction n as [|n IH]; intros s; [eexists [], s; by repeat constructor|].
  destruct (quiesce (run_write s)) as (s1 & H1 & Hq). destruct (IH s1) as (ps & s' & H & <- & Hps).
  exists (s1 :: ps), s'. split_and!; [by econstructor|done|by constructor].
Qed.

(** ** Each round ends a thread *)

Lemma internal_alive s s' : internal s s' → (alive s' <= alive s)%nat.
Proof.
  intros [m (k & k' & Hk & Hi & Hc)%stop_step_cases]. unfold alive. rewrite Hi.
  pose proof (sum_list_with_insert (λ k, i_waiting k + i_leaving k)%nat _ _ _ k' Hk) as Hs.
  cbn beta in Hs. destruct Hc as [?|[?|?]]; lia.
Qed.

(** Nobody is leaving once no move is left. *)
Lemma quiescent_leaving s i k : quiescent s → instances s !! i = Some k → i_leaving k = 0%nat.
Proof.
  intros Hq Hk. specialize (Hq (Leave i)). unfold stop_step in Hq. cbn in Hq. rewrite Hk in Hq.
  cbn in Hq. by destruct (i_leaving k).
Qed.

(** As long as no thread has left, the counter is positive and whoever waits has the
    descriptor in its list, or is leaving. *)
Definition written (n : nat) (s : stopping) : Prop :=
  0 < run_counter s ∧ alive s = n ∧
  ∀ i k, instances s !! i = Some k → (0 < i_waiting k)%nat → i_ready k = true ∨ (0 < i_leaving k)%nat.

Lemma written_step n s s' :
  written n s → internal s s' → written n s' ∨ (alive s' < n)%nat.
Proof.
  intros (Hc & Ha & Hr) Hs. pose proof (internal_alive _ _ Hs) as Hle.
  destruct (decide (alive s' = n)) as [Ha'|]; [left|right; lia].
  destruct Hs as [m (k & k' & Hk & Hi & Hcase)%stop_step_cases].
  unfold alive in Ha, Ha'. rewrite Hi in Ha'.
  pose proof (sum_list_with_insert (λ k, i_waiting k + i_leaving k)%nat _ _ _ k' Hk) as Hs.
  cbn beta in Hs. assert (instance_of m < length (instances s))%nat by by eapply lookup_lt_Some.
  split_and!; [destruct Hcase as [?|[?|?]]; lia|unfold alive; by rewrite Hi|].
  intros i ki Hki Hw. rewrite Hi in Hki. destruct (decide (i = instance_of m)) as [->|Hne].
  - rewrite list_lookup_insert_eq in Hki by done. simplify_eq.
    destruct Hcase as [?|[?|?]]; [right; lia|lia|lia].
  - rewrite list_lookup_insert_ne in Hki by done. eauto.
Qed.

Lemma internal_counter s s' : internal s s' → 0 <= run_counter s → 0 <= run_counter s'.
Proof. intros [m (k & k' & _ & _ & Hc)%stop_step_cases] H. destruct Hc as [?|[?|?]]; lia. Qed.

Lemma internals_counter s s' : rtc internal s s' → 0 <= run_counter s → 0 <= run_counter s'.
Proof. induction 1; eauto using internal_counter. Qed.

Lemma internals_alive s s' : rtc internal s s' → (alive s' <= alive s)%nat.
Proof. induction 1 as [|s s1 s' H1 _ IH]; [done|]. apply internal_alive in H1. lia. Qed.

Lemma written_internals n s s' :
  written n s → rtc internal s s' → written n s' ∨ (alive s' < n)%nat.
Proof.
  intros Hw Hs. induction Hs as [|s s1 s' H1 Hs IH]; [by left|].
  destruct (written_step _ _ _ Hw H1) as [Hw1|Hlt]; [by apply IH|].
  right. apply internals_alive in Hs. lia.
Qed.

Lemma alive_0 s : alive s = 0%nat ↔ ended s.
Proof.
  unfold alive, ended. induction (instances s) as [|k l IH]; [split; [constructor|done]|].
  cbn. rewrite Forall_cons, <-IH. lia.
Qed.

(** After a write, when no move is left, at least one thread has ended if there was one. *)
Lemma written_quiescent n s s' :
  written n s → rtc internal s s' → quiescent s' → n = 0%nat ∨ (alive s' < n)%nat.
Proof.
  intros Hw Hs Hq. destruct (written_internals _ _ _ Hw Hs) as [(Hc & Ha & Hr)|]; [|by right].
  left. rewrite <-Ha. apply alive_0. apply Forall_lookup. intros i k Hk.
  pose proof (quiescent_leaving _ _ _ Hq Hk) as Hl. split; [|done].
  destruct (i_waiting k) as [|w] eqn:Ew; [done|].
  destruct (Hr i k Hk) as [Hy|Hy]; [lia| |lia].
  specialize (Hq (Deliver i)). unfold stop_step in Hq. cbn in Hq. rewrite Hk in Hq. cbn in Hq.
  rewrite Hy, (proj2 (Z.ltb_lt 0 _)), Ew in Hq by done. done.
Qed.

Lemma run_write_written s : 0 <= run_counter s → written (alive s) (run_write s).
Proof.
  intros Hc. split_and!; [cbn; lia| |].
  - unfold alive. cbn. induction (instances s) as [|k l IH]; [done|]. cbn. by rewrite IH.
  - cbn. intros i k Hk _. rewrite list_lookup_fmap in Hk.
    destruct (instances s !! i); simplify_eq/=. by left.
Qed.

(** Pauses that last until no thread can move. *)
Lemma rounds_alive ps s s' :
  rounds ps s s' → Forall quiescent ps → 0 <= run_counter s →
  (alive s' <= alive s - length ps)%nat ∧ 0 <= run_counter s'.
Proof.
  induction 1 as [|ps s s1 s2 H1 H IH]; intros Hq Hc; [cbn; lia|].
  apply Forall_cons in Hq as [Hq Hqs]. pose proof (run_write_written s Hc) as Hw.
  destruct IH as [Ha Hc2]; [done|by eapply internals_counter; [done|cbn; lia]|]. split; [|done]. cbn.
  destruct (written_quiescent _ _ _ Hw H1 Hq) as [?|?]; [|lia].
  apply internals_alive in H1. assert (alive (run_write s) = alive s) by apply Hw. lia.
Qed.

Lemma rounds_snoc ps p s s' :
  rounds (ps ++ [p]) s s' → ∃ s1, rounds ps s s1 ∧ rtc internal (run_write s1) s' ∧ s' = p.
Proof.
  revert s. induction ps as [|p0 ps IH]; intros s H; cbn in H.
  - inversion H as [|? ? ? ? H1 H']; subst. inversion H'; subst. exists s. by split; [constructor|].
  - inversion H as [|? ? ? ? H1 H']; subst. apply IH in H' as (s2 & H2 & H3).
    exists s2. split; [by econstructor|done].
Qed.

(** Without threads there is no move. *)
Lemma ended_stuck s s' : ended s → rtc internal s s' → s' = s.
Proof.
  intros He H. inversion H as [|? s1 ? [m (k & k' & Hk & _ & Hc)%stop_step_cases]]; [done|subst].
  destruct (proj1 (Forall_lookup _ _) He _ _ Hk) as [Hw Hl].
  destruct Hc as [?|[?|?]]; lia.
Qed.

Lemma internals_length s s' : rtc internal s s' → length (instances s') = length (instances s).
Proof.
  induction 1 as [|s s1 s' [m (k & k' & _ & Hi & _)%stop_step_cases] _ IH]; [done|].
  by rewrite IH, Hi, length_insert.
Qed.

Lemma rounds_length ps s s' : rounds ps s s' → length (instances s') = length (instances s).
Proof.
  induction 1 as [|ps s s1 s2 H1 _ IH]; [done|]. rewrite IH. apply internals_length in H1.
  rewrite H1. cbn. by rewrite length_fmap.
Qed.

(** The interrupted thread is the only one, and the last write is there for it. *)
Lemma resume_written j s k :
  0 < run_counter s → ended s → instances s !! j = Some k →
  (∀ i k, instances s !! i = Some k → i_ready k = true) → written 1 (resume j s).
Proof.
  intros Hc He Hk Hr. unfold resume, on_instance. rewrite Hk. split_and!; [done| |]; cbn.
  - pose proof (sum_list_with_insert (λ k, i_waiting k + i_leaving k)%nat _ _ _
      (mkInst (i_ready k) (S (i_waiting k)) (i_leaving k)) Hk) as Hs.
    apply alive_0 in He. unfold alive in *. cbn in *. lia.
  - intros i ki Hki _. left. destruct (decide (i = j)) as [->|Hne].
    + rewrite list_lookup_insert_eq in Hki by (by eapply lookup_lt_Some). simplify_eq/=. by eapply Hr.
    + rewrite list_lookup_insert_ne in Hki by done. by eapply Hr.
Qed.

(** ** Properties *)

(** C10 SIGINT, delivered to a thread of any of the loops.  In a pause of the handler and
    after it the threads can make only finitely many moves, and there are runs in which every pause
    lasts until no thread can move.  In every such run all threads have left their loops
    once the interrupted thread has returned to its own and no move is left, so that the
    joins of start_server return.  That the pauses of 1.5 ms are long enough is the premise
    Forall quiescent; without it a worker may wait for ever (sigint_without_pause). *)
Theorem sigint_stops j :
  (j < 3)%nat →
  well_founded (flip internal) ∧
  (∃ ps s, sigint_handler j threads_started ps s ∧ Forall quiescent ps) ∧
  (∀ ps s s', sigint_handler j threads_started ps s → Forall quiescent ps →
     rtc internal s s' → quiescent s' → ended s').
Proof.
  intros Hj. split; [apply internal_wf|]. split.
  - destruct (rounds_exist (IOPOOLSIZE + WORKERPOOLSIZE + 1) (interrupt j threads_started)) as (ps & s1 & H1 & Hl & Hq).
    exists ps, (resume j s1). split; [|done]. split; [done|by exists s1].
  - intros ps s s' (Hl & s1 & H1 & ->) Hq H2 H3.
    destruct ps as [|p ps _] using rev_ind; [discriminate Hl|]. rewrite length_app in Hl. cbn in Hl.
    apply Forall_app in Hq as [Hq _]. apply rounds_snoc in H1 as (s0 & H0 & H1 & _).
    assert (0 <= run_counter s0 ∧ ended s0) as [Hc He].
    { apply rounds_alive in H0 as [Ha Hc]; [|done|by destruct j as [|[|[|?]]]]. split; [done|]. apply alive_0.
      assert (j = 0 ∨ j = 1 ∨ j = 2)%nat as [->|[->| ->]] by lia; cbn in Ha; lia. }
    assert (ended (run_write s0)) as Hwe.
    { apply alive_0. rewrite <-(proj2 (alive_0 s0) He). apply (run_write_written s0 Hc). }
    apply ended_stuck in H1 as ->; [|done].
    assert (length (instances s0) = 3%nat) as Hlen.
    { apply rounds_length in H0. rewrite H0. by destruct j as [|[|[|?]]]. }
    destruct (instances s0 !! j) as [k|] eqn:Hk; [|apply lookup_ge_None in Hk; lia].
    apply alive_0. destruct (written_quiescent 1 (resume j (run_write s0)) s') as [?|?]; [|done..|lia].
    apply (resume_written j (run_write s0) (set_ready k));
      [cbn; lia|done|cbn; by rewrite list_lookup_fmap, Hk|].
    intros i ki Hki. cbn in Hki. rewrite list_lookup_fmap in Hki.
    by destruct (instances s0 !! i); simplify_eq/=.
Qed.

Lemma sigint_stops_witness :
  ∃ ps s s', sigint_handler 0 threads_started ps s ∧ rtc internal s s' ∧ ended s'.
Proof.
  destruct (sigint_stops 0 ltac:(lia)) as (_ & (ps & s & Hs & Hq) & He).
  destruct (quiesce s) as (s' & Hs' & Hq'). exists ps, s, s'. split_and!; [exact Hs|exact Hs'|].
  by apply (He ps s s').
Defined.

(** The pause between the writes is needed: when they all come before a worker gets to
    run, the two workers, which share an instance, have one event between them, and one of
    them waits for ever. *)
Theorem sigint_without_pause s :
  rtc internal (Nat.iter (IOPOOLSIZE + WORKERPOOLSIZE + 1) run_write threads_started) s → ~ ended s.
Proof.
  assert (∀ s, (∃ k, instances s !! 2%nat = Some k ∧ (0 < i_waiting k)%nat ∧
                     (i_ready k = true → i_waiting k = 2%nat)) →
    ∀ s', rtc internal s s' → ¬ ended s') as Hgen.
  { intros s0 Hs s' H. induction H as [s0|s0 s1 s' [m (k & k' & Hk & Hi & Hc)%stop_step_cases] _ IH].
    - intros He. destruct Hs as (k & Hk & Hw & _).
      destruct (proj1 (Forall_lookup _ _) He _ _ Hk) as [Hw' _]. lia.
    - apply IH. destruct Hs as (k2 & Hk2 & Hw & Hr). rewrite Hi.
      destruct (decide (instance_of m = 2%nat)) as [Em|Hne].
      + rewrite Em in *. simplify_eq. exists k'.
        rewrite list_lookup_insert_eq by (by eapply lookup_lt_Some).
        destruct Hc as [(Hy & _ & Hw' & _ & Hr' & _)|[(_ & _ & Hw' & _ & Hr' & _)|(_ & Hw' & Hr' & _)]].
        * apply Hr in Hy. split_and!; [done|lia|congruence].
        * split_and!; [done|lia|congruence].
        * split_and!; [done|lia|]. by rewrite Hr', Hw'.
      + exists k2. by rewrite list_lookup_insert_ne. }
  apply Hgen. exists (mkInst true 2 0). split_and!; [reflexivity|cbn; lia|done].
Qed.

Lemma sigint_without_pause_witness :
  ∃ s, rtc internal (Nat.iter (IOPOOLSIZE + WORKERPOOLSIZE + 1) run_write threads_started) s ∧
    quiescent s ∧ ~ ended s.
Proof.
  destruct (quiesce (Nat.iter (IOPOOLSIZE + WORKERPOOLSIZE + 1) run_write threads_started))
    as (s & Hs & Hq).
  exists s. split_and!; [exact Hs|exact Hq|by apply sigint_without_pause].
Defined.
