(* ===== verification/Shutdown.v ===== *)
(** * The end of start_server: hashtable_destroy of src/hashtable.c and the destructors
    of src/server.c

    After the threads have ended, the tables of the databases and of the clients, the
    vector of the expiring keys and the nodes of the ring are released. *)

From S2P Require Import Prelude Util Config Store Bst Vec Trie Pack Db Protocol Lists Hashtable.
From S2P Require Import Cluster Network Server Commands Worker.

(** ** Operations *)

Definition hashtable_destroy {V S} (destructor : S → hashtable_entry V → S * Z) (s : S)
    (t : option (HashTable V)) : S := (hashtable_map destructor s t).1.

(** The default destructor; [key_addr] gives the address of the copy of a key, the
    value is an address. *)
Definition destroy_entry (key_addr : list Z → Z) (m : res mem) (entry : hashtable_entry Z)
  : res mem * Z :=
  (m ← m;
   m ← tfree m (key_addr <$> ekey entry);
   tfree m (eval entry), HASHTABLE_OK).

Definition drop_database (s : triedb) (p : Z) : triedb :=
  mkTriedb (delete p (databases s)) (leaked s) (clients s) (expiring_keys s) (dbs s)
    (keyspace_size s).

(** The name, the trie, the database and the key of the entry are released. *)
Definition database_destructor (s : res triedb) (entry : hashtable_entry Z) : res triedb * Z :=
  (s ← s;
   p ← deref (eval entry);
   db ← the_db s p;
   _ ← trie_destroy (db_data db);
   mret (drop_database s p), HASHTABLE_OK).

(** [client_destructor] on an entry; a client that is not there has been released. *)
Definition client_entry_destructor (sv : res server) (entry : hashtable_entry Z) : res server * Z :=
  match eval entry with
  | None => (sv, - HASHTABLE_ERR)
  | Some p =>
      (sv ← sv;
       match conns sv !! p with
       | Some _ => mret (client_destructor sv (Some p))
       | None => Err UseAfterFree
       end, HASHTABLE_OK)
  end.

(** The expiring keys are handed to their destructor; the last component is the heap
    of the ring without the nodes. *)
Definition shutdown (h : gmap Z (list_node cluster_node)) (c : cluster) (sv : server)
  : res (server * list (option expiring_key) * gmap Z (list_node cluster_node)) :=
  let t := sv_triedb sv in
  t ← hashtable_destroy database_destructor (Ok t) (Some (dbs t));
  sv ← hashtable_destroy client_entry_destructor (Ok (set_triedb sv t)) (Some (clients t));
  let eks := vector_destroy (expiring_keys (sv_triedb sv)) in
  h ← list_destroy None h (nodes c);
  mret (sv, eks, h).

(** ** Specification *)

(** The addresses that the entries of a table hold. *)
Definition held (es : list (hashtable_entry Z)) : list (option Z) :=
  eval <$> filter (λ e, taken e = true) es.

(** The entries of the table are the objects at the addresses [X], each one once. *)
Record table_owns (t : HashTable Z) (X : gset Z) : Prop := {
  ow_held : held (take (Z.to_nat (table_size t)) (entries t)) ≡ₚ Some <$> elements X;
  ow_size : X ≠ ∅ → 0 < hsize t
}.

(** ** Traversal with a destructor *)

Section destroy.
Context {S : Type} (destructor : res S → hashtable_entry Z → res S * Z) (live : S → gset Z).
Context (good : S → Prop).
(** The destructor releases one object that is alive. *)
Context (Hd : ∀ s e p, good s → eval e = Some p → p ∈ live s →
  ∃ s', destructor (Ok s) e = (Ok s', HASHTABLE_OK) ∧ live s' = live s ∖ {[p]} ∧ good s').

Lemma destroy_loop es ps s :
  good s → held es = Some <$> ps → NoDup ps → list_to_set ps ⊆ live s →
  ∃ s', map_loop destructor (Ok s) es = (Ok s', HASHTABLE_OK) ∧ live s' = live s ∖ list_to_set ps
    ∧ good s'.
Proof.
  revert ps s. induction es as [|e es IH]; intros ps s Hg Hes Hnd Hsub; unfold held in Hes.
  { destruct ps; [|done]. exists s. split_and!; [done|set_solver|done]. }
  rewrite filter_cons in Hes. cbn [map_loop]. destruct (taken e) eqn:Ht.
  - rewrite decide_True in Hes by done. destruct ps as [|p ps]; [done|].
    injection Hes as He Hes. apply NoDup_cons in Hnd as [Hp Hnd].
    destruct (Hd s e p) as (s1 & -> & Hl1 & Hg1); [done|done|set_solver|].
    destruct (IH ps s1) as (s2 & -> & Hl2 & Hg2); [done|done|done|set_solver|].
    exists s2. split_and!; [done| |done]. rewrite Hl2, Hl1. set_solver.
  - rewrite decide_False in Hes by done. by apply IH.
Qed.

Lemma destroy_table t s :
  good s → table_owns t (live s) →
  ∃ s', hashtable_destroy destructor (Ok s) (Some t) = Ok s' ∧ live s' = ∅ ∧ good s'.
Proof.
  intros Hg [Hh Hsz]. unfold hashtable_destroy, hashtable_map.
  destruct (Z.leb_spec (hsize t) 0) as [H0|H0].
  - exists s. split_and!; [done| |done]. destruct (decide (live s = ∅)) as [|Hne]; [done|].
    apply Hsz in Hne. lia.
  - apply Permutation_map_inv in Hh as (ps & Hes & Hps).
    assert (list_to_set ps = live s) as Hset.
    { rewrite <-(list_to_set_elements_L (live s)). by rewrite Hps. }
    destruct (destroy_loop _ ps s Hg Hes) as (s' & -> & Hl & Hg').
    + rewrite <-Hps. apply NoDup_elements.
    + by rewrite Hset.
    + exists s'. split_and!; [done| |done]. rewrite Hl, Hset. set_solver.
Qed.
End destroy.

(** What the destructor of databases leaves alone. *)
Definition same_rest (s s' : triedb) : Prop :=
  clients s' = clients s ∧ expiring_keys s' = expiring_keys s.

Lemma destroy_databases s M :
  srv_repr s M → table_owns (dbs s) (dom (databases s)) →
  ∃ s', hashtable_destroy database_destructor (Ok s) (Some (dbs s)) = Ok s' ∧
    databases s' = ∅ ∧ same_rest s s'.
Proof.
  intros Hs Ho.
  destruct (destroy_table database_destructor (λ s, dom (databases s))
    (λ s', map_Forall (λ _ db, is_Some (root (db_data db))) (databases s') ∧ same_rest s s'))
    with (t := dbs s) (s := s) as (s' & Hd & Hl & _ & Hr).
  - intros s1 e p [Hg Hr] He Hp. unfold database_destructor, the_db.
    apply elem_of_dom in Hp as [db Hp]. rewrite !res_bind_Ok_l, He. cbn [deref].
    rewrite res_bind_Ok_l, Hp, res_bind_Ok_l.
    destruct (map_Forall_lookup_1 _ _ _ _ Hg Hp) as [r Hroot].
    unfold trie_destroy, the_root. rewrite Hroot. cbn [deref mbind res_bind].
    eexists. split; [done|]. split; [cbn [drop_database databases]; by rewrite dom_delete_L|].
    split; [by apply map_Forall_delete|done].
  - split; [|done]. intros a db Ha. specialize (Hs a). rewrite Ha in Hs.
    destruct (M !! a) as [m|]; inversion Hs as [? ? [(r & Hr & _) _]|]; subst. by exists r.
  - done.
  - exists s'. split_and!; [done|by apply dom_empty_iff_L|done].
Qed.

Lemma destroy_clients sv :
  table_owns (clients (sv_triedb sv)) (dom (conns sv)) →
  ∃ sv', hashtable_destroy client_entry_destructor (Ok sv) (Some (clients (sv_triedb sv))) = Ok sv' ∧
    conns sv' = ∅ ∧ sv_triedb sv' = sv_triedb sv.
Proof.
  intros Ho.
  destruct (destroy_table client_entry_destructor (λ sv, dom (conns sv))
    (λ sv', sv_triedb sv' = sv_triedb sv))
    with (t := clients (sv_triedb sv)) (s := sv) as (sv' & Hd & Hl & Hr); [|done|done|].
  - intros s1 e p Hg He Hp. unfold client_entry_destructor. rewrite He.
    apply elem_of_dom in Hp as [c Hp]. rewrite res_bind_Ok_l, Hp.
    eexists. split; [done|]. split; [|done]. cbn [client_destructor set_conns conns]. by rewrite dom_delete_L.
  - exists sv'. split_and!; [done|by apply dom_empty_iff_L|done].
Qed.

(** ** Properties *)

(** When the tables hold every database and every client once, the end of the server
    releases all of them, the nodes of the ring and the expiring keys, and none
    twice. *)
Theorem shutdown_releases h c l sv M :
  srv_repr (sv_triedb sv) M → table_owns (dbs (sv_triedb sv)) (dom (databases (sv_triedb sv))) →
  table_owns (clients (sv_triedb sv)) (dom (conns sv)) → ring h c l →
  ∃ sv' h', shutdown h c sv = Ok (sv', vector_destroy (expiring_keys (sv_triedb sv)), h') ∧
    databases (sv_triedb sv') = ∅ ∧ conns sv' = ∅ ∧
    (∀ a, a ∈ l.*1 → h' !! a = None) ∧ frame h h' l.
Proof.
  intros Hs Hd Hc [Hch Hnd Hlen _]. unfold shutdown.
  destruct (destroy_databases _ _ Hs Hd) as (t & -> & Ht & Hcl & He). rewrite res_bind_Ok_l.
  destruct (destroy_clients (set_triedb sv t)) as (sv' & Hsv & Hco & Htr).
  { cbn [sv_triedb set_triedb conns]. by rewrite Hcl. }
  cbn [sv_triedb set_triedb] in Hsv, Htr. rewrite Hsv, res_bind_Ok_l, Htr, He.
  unfold list_destroy. cbn [default]. rewrite Hlen, Nat2Z.id.
  destruct (free_loop_spec h _ l Hch Hnd) as (h' & -> & Hf & Hfree). rewrite res_bind_Ok_l.
  exists sv', h'. split_and!; [done|by rewrite Htr|done|done|done].
Qed.

(** A server with one database and one client. *)
Definition demo_entry (p : Z) : hashtable_entry Z := mkEntry (Some db0) (Some p) true.
Definition demo_table (p : Z) : HashTable Z :=
  {| table_size := 4; hsize := 1;
     entries := [empty_entry; demo_entry p; empty_entry; empty_entry] |}.
Definition demo_server : server :=
  mkServer (mkTriedb {[16 := database_init db0 (Some trie_node_destructor)]} ∅ (demo_table 24)
              vector_new (demo_table 16) 0)
    demo_infos demo_conf {[24 := mkClient 5 0 db0 16]} ∅ [].

Lemma demo_table_owns p (X : gset Z) : X = {[p]} → table_owns (demo_table p) X.
Proof.
  intros ->. split; [|by cbn]. rewrite elements_singleton.
  change (held _) with [Some p]. done.
Qed.

Lemma shutdown_releases_witness :
  ∃ sv' h', shutdown ∅ (mkCluster 0 4 list_new) demo_server = Ok (sv', [], h') ∧
    databases (sv_triedb sv') = ∅ ∧ conns sv' = ∅ ∧
    (∀ a, a ∈ ([] : list (Z * cluster_node)).*1 → h' !! a = None) ∧ frame ∅ h' [].
Proof.
  apply (shutdown_releases ∅ (mkCluster 0 4 list_new) [] demo_server {[16 := ∅]}).
  - apply map_Forall2_singleton, database_init_repr.
  - apply demo_table_owns. cbn [demo_server sv_triedb databases]. apply dom_singleton_L.
  - apply demo_table_owns. cbn [demo_server conns]. apply dom_singleton_L.
  - by split; try constructor.
Defined.
