(* ===== verification/Main.v ===== *)
(** * Command line and start: main of src/triedb.c

    The options as [getopt] returns them, each with its argument, and the
    arguments that follow them.  [fs] gives the contents of a file that can be
    opened, [opened] tells whether the log file can be, and [now] and [junk] are as in
    Logging.  The value of [atoi] is not used by the code and not modelled. *)

From S2P Require Import Prelude Util Config Logging.

(** ** Data *)

Record seednode := mkSeed {
  connect : bool;
  seed_addr : list Z;                 (* char [17] *)
  seed_port : option (list Z);        (* char [6], set when [connect] is *)
  seed_fulladdr : option (list Z)     (* char [22], as [seed_port] *)
}.

(** What the options have set. *)
Record settings := mkSettings {
  st_conf : config;
  st_addr : list Z;
  st_confpath : list Z;
  st_debug : bool
}.

(** [strcpy] and [strcat] into an array of [n] characters. *)
Definition strcpy_to (n : Z) (s : list Z) : res (list Z) :=
  if strlen s + 1 <=? n then Ok s else Err OutOfBounds.

(** ** Operations *)

(** [STREQ(mode, "CLUSTER", 7) ? CLUSTER : STANDALONE], where the macro ends in
    [== 0 ? true : false]. *)
Definition option_mode (arg : list Z) : Z :=
  if STREQ arg (str "CLUSTER") 7 then 1 else if false then CLUSTER else STANDALONE.

(** The loop over the options; [None] is the exit with the usage message. *)
Fixpoint main_options (opts : list (Z * list Z)) (st : settings) : res (option settings) :=
  match opts with
  | [] => Ok (Some st)
  | (opt, arg) :: opts =>
      let c := st_conf st in
      if opt =? 97 then                                                    (* a *)
        h ← strcpy_ff arg;
        main_options opts (mkSettings (set_address c (socket_family c) h) arg (st_confpath st)
                             (st_debug st))
      else if opt =? 99 then                                               (* c *)
        main_options opts (mkSettings c (st_addr st) arg (st_debug st))
      else if opt =? 112 then                                              (* p *)
        p ← strcpy_ff arg;
        main_options opts (mkSettings (set_port c p) (st_addr st) (st_confpath st) (st_debug st))
      else if opt =? 109 then                                              (* m *)
        main_options opts (mkSettings (set_mode c (option_mode arg)) (st_addr st) (st_confpath st)
                             (st_debug st))
      else if opt =? 118 then                                              (* v *)
        main_options opts (mkSettings c (st_addr st) (st_confpath st) true)
      else Ok None
  end.

(** The condition [STREQ(argv[optind], "join", 4) == 0], where the comparison
    with 0 becomes part of the last operand of the macro. *)
Definition join_condition (arg : list Z) : bool :=
  if STREQ arg (str "join") 4 then true else Bool.eqb false false.

(** The arguments after the options; [argv[argc]] is null, and there is nothing
    after it. *)
Definition main_seed (addr : list Z) (args : list (list Z)) : res seednode :=
  fulladdr ← strcpy_to 22 addr;
  a ← strcpy_to 17 addr;
  match args with
  | [] => mret (mkSeed false a None None)
  | arg :: rest =>
      if join_condition arg then
        match rest with
        | _ :: tport :: _ =>
            p ← strcpy_to 6 tport;
            f ← strcpy_to 22 (fulladdr ++ tport);
            mret (mkSeed true a (Some p) (Some f))
        | [_] => Err NullDeref
        | [] => Err OutOfBounds
        end
      else mret (mkSeed false a None None)
  end.

(** Up to the call of [start_server]: its configuration, the seed node and the log. *)
Definition main (somaxconn run_fd junk now : Z) (fs : list Z → option (list Z)) (opened : bool)
    (opts : list (Z * list Z)) (args : list (list Z)) : res (option (config * seednode * logs)) :=
  c ← config_set_default somaxconn run_fd;
  st ← main_options opts (mkSettings c (str "127.0.0.1") (str "/etc/triedb/triedb.conf") false);
  match st with
  | None => mret None
  | Some st =>
      let c := set_loglevel (st_conf st) (if st_debug st then DEBUG else WARNING) in
      lg ← config_load_log junk now c (st_confpath st) (fs (st_confpath st)) (mkLogs [] None);
      '(c, _) ← config_load somaxconn c (fs (st_confpath st));
      seed ← main_seed (st_addr st) args;
      let lg := t_log_init now lg (logpath c) opened in
      lg ← config_print junk now c lg;
      mret (Some (c, seed, lg))
  end.

(** ** Properties *)

(** The first argument after the options does not matter: any three arguments make
    the node join the cluster at the port that the third one names, and with fewer
    the process reads past its arguments or through the null pointer after them. *)
Theorem main_joins_always addr arg target tport rest :
  strlen addr <= 16 → strlen tport <= 5 →
  main_seed addr (arg :: target :: tport :: rest) =
    Ok (mkSeed true addr (Some tport) (Some (addr ++ tport))) ∧
  main_seed addr [arg; target] = Err NullDeref ∧ main_seed addr [arg] = Err OutOfBounds.
Proof.
  intros Ha Hp. unfold main_seed, strcpy_to.
  assert (join_condition arg = true) as -> by (unfold join_condition; by destruct (STREQ _ _ _)).
  assert (strlen (addr ++ tport) = strlen addr + strlen tport) as Hl
    by (unfold strlen; rewrite length_app; lia).
  rewrite !(proj2 (Z.leb_le (strlen addr + 1) _)) by lia. cbn [mbind res_bind].
  rewrite Hl, !(proj2 (Z.leb_le _ _)) by lia. done.
Qed.

Lemma main_joins_always_witness :
  main_seed (str "127.0.0.1") [str "status"; str "10.0.0.1"; str "9191"] =
    Ok (mkSeed true (str "127.0.0.1") (Some (str "9191")) (Some (str "127.0.0.19191"))) ∧
  main_seed (str "127.0.0.1") [str "status"; str "10.0.0.1"] = Err NullDeref ∧
  main_seed (str "127.0.0.1") [str "status"] = Err OutOfBounds.
Proof. apply (main_joins_always (str "127.0.0.1") (str "status") (str "10.0.0.1") (str "9191") []); by vm_compute. Defined.

(** Options other than -c and -v. *)
Definition plain_option (o : Z * list Z) : Prop := o.1 ≠ 99 ∧ o.1 ≠ 118.

Lemma main_options_plain opts st st' :
  Forall plain_option opts → main_options opts st = Ok (Some st') →
  st_debug st' = st_debug st ∧ st_confpath st' = st_confpath st.
Proof.
  intros Ho. revert st. induction Ho as [|[o arg] opts [Hc Hv] Ho IH]; intros st Hm.
  { by injection Hm as ->. }
  cbn [main_options] in Hm. cbn in Hc, Hv.
  rewrite (proj2 (Z.eqb_neq o 99)), (proj2 (Z.eqb_neq o 118)) in Hm by done.
  destruct (o =? 97); [|destruct (o =? 112); [|destruct (o =? 109)]]; repeat res_step;
    try done; by apply IH in Hm.
Qed.

(** Without the options -v and -c, and without a configuration file, the level is
    WARNING, although the default of config.h is INFORMATION: the two warnings about the
    file are written to the standard output, where the log file is not open yet, and the
    configuration is not logged. *)
Theorem main_quiet somaxconn run_fd junk now fs opened opts args c seed lg :
  Forall plain_option opts → fs (str "/etc/triedb/triedb.conf") = None →
  main somaxconn run_fd junk now fs opened opts args = Ok (Some (c, seed, lg)) →
  loglevel c = WARNING ∧
  lg = t_log_init now
         (mkLogs [log_line now 42 (str "WARNING: Unable to open conf file /etc/triedb/triedb.conf");
                  log_line now 42 (str "To specify a config file run triedb -c /path/to/conf")] None)
         (logpath c) opened.
Proof.
  intros Ho Hfs Hm. unfold main in Hm.
  destruct (config_set_default somaxconn run_fd) as [c0|] eqn:Hd; [|done]. rewrite res_bind_Ok_l in Hm.
  destruct (main_options opts _) as [[st|]|] eqn:Hst; [|done..]. rewrite res_bind_Ok_l in Hm.
  apply main_options_plain in Hst as [Hdbg Hpath]; [|done]. cbn [st_debug st_confpath] in *.
  rewrite Hdbg, Hpath, Hfs in Hm. unfold config_load_log, config_load in Hm.
  change (loglevel (set_loglevel (st_conf st) WARNING)) with WARNING in Hm.
  assert (∀ text lg, cstr text → t_log junk now WARNING WARNING text lg =
            Ok (log_write lg (log_line now 42 text))) as Hw.
  { intros text lg' Ht. by rewrite t_log_spec by (done || unfold WARNING; lia). }
  rewrite Hw, res_bind_Ok_l in Hm by (apply (bool_decide_eq_true_1 (cstr _)); by vm_compute).
  rewrite Hw, res_bind_Ok_l in Hm by (apply (bool_decide_eq_true_1 (cstr _)); by vm_compute).
  unfold mret, res_ret in Hm. rewrite res_bind_Ok_l in Hm.
  destruct (main_seed _ args) as [sd|]; [|done]. rewrite res_bind_Ok_l in Hm.
  unfold config_print in Hm. change (loglevel (set_loglevel (st_conf st) WARNING)) with WARNING in Hm.
  change (WARNING <? WARNING) with false in Hm. cbv iota in Hm. rewrite res_bind_Ok_l in Hm.
  by injection Hm as <- <- <-.
Qed.

Lemma main_quiet_witness :
  ∃ c seed lg,
    main 128 3 0 1500000000 (λ _, None) true [(112, str "9191")] [] = Ok (Some (c, seed, lg)) ∧
    loglevel c = WARNING ∧
    lg = t_log_init 1500000000
           (mkLogs [log_line 1500000000 42 (str "WARNING: Unable to open conf file /etc/triedb/triedb.conf");
                    log_line 1500000000 42 (str "To specify a config file run triedb -c /path/to/conf")] None)
           (logpath c) true.
Proof.
  eexists _, _, _. split; [vm_compute; reflexivity|].
  eapply (main_quiet 128 3 0 1500000000 (λ _, None) true [(112, str "9191")] []);
    [by repeat constructor|reflexivity|vm_compute; reflexivity].
Defined.
