(* ===== verification/Start.v ===== *)
(** * Joining a cluster: the cluster part of start_server of src/server.c

    The ring that a node starts with, the port of its bus and the datagram with
    which it announces itself to a seed node.  [busfd] and [sockfd] are the
    descriptors of the new sockets; [malloc] is the allocator of Cluster.v. *)

From S2P Require Import Prelude Util Config Store Bst Vec Trie Pack Db Protocol Lists Hashtable.
From S2P Require Import Cluster Network Server Commands Worker Main.

(** ** atoi

    White space, a sign, digits; a number out of the range of [int] is undefined. *)

Fixpoint atoi_digits (sign n : Z) (s : list Z) : res Z :=
  match s with
  | c :: s =>
      if isdigit c then n ← int_chk (n * 10 + sign * (c - 48)); atoi_digits sign n s else Ok n
  | [] => Ok n
  end.

Definition atoi (s : list Z) : res Z :=
  match strip_spaces s with
  | 45 :: s => atoi_digits (-1) 0 s
  | 43 :: s => atoi_digits 1 0 s
  | s => atoi_digits 1 0 s
  end.

(** ** Operations *)

(** [snprintf(bport, number_len(busport), "%d", busport)] into six characters. *)
Definition bus_port (port : list Z) : res (list Z) :=
  n ← atoi port;
  busport ← int_chk (n + 10000);
  len ← number_len (u64 busport);
  strcpy_to 6 (take (Z.to_nat (len - 1)) (sprintf_d busport)).

(** The datagram of a join with the address and the port that it goes to: the port is
    that of the seed node's bus, the address is INADDR_ANY, not the seed node's. *)
Definition INADDR_ANY : Z := 0.

Definition join_datagram (seed_port : list Z) : res (list Z * (Z * Z)) :=
  n ← atoi seed_port;
  tport ← int_chk (n + 10000);
  let header := Z.shiftl (opcode_val JOIN) 4 in
  '(_, (_, raw)) ← pack_ack 0 (mkMem 0 ∅) 8 header 0;
  mret (raw, (INADDR_ANY, u16 tport)).

(** In cluster mode: the nodes of this server, with its bus; the heap of the ring, the ring
    and the statistics. *)
Definition start_ring (malloc : gmap Z (list_node cluster_node) → Z) (conf : config)
    (addr port : list Z) (busfd : Z) (info : informations)
  : res (gmap Z (list_node cluster_node) * cluster * informations) :=
  let c := mkCluster 0 4 list_new in
  if mode conf =? CLUSTER then
    bport ← bus_port port;
    '(h, c) ← cluster_add_new_node malloc ∅ c busfd addr bport true;
    mret (h, c, add_node info)
  else mret (∅, c, info).

(** The datagram to a seed node, and its nodes. *)
Definition start_seed (malloc : gmap Z (list_node cluster_node) → Z) (seed : seednode) (sockfd : Z)
    (h : gmap Z (list_node cluster_node)) (c : cluster)
  : res (gmap Z (list_node cluster_node) * cluster * (list Z * (Z * Z))) :=
  sport ← deref (seed_port seed);
  d ← join_datagram sport;
  '(h, c) ← cluster_add_new_node malloc h c sockfd (seed_addr seed) sport false;
  mret (h, c, d).

(** Both; the last component is the datagram. *)
Definition start_cluster (malloc : gmap Z (list_node cluster_node) → Z) (conf : config)
    (addr port : list Z) (seed : seednode) (busfd sockfd : Z) (info : informations)
  : res (gmap Z (list_node cluster_node) * cluster * informations * option (list Z * (Z * Z))) :=
  '(h, c, info) ← start_ring malloc conf addr port busfd info;
  if connect seed then
    '(h, c, d) ← start_seed malloc seed sockfd h c;
    mret (h, c, info, Some d)
  else mret (h, c, info, None).

(** ** Numbers in decimal *)

Lemma atoi_digits_spec s n :
  Forall (λ c, 48 <= c <= 57) s → 0 <= n → dec_from n s <= INT_MAX →
  atoi_digits 1 n s = Ok (dec_from n s).
Proof.
  intros Hs. revert n. induction Hs as [|c s Hc Hs IH]; intros n Hn Hmax; [done|].
  cbn [atoi_digits]. rewrite (proj2 (isdigit_spec c)), Z.mul_1_l by lia.
  change (dec_from n (c :: s)) with (dec_from (n * 10 + (c - 48)) s) in *.
  pose proof (dec_from_mono (n * 10 + (c - 48)) s ltac:(lia) Hs).
  rewrite int_chk_Ok, res_bind_Ok_l by (unfold INT_MIN; lia). apply IH; [lia|done].
Qed.

Lemma atoi_print n : 0 <= n <= INT_MAX → atoi (print_dec n) = Ok n.
Proof.
  intros Hn. pose proof (print_dec_Forall n (proj1 Hn)) as Hf.
  pose proof (print_dec_val n ltac:(unfold INT_MAX in Hn; lia)) as Hv.
  assert (atoi (print_dec n) = atoi_digits 1 0 (print_dec n)) as ->.
  { unfold atoi. destruct (print_dec n) as [|c s]; [done|]. apply Forall_cons in Hf as [Hc _].
    cbn [strip_spaces]. assert (isspace c = false) as ->.
    { unfold isspace. apply orb_false_iff. split; [apply Z.eqb_neq; lia|].
      apply andb_false_iff. right. apply Z.leb_gt. lia. }
    assert (c = 48 ∨ c = 49 ∨ c = 50 ∨ c = 51 ∨ c = 52 ∨ c = 53 ∨ c = 54 ∨ c = 55 ∨ c = 56 ∨ c = 57)
      as Hd by lia.
    by repeat destruct Hd as [->|Hd]; subst. }
  rewrite atoi_digits_spec; unfold dec_val in Hv; rewrite ?Hv; (done || lia).
Qed.

(** The port of the bus is 10000 above that of the server. *)
Lemma bus_port_spec n : 0 <= n <= 65535 → bus_port (print_dec n) = Ok (print_dec (n + 10000)).
Proof.
  intros Hn. unfold bus_port. rewrite atoi_print, res_bind_Ok_l by (unfold INT_MAX; lia).
  rewrite int_chk_Ok, res_bind_Ok_l by (unfold INT_MIN, INT_MAX; lia).
  rewrite u64_small, number_len_spec, res_bind_Ok_l by lia.
  destruct (Z.eqb_spec (n + 10000) 0); [lia|]. rewrite sprintf_d_nonneg by lia.
  replace (Z.to_nat (strlen (print_dec (n + 10000)) + 1 - 1)) with (length (print_dec (n + 10000)))
    by (unfold strlen; lia).
  rewrite take_ge by done. unfold strcpy_to.
  pose proof (print_dec_length (n + 10000) 4 ltac:(lia)).
  by rewrite (proj2 (Z.leb_le _ _)) by lia.
Qed.

Lemma join_datagram_spec n :
  0 <= n <= 55535 → join_datagram (print_dec n) = Ok ([240; 1; 0], (INADDR_ANY, n + 10000)).
Proof.
  intros Hn. unfold join_datagram. rewrite atoi_print, res_bind_Ok_l by (unfold INT_MAX; lia).
  rewrite int_chk_Ok, res_bind_Ok_l by (unfold INT_MIN, INT_MAX; lia).
  change (pack_ack 0 (mkMem 0 ∅) 8 (Z.shiftl (opcode_val JOIN) 4) 0)
    with (pack_ack 0 (mkMem 0 ∅) 8 240 0).
  destruct (pack_ack_cnt_exact 0 8 240 0 0 (mkMem 0 ∅)) as [(m' & -> & _) _];
    [by split|by split|lia|].
  rewrite res_bind_Ok_l. by rewrite u16_small by lia.
Qed.

(** The nodes of the ring for one server: the real one and four virtual ones. *)
Definition server_nodes (c_fd : Z) (addr pt : list Z) (is_self : bool) : list cluster_node :=
  ring_node c_fd addr addr pt is_self false :: vnodes 4 c_fd addr pt is_self.

(** The address of a node, and its port in decimal. *)
Definition node_ok (addr : list Z) (n : Z) : Prop := strlen addr <= 16 ∧ bytes addr ∧ 0 <= n.

Lemma node_addr_ok addr n : node_ok addr n → n < 10 ^ 5 → addr_ok addr (print_dec n).
Proof.
  intros (H1 & H2 & H3) Hn. pose proof (print_dec_length n 4 ltac:(lia)).
  split; [done|lia|done|]. apply cstr_bytes, print_dec_cstr. lia.
Qed.

Section Ring.
Context (malloc : gmap Z (list_node cluster_node) → Z) (Hm : ∀ h, h !! malloc h = None).

Lemma start_ring_cluster conf addr n busfd info :
  mode conf = CLUSTER → node_ok addr n → n <= 65535 →
  ∃ h c l, start_ring malloc conf addr (print_dec n) busfd info = Ok (h, c, add_node info) ∧
    ring h c l ∧ csize c = 1 ∧ replicas c = 4 ∧
    l.*2 ≡ₚ server_nodes busfd addr (print_dec (n + 10000)) true.
Proof.
  intros Hmode Ha Hn. unfold start_ring. rewrite Hmode. change (CLUSTER =? CLUSTER) with true. cbv iota.
  destruct (Ha) as (Ha1 & Ha2 & Ha3). rewrite bus_port_spec, res_bind_Ok_l by done.
  destruct (cluster_add_spec malloc ∅ (mkCluster 0 4 list_new) [] busfd addr (print_dec (n + 10000))
    true Hm) as (h & c & l & -> & Hr & Hsz & Hl & Hrep);
    [by split; try constructor|apply node_addr_ok; [by split_and!; try lia|lia]|cbn; lia
    |cbn; unfold INT_MIN, INT_MAX; lia|cbn; lia|].
  rewrite res_bind_Ok_l. exists h, c, l. by split_and!.
Qed.

Lemma start_ring_ok conf addr n busfd info :
  node_ok addr n → n <= 65535 →
  ∃ h c l info', start_ring malloc conf addr (print_dec n) busfd info = Ok (h, c, info') ∧
    ring h c l ∧ 0 <= csize c <= 1 ∧ replicas c = 4 ∧ (length l <= 5)%nat.
Proof.
  intros Ha Hn. destruct (decide (mode conf = CLUSTER)) as [Hmode|Hmode].
  - destruct (start_ring_cluster conf addr n busfd info Hmode Ha Hn) as (h & c & l & H & Hr & Hsz & Hrep & Hl).
    exists h, c, l, (add_node info). rewrite Hsz. split_and!; [done|done|lia|lia|done|].
    apply Permutation_length in Hl. rewrite length_fmap in Hl. by rewrite Hl.
  - unfold start_ring. rewrite (proj2 (Z.eqb_neq _ _) Hmode). exists ∅, (mkCluster 0 4 list_new), [], info.
    split_and!; cbn; try done; try lia. by split; try constructor.
Qed.

Lemma start_seed_ok seed k sockfd h c l :
  seed_port seed = Some (print_dec k) → node_ok (seed_addr seed) k → k <= 55535 →
  ring h c l → 0 <= csize c <= 1 → replicas c = 4 → (length l <= 5)%nat →
  ∃ h' c' l', start_seed malloc seed sockfd h c = Ok (h', c', ([240; 1; 0], (INADDR_ANY, k + 10000))) ∧
    ring h' c' l' ∧ csize c' = csize c + 1 ∧
    l'.*2 ≡ₚ server_nodes sockfd (seed_addr seed) (print_dec k) false ++ l.*2.
Proof.
  intros Hp Ha Hk Hr Hsz Hrep Hl. unfold start_seed. rewrite Hp. cbn [deref].
  rewrite res_bind_Ok_l, join_datagram_spec, res_bind_Ok_l by (destruct Ha as (_ & _ & ?); lia).
  destruct (cluster_add_spec malloc h c l sockfd (seed_addr seed) (print_dec k) false Hm Hr)
    as (h' & c' & l' & -> & Hr' & Hsz' & Hl' & _);
    [apply node_addr_ok; [done|lia]|lia|unfold INT_MIN, INT_MAX; lia|lia|].
  rewrite res_bind_Ok_l. exists h', c', l'. split_and!; try done. by rewrite Hl', Hrep.
Qed.
End Ring.

(** C40 A node that starts in cluster mode on port [n] and joins a seed node: its ring is
    sorted by the points of the nodes and holds its own five nodes, with the port of
    its bus, and the five of the seed; the statistics count one node; and the datagram
    it sends, to the port of the seed node's bus but to the address INADDR_ANY, is
    unpacked by the bus of any node that receives it as a JOIN and counted. *)
Theorem start_cluster_joins malloc conf addr n seed busfd sockfd info k junk sv b0 b1 b2 b3 rest :
  (∀ h, h !! malloc h = None) → mode conf = CLUSTER →
  0 <= n <= 65535 → strlen addr <= 16 → bytes addr →
  connect seed = true → seed_port seed = Some (print_dec k) → 0 <= k <= 55535 →
  strlen (seed_addr seed) <= 16 → bytes (seed_addr seed) →
  sv_buffer sv = b0 :: b1 :: b2 :: b3 :: rest →
  ∃ h c l d sv',
    start_cluster malloc conf addr (print_dec n) seed busfd sockfd info =
      Ok (h, c, add_node info, Some (d, (INADDR_ANY, k + 10000))) ∧
    ring h c l ∧ csize c = 2 ∧
    l.*2 ≡ₚ server_nodes sockfd (seed_addr seed) (print_dec k) false
            ++ server_nodes busfd addr (print_dec (n + 10000)) true ∧
    bus_event junk sv d = Ok (sv', RAck (mkAck 240 0)) ∧ sv_info sv' = add_node (sv_info sv).
Proof.
  intros Hm Hmode Hn Ha Hba Hco Hsp Hk Hs Hbs Hbuf. unfold start_cluster.
  destruct (start_ring_cluster malloc Hm conf addr n busfd info) as (h & c & l & -> & Hr & Hsz & Hrep & Hl);
    [done|by split_and!; try lia|lia|].
  rewrite res_bind_Ok_l, Hco.
  destruct (start_seed_ok malloc Hm seed k sockfd h c l) as (h2 & c2 & l2 & -> & Hr2 & Hsz2 & Hl2);
    [done|by split_and!; try lia|lia|done|lia|done| |].
  { apply Permutation_length in Hl. rewrite length_fmap in Hl. by rewrite Hl. }
  rewrite res_bind_Ok_l. eexists h2, c2, l2, [240; 1; 0], _. split_and!; [done|done|lia|by rewrite Hl2, Hl| |].
  - by apply (bus_join junk sv 240 0 b0 b1 b2 b3 rest Hbuf); [by split|by vm_compute].
  - done.
Qed.

Lemma start_cluster_joins_witness :
  ∃ h c l d sv',
    start_cluster (λ h, fresh (dom h)) (set_mode demo_conf CLUSTER) (str "127.0.0.1") (print_dec 9090)
      (mkSeed true (str "10.0.0.1") (Some (print_dec 9191)) None) 7 8 demo_infos =
      Ok (h, c, add_node demo_infos, Some (d, (INADDR_ANY, 19191))) ∧
    ring h c l ∧ csize c = 2 ∧
    l.*2 ≡ₚ server_nodes 8 (str "10.0.0.1") (print_dec 9191) false
            ++ server_nodes 7 (str "127.0.0.1") (print_dec 19090) true ∧
    bus_event 0 (demo_one (mkTriedb ∅ ∅ hashtable_new vector_new hashtable_new 0)) d
      = Ok (sv', RAck (mkAck 240 0)) ∧ sv_info sv' = add_node demo_infos.
Proof.
  apply (start_cluster_joins (λ h, fresh (dom h)) (set_mode demo_conf CLUSTER) (str "127.0.0.1") 9090
    (mkSeed true (str "10.0.0.1") (Some (print_dec 9191)) None) 7 8 demo_infos 9191 0
    (demo_one (mkTriedb ∅ ∅ hashtable_new vector_new hashtable_new 0)) 7 7 7 7 (replicate 196 7)).
  - intros h. apply not_elem_of_dom, is_fresh.
  - reflexivity.
  - lia.
  - vm_compute. discriminate.
  - by repeat constructor.
  - reflexivity.
  - reflexivity.
  - lia.
  - vm_compute. discriminate.
  - by repeat constructor.
  - reflexivity.
Defined.
