(* ===== verification/Boot.v ===== *)
(** * start_server of src/server.c as a whole

    The set-up of the server, from the empty database to the first call of epoll_wait in
    [accept_loop]: the listening socket, the epoll instances with the timer and
    [conf->run], in cluster mode the socket of the bus and the ring, the datagram to a seed
    node, the instance of [accept_loop].  It leaves the state that System starts from.

    The system calls answer what the arguments say.  The threads of the pools are started
    before the bus is set up; nothing but the timer can be reported to them before
    [accept_loop] runs, and the timer finds no expiring keys. *)

From S2P Require Import Prelude Util Config Store Bst Vec Trie Pack Db Protocol Lists Hashtable.
From S2P Require Import Cluster Network Os Sockets Server Commands Worker Refine Loop Accept Events Batch.
From S2P Require Import System Reference Main Start.

(** ** Data *)

(** The numbers of new descriptors; that of the socket to a seed node is [None] when
    [socket] fails. *)
Record numbers := mkNumbers {
  n_io : Z;
  n_w : Z;
  n_timer : Z;
  n_acc : Z;
  n_sock : option Z
}.

(** A server that is ready: the loops, [struct epoll], the heap and the ring of the
    cluster, the datagram that was sent. *)
Record booted := mkBooted {
  b_loops : loops;
  b_epoll : epoll;
  b_heap : gmap Z (list_node cluster_node);
  b_cluster : cluster;
  b_datagram : option (list Z * (Z * Z))
}.

Inductive startup :=
| Aborted                (* [make_listen] calls abort() *)
| Exited                 (* exit(EXIT_FAILURE) *)
| Started (b : booted).

(** ** Operations *)

Definition set_start_time (i : informations) (now : Z) : informations :=
  mkInformations (nclients i) (nconnections i) (nnodes i) now (uptime i) (nrequests i)
    (bytes_recv i) (bytes_sent i) (nkeys i).

(** The end of the set-up: the time, and the head of [accept_loop].  The buffer is the one
    that [io_worker] allocates. *)
Definition start_accepting (junk now acc : Z) (conf : config) (s : triedb) (info : informations)
    (o : os) (ep : epoll) (h : gmap Z (list_node cluster_node)) (c : cluster)
    (d : option (list Z * (Z * Z))) : startup :=
  let o := accept_start junk (Config.run conf) (serverfd ep) acc o in
  let buffer := replicate (Z.to_nat (max_request_size conf)) junk in
  Started (mkBooted (mkLoops (mkServer s (set_start_time info now) conf ∅ ∅ buffer) ∅ o) ep h c d).

(** [dbptr] is the address of the default database; [lan] and [ban] are the answers to
    the calls for the listening socket and for the bus. *)
Definition start_server (malloc : gmap Z (list_node cluster_node) → Z) (conf : config)
    (addr port : list Z) (seed : seednode) (lan ban : answers) (ns : numbers) (junk now dbptr : Z)
    (info : informations) (o : os) : res startup :=
  let info := init_info info in
  s ← init_triedb dbptr;
  match make_listen lan o addr (socket_family conf) (tcp_backlog conf) with
  | None => mret Aborted
  | Some (o, sfd) =>
      let '(o, ep) := loops_setup junk (Config.run conf) sfd (n_io ns) (n_w ns) (n_timer ns) o in
      let '(o, ep) := if mode conf =? CLUSTER then start_bus ban junk addr o ep else (o, ep) in
      '(h, c, info) ← start_ring malloc conf addr port (busfd ep) info;
      if connect seed then
        match n_sock ns with
        | None => mret Exited
        | Some sockfd =>
            let o := os_socket o SOCK_DGRAM sockfd in
            '(h, c, d) ← start_seed malloc seed sockfd h c;
            mret (start_accepting junk now (n_acc ns) conf s info o ep h c (Some d))
        end
      else mret (start_accepting junk now (n_acc ns) conf s info o ep h c None)
  end.

(** ** The bus *)

Lemma os_set_absent o fd f : o_fds o !! fd = None → os_set o fd f = o.
Proof.
  intros H. unfold os_set. destruct o as [fds eps cs]. cbn in *. f_equal. apply map_eq. intros x.
  destruct (decide (x = fd)) as [->|Hne]; [by rewrite lookup_alter_eq, H|by rewrite lookup_alter_ne].
Qed.

Lemma stage_weaken o opened eps reg todo todo' :
  stage o opened eps reg todo → (∀ fd, fd ∈ todo' → fd ∈ todo) → stage o opened eps reg todo'.
Proof. intros [H1 H2 H3 H4 H5] Ht. split; auto. Qed.

(** The sockets that [getaddrinfo] and [socket] can give for the bus. *)
Definition bus_sockets (ban : answers) : list Z :=
  omap ai_socket (default [] (an_getaddrinfo ban)).

Definition with_bus (ep : epoll) (bus : Z) : epoll :=
  mkEpoll (io_epollfd ep) (w_epollfd ep) (serverfd ep) (expirefd ep) bus.

(** With an address that works there is a socket that is watched; without one the server
    goes on without a bus. *)
Lemma bus_stage ban junk addr o ep opened eps reg todo :
  stage o opened eps reg todo → io_epollfd ep ∈ eps →
  (∀ fd, fd ∈ bus_sockets ban → 0 < fd ∧ fd ∈ todo) → -1 ∈ todo →
  (∀ fd, fd ∈ todo → reg (io_epollfd ep) fd = None) →
  ∃ o' bus, start_bus ban junk addr o ep = (o', with_bus ep bus) ∧
    ((bus = -1 ∧ stage o' opened eps reg todo) ∨
     (bus ∈ bus_sockets ban ∧
      stage o' (bus :: opened) eps (add_reg reg (io_epollfd ep) bus (watching junk bus)) (filter (.≠ bus) todo))).
Proof.
  intros S Hio Hso Hm1 Hreg. pose proof (sg_todo _ _ _ _ _ S _ Hm1) as Habs.
  assert (∃ o1 bus, create_and_bind ban o addr UDP = (o1, bus) ∧
    ((bus = -1 ∧ o1 = o) ∨ (bus ∈ bus_sockets ban ∧ ∃ i, o1 = with_fd o bus i))) as (o1 & bus & Hcb & Hcase).
  { change (create_and_bind ban o addr UDP) with (create_and_bind_udp ban o).
    unfold create_and_bind_udp, bus_sockets in *. destruct (an_getaddrinfo ban) as [rps|]; [|by exists o, (-1); auto].
    cbn [default from_option id] in Hso |- *. rewrite bind_loop_spec.
    - destruct (list_find bindable rps) as [[i rp]|] eqn:E; [|by exists o, (-1); auto].
      apply list_find_Some in E as (Hi & [[fd Hs] _] & _). rewrite Hs. cbn. eexists _, fd. split; [done|].
      right. split; [|by eexists]. apply list_elem_of_omap. exists rp. split; [by eapply list_elem_of_lookup_2|done].
    - apply S.
    - apply Forall_forall. intros rp Hin fd Hs. destruct (Hso fd) as [H1 H2].
      { apply list_elem_of_omap. by exists rp. }
      split; [lia|by apply (sg_todo _ _ _ _ _ S)]. }
  unfold start_bus. rewrite Hcb. destruct Hcase as [[-> ->]|(Hb & i & ->)].
  - assert ((set_nonblocking ban o (-1)).1 = o) as Hnb.
    { unfold set_nonblocking. destruct (an_getfl ban), (an_setfl ban); try done. by apply os_set_absent. }
    destruct (set_nonblocking ban o (-1)) as [o2 rc]. cbn in Hnb. subst o2.
    eexists _, (-1). split; [reflexivity|]. left. split; [done|]. cbn.
    unfold epoll_add, epoll_ctl. destruct (sg_eps _ _ _ _ _ S _ Hio) as [regs ->].
    rewrite decide_False; [done|]. rewrite Habs. by intros [].
  - destruct (Hso bus Hb) as [Hpos Hin].
    assert (∃ i', (set_nonblocking ban (with_fd o bus i) bus).1 = with_fd o bus i') as [i' Hnb].
    { unfold set_nonblocking. destruct (an_getfl ban), (an_setfl ban); try (by exists i).
      exists (nonblocking i). cbn. by rewrite os_set_with. }
    destruct (set_nonblocking ban (with_fd o bus i) bus) as [o2 rc]. cbn in Hnb. subst o2.
    eexists _, bus. split; [reflexivity|]. right. split; [done|]. cbn.
    apply (stage_with _ _ _ _ _ bus i') in S as S1; [|done].
    apply (stage_add _ _ _ _ _ junk (io_epollfd ep) bus EPOLLIN) in S1; [done|done|by left|by apply Hreg].
Qed.

(** ** The server is ready *)

(** What is taken for granted of the surroundings: the configuration, the names of the
    nodes, and that new descriptors are not in use. *)
Record start_ok (malloc : gmap Z (list_node cluster_node) → Z) (conf : config) (addr port : list Z)
    (seed : seednode) (lan ban : answers) (ns : numbers) (o : os) (sfd : Z) : Prop := {
  st_malloc h : h !! malloc h = None;
  st_wf : os_wf o;
  st_request : 129 <= max_request_size conf;
  st_run : is_Some (o_fds o !! Config.run conf) ∧ 0 <= Config.run conf < 2 ^ 31;
  st_listen : ∃ i, make_listen lan o addr (socket_family conf) (tcp_backlog conf) = Some (with_fd o sfd i, sfd);
  st_sfd : o_fds o !! sfd = None ∧ 0 <= sfd < 2 ^ 31;
  st_timer : 0 <= n_timer ns < 2 ^ 31;
  st_new : NoDup [n_io ns; n_w ns; n_timer ns; n_acc ns];
  st_fresh fd : fd ∈ [n_io ns; n_w ns; n_timer ns; n_acc ns] → o_fds o !! fd = None ∧ 0 <= fd ∧ fd ≠ sfd;
  st_bus fd : fd ∈ bus_sockets ban →
    0 < fd < 2 ^ 31 ∧ o_fds o !! fd = None ∧ fd ≠ sfd ∧ fd ∉ [n_io ns; n_w ns; n_timer ns; n_acc ns];
  st_minus : o_fds o !! (-1) = None;
  st_port : ∃ n, port = print_dec n ∧ node_ok addr n ∧ n <= 65535;
  st_seed : connect seed = true →
    (∃ k, seed_port seed = Some (print_dec k) ∧ node_ok (seed_addr seed) k ∧ k <= 55535) ∧
    ∃ fd, n_sock ns = Some fd ∧ 0 <= fd ∧ o_fds o !! fd = None ∧ fd ≠ sfd ∧
      fd ∉ [n_io ns; n_w ns; n_timer ns; n_acc ns] ∧ fd ∉ bus_sockets ban
}.

Arguments st_malloc {_ _ _ _ _ _ _ _ _ _} _.
Arguments st_wf {_ _ _ _ _ _ _ _ _ _} _.
Arguments st_request {_ _ _ _ _ _ _ _ _ _} _.
Arguments st_run {_ _ _ _ _ _ _ _ _ _} _.
Arguments st_listen {_ _ _ _ _ _ _ _ _ _} _.
Arguments st_sfd {_ _ _ _ _ _ _ _ _ _} _.
Arguments st_timer {_ _ _ _ _ _ _ _ _ _} _.
Arguments st_new {_ _ _ _ _ _ _ _ _ _} _.
Arguments st_fresh {_ _ _ _ _ _ _ _ _ _} _.
Arguments st_bus {_ _ _ _ _ _ _ _ _ _} _.
Arguments st_minus {_ _ _ _ _ _ _ _ _ _} _.
Arguments st_port {_ _ _ _ _ _ _ _ _ _} _.
Arguments st_seed {_ _ _ _ _ _ _ _ _ _} _.

Section Ready.
Context (malloc : gmap Z (list_node cluster_node) → Z) (conf : config) (addr port : list Z)
  (seed : seednode) (lan ban : answers) (ns : numbers) (o : os) (sfd : Z)
  (A : start_ok malloc conf addr port seed lan ban ns o sfd) (junk : Z) (i : fdinfo).
Local Abbreviation runfd := (Config.run conf).
Local Abbreviation new := [n_io ns; n_w ns; n_timer ns; n_acc ns].

(** The numbers that are given out after the three of [loops_setup]. *)
Definition later : list Z := n_acc ns :: -1 :: bus_sockets ban ++ option_list (if connect seed then n_sock ns else None).

Lemma run_not_sfd : runfd ≠ sfd.
Proof. intros E. destruct (st_run A) as [[x Hx] _], (st_sfd A) as [H _]. congruence. Qed.

Lemma later_fresh fd : fd ∈ later → o_fds (with_fd o sfd i) !! fd = None ∧ fd ∉ [n_io ns; n_w ns; n_timer ns].
Proof.
  intros Hin. assert (o_fds o !! fd = None ∧ fd ≠ sfd ∧ fd ∉ [n_io ns; n_w ns; n_timer ns]) as (H1 & H2 & H3).
  { unfold later in Hin. rewrite !elem_of_cons, elem_of_app in Hin. destruct Hin as [->|[->|[Hin|Hin]]].
    - destruct (st_fresh A (n_acc ns)) as (H1 & _ & H2); [set_solver|]. split_and!; [done|done|].
      pose proof (st_new A) as Hnd. apply (NoDup_app [n_io ns; n_w ns; n_timer ns] [n_acc ns]) in Hnd.
      destruct Hnd as (_ & Hd & _). intros Hi. apply (Hd _ Hi). by left.
    - split_and!; [apply (st_minus A)|pose proof (st_sfd A); lia|]. intros Hi.
      destruct (st_fresh A (-1)) as (_ & ? & _); [set_solver|lia].
    - destruct (st_bus A fd Hin) as (_ & H1 & H2 & H3). split_and!; [done|done|set_solver].
    - destruct (connect seed) eqn:Ec; [|by apply elem_of_nil in Hin].
      destruct (st_seed A Ec) as (_ & x & Hx & _ & H1 & H2 & H3 & _). rewrite Hx in Hin.
      apply list_elem_of_singleton in Hin as ->. split_and!; [done|done|set_solver]. }
  split; [|done]. cbn. by rewrite lookup_insert_ne by auto.
Qed.
(** The instances of both pools are set up, with or without a bus. *)
Record pools_ready (o' : os) (bus : Z) (opened : list Z) (reg : Z → Z → option epoll_event) (todo : list Z)
  : Prop := {
  pr_stage : stage o' opened [n_w ns; n_io ns] reg todo;
  pr_opened fd : fd ∈ [n_timer ns; n_w ns; n_io ns; runfd; sfd] → fd ∈ opened;
  pr_bus : bus = -1 ∨ 0 < bus < 2 ^ 31 ∧ bus ∈ opened ∧ bus ≠ runfd;
  pr_acc : n_acc ns ∈ todo;
  pr_sock fd : connect seed = true → n_sock ns = Some fd → fd ∈ todo;
  pr_io fd r : reg (n_io ns) fd = Some r → (fd = runfd ∨ fd = bus ∧ 0 < bus) ∧ r = watching junk fd;
  pr_w fd r : reg (n_w ns) fd = Some r →
    (fd = runfd ∧ r = watching junk runfd) ∨
    (fd = n_timer ns ∧ r = mkEpollEvent (Z.lor EPOLLIN ALWAYS) (fd_data junk (n_timer ns)));
  pr_none fd : reg (n_acc ns) fd = None;
  pr_fixed io fd : fixture (mkEpoll (n_io ns) (n_w ns) sfd (n_timer ns) bus) runfd io fd →
    ∃ w, reg (if io then n_io ns else n_w ns) fd = Some w ∧ watched w
}.

Local Abbreviation ep0 := (mkEpoll (n_io ns) (n_w ns) sfd (n_timer ns) (-1)).

Lemma new_distinct :
  n_io ns ≠ n_w ns ∧ n_io ns ≠ n_acc ns ∧ n_w ns ≠ n_acc ns ∧ runfd ≠ n_timer ns ∧ NoDup [n_io ns; n_w ns; n_timer ns].
Proof.
  pose proof (st_new A) as Hnd. assert (NoDup [n_io ns; n_w ns; n_timer ns]) as Hnd3.
  { by apply (NoDup_app [n_io ns; n_w ns; n_timer ns] [n_acc ns]). }
  rewrite !NoDup_cons, !not_elem_of_cons in Hnd. destruct Hnd as ((N3 & _ & N1 & _) & (_ & N2 & _) & _).
  split_and!; try done. intros E. destruct (st_run A) as [[x Hx] _].
  destruct (st_fresh A (n_timer ns)) as (H & _); [by do 2 right; left|]. congruence.
Qed.

Lemma setup_pools :
  ∃ o' reg, loops_setup junk runfd sfd (n_io ns) (n_w ns) (n_timer ns) (with_fd o sfd i) = (o', ep0) ∧
    pools_ready o' (-1) [n_timer ns; n_w ns; n_io ns; runfd; sfd] reg later ∧
    ∀ fd, fd ∈ later → reg (n_io ns) fd = None.
Proof.
  destruct new_distinct as (N1 & N2 & N3 & N4 & Hnd3). destruct (st_run A) as [Hrun Hr31].
  assert (∀ fd, fd ∈ [n_io ns; n_w ns; n_timer ns] → fd ∉ later) as Hdisj.
  { intros fd Hin Hl. by destruct (later_fresh fd Hl). }
  assert (is_Some (o_fds (with_fd o sfd i) !! runfd)) as Hrun1 by (by apply insert_keeps).
  destruct (stage_begin (with_fd o sfd i) runfd sfd (n_io ns :: n_w ns :: n_timer ns :: later)) as [S0 Hun].
  { apply os_wf_with, A. }
  { done. }
  { cbn. rewrite lookup_insert_eq. by eexists. }
  { intros fd Hin. rewrite !elem_of_cons in Hin.
    assert (fd ∈ [n_io ns; n_w ns; n_timer ns] ∨ fd ∈ later) as [Hn|Hl] by (rewrite !elem_of_cons; tauto).
    - destruct (st_fresh A fd) as (H1 & _ & H2); [rewrite !elem_of_cons in *; tauto|].
      cbn. by rewrite lookup_insert_ne by auto.
    - by apply later_fresh. }
  destruct (setup_stage junk runfd sfd _ _ (n_io ns) (n_w ns) (n_timer ns) later S0 Hnd3) as (o' & E & S1);
    [apply Hdisj; by left|apply Hdisj; by right; left|apply Hdisj; by do 2 right; left
    |intros; apply Hun; by left|intros; apply Hun; by right; left|].
  assert (∀ fd r, setup_reg junk runfd (registered (with_fd o sfd i)) (n_io ns) (n_w ns) (n_timer ns) (n_io ns) fd = Some r →
    fd = runfd ∧ r = watching junk runfd) as Hio.
  { intros fd r H. refine (setup_reg_io junk runfd _ _ _ _ fd r N1 _ H). apply Hun. by left. }
  eexists o', _. split; [done|]. split; [split|].
  - exact S1.
  - done.
  - by left.
  - by left.
  - intros fd Hc Hs. unfold later. rewrite Hc, Hs. right. right. apply elem_of_app. right. by left.
  - intros fd r [-> ->]%Hio. split; [by left|done].
  - intros fd r H. refine (setup_reg_w junk runfd _ _ _ _ fd r N1 _ H). apply Hun. by right; left.
  - intros fd. unfold setup_reg, add_reg. do 3 other. apply Hun. do 3 right. by left.
  - intros io fd Hf. unfold setup_reg, add_reg. destruct Hf as [->|Hf].
    + exists (watching junk runfd). split; [|by left]. destruct io; [other|]; by rewrite decide_True.
    + destruct io; [by apply elem_of_nil in Hf|]. cbn in Hf. subst fd.
      exists (mkEpollEvent (Z.lor EPOLLIN ALWAYS) (fd_data junk (n_timer ns))). split; [|by right].
      do 2 other. by rewrite decide_True.
  - intros fd Hl. destruct (setup_reg _ _ _ _ _ _ _ _) as [r|] eqn:Er; [|done].
    apply Hio in Er as [-> _]. destruct (later_fresh _ Hl) as [Hn _]. by destruct Hrun1 as [? Hx]; congruence.
Qed.

Lemma bus_pools :
  ∃ o' bus opened reg todo,
    (let '(o1, ep) := loops_setup junk runfd sfd (n_io ns) (n_w ns) (n_timer ns) (with_fd o sfd i) in
     if mode conf =? CLUSTER then start_bus ban junk addr o1 ep else (o1, ep)) = (o', with_bus ep0 bus) ∧
    pools_ready o' bus opened reg todo.
Proof.
  destruct setup_pools as (o1 & reg & -> & P & Hnone). destruct (st_run A) as [Hrun _].
  destruct (mode conf =? CLUSTER); [|by eexists o1, (-1), _, reg, later].
  destruct (bus_stage ban junk addr o1 ep0 _ _ reg later (pr_stage _ _ _ _ _ P)) as (o' & bus & -> & Hcase).
  - by right; left.
  - intros fd Hin. split; [apply (st_bus A fd Hin)|]. right. right. apply elem_of_app. by left.
  - by right; left.
  - exact Hnone.
  - destruct Hcase as [[-> S1]|[Hin S1]]; [eexists o', (-1), _, reg, later|eexists o', bus, _, _, _].
    + split; [done|]. destruct P. by split.
    + destruct (st_bus A bus Hin) as (Hr & Hfr & _ & Hnew). split; [done|].
      destruct new_distinct as (N1 & N2 & N3 & _). destruct P as [_ P2 _ P4 P5 P6 P7 P8 P9]. split.
      * exact S1.
      * intros fd Hfd. right. by apply P2.
      * right. split_and!; [lia|lia|by left|]. intros ->. destruct Hrun as [x Hx]. congruence.
      * apply list_elem_of_filter. split; [|done]. intros E. apply Hnew. rewrite E. by do 3 right; left.
      * intros fd Hc Hs. apply list_elem_of_filter. split; [|by apply P5].
        intros ->. destruct (st_seed A Hc) as (_ & x & Hx & _ & _ & _ & _ & Hn). rewrite Hs in Hx. injection Hx as <-. done.
      * intros fd r. unfold add_reg. cbn [io_epollfd]. case_decide as Hd.
        -- destruct Hd as [_ ->]. intros [= <-]. split; [right; split; [done|lia]|done].
        -- intros H. destruct (P6 fd r H) as [[->|[-> ?]] ->]; [split; [by left|done]|lia].
      * intros fd r. unfold add_reg. cbn [io_epollfd]. other. apply P7.
      * intros fd. unfold add_reg. cbn [io_epollfd]. other. apply P8.
      * intros io fd Hf. unfold add_reg. cbn [io_epollfd]. destruct io.
        -- case_decide as Hd; [exists (watching junk bus); split; [done|by left]|]. apply (P9 true). destruct Hf as [->|Hf]; [by left|].
           exfalso. apply Hd. unfold bus_fds in Hf. cbn in Hf.
           rewrite (proj2 (Z.ltb_lt _ _)) in Hf by lia. by apply list_elem_of_singleton in Hf.
        -- other. apply (P9 false). destruct Hf; [by left|by right].
Qed.
(** The socket to a seed node. *)
Lemma sock_stage o' bus opened reg todo o'' :
  pools_ready o' bus opened reg todo →
  (o'' = o' ∨ ∃ fd, connect seed = true ∧ n_sock ns = Some fd ∧ o'' = os_socket o' SOCK_DGRAM fd) →
  ∃ opened', stage o'' opened' [n_w ns; n_io ns] reg [n_acc ns] ∧ ∀ fd, fd ∈ opened → fd ∈ opened'.
Proof.
  intros P [->|(fd & Hc & Hs & ->)].
  - exists opened. split; [|done]. eapply stage_weaken; [apply (pr_stage _ _ _ _ _ P)|].
    intros x ->%list_elem_of_singleton. apply P.
  - exists (fd :: opened). split; [|intros x Hx; by right].
    eapply stage_weaken;
      [exact (stage_with _ _ _ _ _ fd (new_socket SOCK_DGRAM) (pr_stage _ _ _ _ _ P) (pr_sock _ _ _ _ _ P fd Hc Hs))|].
    intros x ->%list_elem_of_singleton. apply list_elem_of_filter. split; [|apply P].
    intros E. destruct (st_seed A Hc) as (_ & y & Hy & _ & _ & _ & Hn & _). rewrite Hs in Hy. injection Hy as <-.
    apply Hn. rewrite <-E. by do 3 right; left.
Qed.

Lemma accepting_ok o' bus opened reg todo o'' s info buffer :
  pools_ready o' bus opened reg todo →
  (o'' = o' ∨ ∃ fd, connect seed = true ∧ n_sock ns = Some fd ∧ o'' = os_socket o' SOCK_DGRAM fd) →
  let sv := mkServer s info conf ∅ ∅ buffer in
  let lp := mkLoops sv ∅ (accept_start junk runfd sfd (n_acc ns) o'') in
  sys_ok (with_bus ep0 bus) (n_acc ns) lp [] sv ∧ listens (with_bus ep0 bus) (n_acc ns) true (lp_os lp) ∧
  ∀ io fd, fixture (with_bus ep0 bus) runfd io fd →
    ∃ w, registered (lp_os lp) (instance_fd (with_bus ep0 bus) io) fd = Some w ∧ watched w.
Proof.
  intros P Ho sv lp. destruct (sock_stage _ _ _ _ _ _ P Ho) as (opened' & S0 & Hsub).
  destruct new_distinct as (N1 & N2 & N3 & N4 & _). destruct (st_run A) as [_ Hr31].
  pose proof (st_sfd A) as [_ Hs31]. pose proof (st_timer A) as Ht31.
  assert (∀ fd, fd ∈ [n_timer ns; n_w ns; n_io ns; runfd; sfd] → fd ∈ opened') as Hop.
  { intros fd Hfd. apply Hsub. by apply P. }
  apply (accept_stage junk runfd sfd) in S0 as S1;
    [|apply not_elem_of_nil|apply Hop; by do 3 right; left|apply Hop; by do 4 right; left|apply run_not_sfd|apply P].
  assert (bus_fds (with_bus ep0 bus) = [] ∨ bus_fds (with_bus ep0 bus) = [bus] ∧ 0 < bus ∧ bus ∈ opened' ∧
    bus < 2 ^ 31 ∧ bus ≠ runfd) as Hbus.
  { unfold bus_fds. cbn. destruct (pr_bus _ _ _ _ _ P) as [->|(H1 & H2 & H3)]; [by left|].
    right. rewrite (proj2 (Z.ltb_lt _ _)) by lia. split_and!; [done|lia|by apply Hsub|lia|done]. }
  split_and!; [split; cbn [io_epollfd w_epollfd serverfd with_bus]; [|done|done|done|apply not_eq_sym, run_not_sfd]|..].
  - apply nothing_batched. change lp with (mkLoops (erase sv) ∅ (accept_start junk runfd sfd (n_acc ns) o'')).
    eapply (stage_refines _ _ _ _ _ _ _ S1); cbn [io_epollfd w_epollfd expirefd with_bus sv_conf sv];
      [done|done|by do 2 right; left|by right; left|done|done| | | |].
    + destruct Hbus as [->|(-> & _ & _ & _ & Hne)]; [apply not_elem_of_nil|intros E%list_elem_of_singleton; congruence].
    + intros fd Hin. right. unfold reserved in Hin. cbn in Hin. rewrite !elem_of_cons in Hin.
      destruct Hin as [->|[->|[->|[->|Hin]]]]; try (apply Hop; rewrite !elem_of_cons; tauto).
      destruct Hbus as [E|(E & _ & Hb & _)]; rewrite E in Hin; [by apply elem_of_nil in Hin|].
      by apply list_elem_of_singleton in Hin as ->.
    + intros fd r. unfold add_reg. do 2 other. intros [[->|[-> Hpos]] ->]%(pr_io _ _ _ _ _ P).
      * split; [by left|by apply watching_ok].
      * destruct Hbus as [E|(E & _ & _ & Hb & _)]; [|rewrite E; split; [by right; left|by apply watching_ok; lia]].
        unfold bus_fds in E. cbn in E. by rewrite (proj2 (Z.ltb_lt _ _)) in E by done.
    + intros fd r. unfold add_reg. do 2 other. intros [[-> ->]|[-> ->]]%(pr_w _ _ _ _ _ P).
      * split; [by left|by apply watching_ok].
      * split; [by right|]. split; [apply data_fd_data; lia|by right].
  - eexists. split; [|apply (data_fd_data junk); cbn; lia].
    cbn [lp_os lp serverfd with_bus]. rewrite (sg_reg _ _ _ _ _ S1). unfold add_reg.
    rewrite decide_False by (intros [_ ?]; by apply run_not_sfd). by rewrite decide_True.
  - intros io fd Hf. cbn [lp_os lp]. rewrite (sg_reg _ _ _ _ _ S1). unfold add_reg.
    destruct (pr_fixed _ _ _ _ _ P io fd Hf) as (w & Hw & Hww). exists w. split; [|done].
    destruct io; cbn [instance_fd io_epollfd w_epollfd with_bus]; do 2 other; exact Hw.
Qed.
End Ready.

(** The state that the set-up leaves: System may start, with an empty map. *)
Lemma start_server_ready malloc conf addr port seed lan ban ns o sfd junk now dbptr info :
  start_ok malloc conf addr port seed lan ban ns o sfd →
  ∃ b sv, start_server malloc conf addr port seed lan ban ns junk now dbptr info o = Ok (Started b) ∧
    related (b_epoll b) (n_acc ns) dbptr (b_loops b) [] sv r_start ∧ sv_conf sv = conf.
Proof.
  intros A. destruct (init_triedb_spec dbptr) as (s & Hs & Hd & _ & _ & He & Hg & Hk).
  destruct (st_listen A) as [i Hl]. destruct (st_port A) as (n & -> & Hn & Hn').
  unfold start_server. rewrite Hs, res_bind_Ok_l, Hl.
  destruct (bus_pools malloc conf addr _ seed lan ban ns o sfd A junk i) as (o' & bus & opened & reg & todo & Hb & P).
  destruct (loops_setup _ _ _ _ _ _ _) as [o1 ep1]. rewrite Hb.
  destruct (start_ring_ok malloc (st_malloc A) conf addr n bus (init_info info) Hn Hn')
    as (h & c & l & info' & Hring & Hr & Hsz & Hrep & Hlen).
  change (busfd (with_bus _ bus)) with bus. rewrite Hring, res_bind_Ok_l.
  assert (∀ o'' d h' c', (o'' = o' ∨ ∃ fd, connect seed = true ∧ n_sock ns = Some fd ∧ o'' = os_socket o' SOCK_DGRAM fd) →
    ∃ b sv, start_accepting junk now (n_acc ns) conf s info' o''
        (with_bus (mkEpoll (n_io ns) (n_w ns) sfd (n_timer ns) (-1)) bus) h' c' d = Started b ∧
      related (b_epoll b) (n_acc ns) dbptr (b_loops b) [] sv r_start ∧ sv_conf sv = conf) as Hfin.
  { intros o'' d h' c' Ho. eexists _, (mkServer s (set_start_time info' now) conf ∅ ∅ _).
    split; [reflexivity|]. cbn [b_epoll b_loops].
    destruct (accepting_ok malloc conf addr _ seed lan ban ns o sfd A junk o' bus opened reg todo o'' s
      (set_start_time info' now) (replicate (Z.to_nat (max_request_size conf)) junk) P Ho) as (HS & Hlis & Hfix).
    split; [|done]. split; [exact HS| |done| | |exact Hlis|exact Hfix|by intros ? ?|by intros ? ?].
    - pose proof (st_request A) as Hreq. split; cbn [sv_triedb s_map s_count s_phases phases conns sv_buffer sv_conf].
      + split_and!; [|apply map_Forall_empty|by rewrite Hk]. rewrite Hd.
        eexists. split; [apply lookup_singleton_eq|apply database_init_repr].
      + by rewrite He.
      + apply map_Forall2_empty.
      + intros p [? Hp]. by rewrite lookup_empty in Hp.
      + intros p [? Hp]. by rewrite lookup_empty in Hp.
      + exact Hg.
      + rewrite length_replicate. lia.
      + lia.
    - intros fd p. split; [done|]. by intros (? & ? & _).
    - intros fd p. split; [done|]. by intros (? & ? & ? & ? & _). }
  clear Hs Hd He Hg Hk. destruct (connect seed) eqn:Ec.
  - destruct (st_seed A Ec) as ((k & Hk1 & Hk2 & Hk3) & fd & Hfd & _). rewrite Hfd.
    destruct (start_seed_ok malloc (st_malloc A) seed k fd h c l Hk1 Hk2 Hk3 Hr Hsz Hrep Hlen) as (h' & c' & l' & -> & _).
    rewrite res_bind_Ok_l.
    destruct (Hfin (os_socket o' SOCK_DGRAM fd) (Some ([240; 1; 0], (INADDR_ANY, k + 10000))) h' c') as (b & sv & -> & H); [right; by exists fd|].
    exists b, sv. split; [reflexivity|exact H].
  - destruct (Hfin o' None h c) as (b & sv & -> & H); [by left|].
    exists b, sv. split; [reflexivity|exact H].
Qed.

(** C1 The server as a whole, from the call of start_server on, standalone or in a cluster:
    it gets ready, and from then on it is the reference machine (rrun): for every sequence of
    what can happen outside, in whatever order connections arrive, descriptors are ready,
    epoll_wait returns events in batches and the threads of the two pools dispatch them (one
    event is one step), it puts the same bytes on the same connections in the same order
    as that machine, which is a function of what happens: it has a finite map, one request or
    reply at a time for each connection, and a reply for each request that is read, handled
    and written.  It faults just where the machine does (a GET whose reply has a body of 128
    bytes or more).  What can happen: requests are whole packets of PUT, on a key or a
    prefix, GET and DEL, with bodies of up to 127 bytes and keys of at least five characters
    for GET and DEL, in any pieces, with nothing after them until the reply is written; a
    socket accepts any number of bytes of a reply before it would block, and the rest is
    dropped; the clock is arbitrary, also between the two readings of a GET; datagrams on the
    bus are those of nodes that join.  Left out are disconnects, errors and hang-ups, and a
    table of clients that does not take a connection; new descriptors and new memory are not
    in use, the system calls of the set-up succeed, and max_request_size is at least 129
    (start_ok). *)
Theorem server_correct malloc conf addr port seed lan ban ns o sfd junk now dbptr info :
  start_ok malloc conf addr port seed lan ban ns o sfd →
  ∃ b, start_server malloc conf addr port seed lan ban ns junk now dbptr info o = Ok (Started b) ∧
    ∀ xs hs, Forall2 occurs xs hs → fair_system (b_epoll b) (n_acc ns) (b_loops b) [] xs →
    match rrun (b_epoll b) (Config.run conf) r_start hs with
    | Ok (_, outs) => ∃ lp' ts', run_system (b_epoll b) (n_acc ns) (b_loops b) [] xs = Ok (lp', ts', outs)
    | Err f => run_system (b_epoll b) (n_acc ns) (b_loops b) [] xs = Err f
    end.
Proof.
  intros A. destruct (start_server_ready _ _ _ _ _ _ _ _ _ _ junk now dbptr info A) as (b & sv & Hb & L & <-).
  exists b. split; [done|]. intros xs hs Ho Hf. by eapply system_refines_reference.
Qed.

(** *** A node of a cluster with two connections *)

Definition boot_conf : config :=
  mkConfig (str "0.6.11") CLUSTER 3 2 (-1) INET (str "/tmp/triedb.log") (str "127.0.0.1") (str "9090")
    (2 ^ 32) 86400 256 128.
Definition boot_os : os := mkOs {[3 := new_fd]} ∅ {[3 := 0]}.
Definition boot_seed : seednode := mkSeed true (str "10.0.0.1") (Some (print_dec 9191)) None.
Definition boot_answers (fd : Z) : answers :=
  mkAnswers (Some [mkAi (str "127.0.0.1") (Some fd) true true]) None false true true true.
Definition boot_numbers : numbers := mkNumbers 10 11 12 13 (Some 15).
Definition boot : res startup :=
  start_server (λ h, fresh (dom h)) boot_conf (str "127.0.0.1") (print_dec 9090) boot_seed
    (boot_answers 4) (boot_answers 14) boot_numbers 0 1500 16 demo_infos boot_os.

Definition boot_le (r : request) (event efd : Z) : loop_env :=
  mkLoopEnv 100 0 [Data (request_packet r); Again] [Network.Accept 200; WAgain] event efd
    (mkEnv 100 100 64 0 [] 1) [240; 1; 0].
Definition boot_put : request := NPut (str "hello") (str "42") (-1).
Definition boot_get : request := NGet (str "hello").

(** Both requests are read from one batch, the handlers run while a datagram is there, and
    the replies go out in the other order. *)
Definition boot_run : list occurrence :=
  [Arrive EPOLLIN [mkArriving 20 (boot_answers 0) (str "u") 100 1024 1 0;
                   mkArriving 22 (boot_answers 0) (str "v") 100 1040 1 0];
   Pools (Take true 20 EPOLLIN); Pools (Take true 22 EPOLLIN);
   Pools (Dispatch 0 (boot_le boot_put 2048 21)); Pools (Dispatch 0 (boot_le boot_get 4096 23));
   Pools (Take false 21 EPOLLIN); Pools (Take false 23 EPOLLIN); Pools (Take true 14 EPOLLIN);
   Pools (Dispatch 0 (boot_le boot_put 8192 99)); Pools (Dispatch 0 (boot_le boot_put 8192 99));
   Pools (Dispatch 0 (boot_le boot_put 8192 99));
   Pools (Take true 22 EPOLLOUT); Pools (Take true 20 EPOLLOUT);
   Pools (Dispatch 0 (boot_le boot_put 8192 99)); Pools (Dispatch 0 (boot_le boot_put 8192 99))].

Definition boot_chosen (r : request) (efd : Z) : chosen := mkChosen r efd 100 100 64 200.

Definition boot_happens : list happening :=
  [HArrive EPOLLIN [(20, 1024); (22, 1040)];
   HTake true 20 EPOLLIN; HTake true 22 EPOLLIN;
   HDispatch 0 (boot_chosen boot_put 21); HDispatch 0 (boot_chosen boot_get 23);
   HTake false 21 EPOLLIN; HTake false 23 EPOLLIN; HTake true 14 EPOLLIN;
   HDispatch 0 (boot_chosen boot_put 99); HDispatch 0 (boot_chosen boot_put 99);
   HDispatch 0 (boot_chosen boot_put 99);
   HTake true 22 EPOLLOUT; HTake true 20 EPOLLOUT;
   HDispatch 0 (boot_chosen boot_put 99); HDispatch 0 (boot_chosen boot_put 99)].

Definition boot_outs : list (Z * list Z) :=
  [(1040, packet 32 (items_bytes (single_items (mkTuple (-1) 5 (str "hello") (str "42"))))); (1024, ack_ok)].

Lemma boot_chosen_by r event efd :
  r = boot_put ∨ r = boot_get → chosen_by (boot_le r event efd) (boot_chosen r efd).
Proof.
  intros Hr. split.
  - destruct Hr as [->| ->]; apply (bool_decide_unpack _); vm_compute; exact I.
  - exists []. eexists [_]. split_and!; cycle 2; [reflexivity| |cbn; by rewrite app_nil_r].
    destruct Hr as [->| ->]; repeat (constructor; [discriminate|]); constructor.
  - reflexivity.
  - reflexivity.
  - reflexivity.
  - reflexivity.
  - exists [200%nat], []. split; reflexivity.
  - exists 240, 0. split; [reflexivity|]. split; [by split|by vm_compute].
Qed.

Lemma boot_occurs : Forall2 occurs boot_run boot_happens.
Proof.
  repeat (apply Forall2_cons; split); try apply Forall2_nil; cbn [occurs]; try (split_and!; reflexivity);
    try exact I; (split; [reflexivity|apply boot_chosen_by; first [left; reflexivity|right; reflexivity]]).
Qed.

Lemma boot_ok :
  start_ok (λ h, fresh (dom h)) boot_conf (str "127.0.0.1") (print_dec 9090) boot_seed
    (boot_answers 4) (boot_answers 14) boot_numbers boot_os 4.
Proof.
  split.
  - intros h. apply not_elem_of_dom, is_fresh.
  - split; cbn.
    + intros efd regs H. by rewrite lookup_empty in H.
    + intros efd fd r H. unfold registered in H. cbn in H. by rewrite lookup_empty in H.
    + intros fd n H. apply lookup_singleton_Some in H as [<- _]. rewrite lookup_singleton_eq. by eexists.
  - by vm_compute.
  - split; [by eexists|by vm_compute].
  - eexists. vm_compute. reflexivity.
  - split; [reflexivity|by vm_compute].
  - by vm_compute.
  - apply (bool_decide_unpack _). vm_compute. exact I.
  - intros fd Hin. rewrite !elem_of_cons in Hin.
    destruct Hin as [->|[->|[->|[->|Hin]]]]; [split_and!; [reflexivity|vm_compute; discriminate|discriminate]..|].
    by apply elem_of_nil in Hin.
  - intros fd Hin. apply list_elem_of_singleton in Hin as ->. apply (bool_decide_unpack _). vm_compute. exact I.
  - reflexivity.
  - exists 9090. split; [reflexivity|]. split; [|lia]. split_and!; [vm_compute; discriminate|by repeat constructor|lia].
  - intros _. split.
    + exists 9191. split; [reflexivity|]. split; [|lia].
      split_and!; [vm_compute; discriminate|by repeat constructor|lia].
    + exists 15. split; [reflexivity|]. apply (bool_decide_unpack _). vm_compute. exact I.
Qed.

(** What is computed for the server that [boot] starts. *)
Definition on_boot (P : booted → Prop) : Prop :=
  match boot with Ok (Started b) => P b | _ => False end.

Lemma on_boot_ok (P : booted → Prop) b : on_boot P → boot = Ok (Started b) → P b.
Proof. unfold on_boot. intros H Hb. by rewrite Hb in H. Qed.

Lemma boot_fair : on_boot (λ b, fair_run (b_epoll b) 13 (b_loops b) [] boot_run = true).
Proof. vm_compute. reflexivity. Qed.

Lemma boot_result :
  on_boot (λ b, snd <$> (match run_system (b_epoll b) 13 (b_loops b) [] boot_run with
    Ok x => Some x | Err _ => None end) = Some boot_outs).
Proof. vm_compute. reflexivity. Qed.

Lemma server_correct_witness :
  ∃ b R lp ts, boot = Ok (Started b) ∧
    rrun (b_epoll b) 3 r_start boot_happens = Ok (R, boot_outs) ∧
    run_system (b_epoll b) 13 (b_loops b) [] boot_run = Ok (lp, ts, boot_outs).
Proof.
  destruct (server_correct _ _ _ _ _ _ _ _ _ _ 0 1500 16 demo_infos boot_ok) as (b & Hb & H).
  change (boot = Ok (Started b)) in Hb.
  pose proof (on_boot_ok _ b boot_fair Hb) as Hf. cbv beta in Hf. apply fair_run_ok in Hf.
  specialize (H boot_run boot_happens boot_occurs Hf). clear Hf.
  pose proof (on_boot_ok _ b boot_result Hb) as Ho. cbv beta in Ho.
  change (n_acc boot_numbers) with 13 in H. change (Config.run boot_conf) with 3 in H.
  destruct (run_system (b_epoll b) 13 (b_loops b) [] boot_run) as [[[lp ts] outs]|] eqn:E; [|discriminate Ho].
  injection Ho as ->. exists b.
  destruct (rrun (b_epoll b) 3 r_start boot_happens) as [[R outs]|]; [|discriminate H].
  destruct H as (lp' & ts' & H). injection H as <- <- <-. exists R, lp, ts.
  split_and!; [exact Hb|reflexivity|exact E].
Defined.
